(* ===== verification/_CoqProject ===== *)
-Q . S2P
Prelude.v
Base.v
Layout.v
Ends.v
Socket.v
Config.v
Response.v
Queue.v
QueueSys.v
QueueFs.v
Request.v
RequestData.v
Connection.v
ConnectionEnds.v
ConnectionSafe.v
Worker.v
WorkerEnds.v
Server.v
Main.v
Canon.v
Base64.v
Dkim.v
Pem.v
DkimCreate.v
StringBuffer.v
Json.v
Mailhandler.v
HandlerEnds.v
System.v
Cache.v
