(* ===== verification/Prelude.v ===== *)
(** Verification of the DMARC report server.

    The program receives mail on an SMTP port, validates the DKIM signature of
    each mail, and posts the DMARC report it carries to a web service as JSON.
    It is a set of processes.  The master ([src/src/master_server.c]) reads the
    configuration, creates the workers and accepts connections.  A worker
    ([src/src/worker.c]) talks to its clients ([connection.c], [request.c],
    [response.c]) and appends each complete mail to its queue
    ([src/src/lib-pq/persisted_queue.c]), a memory-mapped file.  A mail handler
    per worker ([src/src/mailhandler]) takes mails from the queue, validates
    them ([src/firm-dkim-extended]), unpacks the report, converts it to JSON and
    posts it.

    * The model of C

    This file has the parts that every component uses.  A computation returns
    [res A]: a value, or the [fault] it runs into, such as an access outside an
    object, the use of an indeterminate byte or pointer, or signed overflow.  A
    theorem that concludes with [Ok] therefore says that the code is free of
    these faults and ends; theorems that conclude with [Err] show where it is
    not.  A [buf] is an allocated object whose bytes may be indeterminate, a
    [ptr] a pointer variable with the object it points to.  An [int] is a [Z]
    kept in range by [i32], where overflow is undefined, or wrapped by
    [to_int], where the code converts.  A loop is [cloop] over a record of the
    variables it changes; its fuel is one more than a bound on the iterations
    that is visible in the loop (mostly the length of the object it walks over),
    and the theorems show that it is enough ([wp_cloop]).  [malloc] is taken to
    succeed.  [ends] is the weaker statement, for every input and every answer of
    the world: no loop exhausts its fuel, and what is returned, if no fault
    stops the code, satisfies a predicate ([ends_cloop]).

    * The files

    - [Base], [Layout]: the structs of [src/src/base.h] and their bytes.
    - [Ends]: the rules of [ends] and their automation; [ConnectionEnds],
      [WorkerEnds] and [HandlerEnds] walk through the components with it.
      [ConnectionSafe]: the stronger [safe], which also says which faults there
      can be.
    - [Socket]: [socket.c], as the system calls its functions make.
    - [Config]: [config_file.c].  [config_load_file]: what loading a written
      file does, line by line.
    - [Response]: the output buffer of a connection; [response_build_uuid],
      [get_param_from_storage].
    - [Queue]: [persisted_queue.c] over a file system with failures.  The ring in
      the file refines a bounded first-in first-out queue ([fifo_run]), over
      restarts; sizes that overflow and the calls that persist nothing.
    - [QueueSys]: several processes on one queue as a step relation over single
      accesses: mutual exclusion, linearizability, progress, and what a further
      [semaphore_init] breaks.
    - [QueueFs]: many queues, by the paths of their files ([pq_init_path]).
    - [Request]: [request_parse_commands], refined to the abstract SMTP session
      [smtp_run] on reads that cut no keyword, and stopped by an indeterminate
      byte on those that do ([request_cut_keyword_uninit]); independence of how
      the stream is cut into reads.
    - [RequestData]: [request_parse_data], the inverse of writing fields and a
      body.
    - [Connection]: [connection_handle] on top of these: one round of the
      session, delivery to the queue, the states a connection settles in.
    - [ConnectionEnds], [ConnectionSafe], [WorkerEnds]: on arbitrary input, which
      includes input on which the program has undefined behaviour, the handlers
      end, the memory of a worker stays well-typed and its queue well-formed as
      long as no fault stops it, and the one access outside an object that a
      client can cause is that of a message with too many headers
      ([worker_memory_safe]); when the loop that sends ends
      ([send_loop_ends_iff]).
    - [Worker]: [worker_server] and [events.c]: every client is served its own
      session, whatever the order of the events.
    - [Server]: [master_server.c], the creation of workers, [lock.c]: [main] up
      to its loop, and that the accept loop hands each descriptor to one worker.
    - [Main]: [main] from its options to its end, with the signals, the final
      wait and what is freed ([main_never_stops]); the life of a worker process
      around its loop; [safe.c].
    - [Canon]: the string functions of [firm-dkim.c] and the relaxed
      canonicalizations, equal to reference definitions on byte lists.
    - [Base64]: [base64.c] and the wrappers of OpenSSL's filter.
    - [Dkim]: the parsers, the selection of headers and [dkim_validate].
    - [Pem]: the functions that read a key, which [Dkim] and [DkimCreate] are
      given as functions from a text.
    - [DkimCreate]: [dkim_create], and reading its signatures back.
    - [StringBuffer], [Json]: [string_buffer.c] and the conversion of a report,
      whose text is [report_text].
    - [Mailhandler]: the DNS record, validation, decoding, unzipping and the main
      loop of [mailhandler.c].
    - [HandlerEnds]: the mail handler ends on every mail
      ([handle_message_ends]).
    - [System]: a worker with its mail handler, on a file system in which the
      path of the worker's queue is handed to the handler as an argument: the
      messages of the clients' sessions, less those that a full queue drops, are
      the ones that are validated and posted, one process after the other
      ([mail_reaches_handler]) and in every order of their whole steps
      ([pipeline_whole_steps]).
    - [Cache]: [cache.c], a trie that is a finite map.

    * What is a parameter

    The kernel (file system, sockets, [epoll], semaphores), the resolver,
    OpenSSL, zlib, libxml2 and libcurl are arguments of the definitions that
    call them: their answers are values ([os], [net], functions), and what the
    code relies on is a named hypothesis.  The witnesses instantiate them.

    * Not modelled

    Printing, [getopt] itself, [fork] and [execl], [pq_wait], which sleeps, and
    the wrappers of [socket.c] that only pass a call on ([socket_accept],
    [socket_read], [socket_close], [socket_free]); [src/src/mailhandler/base64.c],
    which is the same text as [firm-dkim-extended/base64.c].  Freed memory is
    modelled where a later use depends on it (the pointers of a connection, the
    curl handle, the master), not for every local copy.  The mappings of one
    queue file in several processes are one memory with atomic accesses of a
    field.  In [System] an event of a worker, the start of the mail handler and an
    iteration of its loop are single steps of a scheduler that belongs to the
    specification, not to the code.  For events and iterations this loses nothing:
    the two processes share nothing but the queue, and its sections exclude each
    other by [queue_linearizable] of [QueueSys], which has the interleavings of
    their accesses.  For the start it does: a start in the middle of a section of
    the worker, which resets the semaphore, is not an order of these steps, and
    can lose a message ([semaphore_init_loses_message]).  There a fault of the
    mail handler ends the run, although the worker would go on.  The size of the
    stack is modelled for [clone] only: the arrays of variable length of [unzip]
    have no upper bound.  Of [x = ++x % n], which C leaves undefined, the meaning
    that compilers give it is taken ([Queue.advance]). *)
From Stdlib Require Export ZArith Lia.
From stdpp Require Export base tactics numbers option sets.
From stdpp Require Export list.
From Corelib Require Export Init.Byte.
From Stdlib Require Strings.Byte Strings.String.
Export Strings.String.StringSyntax.

#[global] Open Scope Z_scope.

(** ** Faults and the error monad *)

(** What the C abstract machine leaves undefined, as values: a definition of
    the development that reaches one of them returns [Err]. *)
Inductive fault :=
  | OutOfBounds   (** access outside the object a pointer points into *)
  | Uninit        (** use of an indeterminate value *)
  | NullDeref     (** access through a null pointer *)
  | UseAfterFree  (** access to an object whose lifetime has ended *)
  | IntOverflow   (** signed 32-bit overflow *)
  | DivByZero     (** remainder by zero *)
  | Blocked       (** a wait that nothing in the model would end *)
  | OutOfFuel.    (** the loop bound of the model was too small *)

Inductive res (A : Type) :=
  | Ok (a : A)
  | Err (f : fault).
Arguments Ok {_} _.
Arguments Err {_} _.

#[global] Instance fault_eq_dec : EqDecision fault.
Proof. solve_decision. Defined.

#[global] Instance res_ret : MRet res := @Ok.
#[global] Instance res_bind : MBind res := λ A B k m,
  match m with Ok a => k a | Err f => Err f end.
#[global] Instance res_fmap : FMap res := λ A B g m,
  match m with Ok a => Ok (g a) | Err f => Err f end.

Section wp.
Context {A B : Type}.
Implicit Types (m : res A) (Q : A → Prop).

(** [wp m Q]: the computation [m] faults nowhere and its result satisfies [Q]. *)
Definition wp m Q : Prop :=
  match m with Ok a => Q a | Err _ => False end.

Lemma wp_mono m Q Q' : wp m Q → (∀ a, Q a → Q' a) → wp m Q'.
Proof. destruct m; simpl; auto. Qed.

Lemma wp_inv m Q : wp m Q → ∃ a, m = Ok a ∧ Q a.
Proof. destruct m; simpl; [eauto | done]. Qed.
End wp.

Lemma wp_bind {A B} (m : res A) (k : A → res B) Q :
  wp m (λ a, wp (k a) Q) → wp (m ≫= k) Q.
Proof. by destruct m. Qed.

Lemma bind_Ok {A B} (a : A) (k : A → res B) : Ok a ≫= k = k a.
Proof. done. Qed.

Lemma bind_Ok_inv {A B} (m : res A) (k : A → res B) b :
  m ≫= k = Ok b → ∃ a, m = Ok a ∧ k a = Ok b.
Proof. destruct m; naive_solver. Qed.

(** Whether a computation faults with [f], as a test. *)
Definition is_err {A} (f : fault) (m : res A) : bool :=
  match m with Err g => bool_decide (g = f) | Ok _ => false end.

Lemma is_err_eq {A} f (m : res A) : is_err f m = true → m = Err f.
Proof. destruct m as [|g]; simpl; [done|]. by intros ->%bool_decide_eq_true. Qed.

(** ** Loops *)

(** One iteration of a C loop: go on with a new state, or leave the loop. *)
Inductive ctl (S : Type) :=
  | Next (s : S)
  | Break (s : S).
Arguments Next {_} _.
Arguments Break {_} _.

Section loop.
Context {S : Type} (step : S → res (ctl S)).

Fixpoint cloop (fuel : nat) (s : S) : res S :=
  match fuel with
  | O => Err OutOfFuel
  | Datatypes.S fuel' =>
      c ← step s;
      match c with
      | Next s' => cloop fuel' s'
      | Break s' => Ok s'
      end
  end.

Lemma cloop_next fuel s s' :
  step s = Ok (Next s') → cloop (Datatypes.S fuel) s = cloop fuel s'.
Proof. intros H. simpl. by rewrite H. Qed.

Lemma cloop_break fuel s s' :
  step s = Ok (Break s') → cloop (Datatypes.S fuel) s = Ok s'.
Proof. intros H. simpl. by rewrite H. Qed.

Lemma cloop_err fuel s f :
  step s = Err f → cloop (Datatypes.S fuel) s = Err f.
Proof. intros H. simpl. by rewrite H. Qed.

(** More fuel does not change the result of a loop that ended. *)
Lemma cloop_more n m s s' : cloop n s = Ok s' → (n ≤ m)%nat → cloop m s = Ok s'.
Proof.
  revert m s. induction n as [|n IH]; intros m s H Hle; [done|].
  destruct m as [|m]; [lia|]. simpl in *.
  apply bind_Ok_inv in H as ([s1|s1] & -> & H); simpl; [|done].
  apply IH; [done | lia].
Qed.

(** Total correctness: an invariant, and a measure that each further
    iteration decreases and that the fuel exceeds. *)
Lemma wp_cloop (I : S → Prop) (m : S → nat) (Q : S → Prop) fuel s :
  (∀ s, I s → wp (step s) (λ c,
     match c with Next s' => I s' ∧ (m s' < m s)%nat | Break s' => Q s' end)) →
  I s → (m s < fuel)%nat → wp (cloop fuel s) Q.
Proof.
  intros Hstep. revert s. induction fuel as [|fuel IH]; intros s HI Hm; [lia|].
  simpl. apply wp_bind. eapply wp_mono; [by apply Hstep|].
  intros [s'|s']; [|done]. intros [HI' Hm']. apply IH; [done | lia].
Qed.

(** Partial correctness: what holds of the result when there is one. *)
Lemma cloop_Ok_inv (I Q : S → Prop) fuel s s' :
  (∀ s c, I s → step s = Ok c → match c with Next s1 => I s1 | Break s1 => Q s1 end) →
  I s → cloop fuel s = Ok s' → Q s'.
Proof.
  intros Hstep. revert s. induction fuel as [|fuel IH]; intros s HI H; [done|].
  simpl in H. apply bind_Ok_inv in H as (c & Hc & H). specialize (Hstep _ _ HI Hc).
  destruct c as [s1|s1]; [eauto | by injection H as <-].
Qed.
End loop.

(** Loops whose bodies agree. *)
Lemma cloop_ext {S} (step step' : S → res (ctl S)) fuel s :
  (∀ s, step s = step' s) → cloop step fuel s = cloop step' fuel s.
Proof.
  intros H. revert s. induction fuel as [|fuel IH]; intros s; [done|]. simpl.
  rewrite H. destruct (step' s) as [[s1|s1]|]; simpl; [apply IH | done | done].
Qed.

(** ** Bytes *)

#[global] Instance byte_eq_decision : EqDecision byte := Strings.Byte.byte_eq_dec.
#[global] Instance byte_inhabited : Inhabited byte := populate x00.

(** The value of an [unsigned char], and the conversion to one (modulo 256). *)
Definition bval (c : byte) : Z := Z.of_N (Strings.Byte.to_N c).
Definition byte_of (z : Z) : byte :=
  default x00 (Strings.Byte.of_N (Z.to_N (z mod 256))).

Lemma bval_range c : 0 <= bval c < 256.
Proof. unfold bval. pose proof (Strings.Byte.to_N_bounded c). lia. Qed.

Lemma bval_inj c d : bval c = bval d → c = d.
Proof.
  unfold bval. intros H%N2Z.inj.
  pose proof (Strings.Byte.of_to_N c) as Hc. pose proof (Strings.Byte.of_to_N d) as Hd.
  rewrite H in Hc. congruence.
Qed.

Lemma bval_byte_of z : bval (byte_of z) = z mod 256.
Proof.
  unfold byte_of, bval. pose proof (Z.mod_pos_bound z 256 ltac:(lia)).
  destruct (Strings.Byte.of_N (Z.to_N (z mod 256))) eqn:E; simpl.
  - apply Strings.Byte.to_of_N in E. lia.
  - apply Strings.Byte.of_N_None_iff in E. lia.
Qed.

Lemma byte_of_bval c : byte_of (bval c) = c.
Proof.
  apply bval_inj. rewrite bval_byte_of.
  pose proof (bval_range c). by rewrite Z.mod_small by lia.
Qed.

(** [signed char]: the value of a plain [char] on the targets of the program. *)
Definition sval (c : byte) : Z := if decide (bval c < 128) then bval c else bval c - 256.

(** Characters the code tests for. *)
Abbreviation NUL := x00 (only parsing).
Abbreviation TAB := x09 (only parsing).
Abbreviation LF := x0a (only parsing).
Abbreviation CR := x0d (only parsing).
Abbreviation SP := x20 (only parsing).

(** String literals of the source, without the terminating NUL. *)
Definition lit (s : String.string) : list byte := String.list_byte_of_string s.
Arguments lit s%_string_scope.

(** ** Machine integers *)

Definition INT_MAX : Z := 2147483647.
Definition INT_MIN : Z := -2147483648.

(** The result of signed [int] arithmetic: overflow is undefined. *)
Definition i32 (z : Z) : res Z :=
  if decide (INT_MIN <= z <= INT_MAX) then Ok z else Err IntOverflow.

(** Conversion of a wider integer to [int]: two's complement wrap-around. *)
Definition to_int (z : Z) : Z := (z + 2147483648) mod 4294967296 - 2147483648.

(** [x % y] on [int]s: the sign of the dividend. *)
Definition int_rem (x y : Z) : res Z :=
  if decide (y = 0) then Err DivByZero else Ok (Z.rem x y).

Lemma i32_ok z : INT_MIN <= z <= INT_MAX → i32 z = Ok z.
Proof. intros H. unfold i32. by rewrite decide_True. Qed.

Lemma to_int_small z : INT_MIN <= z <= INT_MAX → to_int z = z.
Proof. unfold INT_MIN, INT_MAX, to_int. intros. rewrite Z.mod_small; lia. Qed.

(** ** Lists with integer lengths *)

Section zlen.
Context {A : Type}.
Implicit Types l k : list A.

Definition zlen l : Z := Z.of_nat (length l).

Lemma zlen_nonneg l : 0 <= zlen l.
Proof. unfold zlen. lia. Qed.
Lemma zlen_nil : zlen ([] : list A) = 0.
Proof. done. Qed.
Lemma zlen_cons x l : zlen (x :: l) = zlen l + 1.
Proof. unfold zlen. simpl. lia. Qed.
Lemma zlen_app l k : zlen (l ++ k) = zlen l + zlen k.
Proof. unfold zlen. rewrite length_app. lia. Qed.
Lemma zlen_replicate n (x : A) : zlen (replicate n x) = Z.of_nat n.
Proof. unfold zlen. by rewrite length_replicate. Qed.
Lemma zlen_insert i x l : zlen (<[i:=x]> l) = zlen l.
Proof. unfold zlen. by rewrite length_insert. Qed.
Lemma zlen_to_nat l : Z.to_nat (zlen l) = length l.
Proof. unfold zlen. lia. Qed.
Lemma zlen_inv l n : zlen l = Z.of_nat n → length l = n.
Proof. unfold zlen. lia. Qed.
End zlen.

Lemma zlen_fmap {A B} (f : A → B) l : zlen (f <$> l) = zlen l.
Proof. unfold zlen. by rewrite length_fmap. Qed.
Lemma zlen_rev {A} (l : list A) : zlen (reverse l) = zlen l.
Proof. unfold zlen. by rewrite length_reverse. Qed.

Create Rewrite HintDb zlen.
#[export] Hint Rewrite @zlen_nil @zlen_cons @zlen_app @zlen_replicate @zlen_insert
  @zlen_fmap @zlen_rev @zlen_to_nat : zlen.

(** ** Memory *)

(** An allocated object of character type: [None] is an indeterminate byte. *)
Abbreviation buf := (list (option byte)).

(** [bs s]: the initialised bytes [s]. *)
Definition bs (s : list byte) : buf := Some <$> s.

(** [malloc n]; allocation is taken to succeed. *)
Definition malloc (n : Z) : buf := replicate (Z.to_nat n) None.

(** [b[i]] as an rvalue. *)
Definition bload (b : buf) (i : Z) : res byte :=
  if decide (0 <= i) then
    match b !! Z.to_nat i with
    | Some (Some c) => Ok c
    | Some None => Err Uninit
    | None => Err OutOfBounds
    end
  else Err OutOfBounds.

(** [b[i] = c]. *)
Definition bstore (b : buf) (i : Z) (c : byte) : res buf :=
  if decide (0 <= i < zlen b) then Ok (<[Z.to_nat i := Some c]> b)
  else Err OutOfBounds.

(** The two halves of [memcpy (dst+i, src+j, n)]: the source bytes as they
    are, indeterminate ones included, and their store. *)
Definition bread (b : buf) (j n : Z) : res buf :=
  if decide (0 <= j ∧ 0 <= n ∧ j + n <= zlen b)
  then Ok (take (Z.to_nat n) (drop (Z.to_nat j) b)) else Err OutOfBounds.

Definition bwrite (b : buf) (i : Z) (src : buf) : res buf :=
  if decide (0 <= i ∧ i + zlen src <= zlen b)
  then Ok (take (Z.to_nat i) b ++ src ++ drop (Z.to_nat i + length src) b)
  else Err OutOfBounds.

Definition memcpy (dst : buf) (i : Z) (src : buf) (j n : Z) : res buf :=
  s ← bread src j n; bwrite dst i s.

(** [memcpy] from a pointer that may be null: a copy of no byte is allowed. *)
Definition memcpy_opt (dst : buf) (i : Z) (src : option buf) (j n : Z) : res buf :=
  match src with
  | Some s => memcpy dst i s j n
  | None => if decide (n = 0) then Ok dst else Err NullDeref
  end.

(** [p + i]: the object from that position on. *)
Definition ptr_add (b : buf) (i : Z) : res buf :=
  if decide (0 <= i <= zlen b) then Ok (drop (Z.to_nat i) b) else Err OutOfBounds.

(** ** C strings *)

(** The bytes before the first NUL. *)
Fixpoint cstring (b : buf) : res (list byte) :=
  match b with
  | [] => Err OutOfBounds
  | None :: _ => Err Uninit
  | Some c :: b' =>
      if decide (c = NUL) then Ok [] else s ← cstring b'; Ok (c :: s)
  end.

Definition strlen (b : buf) : res Z := s ← cstring b; Ok (zlen s).

(** First byte of a pointer's object. *)
Definition first (b : buf) : res byte :=
  match b with
  | [] => Err OutOfBounds
  | None :: _ => Err Uninit
  | Some c :: _ => Ok c
  end.

(** [strncmp (a, b, n) == 0]. *)
Fixpoint strncmp_eq (a b : buf) (n : nat) : res bool :=
  match n with
  | O => Ok true
  | S n' =>
      c ← first a; d ← first b;
      if decide (c = d) then
        if decide (c = NUL) then Ok true else strncmp_eq (tail a) (tail b) n'
      else Ok false
  end.

(** [strcmp (a, b) == 0]. *)
Fixpoint strcmp_eq (a b : buf) : res bool :=
  c ← first a; d ← first b;
  if decide (c = d) then
    if decide (c = NUL) then Ok true
    else match a with [] => Err OutOfBounds | _ :: a' => strcmp_eq a' (tail b) end
  else Ok false.

(** A string object: the bytes and the terminating NUL. *)
Definition cstr (s : list byte) : buf := bs s ++ [Some NUL].

(** No byte of the string is NUL. *)
Definition nonul (s : list byte) : Prop := Forall (λ c, c ≠ NUL) s.
#[global] Instance nonul_dec s : Decision (nonul s).
Proof. unfold nonul. apply _. Defined.

(** ** Lemmas on memory *)

Section bs.
Implicit Types (s t : list byte) (b r : buf).

Lemma length_bs s : length (bs s) = length s.
Proof. unfold bs. by rewrite length_fmap. Qed.
Lemma zlen_bs s : zlen (bs s) = zlen s.
Proof. unfold zlen. by rewrite length_bs. Qed.
Lemma bs_app s t : bs (s ++ t) = bs s ++ bs t.
Proof. apply fmap_app. Qed.
Lemma bs_nil : bs [] = [].
Proof. done. Qed.
Lemma bs_cons c s : bs (c :: s) = Some c :: bs s.
Proof. done. Qed.
Lemma bs_inj s t : bs s = bs t → s = t.
Proof. unfold bs. apply list_fmap_eq_inj. by intros ?? [= ->]. Qed.
Lemma take_bs n s : take n (bs s) = bs (take n s).
Proof. unfold bs. by rewrite fmap_take. Qed.
Lemma drop_bs n s : drop n (bs s) = bs (drop n s).
Proof. unfold bs. by rewrite fmap_drop. Qed.
Lemma length_cstr s : length (cstr s) = S (length s).
Proof. unfold cstr. rewrite length_app, length_bs. simpl. lia. Qed.
Lemma zlen_cstr s : zlen (cstr s) = zlen s + 1.
Proof. unfold zlen. rewrite length_cstr. lia. Qed.
Lemma zlen_malloc n : 0 <= n → zlen (malloc n) = n.
Proof. unfold malloc, zlen. rewrite length_replicate. lia. Qed.

Lemma take_zlen s r : take (Z.to_nat (zlen s)) (bs s ++ r) = bs s.
Proof. rewrite zlen_to_nat. apply take_app_length'. by rewrite length_bs. Qed.
Lemma drop_zlen s r : drop (Z.to_nat (zlen s)) (bs s ++ r) = r.
Proof. rewrite zlen_to_nat. apply drop_app_length'. by rewrite length_bs. Qed.
End bs.

#[export] Hint Rewrite zlen_bs zlen_cstr : zlen.

Create Rewrite HintDb len.
#[export] Hint Rewrite @length_app @length_replicate @length_fmap @length_insert
  @length_take @length_drop @length_cons @length_nil @length_reverse
  length_bs length_cstr : len.

(** Arithmetic with lengths of lists. *)
Ltac zlia := unfold malloc, zlen in *; autorewrite with len in *; lia.

Section memory.
Implicit Types (s t : list byte) (b pre m post : buf) (c : byte) (i j n : Z).

(** Access at the end of a prefix [pre]. *)
Lemma bload_mid pre c post i :
  i = zlen pre → bload (pre ++ Some c :: post) i = Ok c.
Proof.
  intros ->. unfold bload. rewrite decide_True by zlia.
  by rewrite zlen_to_nat, list_lookup_middle.
Qed.

Lemma bload_bs s post i c :
  0 <= i → s !! Z.to_nat i = Some c → bload (bs s ++ post) i = Ok c.
Proof.
  intros Hi Hc. unfold bload. rewrite decide_True by done.
  unfold bs. rewrite lookup_app_l by (rewrite length_fmap; by eapply lookup_lt_Some).
  by rewrite list_lookup_fmap, Hc.
Qed.

Lemma bstore_mid pre x c post i :
  i = zlen pre → bstore (pre ++ x :: post) i c = Ok (pre ++ Some c :: post).
Proof.
  intros ->. unfold bstore. rewrite decide_True by zlia.
  rewrite zlen_to_nat. f_equal.
  rewrite insert_app_r_alt by lia. by rewrite Nat.sub_diag.
Qed.

Lemma bread_mid pre m post i n :
  i = zlen pre → n = zlen m → bread (pre ++ m ++ post) i n = Ok m.
Proof.
  intros -> ->. unfold bread. rewrite decide_True by zlia.
  by rewrite !zlen_to_nat, drop_app_length, take_app_length.
Qed.

Lemma bwrite_mid pre m m' post i :
  i = zlen pre → length m = length m' →
  bwrite (pre ++ m ++ post) i m' = Ok (pre ++ m' ++ post).
Proof.
  intros -> Hl. unfold bwrite. rewrite decide_True by zlia.
  rewrite !zlen_to_nat, take_app_length. do 3 f_equal.
  rewrite <-Hl, app_assoc, <-length_app. by rewrite drop_app_length.
Qed.

Lemma bread_all m n : n = zlen m → bread m 0 n = Ok m.
Proof.
  intros ->. pose proof (bread_mid [] m [] 0 (zlen m) eq_refl eq_refl) as H.
  simpl in H. by rewrite app_nil_r in H.
Qed.

Lemma bread_bs s post n : n = zlen s → bread (bs s ++ post) 0 n = Ok (bs s).
Proof. intros ->. apply (bread_mid [] (bs s) post); zlia. Qed.

(** A write over the first bytes of the free space after [pre]. *)
Lemma bwrite_end pre post m i :
  i = zlen pre → zlen m <= zlen post →
  bwrite (pre ++ post) i m = Ok (pre ++ m ++ drop (length m) post).
Proof.
  intros Hi Hl. rewrite <-(take_drop (length m) post) at 1.
  apply bwrite_mid; [done|]. rewrite length_take. zlia.
Qed.

Lemma bwrite_start post m :
  zlen m <= zlen post → bwrite post 0 m = Ok (m ++ drop (length m) post).
Proof. apply (bwrite_end [] post m 0). done. Qed.

Lemma bstore_end pre post c i :
  i = zlen pre → 0 < zlen post →
  bstore (pre ++ post) i c = Ok (pre ++ Some c :: drop 1 post).
Proof. intros Hi Hp. destruct post as [|x post]; [zlia|]. by apply bstore_mid. Qed.

Lemma ptr_add_app pre post i : i = zlen pre → ptr_add (pre ++ post) i = Ok post.
Proof.
  intros ->. unfold ptr_add. rewrite decide_True by zlia.
  by rewrite zlen_to_nat, drop_app_length.
Qed.

Lemma bload_oob b i : zlen b <= i → bload b i = Err OutOfBounds.
Proof.
  intros Hi. unfold bload. case_decide; [|done].
  rewrite lookup_ge_None_2 by zlia. done.
Qed.

Lemma bstore_oob b i c : zlen b <= i → bstore b i c = Err OutOfBounds.
Proof. intros Hi. unfold bstore. by rewrite decide_False by lia. Qed.
End memory.

Section cstrings.
Implicit Types (s t k : list byte) (b post : buf).

Lemma nonul_app s t : nonul (s ++ t) ↔ nonul s ∧ nonul t.
Proof. unfold nonul. by rewrite Forall_app. Qed.
Lemma nonul_cons c s : nonul (c :: s) ↔ c ≠ NUL ∧ nonul s.
Proof. unfold nonul. by rewrite Forall_cons. Qed.
Lemma nonul_nil : nonul [].
Proof. constructor. Qed.

Lemma cstring_bs s post : nonul s → cstring (bs s ++ Some NUL :: post) = Ok s.
Proof.
  induction s as [|c s IH]; simpl; [done|].
  intros [Hc Hs]%nonul_cons. rewrite decide_False by done.
  change (Some <$> s) with (bs s). by rewrite IH.
Qed.

Lemma cstring_cstr s : nonul s → cstring (cstr s) = Ok s.
Proof. apply cstring_bs. Qed.

Lemma strlen_cstr s : nonul s → strlen (cstr s) = Ok (zlen s).
Proof. intros H. unfold strlen. by rewrite cstring_cstr. Qed.

Lemma strlen_bs s post : nonul s → strlen (bs s ++ Some NUL :: post) = Ok (zlen s).
Proof. intros H. unfold strlen. by rewrite cstring_bs. Qed.

Lemma cstring_nonul b s : cstring b = Ok s → nonul s.
Proof.
  revert s. induction b as [|[c|] b IH]; simpl; intros s; [done| |done].
  case_decide; [intros [= <-]; constructor|].
  intros (s' & Hs' & [= <-])%bind_Ok_inv. apply nonul_cons. eauto.
Qed.

(** Comparison with a literal [k] of the bytes [s] that stand before
    [post]: decided inside [s], unless [s] is a proper prefix of [k]. *)
Lemma strncmp_lit k s post :
  nonul k → ¬ (s `prefix_of` k ∧ s ≠ k) →
  strncmp_eq (bs s ++ post) (cstr k) (length k) = Ok (bool_decide (k `prefix_of` s)).
Proof.
  revert s. induction k as [|d k IH]; intros s Hk Hs.
  { cbn [strncmp_eq length]. rewrite bool_decide_eq_true_2; [done | apply prefix_nil]. }
  apply nonul_cons in Hk as [Hd Hk].
  destruct s as [|c s].
  { exfalso. apply Hs. split; [apply prefix_nil | done]. }
  simpl. destruct (decide (c = d)) as [->|Hne].
  - rewrite decide_False by done. change (Some <$> s) with (bs s).
    change (bs k ++ [Some NUL]) with (cstr k). rewrite IH; [|done|].
    + f_equal. apply bool_decide_ext. split; [apply prefix_cons | apply prefix_cons_inv_2].
    + intros [Hp Hn]. apply Hs. split; [by apply prefix_cons | congruence].
  - f_equal. symmetry. apply bool_decide_false. intros ?%prefix_cons_inv_1. congruence.
Qed.

(** Bytes that end inside the literal, before an indeterminate one. *)
Lemma strncmp_cut k s junk :
  nonul k → s `prefix_of` k → s ≠ k → strncmp_eq (bs s ++ None :: junk) (cstr k) (length k) = Err Uninit.
Proof.
  revert s. induction k as [|d k IH]; intros s Hk Hp Hne; [by apply prefix_nil_inv in Hp|].
  destruct s as [|c s]; [done|]. apply nonul_cons in Hk as [Hd Hk].
  apply prefix_cons_inv_1 in Hp as Hc. subst c. apply prefix_cons_inv_2 in Hp.
  simpl. rewrite (decide_True (P := d = d)), (decide_False (P := d = NUL)) by done. apply IH; [done | done | congruence].
Qed.

(** Inside a terminated string no literal can be cut. *)
Lemma strncmp_lit_nul k s post :
  nonul k →
  strncmp_eq (bs s ++ Some NUL :: post) (cstr k) (length k) = Ok (bool_decide (k `prefix_of` s)).
Proof.
  intros Hk. change (Some NUL :: post) with (bs [NUL] ++ post). rewrite app_assoc, <-bs_app.
  rewrite strncmp_lit; [|done|].
  - f_equal. apply bool_decide_ext. split; [|apply prefix_app_r].
    intros [t Ht]. destruct t as [|c t _] using rev_ind.
    + rewrite app_nil_r in Ht. subst k. apply nonul_app in Hk as [_ Hk].
      by apply nonul_cons in Hk as [? _].
    + rewrite app_assoc in Ht. apply app_inj_tail in Ht as [-> _]. by exists t.
  - intros [[t ->] _]. apply nonul_app in Hk as [Hk _]. apply nonul_app in Hk as [_ Hk].
    by apply nonul_cons in Hk as [? _].
Qed.

(** The same for two whole strings. *)
Lemma strcmp_cstr s k post post' :
  nonul s → nonul k →
  strcmp_eq (bs s ++ Some NUL :: post) (bs k ++ Some NUL :: post') = Ok (bool_decide (s = k)).
Proof.
  revert k. induction s as [|c s IH]; intros [|d k] Hs Hk; simpl.
  - done.
  - apply nonul_cons in Hk as [? _]. by rewrite decide_False by congruence.
  - apply nonul_cons in Hs as [? _]. by rewrite decide_False by congruence.
  - apply nonul_cons in Hs as [? Hs]. apply nonul_cons in Hk as [? Hk].
    destruct (decide (c = d)) as [->|].
    + rewrite decide_False by done. change (Some <$> s) with (bs s).
      change (Some <$> k) with (bs k). rewrite IH by done.
      f_equal. apply bool_decide_ext. naive_solver.
    + f_equal. symmetry. apply bool_decide_false. congruence.
Qed.
End cstrings.

(** ** Pointers to objects *)

(** A pointer variable: never assigned, null, to a freed object, or to a live
    object with its contents. *)
Inductive ptr (A : Type) :=
  | PUninit
  | PNull
  | PFreed
  | PTo (a : A).
Arguments PUninit {_}.
Arguments PNull {_}.
Arguments PFreed {_}.
Arguments PTo {_} _.

Definition deref {A} (p : ptr A) : res A :=
  match p with
  | PTo a => Ok a
  | PUninit => Err Uninit
  | PNull => Err NullDeref
  | PFreed => Err UseAfterFree
  end.

(** [p != NULL]; reading a pointer that was never assigned or whose object was
    freed uses an indeterminate value. *)
Definition non_null {A} (p : ptr A) : res bool :=
  match p with
  | PTo _ => Ok true
  | PNull => Ok false
  | PUninit => Err Uninit
  | PFreed => Err UseAfterFree
  end.

(** [free (p)]: nothing for a null pointer. *)
Definition cfree {A} (p : ptr A) : res (ptr A) :=
  match p with
  | PTo _ => Ok PFreed
  | PNull => Ok PNull
  | PUninit => Err Uninit
  | PFreed => Err UseAfterFree
  end.

(** Element [i] of an array of objects. *)
Definition aload {A} (l : list A) (i : Z) : res A :=
  if decide (0 <= i) then
    match l !! Z.to_nat i with Some a => Ok a | None => Err OutOfBounds end
  else Err OutOfBounds.

Definition astore {A} (l : list A) (i : Z) (a : A) : res (list A) :=
  if decide (0 <= i < zlen l) then Ok (<[Z.to_nat i := a]> l) else Err OutOfBounds.

Lemma aload_mid {A} (pre : list A) a post i :
  i = zlen pre → aload (pre ++ a :: post) i = Ok a.
Proof.
  intros ->. unfold aload. rewrite decide_True by zlia.
  by rewrite zlen_to_nat, list_lookup_middle.
Qed.

Lemma astore_mid {A} (pre : list A) a a' post i :
  i = zlen pre → astore (pre ++ a :: post) i a' = Ok (pre ++ a' :: post).
Proof.
  intros ->. unfold astore. rewrite decide_True by zlia. rewrite zlen_to_nat.
  f_equal. rewrite insert_app_r_alt by lia. by rewrite Nat.sub_diag.
Qed.

Lemma aload_lookup {A} (l : list A) i a :
  0 <= i → l !! Z.to_nat i = Some a → aload l i = Ok a.
Proof. intros Hi Ha. unfold aload. by rewrite decide_True, Ha. Qed.

Lemma aload_oob {A} (l : list A) i : zlen l <= i → aload l i = Err OutOfBounds.
Proof.
  intros Hi. unfold aload. case_decide; [|done].
  by rewrite lookup_ge_None_2 by zlia.
Qed.

(** Discharge the overflow checks of the goal that the context decides. *)
Ltac int_ok :=
  repeat (rewrite i32_ok by (unfold INT_MIN, INT_MAX in *; zlia));
  rewrite ?bind_Ok.

(** Prove a decidable closed statement by evaluation. *)
Ltac by_compute := refine (bool_decide_unpack _ _); vm_compute; exact I.

(** Membership in explicit lists. *)
Ltac in_list := rewrite ?elem_of_cons, ?elem_of_nil in *; intuition congruence.

#[global] Arguments strncmp_eq : simpl never.
#[global] Arguments strcmp_eq : simpl never.
#[global] Arguments cstring : simpl never.
#[global] Arguments malloc : simpl never.
#[global] Arguments lit : simpl never.
#[global] Arguments cloop : simpl never.

(** ** Runs of a loop *)

Section runs.
Context {S : Type} (step : S → res (ctl S)).

(** [runs n s s']: [n] iterations lead from [s] to [s']. *)
Inductive runs : nat → S → S → Prop :=
  | runs_0 s : runs 0 s s
  | runs_S n s s' s'' : step s = Ok (Next s') → runs n s' s'' → runs (Datatypes.S n) s s''.

Lemma runs_1 s s' : step s = Ok (Next s') → runs 1 s s'.
Proof. intros H. econstructor; [done | constructor]. Qed.

Lemma runs_trans n n' s s' s'' : runs n s s' → runs n' s' s'' → runs (n + n') s s''.
Proof. induction 1; simpl; [done|]. intros. econstructor; eauto. Qed.

Lemma runs_snoc n s s' s'' :
  runs n s s' → step s' = Ok (Next s'') → runs (Datatypes.S n) s s''.
Proof.
  intros H Hs. rewrite <-Nat.add_1_r. eapply runs_trans; [done | by apply runs_1].
Qed.

Lemma cloop_runs n f s s' : runs n s s' → cloop step (n + f) s = cloop step f s'.
Proof. induction 1 as [|???? Hs _ IH]; simpl; [done|]. by rewrite (cloop_next _ _ _ _ Hs). Qed.

Lemma cloop_runs_break n f s s' s'' :
  runs n s s' → step s' = Ok (Break s'') → (n < f)%nat → cloop step f s = Ok s''.
Proof.
  intros Hr Hb Hf. replace f with (n + Datatypes.S (f - n - 1))%nat by lia.
  rewrite (cloop_runs _ _ _ _ Hr). by apply cloop_break.
Qed.

Lemma cloop_runs_err n f s s' e :
  runs n s s' → step s' = Err e → (n < f)%nat → cloop step f s = Err e.
Proof.
  intros Hr Hb Hf. replace f with (n + Datatypes.S (f - n - 1))%nat by lia.
  rewrite (cloop_runs _ _ _ _ Hr). by apply cloop_err.
Qed.

(** A loop that goes on towards a fault runs into it. *)
Lemma cloop_fault (I : S → Prop) (m : S → nat) fuel s f :
  (∀ s, I s → step s = Err f ∨ ∃ s', step s = Ok (Next s') ∧ I s' ∧ (m s' < m s)%nat) →
  I s → (m s < fuel)%nat → cloop step fuel s = Err f.
Proof.
  intros Hstep. revert s. induction fuel as [|fuel IH]; intros s HI Hm; [lia|].
  destruct (Hstep s HI) as [E|(s' & E & HI' & Hm')]; [by apply cloop_err|].
  rewrite (cloop_next _ _ _ _ E). apply IH; [done|lia].
Qed.
End runs.

(** ** Numbers in decimal *)

(** [sprintf (..., "%d", z)] of an [int], which has ten digits at most. *)
Definition digit (d : Z) : byte := byte_of (48 + d).

Fixpoint decimal_digits (fuel : nat) (n : Z) (acc : list byte) : list byte :=
  match fuel with
  | O => acc
  | Datatypes.S fuel' =>
      let acc' := digit (n mod 10) :: acc in
      if decide (n < 10) then acc' else decimal_digits fuel' (n / 10) acc'
  end.

Definition decimal (z : Z) : list byte :=
  if decide (z < 0) then x2d :: decimal_digits 10 (- z) [] else decimal_digits 10 z [].

Lemma length_decimal_digits fuel n acc : (length (decimal_digits fuel n acc) <= fuel + length acc)%nat.
Proof.
  revert n acc. induction fuel as [|fuel IH]; intros n acc; [done|]. cbn [decimal_digits].
  case_decide; [simpl; lia|]. specialize (IH (n / 10) (digit (n mod 10) :: acc)). simpl in *. lia.
Qed.

Lemma zlen_decimal z : zlen (decimal z) <= 11.
Proof.
  unfold decimal, zlen. case_decide;
    [pose proof (length_decimal_digits 10 (- z) []) | pose proof (length_decimal_digits 10 z [])]; simpl in *; lia.
Qed.

Lemma bval_digit d : 0 <= d < 10 → bval (digit d) = 48 + d.
Proof. intros Hd. unfold digit. rewrite bval_byte_of. apply Z.mod_small. lia. Qed.

Lemma digit_nonul n : digit (n mod 10) ≠ NUL.
Proof.
  intros H. pose proof (Z.mod_pos_bound n 10 ltac:(done)) as Hd. pose proof (bval_digit _ Hd) as E.
  rewrite H in E. change (bval NUL) with 0 in E. lia.
Qed.

Lemma nonul_decimal_digits fuel n acc : nonul acc → nonul (decimal_digits fuel n acc).
Proof.
  revert n acc. induction fuel as [|fuel IH]; intros n acc Hacc; [done|]. cbn [decimal_digits].
  assert (nonul (digit (n mod 10) :: acc)) by (apply nonul_cons; split; [apply digit_nonul | done]).
  case_decide; [done | by apply IH].
Qed.

Lemma nonul_decimal z : nonul (decimal z).
Proof.
  unfold decimal. case_decide; [apply nonul_cons; split; [done|]|]; apply nonul_decimal_digits, nonul_nil.
Qed.

Lemma length_decimal_digits_le k fuel n acc :
  (1 <= k)%nat → n < 10 ^ Z.of_nat k → (length (decimal_digits fuel n acc) <= k + length acc)%nat.
Proof.
  revert k n acc. induction fuel as [|fuel IH]; intros k n acc Hk Hn; [simpl; lia|]. cbn [decimal_digits].
  case_decide as Hd; [simpl; lia|]. destruct k as [|[|k]]; [lia | lia|].
  specialize (IH (S k) (n / 10) (digit (n mod 10) :: acc) ltac:(lia)). simpl in IH. simpl.
  enough (n / 10 < 10 ^ Z.of_nat (S k)) as H by (specialize (IH H); lia).
  apply Z.div_lt_upper_bound; [lia|]. rewrite <-Z.pow_succ_r by lia. by rewrite <-Nat2Z.inj_succ.
Qed.

Lemma zlen_decimal_le k z : (1 <= k)%nat → 0 <= z < 10 ^ Z.of_nat k → zlen (decimal z) <= Z.of_nat k.
Proof.
  intros Hk Hz. unfold decimal, zlen. rewrite decide_False by lia.
  pose proof (length_decimal_digits_le k 10 z [] Hk ltac:(lia)). simpl in *. lia.
Qed.
