(* ===== verification/Base.v ===== *)
(** Base: the constants and structs of [src/src/base.h] that the components
    share.  A struct is a record whose fields carry the struct's prefix; a
    [char] array is a [buf] of the array's size. *)
From S2P Require Import Prelude.

Definition KEY_MAX_LEN : Z := 128.
Definition VALUE_MAX_LEN : Z := 1024.
Definition HEADER_MAX_LEN : Z := 20.
Definition BODY_MAX_LEN : Z := 8000.

(** [#define CONN_STARTED ...]: the states of a connection. *)
Inductive conn_status :=
  | CONN_STARTED
  | CONN_READING
  | CONN_ERROR
  | CONN_WRITING
  | CONN_CLOSED
  | CONN_INACTIVE.

#[global] Instance conn_status_eq_dec : EqDecision conn_status.
Proof. solve_decision. Defined.

(** [hdr]: [char key[KEY_MAX_LEN]; char value[VALUE_MAX_LEN];] *)
Record hdr := Hdr {
  hdr_key : buf;
  hdr_value : buf;
}.

(** [malloc (sizeof (hdr))]. *)
Definition hdr_malloc : hdr :=
  Hdr (malloc KEY_MAX_LEN) (malloc VALUE_MAX_LEN).

(** [request]; [req_header_count] is [None] until it is first assigned. *)
Record request := Request {
  req_headers : list hdr;
  req_header_count : option Z;
  req_body : option buf;
  req_body_len : Z;
  req_in_data : bool;
  req_data : option buf;
  req_data_alloc : Z;
  req_data_len : Z;
  req_quit : bool;
  req_process : bool;
}.

Record response := Response {
  resp_data_alloc : Z;
  resp_data_len : Z;
  resp_data : option buf;
}.

(** [config]: the settings; strings are the objects the pointers point to. *)
Record config := Config {
  listen_port : Z;
  max_workers : Z;
  max_pending : Z;
  max_clients : Z;
  child_stack_size : Z;
  read_buffer_size : Z;
  write_buffer_size : Z;
  data_buffer_size : Z;
  tcp_nodelay : Z;
  server_name : buf;
  hostname : buf;
  daemonize : Z;
  chroot : buf;
  queue_file : buf;
  queue_size : Z;
  web_service_url : buf;
}.

(** [server] and the part of [master_server] it points to. *)
Record server := Server {
  srv_config : ptr config;
  srv_master_config : config;
}.

(** [connection]; the back pointer to the server is passed to the handlers. *)
Record connection := Connection {
  conn_fd : Z;
  conn_request : ptr request;
  conn_response : ptr response;
  conn_status_of : conn_status;
  conn_read_buffer : ptr buf;
  conn_buffer_len : option Z;
}.

(** [mail]: the message that travels through the queue. *)
Record mail := Mail {
  mail_headers : list hdr;
  mail_header_count : Z;
  mail_body : buf;
}.

(** Field updates. *)
Definition conn_set_status (st : conn_status) (c : connection) : connection :=
  Connection (conn_fd c) (conn_request c) (conn_response c) st
    (conn_read_buffer c) (conn_buffer_len c).
Definition conn_set_request (p : ptr request) (c : connection) : connection :=
  Connection (conn_fd c) p (conn_response c) (conn_status_of c)
    (conn_read_buffer c) (conn_buffer_len c).
Definition conn_set_response (p : ptr response) (c : connection) : connection :=
  Connection (conn_fd c) (conn_request c) p (conn_status_of c)
    (conn_read_buffer c) (conn_buffer_len c).
Definition conn_set_buffer (b : ptr buf) (n : option Z) (c : connection) : connection :=
  Connection (conn_fd c) (conn_request c) (conn_response c) (conn_status_of c) b n.
