(* ===== verification/Layout.v ===== *)
(** Layout: how scalars and the [mail] struct lie in memory: little-endian
    two's complement integers, fields one after the other without padding
    (the [int] of [mail] falls on a multiple of four).  The queue of
    [src/src/lib-pq/] copies such bytes between processes, and the zip reader
    of the mail handler reads integers out of a byte stream. *)
From S2P Require Import Prelude Base.

(** ** Integers *)

(** The [n] low-order bytes of [z], lowest first. *)
Fixpoint le_bytes (n : nat) (z : Z) : list byte :=
  match n with
  | O => []
  | S n' => byte_of z :: le_bytes n' (z / 256)
  end.

Fixpoint le_value (s : list byte) : Z :=
  match s with
  | [] => 0
  | c :: s' => bval c + 256 * le_value s'
  end.

(** The bytes of an object, all of them initialised. *)
Fixpoint buf_bytes (b : buf) : res (list byte) :=
  match b with
  | [] => Ok []
  | None :: _ => Err Uninit
  | Some c :: b' => s ← buf_bytes b'; Ok (c :: s)
  end.

Definition int_bytes (z : Z) : buf := bs (le_bytes 4 z).
Definition long_bytes (z : Z) : buf := bs (le_bytes 8 z).

(** An [int] field at offset [i] of an object. *)
Definition load_int (b : buf) (i : Z) : res Z :=
  m ← bread b i 4; s ← buf_bytes m; Ok (to_int (le_value s)).
Definition store_int (b : buf) (i z : Z) : res buf := bwrite b i (int_bytes z).

Definition is_int (z : Z) : Prop := INT_MIN <= z <= INT_MAX.

Lemma length_le_bytes n z : length (le_bytes n z) = n.
Proof. revert z. induction n; simpl; auto. Qed.

Lemma le_value_range s : 0 <= le_value s < 256 ^ zlen s.
Proof.
  induction s as [|c s IH]; [done|]. cbn [le_value]. rewrite zlen_cons.
  pose proof (bval_range c). pose proof (zlen_nonneg s).
  replace (zlen s + 1) with (1 + zlen s) by lia. rewrite Z.pow_add_r by lia. lia.
Qed.

Lemma le_value_bytes n z : le_value (le_bytes n z) = z mod 256 ^ Z.of_nat n.
Proof.
  revert z. induction n as [|n IH]; intros z.
  { simpl. by rewrite Z.mod_1_r. }
  cbn [le_bytes le_value]. rewrite bval_byte_of, IH.
  replace (Z.of_nat (S n)) with (1 + Z.of_nat n) by lia.
  rewrite Z.pow_add_r by lia. rewrite Z.pow_1_r.
  by rewrite Z.rem_mul_r by lia.
Qed.

Lemma buf_bytes_bs s : buf_bytes (bs s) = Ok s.
Proof. induction s as [|c s IH]; [done|]. simpl. change (Some <$> s) with (bs s). by rewrite IH. Qed.

Lemma zlen_int_bytes z : zlen (int_bytes z) = 4.
Proof. unfold int_bytes. rewrite zlen_bs. unfold zlen. by rewrite length_le_bytes. Qed.
Lemma length_int_bytes z : length (int_bytes z) = 4%nat.
Proof. unfold int_bytes. by rewrite length_bs, length_le_bytes. Qed.
Lemma length_long_bytes z : length (long_bytes z) = 8%nat.
Proof. unfold long_bytes. by rewrite length_bs, length_le_bytes. Qed.
#[export] Hint Rewrite zlen_int_bytes : zlen.
#[export] Hint Rewrite length_int_bytes length_long_bytes length_le_bytes : len.

Lemma to_int_mod z : is_int z → to_int (z mod 256 ^ Z.of_nat 4) = z.
Proof.
  unfold is_int, to_int, INT_MIN, INT_MAX. intros Hz.
  change (256 ^ Z.of_nat 4) with 4294967296.
  rewrite Zplus_mod_idemp_l, Z.mod_small; lia.
Qed.

Lemma load_int_mid pre z post i :
  is_int z → i = zlen pre → load_int (pre ++ int_bytes z ++ post) i = Ok z.
Proof.
  intros Hz Hi. unfold load_int. rewrite (bread_mid pre (int_bytes z) post) by zlia.
  rewrite bind_Ok. unfold int_bytes. rewrite buf_bytes_bs, bind_Ok.
  by rewrite le_value_bytes, to_int_mod.
Qed.

Lemma store_int_mid pre z z' post i :
  i = zlen pre → store_int (pre ++ int_bytes z ++ post) i z' = Ok (pre ++ int_bytes z' ++ post).
Proof. intros Hi. unfold store_int. apply bwrite_mid; [done|]. by rewrite !length_int_bytes. Qed.

#[global] Opaque int_bytes long_bytes.

(** ** Structs *)

Definition sizeof_hdr : Z := KEY_MAX_LEN + VALUE_MAX_LEN.
Definition sizeof_mail : Z := HEADER_MAX_LEN * sizeof_hdr + 4 + BODY_MAX_LEN.

Definition hdr_bytes (h : hdr) : buf := hdr_key h ++ hdr_value h.

Definition mail_bytes (m : mail) : buf :=
  mjoin (hdr_bytes <$> mail_headers m) ++ int_bytes (mail_header_count m) ++ mail_body m.

(** Field access in an object of [sizeof_mail] bytes. *)
Definition hdr_at (b : buf) (k : nat) : hdr :=
  let b' := drop (k * Z.to_nat sizeof_hdr) b in
  Hdr (take (Z.to_nat KEY_MAX_LEN) b')
      (take (Z.to_nat VALUE_MAX_LEN) (drop (Z.to_nat KEY_MAX_LEN) b')).

Definition mail_of_bytes (b : buf) : res mail :=
  n ← load_int b (HEADER_MAX_LEN * sizeof_hdr);
  Ok (Mail (hdr_at b <$> seq 0 (Z.to_nat HEADER_MAX_LEN)) n
       (drop (Z.to_nat (HEADER_MAX_LEN * sizeof_hdr + 4)) b)).

Definition hdr_wf (h : hdr) : Prop :=
  zlen (hdr_key h) = KEY_MAX_LEN ∧ zlen (hdr_value h) = VALUE_MAX_LEN.

Definition mail_wf (m : mail) : Prop :=
  zlen (mail_headers m) = HEADER_MAX_LEN ∧ Forall hdr_wf (mail_headers m) ∧
  is_int (mail_header_count m) ∧ zlen (mail_body m) = BODY_MAX_LEN.

Lemma zlen_hdrs l : Forall hdr_wf l → zlen (mjoin (hdr_bytes <$> l)) = zlen l * sizeof_hdr.
Proof.
  unfold sizeof_hdr. induction 1 as [|h l [Hk Hv] _ IH]; [done|]. csimpl.
  unfold hdr_bytes at 1. autorewrite with zlen. rewrite IH, Hk, Hv. lia.
Qed.

Lemma zlen_mail_bytes m : mail_wf m → zlen (mail_bytes m) = sizeof_mail.
Proof.
  intros (Hn & Hh & _ & Hb). unfold mail_bytes. autorewrite with zlen.
  rewrite zlen_hdrs, Hn, Hb by done. done.
Qed.

Lemma hdr_at_nth l h post k :
  Forall hdr_wf l → l !! k = Some h → hdr_at (mjoin (hdr_bytes <$> l) ++ post) k = h.
Proof.
  intros Hl. revert k. induction Hl as [|h0 l [Hk Hv] Hl IH]; intros [|k]; [done..| |].
  - intros [= ->]. unfold hdr_at. csimpl. rewrite drop_0.
    generalize (mjoin (hdr_bytes <$> l)) as rest. intros rest. unfold hdr_bytes.
    destruct h as [key val]. simpl in *.
    rewrite <-Hk, <-Hv, !zlen_to_nat, <-!app_assoc, take_app_length, drop_app_length.
    by rewrite take_app_length.
  - csimpl. intros Hlk. simpl in Hlk. rewrite <-(IH k Hlk). unfold hdr_at.
    assert (drop (S k * Z.to_nat sizeof_hdr) ((hdr_bytes h0 ++ mjoin (hdr_bytes <$> l)) ++ post) =
      drop (k * Z.to_nat sizeof_hdr) (mjoin (hdr_bytes <$> l) ++ post)) as ->; [|done].
    rewrite <-app_assoc, drop_app_ge by (unfold hdr_bytes, sizeof_hdr in *; zlia).
    f_equal. unfold hdr_bytes, sizeof_hdr in *. zlia.
Qed.

Lemma hdrs_at l post :
  Forall hdr_wf l →
  hdr_at (mjoin (hdr_bytes <$> l) ++ post) <$> seq 0 (length l) = l.
Proof.
  intros Hl. apply list_eq. intros k. rewrite list_lookup_fmap.
  destruct (l !! k) as [h|] eqn:E.
  - rewrite lookup_seq_lt by by eapply lookup_lt_Some.
    simpl. f_equal. by apply hdr_at_nth.
  - rewrite lookup_seq_ge; [done|]. by apply lookup_ge_None_1.
Qed.

(** Reading the fields of a copy of a struct's bytes gives the struct back. *)
Lemma mail_of_bytes_bytes m : mail_wf m → mail_of_bytes (mail_bytes m) = Ok m.
Proof.
  intros (Hn & Hh & Hc & Hb). unfold mail_of_bytes, mail_bytes.
  rewrite load_int_mid; [|done|by rewrite zlen_hdrs, Hn]. rewrite bind_Ok.
  rewrite <-Hn, zlen_to_nat, hdrs_at by done. destruct m as [hs n body]. simpl in *.
  do 2 f_equal. rewrite app_assoc. apply drop_app_length'.
  pose proof (zlen_hdrs _ Hh) as Hz. unfold zlen, sizeof_hdr in *.
  autorewrite with len. lia.
Qed.
