(* ===== verification/Ends.v ===== *)
(** Ends: computations that end whatever their input is.  [ends m Q] says that
    [m] is not stopped by the fuel of a loop, and that its result, when there
    is one, satisfies [Q]; a fault of the program is allowed.  The rules and
    the hints for the operations on memory let [ends_auto] walk through a
    definition. *)
From S2P Require Import Prelude Base Layout.

(** ** The predicate and its rules *)

Definition ends {A} (m : res A) (Q : A → Prop) : Prop :=
  match m with Ok a => Q a | Err f => f ≠ OutOfFuel end.

(** Any result will do. *)
Definition anything {A} (_ : A) : Prop := True.

Lemma ends_Ok {A} (a : A) (Q : A → Prop) : Q a → ends (Ok a) Q.
Proof. done. Qed.

Lemma ends_Err {A} f (Q : A → Prop) : f ≠ OutOfFuel → ends (Err f) Q.
Proof. done. Qed.

Lemma ends_mono {A} (m : res A) (P Q : A → Prop) : ends m P → (∀ a, P a → Q a) → ends m Q.
Proof. destruct m; simpl; auto. Qed.

Lemma ends_bind {A B} (m : res A) (k : A → res B) (P : A → Prop) (Q : B → Prop) :
  ends m P → (∀ a, P a → ends (k a) Q) → ends (m ≫= k) Q.
Proof. destruct m; simpl; auto. Qed.

(** Walking into the first computation, with its continuation. *)
Lemma ends_into {A B} (m : res A) (k : A → res B) (Q : B → Prop) :
  ends m (λ a, ends (k a) Q) → ends (m ≫= k) Q.
Proof. by destruct m. Qed.

Lemma ends_fuel {A} (m : res A) Q : ends m Q → m ≠ Err OutOfFuel.
Proof. by intros H ->. Qed.

Lemma ends_result {A} (m : res A) Q a : ends m Q → m = Ok a → Q a.
Proof. by intros H ->. Qed.

(** A loop with an invariant, and a measure below the fuel that every iteration
    that goes on decreases. *)
Lemma ends_cloop {S} (step : S → res (ctl S)) (I : S → Prop) (m : S → nat) (Q : S → Prop) fuel s :
  (∀ s, I s → ends (step s) (λ c,
     match c with Next s' => I s' ∧ (m s' < m s)%nat | Break s' => Q s' end)) →
  I s → (m s < fuel)%nat → ends (cloop step fuel s) Q.
Proof.
  intros Hstep. revert s. induction fuel as [|fuel IH]; intros s HI Hm; [lia|].
  simpl. eapply ends_bind; [by apply Hstep|].
  intros [s'|s']; [|done]. intros [HI' Hm']. apply IH; [done | lia].
Qed.

(** ** The operations on memory *)

Create HintDb ends.
#[export] Hint Constants Opaque : ends.
#[export] Hint Extern 0 (_ = _) => reflexivity : ends.

Section memory.
Implicit Types (b dst : buf).

Lemma ends_bload b i : ends (bload b i) (λ _, 0 <= i < zlen b).
Proof.
  unfold bload. case_decide; [|done]. destruct (b !! Z.to_nat i) as [[c|]|] eqn:E; [|done..].
  apply lookup_lt_Some in E. simpl. zlia.
Qed.

Lemma ends_bstore b i c : ends (bstore b i c) (λ b', zlen b' = zlen b).
Proof. unfold bstore. case_decide; [|done]. apply zlen_insert. Qed.

Lemma ends_bread b j n : ends (bread b j n) (λ b', zlen b' = n ∧ 0 <= n).
Proof. unfold bread. case_decide; [|done]. simpl. zlia. Qed.

Lemma ends_bwrite b i src : ends (bwrite b i src) (λ b', zlen b' = zlen b).
Proof. unfold bwrite. case_decide; [|done]. simpl. zlia. Qed.

Lemma ends_memcpy dst i src j n : ends (memcpy dst i src j n) (λ b', zlen b' = zlen dst).
Proof.
  unfold memcpy. eapply ends_bind; [apply ends_bread|]. intros s _. apply ends_bwrite.
Qed.

Lemma ends_memcpy_opt dst i (src : option buf) j n : ends (memcpy_opt dst i src j n) (λ b', zlen b' = zlen dst).
Proof. destruct src; [apply ends_memcpy|]. unfold memcpy_opt. by destruct (decide (n = 0)). Qed.

Lemma ends_ptr_add b i : ends (ptr_add b i) (λ b', 0 <= i <= zlen b ∧ zlen b' = zlen b - i).
Proof. unfold ptr_add. case_decide; [|done]. simpl. split; [done | zlia]. Qed.

Lemma ends_cstring b : ends (cstring b) (λ s, zlen s < zlen b).
Proof.
  induction b as [|[c|] b IH]; [done| |done]. unfold cstring; fold cstring. case_decide.
  { unfold zlen. simpl. lia. }
  eapply ends_bind; [exact IH|]. intros s Hs. unfold zlen in *. simpl. lia.
Qed.

Lemma ends_strlen b : ends (strlen b) (λ n, 0 <= n < zlen b).
Proof.
  unfold strlen. eapply ends_bind; [apply ends_cstring|]. intros s Hs.
  pose proof (zlen_nonneg s). simpl in *. lia.
Qed.

Lemma ends_first b : ends (first b) anything.
Proof. by destruct b as [|[c|] b]. Qed.

Lemma ends_strncmp a b n : ends (strncmp_eq a b n) anything.
Proof.
  revert a b. induction n as [|n IH]; intros a b; [done|]. unfold strncmp_eq; fold strncmp_eq.
  eapply ends_bind; [apply ends_first|]. intros c _.
  eapply ends_bind; [apply ends_first|]. intros d _. by repeat case_decide.
Qed.

Lemma ends_strcmp a b : ends (strcmp_eq a b) anything.
Proof.
  revert b. induction a as [|x a IH]; intros b; [done|]. unfold strcmp_eq; fold strcmp_eq.
  eapply ends_bind; [apply ends_first|]. intros c _.
  eapply ends_bind; [apply ends_first|]. intros d _. by repeat case_decide.
Qed.

Lemma ends_i32 z : ends (i32 z) (λ z', z' = z).
Proof. unfold i32. by case_decide. Qed.

Lemma ends_int_rem x y : ends (int_rem x y) anything.
Proof. unfold int_rem. by case_decide. Qed.

Lemma ends_buf_bytes b : ends (buf_bytes b) (λ s, zlen s = zlen b).
Proof.
  induction b as [|[c|] b IH]; [done| |done]. cbn [buf_bytes]. eapply ends_bind; [exact IH|].
  intros s Hs. simpl. by rewrite !zlen_cons, Hs.
Qed.

Lemma ends_load_int b i : ends (load_int b i) anything.
Proof.
  unfold load_int. eapply ends_bind; [apply ends_bread|]. intros m _.
  by eapply ends_bind; [apply ends_buf_bytes|].
Qed.

Lemma ends_store_int b i z : ends (store_int b i z) (λ b', zlen b' = zlen b).
Proof. apply ends_bwrite. Qed.
End memory.

Section pointers.
Context {A : Type}.
Implicit Types (p : ptr A) (l : list A).

Lemma ends_deref p : ends (deref p) (λ a, p = PTo a).
Proof. by destruct p. Qed.

Lemma ends_non_null p : ends (non_null p) (λ b, b = false → p = PNull).
Proof. by destruct p. Qed.

Lemma ends_cfree p : ends (cfree p) (λ p', p' = PFreed ∨ p' = PNull).
Proof. destruct p; simpl; auto. Qed.

Lemma ends_aload l i : ends (aload l i) (λ a, 0 <= i ∧ l !! Z.to_nat i = Some a).
Proof. unfold aload. case_decide; [|done]. by destruct (l !! Z.to_nat i) eqn:E. Qed.

Lemma ends_astore l i a : ends (astore l i a) (λ l', l' = <[Z.to_nat i := a]> l ∧ 0 <= i < zlen l).
Proof. unfold astore. by case_decide. Qed.
End pointers.

#[export] Hint Resolve ends_bload ends_bstore ends_bread ends_bwrite ends_memcpy ends_memcpy_opt
  ends_ptr_add ends_cstring ends_strlen ends_first ends_strncmp ends_strcmp ends_i32 ends_int_rem
  ends_buf_bytes ends_load_int ends_store_int ends_deref ends_non_null ends_cfree ends_aload
  ends_astore : ends.

(** One step: a known operation, a branch, the end; or into a computation. *)
Ltac ends_step :=
  lazymatch goal with
  | |- ends (Ok _) _ => apply ends_Ok
  | |- ends (Err _) _ => apply ends_Err; discriminate
  | |- ends (match ?x with _ => _ end) _ => destruct x eqn:?
  | |- ends (_ ≫= _) _ =>
      first [ eapply ends_bind; [solve [eauto with ends nocore] | intros ? ?]
            | apply ends_into ]
  | |- ends _ _ => eapply ends_mono; [solve [eauto with ends nocore] | intros ? ?]
  end; cbn beta iota zeta in *.
Ltac ends_auto := cbn beta iota zeta; repeat ends_step.
