(* ===== verification/Socket.v ===== *)
(** Socket: the socket calls of [src/src/socket.c], as the sequence of system
    calls that each function makes. *)
From S2P Require Import Prelude Base Layout.

(** ** System calls *)

Inductive sockopt := SO_REUSEADDR | TCP_NODELAY | SO_SNDBUF | SO_RCVBUF | TCP_QUICKACK.

(** A call with its arguments; an option's value is [None] when it is
    indeterminate. *)
Inductive syscall :=
  | SysSocket
  | SysSetsockopt (fd : Z) (opt : sockopt) (value : option Z)
  | SysGetfl (fd : Z)
  | SysSetfl (fd flags : Z)
  | SysBind (fd port : Z)
  | SysListen (fd backlog : Z).

Section calls.
(** What a call returns. *)
Context (ret : syscall → Z).

(** Calls that are made one after the other until one of them fails. *)
Fixpoint try_calls (l : list syscall) : bool * list syscall :=
  match l with
  | [] => (true, [])
  | c :: l' =>
      if decide (ret c = -1) then (false, [c])
      else let '(ok, done) := try_calls l' in (ok, c :: done)
  end.

Definition return_code (r : bool * list syscall) : Z * list syscall := (if r.1 then 0 else -1, r.2).

(** ** The listening socket *)

(** [sock]; [so_fd] is [None] until it is first assigned. *)
Record sock := Sock {
  so_fd : option Z;
  so_listen_port : Z;
  so_serv_addr : buf;
  so_cli_addr : buf;
}.

Definition sizeof_sockaddr_in : Z := 16.

(** [cli_addr] is not assigned. *)
Definition socket_init : sock :=
  Sock None 0 (replicate 16 (Some NUL)) (malloc sizeof_sockaddr_in).

Definition sock_bytes (s : sock) : buf :=
  match so_fd s with Some fd => int_bytes fd | None => malloc 4 end ++ int_bytes (so_listen_port s) ++ int_bytes sizeof_sockaddr_in ++
  so_serv_addr s ++ so_cli_addr s.

(** An [int] of an object, if its bytes are determinate. *)
Definition int_at (b : buf) (off : Z) : option Z :=
  match load_int b off with Ok z => Some z | Err _ => None end.

(** The offsets of the members in [config]. *)
Definition off_read_buffer_size : Z := 20.
Definition off_write_buffer_size : Z := 24.
Definition off_tcp_nodelay : Z := 32.

(** The calls of [socket_setup] and [socket_listen_setup], with the members of
    the [config] object they find. *)
Definition option_calls (fd : Z) (nodelay snd rcv : option Z) : list syscall :=
  [SysSetsockopt fd TCP_NODELAY nodelay; SysSetsockopt fd SO_SNDBUF snd; SysSetsockopt fd SO_RCVBUF rcv].

Definition socket_setup (cfg : config) (fd : Z) : Z * list syscall :=
  return_code (try_calls (option_calls fd (Some (tcp_nodelay cfg)) (Some (write_buffer_size cfg))
    (Some (read_buffer_size cfg)))).

Definition O_NONBLOCK : Z := 2048.

Definition socket_setnonblocking (fd : Z) : list syscall :=
  let flags := if decide (ret (SysGetfl fd) = -1) then 0 else ret (SysGetfl fd) in
  [SysGetfl fd; SysSetfl fd (Z.lor flags O_NONBLOCK)].

(** [socket_listen_setup] of an object at the place of [config]. *)
Definition socket_listen_setup (object : buf) (fd : Z) : Z * list syscall :=
  let r := try_calls (option_calls fd (int_at object off_tcp_nodelay) (int_at object off_write_buffer_size)
    (int_at object off_read_buffer_size)) in
  if r.1 then (0, r.2 ++ socket_setnonblocking fd) else (-1, r.2).

Definition socket_setquickack (fd : Z) : Z * list syscall :=
  return_code (try_calls [SysSetsockopt fd TCP_QUICKACK (Some 0)]).

(** [socket_listen (srv)]: [socket_listen_setup] is given the [server], whose
    member at the place of [config] in [master_server] is [server_socket]. *)
Definition socket_listen (cfg : config) (s : sock) : Z * list syscall :=
  let fd := ret SysSocket in
  if decide (fd = -1) then (-1, [SysSocket])
  else
    let s1 := Sock (Some fd) (so_listen_port s) (so_serv_addr s) (so_cli_addr s) in
    if decide (ret (SysSetsockopt fd SO_REUSEADDR (Some 1)) = -1)
    then (-1, [SysSocket; SysSetsockopt fd SO_REUSEADDR (Some 1)])
    else
      let '(code, l) := socket_listen_setup (sock_bytes s1) fd in
      let l1 := SysSocket :: SysSetsockopt fd SO_REUSEADDR (Some 1) :: l in
      if decide (code = -1) then (-1, l1)
      else if decide (ret (SysBind fd (listen_port cfg)) = -1)
      then (-1, l1 ++ [SysBind fd (listen_port cfg)])
      else if decide (ret (SysListen fd (max_pending cfg)) < 0)
      then (-1, l1 ++ [SysBind fd (listen_port cfg); SysListen fd (max_pending cfg)])
      else (0, l1 ++ [SysBind fd (listen_port cfg); SysListen fd (max_pending cfg)]
              ++ (socket_setquickack fd).2).
End calls.

(** ** What the options are *)

#[local] Transparent int_bytes.

Section options.
Context (ret : syscall → Z) (cfg : config).
Hypothesis (Hret : ∀ c, ret c ≠ -1).

Lemma try_calls_ok l : try_calls ret l = (true, l).
Proof. induction l as [|c l IH]; [done|]. cbn [try_calls]. by rewrite decide_False, IH. Qed.

Lemma sock_options fd :
  let b := sock_bytes (Sock (Some fd) 0 (replicate 16 (Some NUL)) (malloc sizeof_sockaddr_in)) in
  int_at b off_tcp_nodelay = None ∧ int_at b off_write_buffer_size = Some 0 ∧
  int_at b off_read_buffer_size = Some 0.
Proof.
  unfold sock_bytes, int_bytes. cbn [so_fd le_bytes].
  generalize (byte_of fd), (byte_of (fd / 256)), (byte_of (fd / 256 / 256)), (byte_of (fd / 256 / 256 / 256)).
  by vm_compute.
Qed.

(** A connection's socket gets the configured options. *)
Lemma socket_setup_options fd :
  socket_setup ret cfg fd = (0, [
    SysSetsockopt fd TCP_NODELAY (Some (tcp_nodelay cfg));
    SysSetsockopt fd SO_SNDBUF (Some (write_buffer_size cfg));
    SysSetsockopt fd SO_RCVBUF (Some (read_buffer_size cfg))]).
Proof. unfold socket_setup, return_code. by rewrite try_calls_ok. Qed.

(** The listening socket gets buffer sizes of zero and whatever [malloc] left
    in [cli_addr] for [TCP_NODELAY], not the configured values. *)
Lemma socket_listen_options :
  0 <= ret (SysListen (ret SysSocket) (max_pending cfg)) →
  let fd := ret SysSocket in
  socket_listen ret cfg socket_init = (0, [
    SysSocket; SysSetsockopt fd SO_REUSEADDR (Some 1); SysSetsockopt fd TCP_NODELAY None;
    SysSetsockopt fd SO_SNDBUF (Some 0); SysSetsockopt fd SO_RCVBUF (Some 0); SysGetfl fd;
    SysSetfl fd (Z.lor (ret (SysGetfl fd)) O_NONBLOCK); SysBind fd (listen_port cfg);
    SysListen fd (max_pending cfg); SysSetsockopt fd TCP_QUICKACK (Some 0)]).
Proof.
  intros Hlisten fd. destruct (sock_options fd) as (Hn & Hs & Hr).
  unfold socket_listen. fold fd. rewrite decide_False by apply Hret.
  rewrite decide_False by apply Hret. unfold socket_listen_setup.
  cbn [so_listen_port so_serv_addr so_cli_addr socket_init].
  rewrite Hn, Hs, Hr, try_calls_ok. cbn [fst snd]. unfold socket_setnonblocking.
  rewrite !decide_False by (apply Hret || done || (fold fd in Hlisten; lia)).
  unfold socket_setquickack. by rewrite try_calls_ok.
Qed.
End options.
