(* ===== verification/Config.v ===== *)
(** Config: the settings and their file format, [src/src/config_file.c].
    A file is its bytes; [fgets] cuts it into lines of at most 4047 bytes. *)
From S2P Require Import Prelude Base.

(** ** Operations *)

(** [config_load_default (conf)] assigns every field. *)
Definition config_load_default : config := {|
  max_workers := 1;
  max_pending := 128000;
  max_clients := 128000;
  child_stack_size := 128000;
  listen_port := 25;
  server_name := cstr (lit "Comfirm DMARC Server");
  hostname := cstr (lit "dmarc.amail.io");
  daemonize := 1;
  read_buffer_size := 4046;
  write_buffer_size := 131072;
  data_buffer_size := 40000;
  tcp_nodelay := 1;
  chroot := cstr (lit "");
  queue_file := cstr (lit "/tmp/rest-queue");
  queue_size := 100000;
  web_service_url := cstr (lit "http://localhost/");
|}.

Definition config_init : config := config_load_default.

(** [isspace] and [isdigit] of the C locale. *)
Definition is_space (c : byte) : bool := bool_decide (c ∈ [SP; TAB; LF; x0b; x0c; CR]).
Definition is_digit (c : byte) : bool := bool_decide (48 <= bval c <= 57).

Fixpoint skip_spaces (s : list byte) : list byte :=
  match s with
  | c :: s' => if is_space c then skip_spaces s' else s
  | [] => []
  end.

Fixpoint digits (acc : Z) (s : list byte) : Z :=
  match s with
  | c :: s' => if is_digit c then digits (10 * acc + (bval c - 48)) s' else acc
  | [] => acc
  end.

(** [atoi]: undefined when the number is not an [int]. *)
Definition atoi (b : buf) : res Z :=
  s ← cstring b;
  match skip_spaces s with
  | c :: s' =>
      if decide (c = x2d) then i32 (- digits 0 s')
      else if decide (c = x2b) then i32 (digits 0 s') else i32 (digits 0 (c :: s'))
  | [] => Ok 0
  end.

(** [p = malloc (strlen (value) + 1); memcpy (p, value, strlen (value) + 1)] *)
Definition strdup (value : buf) : res buf :=
  n ← strlen value; memcpy (malloc (n + 1)) 0 value 0 (n + 1).

(** The settings by the name a file gives them. *)
Inductive setting :=
  | SInt (set : Z → config → config)
  | SString (set : buf → config → config).

Definition set_listen_port z c := Config z (max_workers c) (max_pending c) (max_clients c)
  (child_stack_size c) (read_buffer_size c) (write_buffer_size c) (data_buffer_size c)
  (tcp_nodelay c) (server_name c) (hostname c) (daemonize c) (chroot c) (queue_file c)
  (queue_size c) (web_service_url c).
Definition set_max_workers z c := Config (listen_port c) z (max_pending c) (max_clients c)
  (child_stack_size c) (read_buffer_size c) (write_buffer_size c) (data_buffer_size c)
  (tcp_nodelay c) (server_name c) (hostname c) (daemonize c) (chroot c) (queue_file c)
  (queue_size c) (web_service_url c).
Definition set_max_pending z c := Config (listen_port c) (max_workers c) z (max_clients c)
  (child_stack_size c) (read_buffer_size c) (write_buffer_size c) (data_buffer_size c)
  (tcp_nodelay c) (server_name c) (hostname c) (daemonize c) (chroot c) (queue_file c)
  (queue_size c) (web_service_url c).
Definition set_max_clients z c := Config (listen_port c) (max_workers c) (max_pending c) z
  (child_stack_size c) (read_buffer_size c) (write_buffer_size c) (data_buffer_size c)
  (tcp_nodelay c) (server_name c) (hostname c) (daemonize c) (chroot c) (queue_file c)
  (queue_size c) (web_service_url c).
Definition set_child_stack_size z c := Config (listen_port c) (max_workers c) (max_pending c)
  (max_clients c) z (read_buffer_size c) (write_buffer_size c) (data_buffer_size c)
  (tcp_nodelay c) (server_name c) (hostname c) (daemonize c) (chroot c) (queue_file c)
  (queue_size c) (web_service_url c).
Definition set_read_buffer_size z c := Config (listen_port c) (max_workers c) (max_pending c)
  (max_clients c) (child_stack_size c) z (write_buffer_size c) (data_buffer_size c)
  (tcp_nodelay c) (server_name c) (hostname c) (daemonize c) (chroot c) (queue_file c)
  (queue_size c) (web_service_url c).
Definition set_write_buffer_size z c := Config (listen_port c) (max_workers c) (max_pending c)
  (max_clients c) (child_stack_size c) (read_buffer_size c) z (data_buffer_size c)
  (tcp_nodelay c) (server_name c) (hostname c) (daemonize c) (chroot c) (queue_file c)
  (queue_size c) (web_service_url c).
Definition set_data_buffer_size z c := Config (listen_port c) (max_workers c) (max_pending c)
  (max_clients c) (child_stack_size c) (read_buffer_size c) (write_buffer_size c) z
  (tcp_nodelay c) (server_name c) (hostname c) (daemonize c) (chroot c) (queue_file c)
  (queue_size c) (web_service_url c).
Definition set_tcp_nodelay z c := Config (listen_port c) (max_workers c) (max_pending c)
  (max_clients c) (child_stack_size c) (read_buffer_size c) (write_buffer_size c)
  (data_buffer_size c) z (server_name c) (hostname c) (daemonize c) (chroot c) (queue_file c)
  (queue_size c) (web_service_url c).
Definition set_server_name b c := Config (listen_port c) (max_workers c) (max_pending c)
  (max_clients c) (child_stack_size c) (read_buffer_size c) (write_buffer_size c)
  (data_buffer_size c) (tcp_nodelay c) b (hostname c) (daemonize c) (chroot c) (queue_file c)
  (queue_size c) (web_service_url c).
Definition set_hostname b c := Config (listen_port c) (max_workers c) (max_pending c)
  (max_clients c) (child_stack_size c) (read_buffer_size c) (write_buffer_size c)
  (data_buffer_size c) (tcp_nodelay c) (server_name c) b (daemonize c) (chroot c) (queue_file c)
  (queue_size c) (web_service_url c).
Definition set_daemonize z c := Config (listen_port c) (max_workers c) (max_pending c)
  (max_clients c) (child_stack_size c) (read_buffer_size c) (write_buffer_size c)
  (data_buffer_size c) (tcp_nodelay c) (server_name c) (hostname c) z (chroot c) (queue_file c)
  (queue_size c) (web_service_url c).
Definition set_chroot b c := Config (listen_port c) (max_workers c) (max_pending c)
  (max_clients c) (child_stack_size c) (read_buffer_size c) (write_buffer_size c)
  (data_buffer_size c) (tcp_nodelay c) (server_name c) (hostname c) (daemonize c) b (queue_file c)
  (queue_size c) (web_service_url c).
Definition set_queue_file b c := Config (listen_port c) (max_workers c) (max_pending c)
  (max_clients c) (child_stack_size c) (read_buffer_size c) (write_buffer_size c)
  (data_buffer_size c) (tcp_nodelay c) (server_name c) (hostname c) (daemonize c) (chroot c) b
  (queue_size c) (web_service_url c).
Definition set_queue_size z c := Config (listen_port c) (max_workers c) (max_pending c)
  (max_clients c) (child_stack_size c) (read_buffer_size c) (write_buffer_size c)
  (data_buffer_size c) (tcp_nodelay c) (server_name c) (hostname c) (daemonize c) (chroot c)
  (queue_file c) z (web_service_url c).
Definition set_web_service_url b c := Config (listen_port c) (max_workers c) (max_pending c)
  (max_clients c) (child_stack_size c) (read_buffer_size c) (write_buffer_size c)
  (data_buffer_size c) (tcp_nodelay c) (server_name c) (hostname c) (daemonize c) (chroot c)
  (queue_file c) (queue_size c) b.

(** The comparisons of [config_save_value], in its order. *)
Definition settings : list (list byte * setting) := [
  (lit "listen-port", SInt set_listen_port);
  (lit "max-workers", SInt set_max_workers);
  (lit "child-stack-size", SInt set_child_stack_size);
  (lit "max-pending", SInt set_max_pending);
  (lit "max-clients", SInt set_max_clients);
  (lit "server-name", SString set_server_name);
  (lit "hostname", SString set_hostname);
  (lit "daemonize", SInt set_daemonize);
  (lit "read-buffer-size", SInt set_read_buffer_size);
  (lit "write-buffer-size", SInt set_write_buffer_size);
  (lit "data-buffer-size", SInt set_data_buffer_size);
  (lit "tcp-nodelay", SInt set_tcp_nodelay);
  (lit "chroot", SString set_chroot);
  (lit "queue-file", SString set_queue_file);
  (lit "queue-size", SInt set_queue_size);
  (lit "web-service-url", SString set_web_service_url)].

(** The chain of [else if (strcmp (key, name) == 0)]. *)
Fixpoint find_setting (l : list (list byte * setting)) (key : buf) : res (option setting) :=
  match l with
  | [] => Ok None
  | (name, s) :: l' =>
      same ← strcmp_eq key (cstr name);
      if same : bool then Ok (Some s) else find_setting l' key
  end.

(** [config_save_value (key, value, conf)]; an unknown key is reported and
    ignored. *)
Definition config_save_value (key value : buf) (conf : config) : res config :=
  s ← find_setting settings key;
  match s with
  | Some (SInt set) => z ← atoi value; Ok (set z conf)
  | Some (SString set) => b ← strdup value; Ok (set b conf)
  | None => Ok conf
  end.

(** [config_copy (dest, source)]: the struct, then the strings it points to. *)
Definition config_copy (dest : ptr config) (source : config) : res (ptr config) :=
  _ ← deref dest;
  d1 ← config_save_value (cstr (lit "server-name")) (server_name source) source;
  d2 ← config_save_value (cstr (lit "hostname")) (hostname source) d1;
  d3 ← config_save_value (cstr (lit "hostname")) (hostname source) d2;
  d4 ← config_save_value (cstr (lit "chroot")) (chroot source) d3;
  d5 ← config_save_value (cstr (lit "queue-file")) (queue_file source) d4;
  d6 ← config_save_value (cstr (lit "web-service-url")) (web_service_url source) d5;
  Ok (PTo d6).

(** The local variables of [config_load] while it reads a line. *)
Record line_st := LineSt {
  ls_key : buf;
  ls_key_len : Z;
  ls_value : buf;
  ls_value_len : Z;
  ls_is_key : bool;
  ls_is_value : bool;
}.

Definition hash : byte := x23.
Definition equals : byte := x3d.

(** The [switch] over the bytes of a line; a comment ends it. *)
Fixpoint config_chars (l : list byte) (s : line_st) : res line_st :=
  match l with
  | [] => Ok s
  | c :: l' =>
      if decide (c = hash) then Ok s
      else if decide (c = equals) then
        if ls_is_key s then
          k ← bstore (ls_key s) (ls_key_len s) NUL;
          config_chars l' (LineSt k (ls_key_len s) (ls_value s) (ls_value_len s) false true)
        else config_chars l' s
      else if decide (c ∈ [TAB; CR; LF]) then config_chars l' s
      else if ls_is_key s then
        if decide (c ≠ SP) then
          k ← bstore (ls_key s) (ls_key_len s) c;
          config_chars l' (LineSt k (ls_key_len s + 1) (ls_value s) (ls_value_len s)
            (ls_is_key s) (ls_is_value s))
        else config_chars l' s
      else if ls_is_value s then
        if decide (c ≠ SP ∨ ls_value_len s ≠ 0) then
          v ← bstore (ls_value s) (ls_value_len s) c;
          config_chars l' (LineSt (ls_key s) (ls_key_len s) v (ls_value_len s + 1)
            (ls_is_key s) (ls_is_value s))
        else config_chars l' s
      else config_chars l' s
  end.

(** One pass of the reading loop; [key] and [value] keep what earlier lines
    left in them. *)
Definition config_line (line : list byte) (key value : buf) (conf : config)
    : res (buf * buf * config) :=
  if decide (1 < zlen line) then
    s ← config_chars line (LineSt key 0 value 0 true false);
    v ← bstore (ls_value s) (ls_value_len s) NUL;
    if decide (0 < ls_key_len s ∧ 0 < ls_value_len s) then
      conf' ← config_save_value (ls_key s) v conf;
      Ok (ls_key s, v, conf')
    else Ok (ls_key s, v, conf)
  else Ok (key, value, conf).

(** [fgets (line, n + 1, file)]: up to [n] bytes, no further than a line feed;
    the rest of the file. *)
Fixpoint fgets (n : nat) (file : list byte) : list byte * list byte :=
  match n, file with
  | O, _ | _, [] => ([], file)
  | S n', c :: file' =>
      if decide (c = LF) then ([c], file')
      else let '(l, rest) := fgets n' file' in (c :: l, rest)
  end.

(** The bytes of a line up to its first NUL: what [strlen] counts. *)
Fixpoint until_nul (s : list byte) : list byte :=
  match s with
  | c :: s' => if decide (c = NUL) then [] else c :: until_nul s'
  | [] => []
  end.

Definition LINE_MAX : nat := 4047.

Fixpoint config_lines (fuel : nat) (file : list byte) (key value : buf) (conf : config)
    : res config :=
  match fuel with
  | O => Err OutOfFuel
  | S fuel' =>
      match file with
      | [] => Ok conf
      | _ =>
          let '(line, rest) := fgets LINE_MAX file in
          r ← config_line (until_nul line) key value conf;
          let '(key', value', conf') := r in config_lines fuel' rest key' value' conf'
      end
  end.

(** [config_load (filename, conf)]: [None] is a file that cannot be opened. *)
Definition config_load (file : option (list byte)) (conf : config) : res (Z * config) :=
  match file with
  | None => Ok (-1, conf)
  | Some bytes =>
      conf' ← config_lines (S (length bytes)) bytes (malloc 512) (malloc 4096) conf;
      Ok (0, conf')
  end.

(** ** Numbers *)

Lemma is_digit_char c : is_digit c = true → is_space c = false ∧ c ≠ x2d ∧ c ≠ x2b.
Proof.
  intros Hc. split_and!; [|by intros ->..]. destruct (is_space c) eqn:E; [|done].
  apply bool_decide_eq_true in E. revert Hc. repeat (apply elem_of_cons in E as [->|E]; [done|]). by apply elem_of_nil in E.
Qed.

Lemma is_digit_digit n : is_digit (digit (n mod 10)) = true.
Proof.
  pose proof (Z.mod_pos_bound n 10 ltac:(done)). unfold is_digit. rewrite bval_digit by done.
  apply bool_decide_true. lia.
Qed.

Lemma decimal_digits_head fuel n acc :
  ∃ c s, decimal_digits (S fuel) n acc = c :: s ∧ is_digit c = true.
Proof.
  revert n acc. induction fuel as [|fuel IH]; intros n acc; cbn [decimal_digits]; case_decide;
    try by (do 2 eexists; split; [reflexivity | apply is_digit_digit]).
  apply IH.
Qed.

Lemma digits_decimal fuel n acc :
  0 <= n < 10 ^ Z.of_nat fuel → digits 0 (decimal_digits fuel n acc) = digits n acc.
Proof.
  revert n acc. induction fuel as [|fuel IH]; intros n acc Hn.
  { cbn [decimal_digits]. f_equal. simpl in Hn. lia. }
  cbn [decimal_digits]. pose proof (Z.mod_pos_bound n 10 ltac:(done)) as Hm.
  rewrite Nat2Z.inj_succ, Z.pow_succ_r in Hn by lia. case_decide.
  - cbn [digits]. rewrite is_digit_digit, bval_digit by done. f_equal. rewrite Z.mod_small; lia.
  - rewrite IH by (split; [apply Z.div_pos; lia | apply Z.div_lt_upper_bound; lia]).
    cbn [digits]. rewrite is_digit_digit, bval_digit by done. f_equal.
    pose proof (Z.div_mod n 10 ltac:(done)). lia.
Qed.

(** [atoi] reads back what [sprintf] of [%d] wrote. *)
Lemma atoi_decimal z junk : INT_MIN <= z <= INT_MAX → atoi (cstr (decimal z) ++ junk) = Ok z.
Proof.
  intros Hz. unfold atoi, cstr. rewrite <-app_assoc. cbn [app].
  rewrite cstring_bs, bind_Ok by apply nonul_decimal.
  unfold decimal. unfold INT_MIN, INT_MAX in Hz. case_decide.
  - change (skip_spaces (x2d :: decimal_digits 10 (- z) [])) with (x2d :: decimal_digits 10 (- z) []).
    cbn iota beta. rewrite decide_True, digits_decimal by (done || lia). cbn [digits].
    rewrite Z.opp_involutive. apply i32_ok. unfold INT_MIN, INT_MAX. lia.
  - destruct (decimal_digits_head 9 z []) as (c & s & E & Hc).
    pose proof (digits_decimal 10 z [] ltac:(lia)) as Hd. rewrite E in Hd |- *.
    destruct (is_digit_char c Hc) as (Hs & H1 & H2). cbn [skip_spaces]. rewrite Hs.
    rewrite !decide_False by done. rewrite Hd. apply i32_ok. unfold INT_MIN, INT_MAX. cbn [digits]. lia.
Qed.

(** ** Settings files *)

(** A line of a file: a setting "key = value", or a comment. *)
Inductive entry :=
  | Setting (k v : list byte)
  | Comment (text : list byte).

Definition entry_line (e : entry) : list byte :=
  match e with
  | Setting k v => k ++ lit " = " ++ v
  | Comment text => hash :: text
  end.

Definition settings_file (l : list entry) : list byte := concat ((λ e, entry_line e ++ [LF]) <$> l).

Definition key_char (c : byte) : Prop := c ∉ [hash; equals; TAB; CR; LF; SP; NUL].
Definition val_char (c : byte) : Prop := c ∉ [hash; TAB; CR; LF; NUL].

(** What is kept of a value: all but the equals signs. *)
Definition kept_value (v : list byte) : list byte := filter (λ c, c ≠ equals) v.

Definition entry_ok (e : entry) : Prop :=
  zlen (entry_line e) <= 4046 ∧
  match e with
  | Setting k v =>
      k ≠ [] ∧ Forall key_char k ∧ zlen k <= 511 ∧ Forall val_char v ∧
      kept_value v ≠ [] ∧ head (kept_value v) ≠ Some SP
  | Comment text => Forall (λ c, c ∉ [LF; NUL]) text
  end.
#[global] Instance key_char_dec c : Decision (key_char c).
Proof. unfold key_char. apply _. Defined.
#[global] Instance val_char_dec c : Decision (val_char c).
Proof. unfold val_char. apply _. Defined.
#[global] Instance entry_ok_dec e : Decision (entry_ok e).
Proof. destruct e; unfold entry_ok; apply _. Defined.

(** Saving the entries one after the other. *)
Fixpoint save_entries (l : list entry) (conf : config) : res config :=
  match l with
  | [] => Ok conf
  | Setting k v :: l' => c ← config_save_value (cstr k) (cstr (kept_value v)) conf; save_entries l' c
  | Comment _ :: l' => save_entries l' conf
  end.

(** Only the strings matter to [config_save_value]. *)
Lemma find_setting_string l k post :
  nonul k → Forall (λ s, nonul s.1) l → find_setting l (bs k ++ Some NUL :: post) = find_setting l (cstr k).
Proof.
  intros Hk. induction 1 as [|[name s] l Hn _ IH]; [done|]. cbn [find_setting]. unfold cstr.
  rewrite !strcmp_cstr by done. rewrite !bind_Ok. destruct (bool_decide _); [done | exact IH].
Qed.

Lemma strdup_string v post : nonul v → strdup (bs v ++ Some NUL :: post) = Ok (cstr v).
Proof.
  intros Hv. unfold strdup. rewrite strlen_bs, bind_Ok by done. unfold memcpy.
  change (Some NUL :: post) with (bs [NUL] ++ post). rewrite app_assoc, <-bs_app.
  rewrite bread_bs, bind_Ok by zlia. rewrite bwrite_start by zlia.
  rewrite drop_ge by zlia. by rewrite app_nil_r, bs_app.
Qed.

Lemma config_save_value_string k v post post' conf :
  nonul k → nonul v →
  config_save_value (bs k ++ Some NUL :: post) (bs v ++ Some NUL :: post') conf =
    config_save_value (cstr k) (cstr v) conf.
Proof.
  intros Hk Hv. unfold config_save_value.
  rewrite find_setting_string by (done || by_compute || (repeat constructor; by_compute)).
  destruct (find_setting settings (cstr k)) as [[[set|set]|]|]; [| |done|done]; rewrite !bind_Ok.
  - unfold atoi, cstr. by rewrite !cstring_bs.
  - unfold cstr. by rewrite !strdup_string.
Qed.

(** Reading a key: its bytes are stored one after the other. *)
Lemma config_chars_key k rest out junk val vl iv :
  Forall key_char k → (length k < length junk)%nat →
  ∃ junk', config_chars (k ++ rest) (LineSt (bs out ++ junk) (zlen out) val vl true iv) =
    config_chars rest (LineSt (bs (out ++ k) ++ junk') (zlen (out ++ k)) val vl true iv) ∧
    (length junk' + length k = length junk)%nat.
Proof.
  intros Hk. revert out junk. induction Hk as [|c k Hc _ IH]; intros out junk Hj.
  { exists junk. rewrite app_nil_r. split; [done | simpl; lia]. }
  cbn [length] in Hj. destruct junk as [|x junk]; [simpl in Hj; lia|]. cbn [length] in Hj.
  unfold key_char in Hc. cbn [app config_chars].
  rewrite !decide_False by in_list. cbn [ls_is_key ls_key ls_key_len ls_value ls_value_len ls_is_value].
  rewrite decide_True by in_list. rewrite bstore_mid, bind_Ok by by rewrite zlen_bs.
  destruct (IH (out ++ [c]) junk ltac:(lia)) as (junk' & E & Hl). exists junk'.
  replace (bs out ++ Some c :: junk) with (bs (out ++ [c]) ++ junk) by by rewrite bs_app, <-app_assoc.
  replace (zlen out + 1) with (zlen (out ++ [c])) by zlia. rewrite E, <-app_assoc. split; [done | simpl; lia].
Qed.

Lemma head_app_ne {A} (a b : list A) : a ≠ [] → head (a ++ b) = head a.
Proof. by destruct a. Qed.

(** Reading a value: equals signs are passed over. *)
Lemma config_chars_value v rest key kl out junk :
  Forall val_char v → (length v < length junk)%nat → head (out ++ kept_value v) ≠ Some SP →
  ∃ junk', config_chars (v ++ rest) (LineSt key kl (bs out ++ junk) (zlen out) false true) =
    config_chars rest (LineSt key kl (bs (out ++ kept_value v) ++ junk') (zlen (out ++ kept_value v)) false true) ∧
    (length junk' + length (kept_value v) = length junk)%nat.
Proof.
  intros Hv. revert out junk. induction Hv as [|c v Hc _ IH]; intros out junk Hj Hh.
  { exists junk. rewrite app_nil_r. split; [done | simpl; lia]. }
  cbn [length] in Hj. unfold val_char in Hc. cbn [app config_chars].
  rewrite (decide_False (P := c = hash)) by in_list.
  assert (kept_value (c :: v) = if decide (c ≠ equals) then c :: kept_value v else kept_value v) as Hkv
    by (unfold kept_value; by rewrite filter_cons).
  destruct (decide (c = equals)) as [->|He].
  { rewrite decide_False in Hkv by tauto. rewrite Hkv in *. apply IH; [lia | done]. }
  rewrite decide_True in Hkv by done. rewrite Hkv in *.
  rewrite decide_False by in_list. cbn [ls_is_key ls_key ls_key_len ls_value ls_value_len ls_is_value].
  rewrite decide_True.
  2:{ destruct out as [|d out]; [left; intros ->; by apply Hh | right; rewrite zlen_cons; pose proof (zlen_nonneg out); lia]. }
  destruct junk as [|x junk]; [simpl in Hj; lia|]. cbn [length] in Hj.
  rewrite bstore_mid, bind_Ok by by rewrite zlen_bs.
  destruct (IH (out ++ [c]) junk ltac:(lia) ltac:(by rewrite <-app_assoc)) as (junk' & E & Hl). exists junk'.
  replace (bs out ++ Some c :: junk) with (bs (out ++ [c]) ++ junk) by by rewrite bs_app, <-app_assoc.
  replace (zlen out + 1) with (zlen (out ++ [c])) by zlia. rewrite E, <-app_assoc. split; [done | simpl; lia].
Qed.

(** ** Reading a written file *)

Lemma until_nul_nonul s : nonul s → until_nul s = s.
Proof.
  induction s as [|c s IH]; [done|]. rewrite nonul_cons. intros [Hc Hs]. cbn [until_nul].
  by rewrite decide_False, IH.
Qed.

Lemma fgets_line n s rest :
  Forall (λ c, c ≠ LF) s → (length s < n)%nat → fgets n (s ++ LF :: rest) = (s ++ [LF], rest).
Proof.
  intros Hs. revert n. induction Hs as [|c s Hc _ IH]; intros [|n] Hn; cbn [length] in Hn; try lia.
  - cbn [app fgets]. by rewrite decide_True.
  - cbn [app fgets]. rewrite decide_False by done. rewrite IH by lia. done.
Qed.

Lemma entry_line_chars e : entry_ok e → Forall (λ c, c ∉ [LF; NUL]) (entry_line e).
Proof.
  intros [_ He]. destruct e as [k v|text]; cbn [entry_line].
  - destruct He as (_ & Hk & _ & Hv & _). rewrite !Forall_app. repeat split.
    + eapply Forall_impl; [exact Hk|]. intros c Hc. unfold key_char in Hc. in_list.
    + by_compute.
    + eapply Forall_impl; [exact Hv|]. intros c Hc. unfold val_char in Hc. in_list.
  - constructor; [by_compute | done].
Qed.

Lemma nonul_chars (P : byte → Prop) s : (∀ c, P c → c ≠ NUL) → Forall P s → nonul s.
Proof. intros HP Hs. unfold nonul. eapply Forall_impl; [exact Hs | done]. Qed.

(** The bytes between key and value, and the line feed. *)
Lemma config_chars_equals rest k junk val :
  junk ≠ [] →
  ∃ junk', config_chars (lit " = " ++ rest) (LineSt (bs k ++ junk) (zlen k) val 0 true false) =
    config_chars rest (LineSt (bs k ++ Some NUL :: junk') (zlen k) val 0 false true) ∧
    (S (length junk') = length junk)%nat.
Proof.
  intros Hj. destruct junk as [|x junk]; [done|]. exists junk. split; [|done].
  change (lit " = " ++ rest) with (SP :: equals :: SP :: rest). cbn [config_chars].
  rewrite !(decide_False (P := SP ∈ [TAB; CR; LF])) by in_list.
  rewrite !(decide_False (P := SP = hash)), !(decide_False (P := SP = equals)) by done.
  rewrite (decide_False (P := equals = hash)), (decide_True (P := equals = equals)) by done.
  cbn [ls_is_key ls_key ls_key_len ls_value ls_value_len ls_is_value].
  rewrite (decide_False (P := SP ≠ SP)) by tauto. cbn [ls_is_key ls_key ls_key_len ls_value ls_value_len ls_is_value].
  rewrite bstore_mid, bind_Ok by by rewrite zlen_bs.
  cbn [ls_is_key ls_key ls_key_len ls_value ls_value_len ls_is_value].
  by rewrite (decide_False (P := SP ≠ SP ∨ 0 ≠ 0)) by (intros [H|H]; by apply H).
Qed.

Lemma config_chars_setting k v key val :
  Forall key_char k → zlen k < zlen key → Forall val_char v → zlen v < zlen val →
  head (kept_value v) ≠ Some SP →
  ∃ jk jv, config_chars (k ++ lit " = " ++ v ++ [LF]) (LineSt key 0 val 0 true false) =
      Ok (LineSt (bs k ++ Some NUL :: jk) (zlen k) (bs (kept_value v) ++ jv) (zlen (kept_value v)) false true) ∧
    zlen k + 1 + zlen jk = zlen key ∧ zlen (kept_value v) + zlen jv = zlen val.
Proof.
  intros Hk Hkl Hv Hvl Hh. unfold zlen in Hkl, Hvl.
  destruct (config_chars_key k (lit " = " ++ v ++ [LF]) [] key val 0 false Hk ltac:(lia)) as (j1 & E1 & L1).
  destruct (config_chars_equals (v ++ [LF]) k j1 val) as (j2 & E2 & L2).
  { intros ->. simpl in L1. lia. }
  destruct (config_chars_value v [LF] (bs k ++ Some NUL :: j2) (zlen k) [] val Hv ltac:(lia) Hh) as (j3 & E3 & L3).
  exists j2, j3. change (bs [] ++ key) with key in E1. change (zlen []) with 0 in E1, E3.
  change (bs [] ++ val) with val in E3. cbn [app] in E1, E3.
  rewrite E1, E2, E3. split; [done | unfold zlen; lia].
Qed.

Lemma kept_value_length v : zlen (kept_value v) <= zlen v.
Proof. unfold zlen, kept_value. pose proof (length_filter (λ c, c ≠ equals) v). lia. Qed.

(** The arrays [key] and [value] keep their sizes. *)
Definition line_bufs (key value : buf) : Prop := zlen key = 512 ∧ zlen value = 4096.

Lemma config_line_setting k v key value conf :
  entry_ok (Setting k v) → line_bufs key value →
  ∃ key' value', line_bufs key' value' ∧
    config_line (entry_line (Setting k v) ++ [LF]) key value conf =
      (c ← save_entries [Setting k v] conf; Ok (key', value', c)).
Proof.
  intros (Hlen & Hk0 & Hk & Hkl & Hv & Hv0 & Hh) [Lk Lv]. cbn [entry_line] in *.
  assert (zlen v <= 4046) as Hvl by (autorewrite with zlen in Hlen; pose proof (zlen_nonneg k); unfold lit in Hlen; zlia).
  pose proof (kept_value_length v) as Hkv.
  assert (0 < zlen k) by (destruct k; [done | zlia]).
  assert (0 < zlen (kept_value v)) by (destruct (kept_value v); [done | zlia]).
  destruct (config_chars_setting k v key value) as (jk & jv & E & L1 & L2); try done; try lia.
  destruct jv as [|x jv]; [rewrite zlen_nil in L2; lia|].
  exists (bs k ++ Some NUL :: jk), (bs (kept_value v) ++ Some NUL :: jv).
  split; [unfold line_bufs; autorewrite with zlen in *; lia|].
  unfold config_line. rewrite decide_True by zlia.
  rewrite <-!app_assoc, E, bind_Ok. cbn [ls_key ls_key_len ls_value ls_value_len].
  rewrite bstore_mid, bind_Ok by by rewrite zlen_bs. rewrite decide_True by done.
  rewrite config_save_value_string.
  - cbn [save_entries]. by destruct (config_save_value (cstr k) (cstr (kept_value v)) conf).
  - apply (nonul_chars key_char); [intros c; unfold key_char; in_list | done].
  - apply (nonul_chars val_char); [intros c; unfold val_char; in_list|].
    unfold kept_value. rewrite Forall_forall in Hv |- *. intros c [_ Hc]%list_elem_of_filter. by apply Hv.
Qed.

Lemma config_line_comment text key value conf :
  line_bufs key value →
  ∃ key' value', line_bufs key' value' ∧
    config_line (entry_line (Comment text) ++ [LF]) key value conf = Ok (key', value', conf).
Proof.
  intros [Lk Lv]. destruct value as [|x value]; [done|]. exists key, (Some NUL :: value).
  split; [split; [done | rewrite <-Lv; zlia]|].
  unfold config_line. rewrite decide_True by (cbn [entry_line]; zlia).
  cbn [entry_line app config_chars]. rewrite decide_True, bind_Ok by done.
  cbn [ls_key ls_key_len ls_value ls_value_len].
  rewrite (bstore_mid [] x NUL value) by done. rewrite bind_Ok.
  by rewrite decide_False by lia.
Qed.

Lemma config_line_entry e key value conf :
  entry_ok e → line_bufs key value →
  ∃ key' value', line_bufs key' value' ∧
    config_line (entry_line e ++ [LF]) key value conf =
      (c ← save_entries [e] conf; Ok (key', value', c)).
Proof.
  intros He Hb. destruct e as [k v|text]; [by apply config_line_setting|].
  destruct (config_line_comment text key value conf Hb) as (k' & v' & Hb' & E). by exists k', v'.
Qed.

Lemma save_entries_cons e l conf :
  save_entries (e :: l) conf = (c ← save_entries [e] conf; save_entries l c).
Proof. destruct e as [k v|]; [|done]. cbn [save_entries]. by destruct (config_save_value _ _ conf). Qed.

Lemma settings_file_cons e l : settings_file (e :: l) = entry_line e ++ LF :: settings_file l.
Proof. unfold settings_file. cbn [fmap list_fmap concat]. by rewrite <-app_assoc. Qed.

Lemma config_lines_entries l fuel key value conf :
  Forall entry_ok l → line_bufs key value → (length (settings_file l) < fuel)%nat →
  config_lines fuel (settings_file l) key value conf = save_entries l conf.
Proof.
  intros Hl. revert fuel key value conf.
  induction Hl as [|e l He _ IH]; intros [|fuel] key value conf Hb Hf; try lia; [done|].
  pose proof (entry_line_chars e He) as Hc. pose proof (proj1 He) as Hlen. unfold zlen in Hlen.
  rewrite settings_file_cons in *. rewrite length_app in Hf. cbn [length] in Hf.
  assert (fgets LINE_MAX (entry_line e ++ LF :: settings_file l) = (entry_line e ++ [LF], settings_file l)) as Hg.
  { apply fgets_line; [eapply Forall_impl; [exact Hc|]; cbn beta; intros c ?; in_list | unfold LINE_MAX; lia]. }
  destruct (entry_line e ++ LF :: settings_file l) as [|c file] eqn:E; [by destruct (entry_line e)|].
  cbn [config_lines]. rewrite Hg, until_nul_nonul.
  2:{ apply nonul_app; split; [|by_compute].
      apply (nonul_chars (λ c, c ∉ [LF; NUL])); [cbn beta; intros d; in_list | done]. }
  destruct (config_line_entry e key value conf He Hb) as (k' & v' & Hb' & ->).
  rewrite (save_entries_cons e l). destruct (save_entries [e] conf) as [c'|]; [|done].
  rewrite !bind_Ok. apply IH; [done | lia].
Qed.

(** C31: Reading a settings file.  For a file written as settings "key = value"
    and comment lines, each of at most 4046 bytes, [config_load] stays inside
    its arrays, ends, and does to the configuration exactly what saving the
    settings one after the other does - with every equals sign removed from
    the values. *)
Theorem config_load_file l conf :
  Forall entry_ok l →
  config_load (Some (settings_file l)) conf = (c ← save_entries l conf; Ok (0, c)).
Proof.
  intros Hl. unfold config_load. rewrite config_lines_entries; [done | done | | lia].
  split; unfold zlen; vm_compute; reflexivity.
Qed.

Definition ex_settings : list entry := [
  Comment (lit " workers"); Setting (lit "max-workers") (lit "2");
  Setting (lit "web-service-url") (lit "http://x/?a=b")].

Lemma config_load_file_witness :
  Forall entry_ok ex_settings ∧
  ∃ c, config_load (Some (settings_file ex_settings)) config_load_default = Ok (0, c) ∧
    max_workers c = 2 ∧ web_service_url c = cstr (lit "http://x/?ab").
Proof.
  assert (Forall entry_ok ex_settings) as H by by_compute. split; [exact H|].
  rewrite (config_load_file ex_settings config_load_default H).
  eexists. split; [vm_compute; reflexivity | split; reflexivity].
Defined.
