(* ===== verification/Response.v ===== *)
(** Response: the growing output buffer of a connection, [src/src/response.c]. *)
From S2P Require Import Prelude Base Layout.

(** ** Operations *)

Definition response_init : response := Response 0 0 None.

(** [response_append (resp, data)]; [data] points to a NUL-terminated string. *)
Definition response_append (resp : response) (data : buf) : res response :=
  l ← strlen data;
  let data_len := to_int l in
  need ← i32 (resp_data_len resp + data_len + 1);
  r ← (if decide (resp_data_alloc resp <= need) then
         data_alloc ← i32 (resp_data_len resp + data_len + 512);
         tmp ← memcpy_opt (malloc data_alloc) 0 (resp_data resp) 0 (resp_data_len resp);
         Ok (Response data_alloc (resp_data_len resp) (Some tmp))
       else Ok resp);
  match resp_data r with
  | None => Err NullDeref
  | Some d =>
      d' ← memcpy d (resp_data_len r) data 0 (data_len + 1);
      len' ← i32 (resp_data_len r + data_len);
      Ok (Response (resp_data_alloc r) len' (Some d'))
  end.

Definition response_free (p : ptr response) : res (ptr response) :=
  _ ← deref p; cfree p.

(** [get_param_from_storage (st, id, type)]: libjson's storage is a parameter;
    its nodes have a type and a value. *)
Section storage.
Context {storage snode value : Type}
  (storage_exists : storage → buf → Z → Z) (storage_get_node : storage → buf → Z → ptr snode)
  (node_type : snode → byte) (node_value : snode → value).

Definition get_param_from_storage (st : storage) (id : buf) (type : byte) : res (option value) :=
  n ← strlen id;
  if decide (storage_exists st id n = 0) then
    n2 ← strlen id;
    val ← deref (storage_get_node st id n2);
    Ok (if decide (node_type val = type) then Some (node_value val) else None)
  else Ok None.

(** With a storage whose existing nodes can be got, a string's parameter of the
    right type is found, and nothing else. *)
Lemma get_param_from_storage_ok (get : storage → list byte → option snode) st id s type :
  (∀ b t, cstring b = Ok t → (storage_exists st b (zlen t) = 0 ↔ is_Some (get st t))) →
  (∀ b t v, cstring b = Ok t → get st t = Some v → storage_get_node st b (zlen t) = PTo v) →
  cstring id = Ok s →
  get_param_from_storage st id type =
    Ok (v ← get st s; if decide (node_type v = type) then Some (node_value v) else None).
Proof.
  intros He Hg Hid. unfold get_param_from_storage, strlen. rewrite Hid, !bind_Ok.
  destruct (get st s) as [v|] eqn:E.
  - rewrite decide_True by (apply (He id s Hid); by exists v).
    by rewrite (Hg id s v Hid E).
  - rewrite decide_False; [done|]. intros [v Hv]%(He id s Hid). congruence.
Qed.
End storage.

(** [sprintf (..., "%2.2x", c)] of a byte. *)
Definition hex_digit (d : Z) : byte := byte_of (if decide (d < 10) then 48 + d else 87 + d).
Definition hex2 (c : byte) : list byte := [hex_digit (bval c / 16); hex_digit (bval c mod 16)].

(** The loop of [response_build_uuid]: [i] goes down to 0. *)
Fixpoint uuid_loop (uuid : buf) (n : nat) (suuid : buf) (suuid_len : Z) : res (buf * Z) :=
  match n with
  | O => Ok (suuid, suuid_len)
  | S i =>
      c ← bload uuid (Z.of_nat i);
      s ← bwrite suuid suuid_len (cstr (hex2 c));
      let len := suuid_len + 2 in
      if decide (16 - Z.of_nat i ∈ [4; 6; 8; 10])
      then s' ← bstore s len x2d; uuid_loop uuid i s' (len + 1)
      else uuid_loop uuid i s len
  end.

Definition response_build_uuid (lo hi : Z) : res buf :=
  u1 ← bwrite (malloc 16) 0 (long_bytes lo);
  uuid ← bwrite u1 8 (long_bytes hi);
  r ← uuid_loop uuid 16 (malloc 37) 0;
  bstore r.1 r.2 NUL.

(** ** What a response holds *)

(** [resp_rep r s]: the buffer of [r] is allocated as its fields say and holds
    the string [s], NUL-terminated. *)
Definition resp_rep (r : response) (s : list byte) : Prop :=
  resp_data_len r = zlen s ∧
  match resp_data r with
  | None => s = [] ∧ resp_data_alloc r = 0
  | Some d => ∃ rest, d = bs s ++ Some NUL :: rest ∧ resp_data_alloc r = zlen d
  end.

Lemma response_init_rep : resp_rep response_init [].
Proof. done. Qed.

(** Appending within the [int] range neither faults nor loses a byte. *)
Lemma response_append_rep r s t :
  resp_rep r s → nonul t → zlen s + zlen t + 512 <= INT_MAX →
  wp (response_append r (cstr t)) (λ r', resp_rep r' (s ++ t)).
Proof.
  intros [Hlen Hd] Ht Hmax. unfold INT_MAX in *.
  unfold response_append. rewrite strlen_cstr by done. rewrite bind_Ok.
  rewrite to_int_small by (unfold INT_MIN, INT_MAX; zlia).
  rewrite Hlen. int_ok. apply wp_bind.
  apply (wp_mono _ (λ r0, resp_data_len r0 = zlen s ∧ ∃ d rest, resp_data r0 = Some d ∧
    d = bs s ++ rest ∧ resp_data_alloc r0 = zlen d ∧ zlen t + 1 <= zlen rest)).
  - case_decide as Hgrow.
    + assert (memcpy_opt (malloc (zlen s + zlen t + 512)) 0 (resp_data r) 0 (zlen s) =
        Ok (bs s ++ drop (length s) (malloc (zlen s + zlen t + 512)))) as ->.
      { destruct (resp_data r) as [d|]; simpl.
        - destruct Hd as (rest & -> & _). unfold memcpy.
          rewrite bread_bs by done. rewrite bind_Ok.
          rewrite bwrite_start by (rewrite zlen_malloc; zlia).
          by rewrite length_bs.
        - by destruct Hd as [-> _]. }
      rewrite bind_Ok. simpl. split; [done|]. do 2 eexists.
      split_and!; [done | done | |]; unfold malloc; simpl; zlia.
    + simpl. split; [done|]. destruct (resp_data r) as [d|]; [|zlia].
      destruct Hd as (rest & -> & Hal). do 2 eexists.
      split_and!; [done | done | done | zlia].
  - intros r0 (Hlen0 & d & rest & -> & -> & Hal & Hroom).
    unfold memcpy. rewrite bread_all by (rewrite zlen_cstr; done). rewrite bind_Ok.
    rewrite bwrite_end; [|rewrite Hlen0; zlia|zlia]. rewrite bind_Ok.
    rewrite Hlen0. int_ok. simpl. split; [simpl; zlia|]. simpl. eexists.
    split; [unfold cstr; by rewrite bs_app, <-!app_assoc|].
    rewrite Hal. zlia.
Qed.

(** ** UUIDs *)

(** The sixteen bytes, most significant first, in groups of 4, 2, 2, 2 and 6. *)
Definition uuid_text (l : list byte) : list byte :=
  let hex k m := mjoin (hex2 <$> take m (drop k l)) in
  hex 0%nat 4%nat ++ x2d :: hex 4%nat 2%nat ++ x2d :: hex 6%nat 2%nat ++ x2d :: hex 8%nat 2%nat ++ x2d :: hex 10%nat 6%nat.

#[local] Transparent long_bytes.

Lemma bytes16 (l : list byte) : length l = 16%nat →
  ∃ a0 a1 a2 a3 a4 a5 a6 a7 b0 b1 b2 b3 b4 b5 b6 b7,
    l = [a0; a1; a2; a3; a4; a5; a6; a7; b0; b1; b2; b3; b4; b5; b6; b7].
Proof. intros H. do 16 (destruct l as [|? l]; [discriminate H|]). destruct l; [|discriminate H]. by do 16 eexists. Qed.

(** What the loop writes for the bytes below [n]. *)
Fixpoint uuid_chars (l : list byte) (n : nat) : list byte :=
  match n with
  | O => []
  | S i => hex2 (nth i l NUL) ++ (if decide (16 - Z.of_nat i ∈ [4; 6; 8; 10]) then [x2d] else []) ++ uuid_chars l i
  end.

Lemma uuid_loop_chars l n out junk :
  (n <= length l)%nat → zlen (uuid_chars l n) + 1 <= zlen junk →
  ∃ junk', uuid_loop (bs l) n (bs out ++ junk) (zlen out) =
      Ok (bs (out ++ uuid_chars l n) ++ junk', zlen (out ++ uuid_chars l n)) ∧
    zlen junk' = zlen junk - zlen (uuid_chars l n).
Proof.
  revert out junk. induction n as [|n IH]; intros out junk Hl Hj.
  { exists junk. cbn [uuid_loop uuid_chars length]. rewrite app_nil_r. split; [done | zlia]. }
  cbn [uuid_loop uuid_chars] in *. set (c := nth n l NUL) in *.
  assert (bload (bs l) (Z.of_nat n) = Ok c) as ->.
  { rewrite <-(app_nil_r (bs l)). apply bload_bs; [lia|]. rewrite Nat2Z.id. unfold c. rewrite nth_lookup.
    by destruct (lookup_lt_is_Some_2 l n) as [x ->]. }
  assert (zlen (hex2 c) = 2) as Hh by done. pose proof (zlen_nonneg (uuid_chars l n)).
  rewrite bind_Ok.
  destruct (decide (16 - Z.of_nat n ∈ [4; 6; 8; 10])); rewrite !zlen_app, Hh in Hj.
  all: change (zlen [x2d]) with 1 in *; change (zlen (@nil byte)) with 0 in *.
  all: rewrite bwrite_end, bind_Ok by (done || (unfold cstr; zlia)).
  all: replace (length (cstr (hex2 c))) with 3%nat by done.
  all: replace (bs out ++ cstr (hex2 c) ++ drop 3 junk) with (bs (out ++ hex2 c) ++ Some NUL :: drop 3 junk)
    by (unfold cstr; by rewrite bs_app, <-!app_assoc).
  - rewrite (bstore_mid (bs (out ++ hex2 c))), bind_Ok by zlia.
    destruct (IH (out ++ hex2 c ++ [x2d]) (drop 3 junk)) as (j & E & Hz); [lia | |].
    { zlia. }
    exists j. rewrite !zlen_app, Hh in E |- *. change (zlen [x2d]) with 1 in *.
    replace (zlen out + 2 + 1) with (zlen out + (2 + 1)) by lia.
    replace (bs (out ++ hex2 c) ++ Some x2d :: drop 3 junk) with (bs (out ++ hex2 c ++ [x2d]) ++ drop 3 junk)
      by (by rewrite !bs_app, <-!app_assoc).
    rewrite E, <-!app_assoc. split; [apply (f_equal Ok), f_equal; zlia | zlia].
  - destruct (IH (out ++ hex2 c) (Some NUL :: drop 3 junk)) as (j & E & Hz); [lia | zlia |].
    exists j. rewrite !zlen_app, Hh in E |- *.
    rewrite E, <-!app_assoc. split; [apply (f_equal Ok), f_equal; zlia | zlia].
Qed.

(** [response_build_uuid] writes 36 characters and the terminator, which fill
    its 37 bytes. *)
Lemma response_build_uuid_ok lo hi :
  response_build_uuid lo hi = Ok (cstr (uuid_text (rev (le_bytes 8 lo ++ le_bytes 8 hi)))).
Proof.
  unfold response_build_uuid, long_bytes. set (l := le_bytes 8 lo ++ le_bytes 8 hi).
  assert (length l = 16%nat) as Hl by (unfold l; by rewrite length_app, !length_le_bytes).
  assert (uuid_chars l 16 = uuid_text (rev l)) as Ht.
  { clearbody l. destruct (bytes16 l Hl) as (a0 & a1 & a2 & a3 & a4 & a5 & a6 & a7 & b0 & b1 & b2 & b3 & b4 & b5 & b6 & b7 & ->). reflexivity. }
  assert (zlen (uuid_chars l 16) = 36) as Hz.
  { clearbody l. by destruct (bytes16 l Hl) as (a0 & a1 & a2 & a3 & a4 & a5 & a6 & a7 & b0 & b1 & b2 & b3 & b4 & b5 & b6 & b7 & ->). }
  rewrite bwrite_start, bind_Ok by done. rewrite (bwrite_end (bs (le_bytes 8 lo))), bind_Ok by done.
  replace (drop _ (drop _ _)) with (@nil (option byte)) by done. rewrite app_nil_r, <-bs_app. fold l.
  destruct (uuid_loop_chars l 16 [] (malloc 37)) as (j & E & Hj); [lia | by rewrite Hz |].
  change (bs [] ++ malloc 37) with (malloc 37) in E. change (zlen []) with 0 in E. rewrite E, bind_Ok. cbn [fst snd app].
  rewrite Hz in Hj. change (zlen (malloc 37)) with 37 in Hj.
  rewrite bstore_end by zlia. unfold cstr. rewrite <-Ht. do 2 f_equal.
  destruct j as [|x [|y j]]; [by zlia | done | zlia].
Qed.
