(* ===== verification/Queue.v ===== *)
(** Queue: the persisted message queue, [src/src/lib-pq/persisted_queue.c] and
    [src/src/lib-pq/base.c].  A queue is a file mapped into memory: a header
    of five fields and a ring of [message_max_count] mails.  The file, the
    semaphore and the calls of the operating system are explicit. *)
From S2P Require Import Prelude Base Layout Config.

(** ** Constants *)

Definition PQ_MEM_MAP_OPEN_FILE_ERROR : Z := -1000.
Definition PQ_MEM_MAP_LSEEK_STRECH_ERROR : Z := -1001.
Definition PQ_MEM_MAP_EOF_WRITE_BYTE_ERROR : Z := -1002.
Definition PQ_MEM_MAP_MAPPING_ERROR : Z := -1003.
Definition PQ_MEM_MAP_UNMAPPING_ERROR : Z := -1004.
Definition PQ_MEM_MAP_INACCURATE_MESSAGE_SIZE : Z := -1005.
Definition PQ_MESSAGE_SIZE_REACHED_ERROR : Z := -2000.
Definition PQ_MESSAGE_QUEUE_EMPTY_ERROR : Z := -2001.
Definition PQ_REFERENCE_NOT_SET_ERROR : Z := -3000.
Definition PQ_SEMAPHORE_ERROR : Z := -4000.

(** [pq_ref_shared]: four [volatile int]s and a [long], by their offsets. *)
Definition write_offset : Z := 0.
Definition read_offset : Z := 4.
Definition message_count : Z := 8.
Definition message_max_count : Z := 12.
Definition memory_size : Z := 16.
Definition sizeof_pq_ref_shared : Z := 24.

(** ** The operating system *)

(** What [stat] finds at the path of the queue. *)
Inductive fsnode :=
  | NoFile            (** [ENOENT] *)
  | NoAccess          (** another error: the buffer of [stat] stays unset *)
  | Directory
  | File (content : buf).

(** The answers of the calls the queue makes: the descriptor [open] returns,
    whether [lseek] accepts an offset, whether [write] and [munmap] succeed,
    whether [mmap] accepts a length, the identifier [semget] returns, and the
    page size. *)
Record os := Os {
  os_open : option Z;
  os_lseek : Z → bool;
  os_write : bool;
  os_mmap : Z → bool;
  os_munmap : bool;
  os_semget : option Z;
  os_page : Z;
}.

(** The state outside the process: the file, the bytes of it known to be on
    the disk, the semaphore of key [SEM_KEY] and the open descriptors. *)
Record sys := Sys {
  sys_file : fsnode;
  sys_disk : buf;
  sys_sem : Z;
  sys_fds : list Z;
}.

Definition set_file f s := Sys f (sys_disk s) (sys_sem s) (sys_fds s).
Definition set_disk d s := Sys (sys_file s) d (sys_sem s) (sys_fds s).
Definition set_sem z s := Sys (sys_file s) (sys_disk s) z (sys_fds s).
Definition set_fds l s := Sys (sys_file s) (sys_disk s) (sys_sem s) l.

(** [pq_ref]: [memory] and [shared] point to the mapping, of which
    [ref_mapped] bytes are accessible. *)
Record pq_ref := PqRef {
  ref_handle : Z;
  ref_mapped : Z;
  ref_semid : option Z;
}.

(** A mapping covers whole pages. *)
Definition round_page (page n : Z) : Z := (n + page - 1) / page * page.

Definition size_t (z : Z) : Z := z mod 18446744073709551616.
Definition to_long (z : Z) : Z := (z + 9223372036854775808) mod 18446744073709551616 - 9223372036854775808.

Definition close_fd (fd : Z) (s : sys) : sys := set_fds (filter (λ x, x ≠ fd) (sys_fds s)) s.

(** Access to [n] bytes from offset [i] of the mapped memory. *)
Definition shm_read (r : pq_ref) (s : sys) (i n : Z) : res buf :=
  match sys_file s with
  | File b => if decide (i + n <= ref_mapped r) then bread b i n else Err OutOfBounds
  | _ => Err OutOfBounds
  end.

Definition shm_write (r : pq_ref) (s : sys) (i : Z) (m : buf) : res sys :=
  match sys_file s with
  | File b =>
      if decide (i + zlen m <= ref_mapped r)
      then b' ← bwrite b i m; Ok (set_file (File b') s) else Err OutOfBounds
  | _ => Err OutOfBounds
  end.

(** [reference->shared->field], read and written. *)
Definition get_int (r : pq_ref) (s : sys) (i : Z) : res Z :=
  m ← shm_read r s i 4; v ← buf_bytes m; Ok (to_int (le_value v)).
Definition put_int (r : pq_ref) (s : sys) (i z : Z) : res sys := shm_write r s i (int_bytes z).

(** [msync (memory + i, n, MS_SYNC)]: the pages of the range reach the disk;
    an address that is not on a page boundary is refused ([EINVAL]). *)
Definition msync (o : os) (s : sys) (i n : Z) : sys :=
  match sys_file s with
  | File b =>
      if decide (i mod os_page o = 0) then
        let stop := Z.to_nat (round_page (os_page o) (i + n)) in
        set_disk (take (Z.to_nat i) (sys_disk s) ++
                  drop (Z.to_nat i) (take stop b) ++ drop stop (sys_disk s)) s
      else s
  | _ => s
  end.

(** [semop] with [sem_op] -1 and 1. *)
Definition semaphore_wait (s : sys) : res sys :=
  if decide (0 < sys_sem s) then Ok (set_sem (sys_sem s - 1) s) else Err Blocked.
Definition semaphore_post (s : sys) : sys := set_sem (sys_sem s + 1) s.

(** [semctl (semid, 0, SETALL, { 1 })]. *)
Definition semaphore_init (s : sys) : sys := set_sem 1 s.

(** ** lib-pq/base.c *)

Definition math_min (a b : Z) : Z := if decide (a < b) then a else b.
Definition math_max (a b : Z) : Z := if decide (a > b) then a else b.

Definition string_malloc (source : buf) (max_size : Z) : res buf :=
  l ← strlen source;
  let destination_size := math_min max_size (to_int l) in
  n ← i32 (destination_size + 1);
  d ← memcpy (malloc n) 0 source 0 destination_size;
  bstore d destination_size NUL.

(** [file_size], [file_exist]: only [ENOENT] is told from success. *)
Definition file_size (f : fsnode) : res Z :=
  match f with
  | NoFile | Directory => Ok (-1)
  | NoAccess => Err Uninit
  | File b => Ok (to_int (zlen b))
  end.

Definition file_exist (f : fsnode) : res Z :=
  match f with
  | NoFile | Directory => Ok (-1)
  | NoAccess => Err Uninit
  | File _ => Ok 0
  end.

(** ** Opening a queue *)

(** [lseek] beyond the end and a [write] of one byte: the file is as long as
    asked, the new bytes are zero. *)
Definition stretch (b : buf) (n : Z) : buf :=
  b ++ replicate (Z.to_nat n - length b) (Some NUL).

(** The result and, when it is 0, the number of bytes mapped. *)
Definition pq_get_mapped_memory (o : os) (handle len : Z) (map_write : bool) (s : sys)
    : Z * Z * sys :=
  if decide (map_write ∧ os_lseek o (len - 1) = false) then
    (PQ_MEM_MAP_LSEEK_STRECH_ERROR, 0, close_fd handle s)
  else if decide (map_write ∧ os_write o = false) then
    (PQ_MEM_MAP_EOF_WRITE_BYTE_ERROR, 0, close_fd handle s)
  else
    let s1 := match sys_file s with
              | File b => if map_write then set_file (File (stretch b len)) s else s
              | _ => s
              end in
    if os_mmap o len then (0, round_page (os_page o) len, s1)
    else (PQ_MEM_MAP_MAPPING_ERROR, 0, close_fd handle s1).

(** The result, [*reference] when it is assigned, and the state. *)
Definition pq_open (o : os) (max_count : Z) (s : sys) : res (Z * option pq_ref * sys) :=
  temp_file_size ← file_size (sys_file s);
  if decide (temp_file_size ≠ -1 ∧
             size_t temp_file_size ≠
             size_t (sizeof_pq_ref_shared + size_t (sizeof_mail * size_t max_count))) then
    Ok (PQ_MEM_MAP_INACCURATE_MESSAGE_SIZE, None, s)
  else
    match os_open o with
    | None => Ok (PQ_MEM_MAP_OPEN_FILE_ERROR, None, s)
    | Some handle =>
        let s1 := set_fds (handle :: sys_fds s) s in
        let '(map_result, mapped, s2) :=
          pq_get_mapped_memory o handle (to_long (size_t (size_t max_count * sizeof_mail))) false s1 in
        if decide (map_result < -1) then Ok (map_result, None, s2)
        else Ok (0, Some (PqRef handle mapped None), s2)
    end.

(** [semget] and [semaphore_init], at the end of both branches of [pq_init]. *)
Definition pq_semaphore (o : os) (r : pq_ref) (s : sys) : Z * option pq_ref * sys :=
  match os_semget o with
  | None => (PQ_SEMAPHORE_ERROR, Some (PqRef (ref_handle r) (ref_mapped r) (Some (-1))), s)
  | Some semid => (0, Some (PqRef (ref_handle r) (ref_mapped r) (Some semid)), semaphore_init s)
  end.

(** [pq_init] on the file that its path names ([QueueFs.pq_init_path] resolves
    the path). *)
Definition pq_init (o : os) (max_count : Z) (s : sys) : res (Z * option pq_ref * sys) :=
  exist ← file_exist (sys_file s);
  if decide (exist = -1) then
    let size := to_int (size_t (size_t max_count * sizeof_mail)) in
    match os_open o with
    | None => Ok (PQ_MEM_MAP_OPEN_FILE_ERROR, None, s)
    | Some handle =>
        let s1 := set_file (File []) (set_fds (handle :: sys_fds s) s) in
        let '(map_result, mapped, s2) :=
          pq_get_mapped_memory o handle
            (to_long (size_t (sizeof_pq_ref_shared + size_t size))) true s1 in
        if decide (map_result < 0) then Ok (map_result, None, s2)
        else
          let r := PqRef handle mapped None in
          s3 ← shm_write r s2 memory_size (long_bytes size);
          s4 ← put_int r s3 message_max_count max_count;
          Ok (pq_semaphore o r (msync o s4 0 sizeof_pq_ref_shared))
    end
  else
    ret ← pq_open o max_count s;
    match ret with
    | (0, Some r, s1) => Ok (pq_semaphore o r s1)
    | _ => Ok ret
    end.

(** [munmap] and [close]; [memory_size] is read from the mapping. *)
Definition pq_close (o : os) (reference : ptr pq_ref) (s : sys) : res (Z * ptr pq_ref * sys) :=
  set ← non_null reference;
  if set : bool then
    r ← deref reference;
    _ ← shm_read r s memory_size 8;
    freed ← cfree reference;
    Ok (if os_munmap o then 0 else PQ_MEM_MAP_UNMAPPING_ERROR, freed, close_fd (ref_handle r) s)
  else Ok (PQ_REFERENCE_NOT_SET_ERROR, reference, s).

(** ** Enqueue and dequeue *)

(** Where slot [k] of the ring begins. *)
Definition slot_offset (k : Z) : Z := sizeof_pq_ref_shared + k * sizeof_mail.

(** [msync] of the one offset and of the count. *)
Definition pq_header_sync (o : os) (write : bool) (s : sys) : sys :=
  msync o (msync o s (if write then write_offset else read_offset) 4) message_count 4.

(** [field = ++field % message_max_count].  The field is modified twice without a
    sequence point between, which C leaves undefined; as compilers do, the
    increment is stored first. *)
Definition advance (r : pq_ref) (field : Z) (s : sys) : res sys :=
  v ← get_int r s field; v1 ← i32 (v + 1);
  s1 ← put_int r s field v1;
  max ← get_int r s1 message_max_count; v2 ← int_rem v1 max;
  put_int r s1 field v2.

(** [message_count += d]. *)
Definition add_count (r : pq_ref) (d : Z) (s : sys) : res sys :=
  v ← get_int r s message_count; v1 ← i32 (v + d); put_int r s message_count v1.

(** The section of [pq_enqueue] between [semaphore_wait] and
    [semaphore_post]. *)
Definition enqueue_section (o : os) (r : pq_ref) (source : buf) (s : sys) : res (Z * sys) :=
  count ← get_int r s message_count;
  max ← get_int r s message_max_count;
  if decide (count >= max) then Ok (PQ_MESSAGE_SIZE_REACHED_ERROR, s)
  else
    wo ← get_int r s write_offset;
    m ← bread source 0 sizeof_mail;
    s1 ← shm_write r s (slot_offset wo) m;
    s2 ← advance r write_offset s1;
    s3 ← add_count r 1 s2;
    Ok (0, msync o (pq_header_sync o true s3) (slot_offset wo) sizeof_mail).

Definition dequeue_section (o : os) (r : pq_ref) (destination : buf) (s : sys)
    : res (Z * buf * sys) :=
  count ← get_int r s message_count;
  if decide (count <= 0) then Ok (PQ_MESSAGE_QUEUE_EMPTY_ERROR, destination, s)
  else
    ro ← get_int r s read_offset;
    m ← shm_read r s (slot_offset ro) sizeof_mail;
    d ← bwrite destination 0 m;
    s1 ← advance r read_offset s;
    s2 ← add_count r (-1) s1;
    Ok (0, d, pq_header_sync o false s2).

(** The test of [reference] comes after its first use. *)
Definition pq_enqueue (o : os) (reference : ptr pq_ref) (source : buf) (s : sys) : res (Z * sys) :=
  r ← deref reference;
  s1 ← semaphore_wait s;
  set ← non_null reference;
  if set : bool then
    ret ← enqueue_section o r source s1;
    let '(code, s2) := ret in Ok (code, semaphore_post s2)
  else Ok (PQ_REFERENCE_NOT_SET_ERROR, semaphore_post s1).

Definition pq_dequeue (o : os) (reference : ptr pq_ref) (destination : buf) (s : sys)
    : res (Z * buf * sys) :=
  r ← deref reference;
  s1 ← semaphore_wait s;
  set ← non_null reference;
  if set : bool then
    ret ← dequeue_section o r destination s1;
    let '(code, d, s2) := ret in Ok (code, d, semaphore_post s2)
  else Ok (PQ_REFERENCE_NOT_SET_ERROR, destination, semaphore_post s1).

(** ** Access to the mapping *)

Section access.
Implicit Types (r : pq_ref) (s : sys) (pre m post : buf).

Lemma shm_read_mid r s pre m post i n :
  sys_file s = File (pre ++ m ++ post) → i = zlen pre → n = zlen m →
  i + n <= ref_mapped r → shm_read r s i n = Ok m.
Proof.
  intros Hf Hi Hn Hr. unfold shm_read. rewrite Hf, decide_True by done.
  by apply bread_mid.
Qed.

Lemma shm_write_mid r s pre m m' post i :
  sys_file s = File (pre ++ m ++ post) → i = zlen pre → length m = length m' →
  i + zlen m' <= ref_mapped r →
  shm_write r s i m' = Ok (set_file (File (pre ++ m' ++ post)) s).
Proof.
  intros Hf Hi Hn Hr. unfold shm_write. rewrite Hf, decide_True by done.
  rewrite bwrite_mid; [done | done | done].
Qed.

Lemma get_int_mid r s pre z post i :
  sys_file s = File (pre ++ int_bytes z ++ post) → is_int z → i = zlen pre →
  i + 4 <= ref_mapped r → get_int r s i = Ok z.
Proof.
  intros Hf Hz Hi Hr. unfold get_int.
  rewrite (shm_read_mid _ _ pre (int_bytes z) post) by (done || zlia). rewrite bind_Ok.
  Transparent int_bytes. unfold int_bytes. rewrite buf_bytes_bs, bind_Ok.
  by rewrite le_value_bytes, to_int_mod.
Qed.
Opaque int_bytes.

Lemma put_int_mid r s pre z z' post i :
  sys_file s = File (pre ++ int_bytes z ++ post) → i = zlen pre →
  i + 4 <= ref_mapped r →
  put_int r s i z' = Ok (set_file (File (pre ++ int_bytes z' ++ post)) s).
Proof.
  intros Hf Hi Hr. unfold put_int. apply (shm_write_mid r s pre (int_bytes z) (int_bytes z') post);
    first [done | by rewrite !length_int_bytes | zlia].
Qed.
End access.

(** Same file, semaphore and descriptors: only the disk may differ. *)
Definition same_but_disk (s s' : sys) : Prop :=
  sys_file s' = sys_file s ∧ sys_sem s' = sys_sem s ∧ sys_fds s' = sys_fds s.

Lemma msync_same o s i n : same_but_disk s (msync o s i n).
Proof. unfold msync. destruct (sys_file s) eqn:?; try case_decide; done. Qed.

Lemma same_but_disk_trans s s' s'' :
  same_but_disk s s' → same_but_disk s' s'' → same_but_disk s s''.
Proof. intros (?&?&?) (?&?&?). unfold same_but_disk. split_and!; congruence. Qed.

Lemma pq_header_sync_same o w s : same_but_disk s (pq_header_sync o w s).
Proof. unfold pq_header_sync. eapply same_but_disk_trans; apply msync_same. Qed.

(** ** The ring *)

(** The content of the file: the header, then the slots. *)
Definition ring (wo ro cnt n : Z) (ms : buf) (slots : list buf) : buf :=
  int_bytes wo ++ int_bytes ro ++ int_bytes cnt ++ int_bytes n ++ ms ++ mjoin slots.

(** The fields and slots that hold the queue [q] (oldest first) of capacity [n]. *)
Record ring_inv (wo ro n : Z) (slots : list buf) (q : list buf) : Prop := RingInv {
  ri_n : 0 <= n <= INT_MAX;
  ri_slots : zlen slots = n;
  ri_sizes : Forall (λ m, zlen m = sizeof_mail) slots;
  ri_count : zlen q <= n;
  ri_read : 0 <= ro <= n ∧ (0 < n → ro < n);
  ri_write : 0 <= wo ∧ (0 < n → wo = (ro + zlen q) mod n);
  ri_mails : ∀ i m, q !! i = Some m →
    slots !! Z.to_nat ((ro + Z.of_nat i) mod n) = Some m;
}.

(** The mapping of [r] reaches the end of the last slot of a queue of [n]. *)
Definition covers (r : pq_ref) (n : Z) : Prop := slot_offset n <= ref_mapped r.

(** [queue_at n q s]: the mapped file holds the queue [q], whose bytes are [ms]
    in the field that no operation but [pq_close] reads. *)
Definition queue_at (n : Z) (q : list buf) (s : sys) : Prop :=
  ∃ wo ro ms slots, sys_file s = File (ring wo ro (zlen q) n ms slots) ∧
    length ms = 8%nat ∧ ring_inv wo ro n slots q.

Lemma sizeof_mail_pos : 0 < sizeof_mail.
Proof. done. Qed.

Lemma zlen_mjoin_slots l :
  Forall (λ m : buf, zlen m = sizeof_mail) l → zlen (mjoin l) = zlen l * sizeof_mail.
Proof.
  induction 1 as [|m l Hm _ IH]; [done|]. simpl. autorewrite with zlen. rewrite IH, Hm. lia.
Qed.

Lemma mod_cancel ro i j n :
  0 < n → 0 <= i < n → 0 <= j < n → (ro + i) mod n = (ro + j) mod n → i = j.
Proof.
  intros Hn Hi Hj H. assert ((i - j) mod n = 0) as H0.
  { replace (i - j) with ((ro + i) - (ro + j)) by lia.
    rewrite Zminus_mod, H, Z.sub_diag. done. }
  apply Z.mod_divide in H0 as [k Hk]; [|lia].
  assert (k < 1) by (apply (Z.mul_lt_mono_pos_r n); lia).
  assert (-1 < k) by (apply (Z.mul_lt_mono_pos_r n); lia).
  assert (k = 0) as -> by lia. lia.
Qed.

Lemma covers_header r n : covers r n → 0 <= n → sizeof_pq_ref_shared <= ref_mapped r.
Proof. pose proof sizeof_mail_pos. unfold covers, slot_offset. nia. Qed.

Section ring.
Context (r : pq_ref) (n : Z) (Hh : sizeof_pq_ref_shared <= ref_mapped r).
Implicit Types (s : sys) (q slots : list buf).

Section fields.
Context (s : sys) (wo ro cnt : Z) (ms : buf) (slots : list buf).
Hypothesis (Hn : 0 <= n <= INT_MAX)
  (Hf : sys_file s = File (ring wo ro cnt n ms slots)).

Lemma get_write : is_int wo → get_int r s write_offset = Ok wo.
Proof.
  intros. unfold sizeof_pq_ref_shared in Hh.
  eapply (get_int_mid r s [] wo); [exact Hf | done | done | unfold write_offset; lia].
Qed.

Lemma get_read : is_int ro → get_int r s read_offset = Ok ro.
Proof.
  intros. unfold sizeof_pq_ref_shared in Hh.
  eapply (get_int_mid r s (int_bytes wo) ro); [exact Hf | done | |];
    unfold read_offset; autorewrite with zlen; lia.
Qed.

Lemma get_count : is_int cnt → get_int r s message_count = Ok cnt.
Proof.
  intros. unfold sizeof_pq_ref_shared in Hh.
  eapply (get_int_mid r s (int_bytes wo ++ int_bytes ro) cnt);
    [rewrite Hf; unfold ring; by rewrite <-!app_assoc | done | |];
    unfold message_count; autorewrite with zlen; lia.
Qed.

Lemma get_max : get_int r s message_max_count = Ok n.
Proof.
  unfold sizeof_pq_ref_shared in Hh.
  eapply (get_int_mid r s (int_bytes wo ++ int_bytes ro ++ int_bytes cnt) n);
    [rewrite Hf; unfold ring; by rewrite <-!app_assoc | | |];
    unfold message_max_count, is_int, INT_MIN in *; autorewrite with zlen; lia.
Qed.

Lemma put_write z : put_int r s write_offset z = Ok (set_file (File (ring z ro cnt n ms slots)) s).
Proof.
  unfold sizeof_pq_ref_shared in Hh.
  rewrite (put_int_mid r s [] wo z _ write_offset Hf); [done|..]; unfold write_offset; zlia.
Qed.

Lemma put_read z : put_int r s read_offset z = Ok (set_file (File (ring wo z cnt n ms slots)) s).
Proof.
  unfold sizeof_pq_ref_shared in Hh.
  rewrite (put_int_mid r s (int_bytes wo) ro z _ read_offset Hf);
    [done|..]; unfold read_offset; zlia.
Qed.

Lemma put_count z : put_int r s message_count z = Ok (set_file (File (ring wo ro z n ms slots)) s).
Proof.
  unfold sizeof_pq_ref_shared in Hh.
  rewrite (put_int_mid r s (int_bytes wo ++ int_bytes ro) cnt z
    (int_bytes n ++ ms ++ mjoin slots) message_count);
    [unfold ring; by rewrite <-!app_assoc| |unfold message_count; zlia..].
  rewrite Hf. unfold ring. by rewrite <-!app_assoc.
Qed.

(** The slot [k] of the ring. *)
Hypothesis (Hc : covers r n) (Hms : length ms = 8%nat) (Hz : Forall (λ m : buf, zlen m = sizeof_mail) slots)
  (Hl : zlen slots = n).

Lemma slot_split k m :
  slots !! Z.to_nat k = Some m → 0 <= k → ∃ pre post,
    sys_file s = File (pre ++ m ++ post) ∧ zlen pre = slot_offset k ∧
    zlen m = sizeof_mail ∧ slot_offset k + sizeof_mail <= ref_mapped r ∧
    ∀ m', pre ++ m' ++ post = ring wo ro cnt n ms (<[Z.to_nat k := m']> slots).
Proof.
  intros Hk Hk0. pose proof (lookup_lt_Some _ _ _ Hk) as Hlt.
  assert (zlen m = sizeof_mail) as Hm by by eapply Forall_lookup_1 in Hz.
  exists (int_bytes wo ++ int_bytes ro ++ int_bytes cnt ++ int_bytes n ++ ms ++
          mjoin (take (Z.to_nat k) slots)), (mjoin (drop (S (Z.to_nat k)) slots)).
  assert (zlen (mjoin (take (Z.to_nat k) slots)) = k * sizeof_mail) as Htake.
  { rewrite zlen_mjoin_slots by by apply Forall_take.
    f_equal. unfold zlen. rewrite length_take. lia. }
  split_and!.
  - rewrite Hf. unfold ring. rewrite <-!app_assoc. do 6 f_equal.
    rewrite <-(take_drop_middle _ _ _ Hk) at 1. rewrite join_app. by simpl.
  - autorewrite with zlen. rewrite Htake. unfold slot_offset, sizeof_pq_ref_shared. zlia.
  - done.
  - unfold covers, slot_offset in *. pose proof sizeof_mail_pos.
    assert ((k + 1) * sizeof_mail <= n * sizeof_mail) by (apply Z.mul_le_mono_nonneg_r; zlia).
    lia.
  - intros m'. unfold ring. rewrite <-!app_assoc. do 5 f_equal.
    rewrite insert_take_drop by done. by rewrite join_app.
Qed.

Lemma read_slot k m :
  slots !! Z.to_nat k = Some m → 0 <= k → shm_read r s (slot_offset k) sizeof_mail = Ok m.
Proof.
  intros Hk Hk0. destruct (slot_split _ _ Hk Hk0) as (pre & post & Hs & Hp & Hm & Hr & _).
  by apply (shm_read_mid _ _ pre m post).
Qed.

Lemma write_slot k m :
  0 <= k < n → zlen m = sizeof_mail →
  shm_write r s (slot_offset k) m =
    Ok (set_file (File (ring wo ro cnt n ms (<[Z.to_nat k := m]> slots))) s).
Proof.
  intros Hk Hm. destruct (lookup_lt_is_Some_2 slots (Z.to_nat k)) as [m0 Hm0]; [zlia|].
  destruct (slot_split _ _ Hm0 ltac:(lia)) as (pre & post & Hs & Hp & Hm0' & Hr & Hins).
  rewrite (shm_write_mid r s pre m0 m post); [by rewrite Hins|done|done| |by rewrite Hm].
  unfold zlen in *. lia.
Qed.
End fields.
End ring.

(** ** The operations on a queue *)

(** Same semaphore and descriptors. *)
Definition same_rest (s s' : sys) : Prop :=
  sys_sem s' = sys_sem s ∧ sys_fds s' = sys_fds s.

Lemma same_but_disk_at s s' n q : same_but_disk s s' → queue_at n q s → queue_at n q s'.
Proof. intros (Hf & _ & _) (wo & ro & ms & slots & H & ?). exists wo, ro, ms, slots. by rewrite Hf. Qed.

Lemma Zrem_mod a n : 0 <= a → 0 < n → Z.rem a n = a mod n.
Proof. intros. by apply Z.rem_mod_nonneg. Qed.

Section advance.
Context (r : pq_ref) (n : Z) (s : sys) (wo ro cnt : Z) (ms : buf) (slots : list buf).
Hypothesis (Hh : sizeof_pq_ref_shared <= ref_mapped r) (Hn : 0 < n <= INT_MAX)
  (Hf : sys_file s = File (ring wo ro cnt n ms slots)).

Lemma advance_write :
  0 <= wo < n →
  advance r write_offset s = Ok (set_file (File (ring ((wo + 1) mod n) ro cnt n ms slots)) s).
Proof.
  intros Hw. unfold advance.
  assert (0 <= n <= INT_MAX) as Hn' by lia.
  rewrite (get_write r n Hh s wo ro cnt ms slots Hf)
    by (unfold is_int, INT_MIN in *; lia). rewrite bind_Ok. int_ok.
  rewrite (put_write r n Hh s wo ro cnt ms slots Hf). rewrite bind_Ok.
  erewrite get_max by (first [exact Hh | exact Hc | exact Hn' | reflexivity]).
  rewrite bind_Ok. unfold int_rem. rewrite decide_False, bind_Ok by lia.
  erewrite put_write by (first [exact Hh | exact Hc | exact Hn' | reflexivity]).
  by rewrite Zrem_mod by lia.
Qed.

Lemma advance_read :
  0 <= ro < n →
  advance r read_offset s = Ok (set_file (File (ring wo ((ro + 1) mod n) cnt n ms slots)) s).
Proof.
  intros Hw. unfold advance.
  assert (0 <= n <= INT_MAX) as Hn' by lia.
  rewrite (get_read r n Hh s wo ro cnt ms slots Hf)
    by (unfold is_int, INT_MIN in *; lia). rewrite bind_Ok. int_ok.
  rewrite (put_read r n Hh s wo ro cnt ms slots Hf). rewrite bind_Ok.
  erewrite get_max by (first [exact Hh | exact Hc | exact Hn' | reflexivity]).
  rewrite bind_Ok. unfold int_rem. rewrite decide_False, bind_Ok by lia.
  erewrite put_read by (first [exact Hh | exact Hc | exact Hn' | reflexivity]).
  by rewrite Zrem_mod by lia.
Qed.

Lemma add_count_ring d :
  is_int cnt → is_int (cnt + d) →
  add_count r d s = Ok (set_file (File (ring wo ro (cnt + d) n ms slots)) s).
Proof.
  intros H H'. unfold add_count. assert (0 <= n <= INT_MAX) as Hn' by lia.
  rewrite (get_count r n Hh s wo ro cnt ms slots Hf) by done.
  rewrite bind_Ok, i32_ok by done. rewrite bind_Ok.
  by apply (put_count r n Hh s wo ro cnt ms slots Hf).
Qed.
End advance.

(** What adding at the write offset and removing at the read offset do to the
    queue that a ring holds. *)
Lemma ring_inv_push wo ro n slots q m :
  ring_inv wo ro n slots q → zlen q < n → zlen m = sizeof_mail →
  ring_inv ((wo + 1) mod n) ro n (<[Z.to_nat wo := m]> slots) (q ++ [m]).
Proof.
  intros [Hn Hs Hz Hq Hr [Hw0 Hw] Hm] Hlt Hsz.
  pose proof (zlen_nonneg q). assert (0 < n) as Hp by lia.
  specialize (Hw Hp). destruct Hr as [Hr0 Hr]. specialize (Hr Hp).
  pose proof (Z.mod_pos_bound (ro + zlen q) n Hp).
  pose proof (Z.mod_pos_bound (wo + 1) n Hp). split.
  - done.
  - by rewrite zlen_insert.
  - apply Forall_insert; done.
  - autorewrite with zlen. lia.
  - lia.
  - split; [lia|]. intros _. subst wo. autorewrite with zlen.
    rewrite Zplus_mod_idemp_l. f_equal. lia.
  - intros i x Hi. pose proof (lookup_lt_Some _ _ _ Hi) as Hil. autorewrite with len in Hil.
    destruct (decide (i = length q)) as [->|Hne].
    + rewrite list_lookup_middle in Hi by done. injection Hi as <-.
      change (Z.of_nat (length q)) with (zlen q). rewrite <-Hw.
      apply list_lookup_insert_eq. unfold zlen in *. lia.
    + rewrite lookup_app_l in Hi by lia.
      pose proof (Z.mod_pos_bound (ro + Z.of_nat i) n Hp).
      rewrite list_lookup_insert_ne; [by apply Hm|]. intros Heq.
      apply Hne. enough (zlen q = Z.of_nat i) by (unfold zlen in *; lia).
      apply (mod_cancel ro _ _ n); [done | lia | unfold zlen in *; lia |].
      rewrite <-Hw. lia.
Qed.

Lemma ring_inv_pop wo ro n slots q m :
  ring_inv wo ro n slots (m :: q) → ring_inv wo ((ro + 1) mod n) n slots q.
Proof.
  intros [Hn Hs Hz Hq Hr [Hw0 Hw] Hm]. rewrite zlen_cons in *.
  pose proof (zlen_nonneg q). assert (0 < n) as Hp by lia.
  pose proof (Z.mod_pos_bound (ro + 1) n Hp). split; [done|done|done|lia|lia| |].
  - split; [done|]. intros _. rewrite (Hw Hp), Zplus_mod_idemp_l. f_equal. lia.
  - intros i x Hi. specialize (Hm (S i) x Hi). rewrite Zplus_mod_idemp_l.
    rewrite <-Hm. do 3 f_equal. lia.
Qed.

Lemma ring_inv_head wo ro n slots q m :
  ring_inv wo ro n slots (m :: q) → slots !! Z.to_nat ro = Some m ∧ 0 <= ro < n.
Proof.
  intros [Hn Hs Hz Hq Hr Hw Hm]. rewrite zlen_cons in *. pose proof (zlen_nonneg q).
  specialize (Hm 0%nat m eq_refl). rewrite Z.add_0_r, Z.mod_small in Hm by lia.
  split; [done | lia].
Qed.

Section sections.
Context (o : os) (r : pq_ref) (n : Z) (Hc : covers r n).
Implicit Types (s : sys) (q : list buf).

Lemma enqueue_section_push s q m :
  queue_at n q s → zlen q < n → zlen m = sizeof_mail →
  ∃ s', enqueue_section o r m s = Ok (0, s') ∧ queue_at n (q ++ [m]) s' ∧ same_rest s s'.
Proof.
  intros (wo & ro & ms & slots & Hf & Hms & Hi) Hlt Hm.
  pose proof (ring_inv_push _ _ _ _ _ _ Hi Hlt Hm) as Hi'.
  destruct Hi as [Hn Hs Hz Hq Hr [Hw0 Hw] _]. pose proof (zlen_nonneg q).
  pose proof (Z.mod_pos_bound (ro + zlen q) n ltac:(lia)).
  assert (0 <= wo < n) as Hwo by lia. assert (0 < n <= INT_MAX) as Hn' by lia.
  assert (is_int (zlen q) ∧ is_int wo ∧ is_int (zlen q + 1)) as (Hiq & Hiw & Hi1)
    by (unfold is_int, INT_MIN in *; lia).
  pose proof (covers_header r n Hc ltac:(lia)) as Hh.
  unfold enqueue_section.
  rewrite (get_count r n Hh s wo ro _ ms slots Hf Hiq), bind_Ok.
  rewrite (get_max r n Hh s wo ro _ ms slots Hn Hf), bind_Ok.
  rewrite decide_False by lia.
  rewrite (get_write r n Hh s wo ro _ ms slots Hf Hiw), bind_Ok.
  rewrite bread_all, bind_Ok by done.
  rewrite (write_slot r n s wo ro _ ms slots Hf Hc Hms Hz Hs _ _ Hwo Hm), bind_Ok.
  erewrite advance_write by (first [exact Hh | exact Hc | exact Hn' | reflexivity | exact Hwo]).
  rewrite bind_Ok. erewrite add_count_ring
    by (first [exact Hh | exact Hc | exact Hn' | reflexivity | done]). rewrite bind_Ok.
  eexists. split; [reflexivity|].
  match goal with |- context [set_file ?f ?x] =>
    assert (same_but_disk (set_file f x) (msync o (pq_header_sync o true (set_file f x))
      (slot_offset wo) sizeof_mail)) as Hsame end.
  { eapply same_but_disk_trans; [apply pq_header_sync_same | apply msync_same]. }
  split.
  - eapply same_but_disk_at; [exact Hsame|]. do 4 eexists.
    split_and!; [|exact Hms | exact Hi']. simpl. by autorewrite with zlen.
  - destruct Hsame as (_ & ? & ?). done.
Qed.

Lemma enqueue_section_full s q m :
  queue_at n q s → zlen q = n →
  enqueue_section o r m s = Ok (PQ_MESSAGE_SIZE_REACHED_ERROR, s).
Proof.
  intros (wo & ro & ms & slots & Hf & Hms & [Hn Hs _ _ _ _ _]) Hlt.
  pose proof (covers_header r n Hc ltac:(lia)) as Hh.
  unfold enqueue_section. pose proof (zlen_nonneg q).
  rewrite (get_count r n Hh s wo ro _ ms slots Hf), bind_Ok
    by (unfold is_int, INT_MIN in *; lia).
  rewrite (get_max r n Hh s wo ro _ ms slots Hn Hf), bind_Ok.
  by rewrite decide_True by lia.
Qed.

Lemma dequeue_section_pop s q m d :
  queue_at n (m :: q) s → zlen d = sizeof_mail →
  ∃ s', dequeue_section o r d s = Ok (0, m, s') ∧ queue_at n q s' ∧ same_rest s s'.
Proof.
  intros (wo & ro & ms & slots & Hf & Hms & Hi) Hd.
  pose proof (ring_inv_pop _ _ _ _ _ _ Hi) as Hi'.
  destruct (ring_inv_head _ _ _ _ _ _ Hi) as [Hhead Hro].
  destruct Hi as [Hn Hs Hz Hq _ _ _]. rewrite zlen_cons in *. pose proof (zlen_nonneg q).
  assert (0 < n <= INT_MAX) as Hn' by lia.
  assert (is_int (zlen q + 1) ∧ is_int ro ∧ is_int (zlen q + 1 + -1)) as (Hiq & Hir & Hi1)
    by (unfold is_int, INT_MIN in *; lia).
  assert (zlen m = sizeof_mail) as Hm by by eapply Forall_lookup_1 in Hz.
  pose proof (covers_header r n Hc ltac:(lia)) as Hh.
  unfold dequeue_section.
  rewrite (get_count r n Hh s wo ro _ ms slots Hf Hiq), bind_Ok.
  rewrite decide_False by lia.
  rewrite (get_read r n Hh s wo ro _ ms slots Hf Hir), bind_Ok.
  rewrite (read_slot r n s wo ro _ ms slots Hf Hc Hms Hz Hs _ _ Hhead) by lia.
  rewrite bind_Ok, bwrite_start, bind_Ok by (rewrite Hm, Hd; lia).
  rewrite (advance_read r n s wo ro _ ms slots Hh Hn' Hf Hro), bind_Ok.
  erewrite add_count_ring by (first [exact Hh | exact Hc | exact Hn' | reflexivity | done]).
  rewrite bind_Ok. eexists. split.
  { rewrite drop_ge by (unfold zlen in *; lia). by rewrite app_nil_r. }
  match goal with |- context [pq_header_sync o false ?x] =>
    pose proof (pq_header_sync_same o false x) as Hsame end.
  split.
  - eapply same_but_disk_at; [exact Hsame|]. do 4 eexists.
    split_and!; [|exact Hms | exact Hi']. simpl. do 2 f_equal. lia.
  - destruct Hsame as (_ & ? & ?). done.
Qed.

Lemma dequeue_section_empty s d :
  queue_at n [] s → dequeue_section o r d s = Ok (PQ_MESSAGE_QUEUE_EMPTY_ERROR, d, s).
Proof.
  intros (wo & ro & ms & slots & Hf & Hms & [Hn Hs _ _ _ _ _]).
  pose proof (covers_header r n Hc ltac:(lia)) as Hh.
  unfold dequeue_section.
  rewrite (get_count r n Hh s wo ro _ ms slots Hf), bind_Ok
    by (unfold is_int, INT_MIN, INT_MAX; rewrite zlen_nil; lia).
  by rewrite decide_True by (rewrite zlen_nil; lia).
Qed.
End sections.

(** ** The abstract queue *)

(** A bounded first-in first-out queue of mails, its results those of the
    code. *)
Inductive qop :=
  | Enqueue (m : mail)
  | Dequeue.

Definition fifo_step (n : Z) (op : qop) (q : list mail) : (Z * option mail) * list mail :=
  match op, q with
  | Enqueue m, _ =>
      if decide (zlen q < n) then ((0, None), q ++ [m])
      else ((PQ_MESSAGE_SIZE_REACHED_ERROR, None), q)
  | Dequeue, [] => ((PQ_MESSAGE_QUEUE_EMPTY_ERROR, None), [])
  | Dequeue, m :: q' => ((0, Some m), q')
  end.

Fixpoint fifo_run (n : Z) (ops : list qop) (q : list mail) : list (Z * option mail) * list mail :=
  match ops with
  | [] => ([], q)
  | op :: ops' =>
      let '(out, q') := fifo_step n op q in
      let '(outs, q'') := fifo_run n ops' q' in (out :: outs, q'')
  end.

(** The same operations on the mapped file; a client dequeues into a fresh
    [mail]. *)
Definition pq_step (o : os) (reference : ptr pq_ref) (op : qop) (s : sys)
    : res ((Z * option mail) * sys) :=
  match op with
  | Enqueue m =>
      ret ← pq_enqueue o reference (mail_bytes m) s;
      let '(code, s') := ret in Ok ((code, None), s')
  | Dequeue =>
      ret ← pq_dequeue o reference (malloc sizeof_mail) s;
      let '(code, d, s') := ret in
      if decide (code = 0) then m ← mail_of_bytes d; Ok ((code, Some m), s')
      else Ok ((code, None), s')
  end.

Fixpoint pq_run (o : os) (reference : ptr pq_ref) (ops : list qop) (s : sys)
    : res (list (Z * option mail) * sys) :=
  match ops with
  | [] => Ok ([], s)
  | op :: ops' =>
      ret ← pq_step o reference op s;
      let '(out, s') := ret in
      rest ← pq_run o reference ops' s';
      let '(outs, s'') := rest in Ok (out :: outs, s'')
  end.

Definition op_wf (op : qop) : Prop :=
  match op with Enqueue m => mail_wf m | Dequeue => True end.

(** [s] holds the mails [q] and nobody is in a critical section. *)
Definition holds (n : Z) (q : list mail) (s : sys) : Prop :=
  queue_at n (mail_bytes <$> q) s ∧ sys_sem s = 1 ∧ Forall mail_wf q.

Lemma queue_at_file n q s s' : sys_file s' = sys_file s → queue_at n q s → queue_at n q s'.
Proof. intros Hf (wo & ro & ms & slots & H & ?). exists wo, ro, ms, slots. by rewrite Hf. Qed.

Lemma queue_at_size n q s :
  queue_at n q s → ∃ b, sys_file s = File b ∧ zlen b = slot_offset n ∧ 0 <= n <= INT_MAX ∧ zlen q <= n.
Proof.
  intros (wo & ro & ms & slots & Hf & Hms & [Hn Hs Hz Hq _ _ _]). eexists.
  split_and!; [exact Hf| |lia..].
  unfold ring. autorewrite with zlen. rewrite zlen_mjoin_slots, Hs by done.
  unfold slot_offset, sizeof_pq_ref_shared. unfold zlen. rewrite Hms. lia.
Qed.

Section operations.
Context (o : os) (r : pq_ref) (n : Z) (Hc : covers r n).
Implicit Types (s : sys) (q : list mail).

(** A section runs between the two semaphore operations. *)
Lemma pq_enqueue_run m s code s1 :
  sys_sem s = 1 → enqueue_section o r m (set_sem 0 s) = Ok (code, s1) →
  pq_enqueue o (PTo r) m s = Ok (code, semaphore_post s1).
Proof.
  intros Hs He. unfold pq_enqueue, semaphore_wait. cbn [deref non_null].
  rewrite Hs, decide_True, !bind_Ok by lia. change (1 - 1) with 0. by rewrite He.
Qed.

Lemma pq_dequeue_run d s code d' s1 :
  sys_sem s = 1 → dequeue_section o r d (set_sem 0 s) = Ok (code, d', s1) →
  pq_dequeue o (PTo r) d s = Ok (code, d', semaphore_post s1).
Proof.
  intros Hs He. unfold pq_dequeue, semaphore_wait. cbn [deref non_null].
  rewrite Hs, decide_True, !bind_Ok by lia. change (1 - 1) with 0. by rewrite He.
Qed.

Lemma pq_step_refines op q s :
  holds n q s → op_wf op →
  ∃ s', pq_step o (PTo r) op s = Ok (fst (fifo_step n op q), s') ∧
    holds n (snd (fifo_step n op q)) s'.
Proof.
  intros (Hq & Hs & Hwf) Hop.
  assert (queue_at n (mail_bytes <$> q) (set_sem 0 s)) as Hq0
    by by eapply queue_at_file; [|exact Hq].
  destruct (queue_at_size _ _ _ Hq) as (_ & _ & _ & _ & Hlen).
  rewrite zlen_fmap in Hlen.
  destruct op as [m|]; simpl in Hop; [|destruct q as [|m q]].
  - simpl. case_decide as Hlt.
    + destruct (enqueue_section_push o r n Hc _ _ (mail_bytes m) Hq0) as (s1 & He & Hq1 & Hr);
        [by rewrite zlen_fmap | by apply zlen_mail_bytes |].
      rewrite (pq_enqueue_run _ _ _ _ Hs He). eexists. split; [reflexivity|].
      split_and!.
      * apply (queue_at_file n _ s1); [done|]. by setoid_rewrite fmap_app.
      * destruct Hr as [Hr _]. simpl. rewrite Hr. done.
      * apply Forall_app_2; [done | by constructor].
    + assert (enqueue_section o r (mail_bytes m) (set_sem 0 s) =
        Ok (PQ_MESSAGE_SIZE_REACHED_ERROR, set_sem 0 s)) as He.
      { eapply enqueue_section_full; [exact Hc | exact Hq0 | rewrite zlen_fmap; lia]. }
      rewrite (pq_enqueue_run _ _ _ _ Hs He). eexists. split; [reflexivity|].
      by split_and!.
  - pose proof (dequeue_section_empty o r n Hc _ (malloc sizeof_mail) Hq0) as He.
    unfold pq_step. rewrite (pq_dequeue_run _ _ _ _ _ Hs He). eexists. split; [reflexivity|].
    by split_and!.
  - apply Forall_cons in Hwf as [Hm Hwf].
    destruct (dequeue_section_pop o r n Hc _ _ _ (malloc sizeof_mail) Hq0)
      as (s1 & He & Hq1 & Hr); [by rewrite zlen_malloc|].
    unfold pq_step. rewrite (pq_dequeue_run _ _ _ _ _ Hs He), bind_Ok.
    rewrite decide_True, mail_of_bytes_bytes by done. eexists. split; [reflexivity|].
    split_and!; [by eapply queue_at_file; [|exact Hq1] | | done].
    destruct Hr as [Hr _]. simpl. by rewrite Hr.
Qed.

Lemma pq_enqueue_refines m q s :
  holds n q s → mail_wf m →
  ∃ s', pq_enqueue o (PTo r) (mail_bytes m) s = Ok (fst (fst (fifo_step n (Enqueue m) q)), s') ∧
    holds n (snd (fifo_step n (Enqueue m) q)) s'.
Proof.
  intros Hs Hm. destruct (pq_step_refines (Enqueue m) q s Hs Hm) as (s' & He & Hs').
  unfold pq_step in He. apply bind_Ok_inv in He as ([code s1] & -> & He).
  destruct (fifo_step n (Enqueue m) q) as [out q1]. injection He as <- ->. by exists s'.
Qed.

Lemma pq_run_refines ops : ∀ q s,
  holds n q s → Forall op_wf ops →
  ∃ s', pq_run o (PTo r) ops s = Ok (fst (fifo_run n ops q), s') ∧
    holds n (snd (fifo_run n ops q)) s'.
Proof.
  induction ops as [|op ops IH]; intros q s Hs Hops; [by eexists|].
  apply Forall_cons in Hops as [Hop Hops].
  destruct (pq_step_refines _ _ _ Hs Hop) as (s1 & He & Hs1).
  destruct (fifo_step n op q) as [out q1] eqn:E. simpl in *.
  destruct (IH _ _ Hs1 Hops) as (s2 & He2 & Hs2).
  destruct (fifo_run n ops q1) as [outs q2] eqn:E2. rewrite E, E2. simpl in *.
  rewrite He, bind_Ok, He2. by eexists.
Qed.
End operations.

(** ** Opening: how large a queue can be *)

Lemma size_t_small z : 0 <= z < 18446744073709551616 → size_t z = z.
Proof. intros. unfold size_t. by rewrite Z.mod_small. Qed.
Lemma to_long_small z : -9223372036854775808 <= z < 9223372036854775808 → to_long z = z.
Proof. intros. unfold to_long. rewrite Z.mod_small; lia. Qed.

Lemma round_page_ge page n : 0 < page → 0 <= n → n <= round_page page n.
Proof.
  intros Hp Hn. unfold round_page. pose proof (Z.div_mod (n + page - 1) page ltac:(lia)).
  pose proof (Z.mod_pos_bound (n + page - 1) page Hp). lia.
Qed.

(** Calls that succeed, and an [lseek] that follows POSIX: a resulting
    negative offset is refused. *)
Record os_ok (o : os) (handle semid : Z) : Prop := OsOk {
  ok_open : os_open o = Some handle;
  ok_lseek : ∀ i, os_lseek o i = bool_decide (0 <= i);
  ok_write : os_write o = true;
  ok_mmap : ∀ i, 0 < i → os_mmap o i = true;
  ok_semget : os_semget o = Some semid;
  ok_page : 0 < os_page o;
}.

Lemma bwrite_replicate pre post m i c :
  i = zlen pre → zlen m <= Z.of_nat post →
  bwrite (pre ++ replicate post (Some c)) i m =
    Ok (pre ++ m ++ replicate (post - length m) (Some c)).
Proof.
  intros Hi Hm. rewrite bwrite_end by (done || zlia). by rewrite drop_replicate.
Qed.

(** The zero bytes of a new file are a ring whose slots are zero. *)
Definition zero_slot : buf := replicate (Z.to_nat sizeof_mail) (Some NUL).

Lemma zero_slots k :
  replicate (k * Z.to_nat sizeof_mail) (Some NUL) = mjoin (replicate k zero_slot).
Proof.
  induction k as [|k IH]; [done|]. rewrite Nat.mul_succ_l, Nat.add_comm, replicate_add, IH. done.
Qed.

Transparent int_bytes long_bytes.
Lemma zero_ring n :
  0 <= n → replicate (Z.to_nat (slot_offset n)) (Some NUL) =
    ring 0 0 0 0 (long_bytes 0) (replicate (Z.to_nat n) zero_slot).
Proof.
  intros Hn. unfold slot_offset, sizeof_pq_ref_shared.
  assert (Z.to_nat (24 + n * sizeof_mail) = 24 + Z.to_nat n * Z.to_nat sizeof_mail)%nat as ->.
  { rewrite Z2Nat.inj_add, Z2Nat.inj_mul by (pose proof sizeof_mail_pos; lia). done. }
  by rewrite replicate_add, zero_slots.
Qed.
Opaque int_bytes long_bytes.

Lemma ring_inv_new n :
  0 <= n <= INT_MAX → ring_inv 0 0 n (replicate (Z.to_nat n) zero_slot) [].
Proof.
  intros Hn. split; [lia | rewrite zlen_replicate; lia | | unfold zlen; simpl; lia | lia | |].
  - apply Forall_replicate. unfold zero_slot. rewrite zlen_replicate. by apply Z2Nat.id.
  - split; [lia|]. intros. change (zlen (@nil buf)) with 0. by rewrite Z.mod_small by lia.
  - intros i m. by rewrite lookup_nil.
Qed.

(** The two header fields that [pq_init] writes in a new file. *)
Lemma init_header r s n ms0 ms slots :
  sizeof_pq_ref_shared <= ref_mapped r → sys_file s = File (ring 0 0 0 0 ms0 slots) →
  length ms0 = 8%nat → length ms = 8%nat → is_int n →
  ∃ s1, shm_write r s memory_size ms = Ok s1 ∧
    put_int r s1 message_max_count n = Ok (set_file (File (ring 0 0 0 n ms slots)) s).
Proof.
  intros Hh Hf Hm0 Hm Hn. unfold sizeof_pq_ref_shared in Hh. eexists. split.
  - apply (shm_write_mid r s (int_bytes 0 ++ int_bytes 0 ++ int_bytes 0 ++ int_bytes 0)
      ms0 ms (mjoin slots)); unfold memory_size; try (autorewrite with zlen; unfold zlen; lia).
    rewrite Hf. unfold ring. by rewrite <-!app_assoc.
  - rewrite (put_int_mid r _ (int_bytes 0 ++ int_bytes 0 ++ int_bytes 0) 0 n (ms ++ mjoin slots));
      unfold message_max_count; try (autorewrite with zlen; lia).
    + unfold ring. by rewrite <-!app_assoc.
    + simpl. by rewrite <-!app_assoc.
Qed.

Section opening.
Context (o : os) (handle semid : Z) (Ho : os_ok o handle semid).

(** A queue that does not exist yet is created empty, when its slots fit an
    [int]. *)
Lemma pq_init_creates n s :
  sys_file s = NoFile → 0 <= n → n * sizeof_mail <= INT_MAX →
  ∃ r s', pq_init o n s = Ok (0, Some r, s') ∧ covers r n ∧ holds n [] s' ∧
    ref_semid r = Some semid.
Proof.
  intros Hf Hn Hmax. pose proof sizeof_mail_pos.
  assert (0 <= n * sizeof_mail) by lia. assert (n <= INT_MAX) by nia.
  destruct Ho as [Hopen Hseek Hwrite Hmmap Hsem Hpage].
  unfold pq_init. rewrite Hf. simpl. rewrite Hopen.
  rewrite (size_t_small n) by (unfold INT_MAX in *; lia).
  rewrite (size_t_small (n * sizeof_mail)) by (unfold INT_MAX in *; lia).
  rewrite to_int_small by (unfold INT_MIN; lia).
  rewrite (size_t_small (n * sizeof_mail)) by (unfold INT_MAX in *; lia).
  assert (sizeof_pq_ref_shared + n * sizeof_mail = slot_offset n) as -> by done.
  rewrite (size_t_small (slot_offset n)), to_long_small
    by (unfold slot_offset, sizeof_pq_ref_shared, INT_MAX in *; lia).
  assert (24 <= slot_offset n) by (unfold slot_offset, sizeof_pq_ref_shared; lia).
  unfold pq_get_mapped_memory. rewrite Hseek, bool_decide_true by lia.
  rewrite Hwrite. simpl. rewrite Hmmap by lia.
  set (s2 := set_file _ _). set (r := PqRef handle (round_page (os_page o) (slot_offset n)) None).
  pose proof (round_page_ge (os_page o) (slot_offset n) Hpage ltac:(lia)) as Hround.
  destruct (init_header r s2 n (long_bytes 0) (long_bytes (n * sizeof_mail))
    (replicate (Z.to_nat n) zero_slot)) as (s3 & He & He');
    [unfold sizeof_pq_ref_shared; simpl; lia | | by zlia | by zlia | unfold is_int, INT_MIN; lia |].
  { subst s2. simpl. unfold stretch. simpl. by rewrite Nat.sub_0_r, zero_ring. }
  rewrite decide_False by lia. rewrite He. simpl. rewrite He'. simpl. unfold pq_semaphore. rewrite Hsem.
  do 2 eexists. split; [reflexivity|]. split_and!; [exact Hround | | done].
  split_and!; [|done|by constructor].
  eapply queue_at_file; [|eapply same_but_disk_at; [apply msync_same|]]; [done|].
  do 4 eexists. split_and!; [reflexivity | zlia | by apply ring_inv_new].
Qed.

(** An existing file of the right size is taken as it is. *)
Lemma pq_init_existing n b s :
  sys_file s = File b → zlen b = slot_offset n → 0 < n → slot_offset n <= INT_MAX →
  pq_init o n s = Ok (0, Some (PqRef handle (round_page (os_page o) (n * sizeof_mail)) (Some semid)),
    semaphore_init (set_fds (handle :: sys_fds s) s)).
Proof.
  intros Hf Hb Hn Hmax. pose proof sizeof_mail_pos.
  assert (n * sizeof_mail <= INT_MAX) by (unfold slot_offset, sizeof_pq_ref_shared in *; lia).
  assert (0 < n * sizeof_mail) by lia. assert (n <= INT_MAX) by nia.
  destruct Ho as [Hopen Hseek Hwrite Hmmap Hsem Hpage].
  unfold pq_init, pq_open. rewrite Hf. simpl.
  rewrite Hb, to_int_small by (unfold slot_offset, sizeof_pq_ref_shared, INT_MIN in *; lia).
  rewrite (size_t_small n) by (unfold INT_MAX in *; lia).
  rewrite (Z.mul_comm sizeof_mail n).
  rewrite (size_t_small (n * sizeof_mail)) by (unfold INT_MAX in *; lia).
  assert (sizeof_pq_ref_shared + n * sizeof_mail = slot_offset n) as -> by done.
  rewrite decide_False by tauto. rewrite Hopen.
  rewrite to_long_small by (unfold INT_MAX in *; lia).
  unfold pq_get_mapped_memory. rewrite !decide_False by (intros [? ?]; done).
  simpl. rewrite Hf, Hmmap by done. simpl. unfold pq_semaphore. by rewrite Hsem.
Qed.
End opening.

(** ** Which bytes reach the disk *)

Section disk.
Context (o : os) (r : pq_ref).

Lemma shm_write_disk s i m s' : shm_write r s i m = Ok s' → sys_disk s' = sys_disk s.
Proof.
  unfold shm_write. destruct (sys_file s); [done..|]. case_decide; [|done].
  by intros (b' & _ & [= <-])%bind_Ok_inv.
Qed.

Lemma advance_disk s i s' : advance r i s = Ok s' → sys_disk s' = sys_disk s.
Proof.
  unfold advance. intros (v & _ & (v1 & _ & (s1 & H1 & (mx & _ & (v2 & _ & H2)
    %bind_Ok_inv)%bind_Ok_inv)%bind_Ok_inv)%bind_Ok_inv)%bind_Ok_inv.
  apply shm_write_disk in H1, H2. congruence.
Qed.

Lemma add_count_disk s d s' : add_count r d s = Ok s' → sys_disk s' = sys_disk s.
Proof.
  unfold add_count. intros (v & _ & (v1 & _ & H)%bind_Ok_inv)%bind_Ok_inv.
  by apply shm_write_disk in H.
Qed.

Lemma msync_unaligned s i n : i mod os_page o ≠ 0 → msync o s i n = s.
Proof. intros Hi. unfold msync. destruct (sys_file s); [done..|]. by rewrite decide_False. Qed.

Lemma read_sync_refused s : 8 < os_page o → pq_header_sync o false s = s.
Proof.
  intros Hp. unfold pq_header_sync. simpl.
  rewrite (msync_unaligned s read_offset) by (unfold read_offset; rewrite Z.mod_small; lia).
  apply msync_unaligned. unfold message_count. rewrite Z.mod_small; lia.
Qed.
End disk.

(** ** Properties *)

(** C9: A queue that [pq_init] creates, of a size whose slots fit an [int],
    behaves under any sequence of [pq_enqueue] and [pq_dequeue] as a bounded
    first-in first-out queue of mails: no operation faults, every result code
    and every dequeued [mail] is the one of the abstract queue, a full queue
    refuses and an empty one says so, and the semaphore is free afterwards. *)
Theorem pq_refines_fifo o handle semid n s ops :
  os_ok o handle semid → sys_file s = NoFile → 0 <= n → n * sizeof_mail <= INT_MAX →
  Forall op_wf ops →
  ∃ r s1 s2, pq_init o n s = Ok (0, Some r, s1) ∧
    pq_run o (PTo r) ops s1 = Ok (fst (fifo_run n ops []), s2) ∧
    holds n (snd (fifo_run n ops [])) s2.
Proof.
  intros Ho Hf Hn Hmax Hops.
  destruct (pq_init_creates o handle semid Ho n s Hf Hn Hmax) as (r & s1 & Hi & Hc & Hh & _).
  destruct (pq_run_refines o r n Hc ops [] s1 Hh Hops) as (s2 & Hr & Hh2).
  exists r, s1, s2. by split_and!.
Qed.

(** C17: The mails of a queue survive a restart: whatever the semaphore was left
    at, opening the file again with the same size and a mapping that covers it
    gives the queue back, and the operations that follow see its mails in
    order. *)
Theorem pq_survives_restart o handle semid n q s ops :
  os_ok o handle semid → queue_at n (mail_bytes <$> q) s → Forall mail_wf q →
  0 < n → slot_offset n <= INT_MAX → slot_offset n <= round_page (os_page o) (n * sizeof_mail) →
  Forall op_wf ops →
  ∃ r s1 s2, pq_init o n s = Ok (0, Some r, s1) ∧
    pq_run o (PTo r) ops s1 = Ok (fst (fifo_run n ops q), s2) ∧
    holds n (snd (fifo_run n ops q)) s2.
Proof.
  intros Ho Hq Hwf Hn Hmax Hround Hops.
  destruct (queue_at_size _ _ _ Hq) as (b & Hf & Hb & _).
  pose proof (pq_init_existing o handle semid Ho n b s Hf Hb Hn Hmax) as Hi.
  match type of Hi with _ = Ok (_, Some ?r, ?s1) =>
    destruct (pq_run_refines o r n Hround ops q s1) as (s2 & Hr & Hh2); [|done|] end.
  { split_and!; [by eapply queue_at_file; [|exact Hq] | done | done]. }
  do 3 eexists. by split_and!.
Qed.

(** With a queue of 69,176 to 138,350 slots (the built-in [queue-size] is
    100,000) the byte count does not fit the [int memory_size]: it wraps to a
    negative number, the [lseek] is refused, and [pq_init] fails; it has
    created an empty file, so that the next start fails too, with the error
    for a file of the wrong size. *)
Theorem pq_init_size_overflow o handle semid n s :
  os_ok o handle semid → sys_file s = NoFile → 69176 <= n <= 138350 →
  ∃ s1, pq_init o n s = Ok (PQ_MEM_MAP_LSEEK_STRECH_ERROR, None, s1) ∧
    pq_init o n s1 = Ok (PQ_MEM_MAP_INACCURATE_MESSAGE_SIZE, None, s1).
Proof.
  intros [Hopen Hseek _ _ _ _] Hf Hn.
  assert (n * sizeof_mail = n * 31044) as HM by done.
  unfold pq_init at 1. rewrite Hf. simpl. rewrite Hopen.
  rewrite (size_t_small n), HM by lia.
  rewrite (size_t_small (n * 31044)) by lia.
  assert (to_int (n * 31044) = n * 31044 - 4294967296) as ->.
  { unfold to_int. rewrite <-(Z.mod_add _ (-1)) by lia. rewrite Z.mod_small; lia. }
  assert (to_long (size_t (sizeof_pq_ref_shared + size_t (n * 31044 - 4294967296)))
    = n * 31044 - 4294967272) as ->.
  { unfold size_t, sizeof_pq_ref_shared. rewrite Zplus_mod_idemp_r. unfold to_long.
    rewrite Zplus_mod_idemp_l, Z.mod_small; lia. }
  unfold pq_get_mapped_memory. rewrite Hseek, bool_decide_false by lia. simpl.
  eexists. split; [reflexivity|].
  unfold pq_init, pq_open. simpl.
  rewrite (size_t_small n) by lia. rewrite (Z.mul_comm sizeof_mail), HM.
  rewrite (size_t_small (n * 31044)) by lia.
  rewrite decide_True; [done|]. split; [done|].
  unfold sizeof_pq_ref_shared. rewrite (size_t_small (24 + n * 31044)) by lia.
  change (size_t (to_int (zlen (@nil (option byte))))) with 0. lia.
Qed.

(** [pq_open] maps [n * sizeof (mail)] bytes and forgets the header, so
    that the last 24 bytes of the last slot can lie outside the mapping: when
    the page size leaves no slack there, a reopened queue faults on the
    enqueue that uses this slot. *)
Theorem pq_open_short_mapping o handle semid n wo ro cnt ms slots s m :
  os_ok o handle semid → 0 < n → slot_offset n <= INT_MAX →
  round_page (os_page o) (n * sizeof_mail) < slot_offset n →
  sys_file s = File (ring wo ro cnt n ms slots) → length ms = 8%nat → zlen slots = n →
  Forall (λ x, zlen x = sizeof_mail) slots →
  wo = n - 1 → 0 <= cnt < n → zlen m = sizeof_mail →
  ∃ r s1, pq_init o n s = Ok (0, Some r, s1) ∧ pq_enqueue o (PTo r) m s1 = Err OutOfBounds.
Proof.
  intros Ho Hn Hmax Hshort Hf Hms Hs Hz Hwo Hcnt Hm. pose proof sizeof_mail_pos.
  assert (n <= INT_MAX) as Hnmax by (unfold slot_offset, sizeof_pq_ref_shared in *; nia).
  assert (zlen (ring wo ro cnt n ms slots) = slot_offset n) as Hb.
  { unfold ring. autorewrite with zlen. rewrite zlen_mjoin_slots, Hs by done.
    unfold slot_offset, sizeof_pq_ref_shared. unfold zlen. rewrite Hms. lia. }
  rewrite (pq_init_existing o handle semid Ho n _ s Hf Hb Hn Hmax).
  set (r := PqRef _ _ _). set (s1 := semaphore_init _). exists r, s1. split; [done|].
  assert (sizeof_pq_ref_shared <= ref_mapped r) as Hh.
  { simpl. pose proof (round_page_ge (os_page o) (n * sizeof_mail) (ok_page _ _ _ Ho) ltac:(lia)).
    assert (sizeof_pq_ref_shared <= sizeof_mail) by done. nia. }
  unfold pq_enqueue. cbn [deref non_null]. rewrite bind_Ok. unfold semaphore_wait.
  rewrite decide_True by done. rewrite !bind_Ok. set (s2 := set_sem _ s1).
  assert (sys_file s2 = File (ring wo ro cnt n ms slots)) as Hf2 by done.
  assert (enqueue_section o r m s2 = Err OutOfBounds) as ->; [|done].
  unfold enqueue_section.
  rewrite (get_count r n Hh s2 wo ro cnt ms slots Hf2), bind_Ok by (unfold is_int, INT_MIN; lia).
  rewrite (get_max r n Hh s2 wo ro cnt ms slots), bind_Ok by (done || lia).
  rewrite decide_False by lia.
  rewrite (get_write r n Hh s2 wo ro cnt ms slots Hf2), bind_Ok by (unfold is_int, INT_MIN; lia).
  rewrite bread_all, bind_Ok by done. unfold shm_write. rewrite Hf2.
  rewrite decide_False; [done|]. rewrite Hm, Hwo. simpl.
  unfold slot_offset in *. lia.
Qed.

(** C39: [pq_dequeue] persists nothing: with any page size above 8, both [msync]
    calls of [pq_header_sync] are given an address inside a page and are
    refused, so that after a power failure the disk still holds the message
    as queued. *)
Theorem pq_dequeue_not_flushed o r destination s code d s' :
  8 < os_page o → pq_dequeue o (PTo r) destination s = Ok (code, d, s') →
  sys_disk s' = sys_disk s.
Proof.
  intros Hp. unfold pq_dequeue. cbn [deref non_null]. rewrite bind_Ok.
  intros (s1 & Hw & He)%bind_Ok_inv. rewrite bind_Ok in He.
  apply bind_Ok_inv in He as ([[c d1] s2] & Hd & [= <- <- <-]).
  unfold semaphore_wait in Hw. case_decide; [|done]. injection Hw as <-.
  revert Hd. unfold dequeue_section. set (s0 := set_sem _ s).
  intros (cnt & _ & Hd)%bind_Ok_inv. case_decide; [by injection Hd as <- <- <-|].
  apply bind_Ok_inv in Hd as (ro & _ & (mm & _ & (dd & _ & (s3 & H3 & (s4 & H4 & [= <- <- <-])
    %bind_Ok_inv)%bind_Ok_inv)%bind_Ok_inv)%bind_Ok_inv).
  rewrite read_sync_refused by done.
  apply advance_disk in H3. apply add_count_disk in H4.
  transitivity (sys_disk s3); [exact H4 | exact H3].
Qed.

(** ** Witnesses *)

Definition ex_os : os :=
  Os (Some 3) (λ i, bool_decide (0 <= i)) true (λ i, bool_decide (0 < i)) true (Some 7) 4096.
Definition ex_sys : sys := Sys NoFile [] 0 [].
Definition ex_hdr : hdr := hdr_malloc.
Definition ex_mail (n : Z) : mail :=
  Mail (replicate 20 ex_hdr) n (malloc BODY_MAX_LEN).

Lemma ex_os_ok : os_ok ex_os 3 7.
Proof. split; simpl; try done. intros i Hi. by apply bool_decide_true. Qed.

Lemma ex_mail_wf n : is_int n → mail_wf (ex_mail n).
Proof.
  intros Hn. split_and!; [done | | done | by apply zlen_malloc].
  apply Forall_replicate. split; by apply zlen_malloc.
Qed.

Lemma pq_refines_fifo_witness :
  ∃ r s1 s2, pq_init ex_os 1 ex_sys = Ok (0, Some r, s1) ∧
    pq_run ex_os (PTo r) [Enqueue (ex_mail 1); Enqueue (ex_mail 2); Dequeue; Dequeue] s1 =
      Ok ([(0, None); (PQ_MESSAGE_SIZE_REACHED_ERROR, None); (0, Some (ex_mail 1));
           (PQ_MESSAGE_QUEUE_EMPTY_ERROR, None)], s2) ∧
    holds 1 [] s2.
Proof.
  apply (pq_refines_fifo ex_os 3 7 1 ex_sys
    [Enqueue (ex_mail 1); Enqueue (ex_mail 2); Dequeue; Dequeue]);
    [exact ex_os_ok | reflexivity | lia | by_compute |].
  repeat constructor; apply ex_mail_wf; by_compute.
Defined.

(** A queue of two slots whose first slot holds a mail. *)
Definition ex_two (ms : buf) : sys :=
  Sys (File (ring 1 0 1 2 ms [mail_bytes (ex_mail 1); zero_slot])) [] 0 [].

Lemma ex_two_at : queue_at 2 (mail_bytes <$> [ex_mail 1]) (ex_two (long_bytes 62088)).
Proof.
  assert (zlen (mail_bytes (ex_mail 1)) = sizeof_mail) as Hm
    by (apply zlen_mail_bytes, ex_mail_wf; by_compute).
  do 4 eexists. split_and!; [reflexivity | apply length_long_bytes |].
  split; [unfold INT_MAX; lia | done | | by_compute | lia | | ].
  - apply Forall_cons. split; [exact Hm|]. apply Forall_singleton.
    unfold zero_slot. rewrite zlen_replicate. by apply Z2Nat.id.
  - split; [lia | done].
  - intros [|i] m; [|done]. by intros [= <-].
Qed.

Lemma pq_survives_restart_witness :
  ∃ r s1 s2, pq_init ex_os 2 (ex_two (long_bytes 62088)) = Ok (0, Some r, s1) ∧
    pq_run ex_os (PTo r) [Dequeue] s1 = Ok ([(0, Some (ex_mail 1))], s2) ∧
    holds 2 [] s2.
Proof.
  apply (pq_survives_restart ex_os 3 7 2 [ex_mail 1] _ [Dequeue]);
    [exact ex_os_ok | exact ex_two_at | | by_compute | by_compute | by_compute |];
    repeat constructor; apply ex_mail_wf; by_compute.
Defined.

Lemma pq_init_size_overflow_witness :
  ∃ s1, pq_init ex_os (queue_size config_load_default) ex_sys =
      Ok (PQ_MEM_MAP_LSEEK_STRECH_ERROR, None, s1) ∧
    pq_init ex_os (queue_size config_load_default) s1 =
      Ok (PQ_MEM_MAP_INACCURATE_MESSAGE_SIZE, None, s1).
Proof.
  apply (pq_init_size_overflow ex_os 3 7 (queue_size config_load_default) ex_sys);
    [exact ex_os_ok | reflexivity | by_compute].
Defined.

(** A queue of 1,024 slots: its slots fill a whole number of pages. *)
Definition ex_full : sys :=
  Sys (File (ring 1023 0 1023 1024 (long_bytes 31789056) (replicate 1024 zero_slot))) [] 0 [].

Lemma pq_open_short_mapping_witness :
  ∃ r s1, pq_init ex_os 1024 ex_full = Ok (0, Some r, s1) ∧
    pq_enqueue ex_os (PTo r) (mail_bytes (ex_mail 1)) s1 = Err OutOfBounds.
Proof.
  apply (pq_open_short_mapping ex_os 3 7 1024 1023 0 1023 (long_bytes 31789056)
    (replicate 1024 zero_slot) ex_full (mail_bytes (ex_mail 1)));
    [exact ex_os_ok | by_compute | by_compute | by_compute | reflexivity
    | apply length_long_bytes | by rewrite zlen_replicate | | reflexivity | by_compute |].
  - apply Forall_replicate. unfold zero_slot. rewrite zlen_replicate. by apply Z2Nat.id.
  - apply zlen_mail_bytes, ex_mail_wf. by_compute.
Defined.

Definition ex_one : sys :=
  Sys (File (ring 0 0 1 1 (long_bytes 31044) [mail_bytes (ex_mail 1)])) [] 1 [].

Definition result_code {A B : Type} (m : res (Z * A * B)) : option Z :=
  match m with Ok (c, _, _) => Some c | Err _ => None end.

Lemma pq_dequeue_not_flushed_witness :
  ∃ d s', pq_dequeue ex_os (PTo (PqRef 3 32768 None)) (malloc sizeof_mail) ex_one = Ok (0, d, s') ∧
    sys_disk s' = sys_disk ex_one.
Proof.
  assert (result_code (pq_dequeue ex_os (PTo (PqRef 3 32768 None)) (malloc sizeof_mail) ex_one)
    = Some 0) as Hc by (vm_compute; reflexivity).
  destruct (pq_dequeue ex_os (PTo (PqRef 3 32768 None)) (malloc sizeof_mail) ex_one)
    as [[[c d] s']|] eqn:E; [|discriminate Hc].
  injection Hc as ->. exists d, s'. split; [reflexivity|].
  refine (pq_dequeue_not_flushed ex_os (PqRef 3 32768 None) (malloc sizeof_mail) ex_one 0 d s' _ E).
  vm_compute. reflexivity.
Defined.
