(* ===== verification/QueueSys.v ===== *)
(** QueueSys: the queue shared by processes.  The workers enqueue and the mail
    handler dequeues through the same mapped file; between [semaphore_wait]
    and [semaphore_post] the sections of [pq_enqueue] and [pq_dequeue] are
    split into the accesses to shared memory that the processes interleave. *)
From S2P Require Import Prelude Base Layout Config Queue.

(** ** Processes *)

(** Where a process stands.  [Enq_*] and [Deq_*] are the points of the two
    sections; a value already loaded is an argument. *)
Inductive pc :=
  | Idle
  | Enter (op : qop)
  | Enq_check (m : mail)
  | Enq_copy (m : mail)
  | Enq_advance (m : mail) (wo : Z)
  | Enq_load (m : mail) (wo : Z)
  | Enq_store (m : mail) (wo v : Z)
  | Deq_check
  | Deq_copy
  | Deq_advance (d : buf)
  | Deq_load (d : buf)
  | Deq_store (d : buf) (v : Z)
  | Leave (op : qop) (out : Z * option mail).

Definition start (op : qop) : pc :=
  match op with Enqueue m => Enq_check m | Dequeue => Deq_check end.

(** Inside a critical section. *)
Definition in_section (p : pc) : bool :=
  match p with Idle | Enter _ => false | _ => true end.

Section system.
Context (o : os) (r : pq_ref).

(** One access of a section. *)
Definition section_step (p : pc) (s : sys) : res (pc * sys) :=
  match p with
  | Enq_check m =>
      count ← get_int r s message_count;
      max ← get_int r s message_max_count;
      if decide (count >= max)
      then Ok (Leave (Enqueue m) (PQ_MESSAGE_SIZE_REACHED_ERROR, None), s)
      else Ok (Enq_copy m, s)
  | Enq_copy m =>
      wo ← get_int r s write_offset;
      b ← bread (mail_bytes m) 0 sizeof_mail;
      s1 ← shm_write r s (slot_offset wo) b;
      Ok (Enq_advance m wo, s1)
  | Enq_advance m wo => s1 ← advance r write_offset s; Ok (Enq_load m wo, s1)
  | Enq_load m wo => v ← get_int r s message_count; Ok (Enq_store m wo v, s)
  | Enq_store m wo v =>
      v1 ← i32 (v + 1); s1 ← put_int r s message_count v1;
      Ok (Leave (Enqueue m) (0, None),
          msync o (pq_header_sync o true s1) (slot_offset wo) sizeof_mail)
  | Deq_check =>
      count ← get_int r s message_count;
      if decide (count <= 0)
      then Ok (Leave Dequeue (PQ_MESSAGE_QUEUE_EMPTY_ERROR, None), s)
      else Ok (Deq_copy, s)
  | Deq_copy =>
      ro ← get_int r s read_offset;
      m ← shm_read r s (slot_offset ro) sizeof_mail;
      d ← bwrite (malloc sizeof_mail) 0 m;
      Ok (Deq_advance d, s)
  | Deq_advance d => s1 ← advance r read_offset s; Ok (Deq_load d, s1)
  | Deq_load d => v ← get_int r s message_count; Ok (Deq_store d v, s)
  | Deq_store d v =>
      v1 ← i32 (v + -1); s1 ← put_int r s message_count v1;
      m ← mail_of_bytes d;
      Ok (Leave Dequeue (0, Some m), pq_header_sync o false s1)
  | Idle | Enter _ | Leave _ _ => Err Blocked
  end.

(** ** The system *)

Record gstate := G {
  g_pcs : list pc;
  g_sys : sys;
  g_hist : list (qop * (Z * option mail));   (** operations completed *)
}.

(** What can happen next; [Init] is the [semaphore_init] of a [pq_init] that
    a further process runs. *)
Inductive event :=
  | Call (i : nat) (op : qop)
  | Wait (i : nat)
  | Access (i : nat)
  | Post (i : nat)
  | Init.

(** An event that is not possible in a state is [Blocked]. *)
Definition gstep (ev : event) (g : gstate) : res gstate :=
  match ev with
  | Call i op =>
      match g_pcs g !! i with
      | Some Idle => Ok (G (<[i := Enter op]> (g_pcs g)) (g_sys g) (g_hist g))
      | _ => Err Blocked
      end
  | Wait i =>
      match g_pcs g !! i with
      | Some (Enter op) =>
          s1 ← semaphore_wait (g_sys g);
          Ok (G (<[i := start op]> (g_pcs g)) s1 (g_hist g))
      | _ => Err Blocked
      end
  | Access i =>
      match g_pcs g !! i with
      | Some p =>
          ret ← section_step p (g_sys g);
          let '(p', s1) := ret in Ok (G (<[i := p']> (g_pcs g)) s1 (g_hist g))
      | None => Err Blocked
      end
  | Post i =>
      match g_pcs g !! i with
      | Some (Leave op out) =>
          Ok (G (<[i := Idle]> (g_pcs g)) (semaphore_post (g_sys g)) (g_hist g ++ [(op, out)]))
      | _ => Err Blocked
      end
  | Init => Ok (G (g_pcs g) (semaphore_init (g_sys g)) (g_hist g))
  end.

(** Runs without and with the start of further processes. *)
Inductive reach (init : bool) (g0 : gstate) : gstate → Prop :=
  | reach_refl : reach init g0 g0
  | reach_step ev g g' :
      reach init g0 g → gstep ev g = Ok g' → (ev = Init → init = true) →
      (match ev with Call _ op => op_wf op | _ => True end) → reach init g0 g'.

(** ** The section as a whole *)

Fixpoint section_run (k : nat) (p : pc) (s : sys) : res (pc * sys) :=
  match k, p with
  | O, _ | _, Leave _ _ => Ok (p, s)
  | S k', _ => ret ← section_step p s; let '(p', s') := ret in section_run k' p' s'
  end.

Lemma section_run_leave k op out s : section_run k (Leave op out) s = Ok (Leave op out, s).
Proof. by destruct k. Qed.

Lemma run_enq_load m wo s :
  section_run 2 (Enq_load m wo) s =
    (s1 ← add_count r 1 s;
     Ok (Leave (Enqueue m) (0, None),
         msync o (pq_header_sync o true s1) (slot_offset wo) sizeof_mail)).
Proof.
  unfold add_count. cbn [section_run section_step].
  destruct (get_int r s message_count); [|done]. cbn [section_step mbind res_bind].
  destruct (i32 _); [|done]. cbn [section_step mbind res_bind]. by destruct (put_int _ _ _ _).
Qed.

Lemma run_enq_copy m s :
  section_run 4 (Enq_copy m) s =
    (wo ← get_int r s write_offset;
     b ← bread (mail_bytes m) 0 sizeof_mail;
     s1 ← shm_write r s (slot_offset wo) b;
     s2 ← advance r write_offset s1;
     section_run 2 (Enq_load m wo) s2).
Proof.
  set (k := 2%nat). cbn [section_run section_step].
  destruct (get_int r s write_offset); [|done]. cbn [section_step mbind res_bind].
  destruct (bread _ _ _); [|done]. cbn [section_step mbind res_bind].
  destruct (shm_write _ _ _ _) as [s1|]; [|done]. cbn [section_step mbind res_bind].
  by destruct (advance _ _ _).
Qed.

(** A process that is alone computes what [enqueue_section] and
    [dequeue_section] compute, faults included. *)
Lemma run_enqueue m s :
  section_run 5 (Enq_check m) s =
    (ret ← enqueue_section o r (mail_bytes m) s;
     let '(code, s') := ret in Ok (Leave (Enqueue m) (code, None), s')).
Proof.
  change (section_run 5 (Enq_check m) s) with
    (ret ← section_step (Enq_check m) s; let '(p', s') := ret in section_run 4 p' s').
  unfold enqueue_section. cbn [section_step].
  destruct (get_int r s message_count); [|done]. cbn [section_step mbind res_bind].
  destruct (get_int r s message_max_count); [|done]. cbn [section_step mbind res_bind].
  case_decide; [done|]. cbn [mbind res_bind]. rewrite run_enq_copy.
  destruct (get_int r s write_offset); [|done]. cbn [section_step mbind res_bind].
  destruct (bread _ _ _); [|done]. cbn [section_step mbind res_bind].
  destruct (shm_write _ _ _ _) as [s1|]; [|done]. cbn [section_step mbind res_bind].
  destruct (advance _ _ _) as [s2|]; [|done]. cbn [section_step mbind res_bind].
  rewrite run_enq_load. by destruct (add_count _ _ _).
Qed.

Definition dequeue_result (ret : Z * buf * sys) : res (pc * sys) :=
  let '(code, d, s') := ret in
  if decide (code = 0) then m ← mail_of_bytes d; Ok (Leave Dequeue (0, Some m), s')
  else Ok (Leave Dequeue (code, None), s').

Lemma run_deq_load d s :
  section_run 2 (Deq_load d) s =
    (s1 ← add_count r (-1) s; dequeue_result (0, d, pq_header_sync o false s1)).
Proof.
  unfold add_count. cbn [section_run section_step].
  destruct (get_int r s message_count); [|done]. cbn [section_step mbind res_bind].
  destruct (i32 _); [|done]. cbn [section_step mbind res_bind].
  destruct (put_int _ _ _ _); [|done]. cbn [section_step mbind res_bind].
  unfold dequeue_result. rewrite decide_True by done. by destruct (mail_of_bytes d).
Qed.

Lemma run_dequeue s :
  section_run 5 Deq_check s = dequeue_section o r (malloc sizeof_mail) s ≫= dequeue_result.
Proof.
  change (section_run 5 Deq_check s) with
    (ret ← section_step Deq_check s; let '(p', s') := ret in section_run 4 p' s').
  unfold dequeue_section. cbn [section_step].
  destruct (get_int r s message_count); [|done]. cbn [section_step mbind res_bind].
  case_decide; [done|]. cbn [section_step mbind res_bind].
  change (section_run 4 Deq_copy s) with
    (ret ← section_step Deq_copy s; let '(p', s') := ret in section_run 3 p' s').
  cbn [section_step].
  destruct (get_int r s read_offset); [|done]. cbn [section_step mbind res_bind].
  destruct (shm_read _ _ _ _); [|done]. cbn [section_step mbind res_bind].
  destruct (bwrite _ _ _) as [d|]; [|done]. cbn [section_step mbind res_bind].
  change (section_run 3 (Deq_advance d) s) with
    (ret ← section_step (Deq_advance d) s; let '(p', s') := ret in section_run 2 p' s').
  cbn [section_step]. destruct (advance _ _ _) as [s2|]; [|done]. cbn [section_step mbind res_bind].
  rewrite run_deq_load. by destruct (add_count _ _ _).
Qed.

(** ** The invariant *)

Context (n : Z) (Hc : covers r n).

(** The process at [p] will end the section of some operation with the
    result and the queue that the abstract queue [q] gives. *)
Definition section_inv (q : list mail) (p : pc) (s : sys) : Prop :=
  ∃ k op s', section_run k p s = Ok (Leave op (fst (fifo_step n op q)), s') ∧
    queue_at n (mail_bytes <$> snd (fifo_step n op q)) s' ∧
    Forall mail_wf (snd (fifo_step n op q)).

Definition pc_wf (p : pc) : Prop := match p with Enter op => op_wf op | _ => True end.

Definition free (q : list mail) (g : gstate) : Prop :=
  sys_sem (g_sys g) = 1 ∧ queue_at n (mail_bytes <$> q) (g_sys g) ∧
  ∀ i p, g_pcs g !! i = Some p → in_section p = false.

Definition taken (q : list mail) (g : gstate) : Prop :=
  ∃ i p, g_pcs g !! i = Some p ∧ in_section p = true ∧ sys_sem (g_sys g) = 0 ∧
    (∀ j p', g_pcs g !! j = Some p' → in_section p' = true → j = i) ∧
    section_inv q p (g_sys g).

Definition ginv (g : gstate) : Prop :=
  ∃ q, fifo_run n (g_hist g).*1 [] = ((g_hist g).*2, q) ∧ Forall mail_wf q ∧
    (∀ i p, g_pcs g !! i = Some p → pc_wf p) ∧ (free q g ∨ taken q g).

Lemma fifo_run_snoc ops op q outs q' :
  fifo_run n ops q = (outs, q') →
  fifo_run n (ops ++ [op]) q = (outs ++ [fst (fifo_step n op q')], snd (fifo_step n op q')).
Proof.
  revert q outs. induction ops as [|op0 ops IH]; intros q outs H; simpl in *.
  - injection H as <- <-. by destruct (fifo_step n op q).
  - destruct (fifo_step n op0 q) as [out q1]. destruct (fifo_run n ops q1) as [outs1 q2] eqn:E.
    injection H as <- <-. by rewrite (IH _ _ E).
Qed.

(** The section of an operation on a queue. *)
Lemma section_inv_start q op s :
  queue_at n (mail_bytes <$> q) s → Forall mail_wf q → op_wf op → section_inv q (start op) s.
Proof.
  intros Hq Hwf Hop. pose proof (queue_at_size _ _ _ Hq) as (_ & _ & _ & _ & Hlen).
  rewrite zlen_fmap in Hlen.
  destruct op as [m|]; simpl in Hop; [|destruct q as [|m q]].
  - pose proof (zlen_mail_bytes _ Hop) as Hm.
    exists 5%nat, (Enqueue m). cbn [start]. rewrite run_enqueue. simpl. case_decide.
    + destruct (enqueue_section_push o r n Hc _ _ _ Hq ltac:(by rewrite zlen_fmap) Hm)
        as (s' & -> & Hq' & _). exists s'. split_and!; [done | |].
      * simpl. by setoid_rewrite fmap_app.
      * apply Forall_app_2; [done | by constructor].
    + rewrite (enqueue_section_full o r n Hc _ _ (mail_bytes m) Hq) by (rewrite zlen_fmap; lia).
      by exists s.
  - exists 5%nat, Dequeue, s. cbn [start]. rewrite run_dequeue.
    by rewrite (dequeue_section_empty o r n Hc _ _ Hq).
  - apply Forall_cons in Hwf as [Hm Hwf].
    destruct (dequeue_section_pop o r n Hc _ _ _ (malloc sizeof_mail) Hq)
      as (s' & He & Hq' & _); [by rewrite zlen_malloc|].
    exists 5%nat, Dequeue, s'. cbn [start]. rewrite run_dequeue, He. simpl.
    by rewrite mail_of_bytes_bytes.
Qed.

(** Sections leave the semaphore alone. *)
Lemma shm_write_sem s i m s' : shm_write r s i m = Ok s' → sys_sem s' = sys_sem s.
Proof.
  unfold shm_write. destruct (sys_file s); [done..|]. case_decide; [|done].
  by intros (b' & _ & [= <-])%bind_Ok_inv.
Qed.

Lemma advance_sem s i s' : advance r i s = Ok s' → sys_sem s' = sys_sem s.
Proof.
  unfold advance. intros (v & _ & (v1 & _ & (s1 & H1 & (mx & _ & (v2 & _ & H2)
    %bind_Ok_inv)%bind_Ok_inv)%bind_Ok_inv)%bind_Ok_inv)%bind_Ok_inv.
  apply shm_write_sem in H1, H2. congruence.
Qed.

Lemma section_step_sem p s p' s' : section_step p s = Ok (p', s') → sys_sem s' = sys_sem s.
Proof.
  destruct p; cbn [section_step]; try done.
  - intros (c & _ & (mx & _ & H)%bind_Ok_inv)%bind_Ok_inv. case_decide; by injection H as _ <-.
  - intros (w & _ & (b & _ & (s1 & H1 & [= _ <-])%bind_Ok_inv)%bind_Ok_inv)%bind_Ok_inv.
    by eapply shm_write_sem.
  - intros (s1 & H1 & [= _ <-])%bind_Ok_inv. by eapply advance_sem.
  - by intros (v & _ & [= _ <-])%bind_Ok_inv.
  - intros (v1 & _ & (s1 & H1%shm_write_sem & [= _ <-])%bind_Ok_inv)%bind_Ok_inv.
    destruct (msync_same o (pq_header_sync o true s1) (slot_offset wo) sizeof_mail) as (_ & -> & _).
    by destruct (pq_header_sync_same o true s1) as (_ & -> & _).
  - intros (c & _ & H)%bind_Ok_inv. case_decide; by injection H as _ <-.
  - by intros (w & _ & (b & _ & (d & _ & [= _ <-])%bind_Ok_inv)%bind_Ok_inv)%bind_Ok_inv.
  - intros (s1 & H1 & [= _ <-])%bind_Ok_inv. by eapply advance_sem.
  - by intros (v & _ & [= _ <-])%bind_Ok_inv.
  - intros (v1 & _ & (s1 & H1%shm_write_sem & (m & _ & [= _ <-])%bind_Ok_inv)%bind_Ok_inv)%bind_Ok_inv.
    by destruct (pq_header_sync_same o false s1) as (_ & -> & _).
Qed.

(** A process in a section can make its next access, and stays on course. *)
Lemma section_inv_step q p s :
  section_inv q p s → in_section p = true →
  (∃ op s', p = Leave op (fst (fifo_step n op q)) ∧ s' = s ∧
     queue_at n (mail_bytes <$> snd (fifo_step n op q)) s ∧
     Forall mail_wf (snd (fifo_step n op q))) ∨
  (∃ p' s', section_step p s = Ok (p', s') ∧ in_section p' = true ∧
     sys_sem s' = sys_sem s ∧ section_inv q p' s').
Proof.
  intros (k & op & s' & Hrun & Hq & Hwf) Hin.
  assert ((∃ op0 out, p = Leave op0 out) ∨ ¬ (∃ op0 out, p = Leave op0 out))
    as [(op0 & out & ->)|Hl].
  { destruct p; try (right; by intros (? & ? & ?)). left. eauto. }
  { left. rewrite section_run_leave in Hrun. injection Hrun as -> -> ->.
    by exists op, s'. }
  right. destruct k as [|k]; [simpl in Hrun; injection Hrun as -> _; exfalso; eauto|].
  assert (section_run (S k) p s =
    (ret ← section_step p s; let '(p', s') := ret in section_run k p' s')) as Heq.
  { destruct p; try done. exfalso. eauto. }
  rewrite Heq in Hrun. apply bind_Ok_inv in Hrun as ([p1 s1] & Hs & Hrun).
  exists p1, s1. split_and!; [done | | by eapply section_step_sem | by exists k, op, s'].
  clear -Hs Hin. destruct p; cbn [section_step] in Hs; try done;
    repeat (apply bind_Ok_inv in Hs as (? & _ & Hs)); try case_decide; by injection Hs as <- _.
Qed.

Lemma insert_in_section g i p j p' :
  <[i:=p]> (g_pcs g) !! j = Some p' → in_section p' = true →
  (i = j ∧ p = p') ∨ (i ≠ j ∧ g_pcs g !! j = Some p').
Proof. intros [(-> & -> & _)|[? ?]]%list_lookup_insert_Some; auto. Qed.

Lemma pcs_wf_insert g i p :
  (∀ i p, g_pcs g !! i = Some p → pc_wf p) → pc_wf p →
  ∀ j p', <[i:=p]> (g_pcs g) !! j = Some p' → pc_wf p'.
Proof. intros H Hp j p' [(-> & -> & _)|[? ?]]%list_lookup_insert_Some; eauto. Qed.

(** A process outside any section moves to another point outside. *)
Lemma ginv_outside g i p p' :
  ginv g → g_pcs g !! i = Some p → in_section p = false → in_section p' = false → pc_wf p' →
  ginv (G (<[i:=p']> (g_pcs g)) (g_sys g) (g_hist g)).
Proof.
  intros (q & Hh & Hwf & Hpcs & Hcase) Hi Hp Hp' Hpw. exists q. split_and!; try done.
  { by apply pcs_wf_insert. }
  destruct Hcase as [(Hs & Hq & Hn)|(j & pj & Hj & Hin & Hs & Hu & Hinv)]; [left|right].
  - split_and!; [done..|]. simpl.
    intros j pj [(-> & -> & _)|[? ?]]%list_lookup_insert_Some; eauto.
  - exists j, pj. assert (i ≠ j) by congruence. simpl.
    split_and!; [by rewrite list_lookup_insert_ne | done.. | | done].
    intros k pk [(-> & -> & _)|[? ?]]%list_lookup_insert_Some; [congruence | eauto].
Qed.

Lemma ginv_wait g i op s1 :
  ginv g → g_pcs g !! i = Some (Enter op) → semaphore_wait (g_sys g) = Ok s1 →
  ginv (G (<[i:=start op]> (g_pcs g)) s1 (g_hist g)).
Proof.
  intros (q & Hh & Hwf & Hpcs & Hcase) Hi Hw. unfold semaphore_wait in Hw.
  case_decide as Hpos; [|done]. injection Hw as <-.
  destruct Hcase as [(Hs & Hq & Hn)|(j & pj & _ & _ & Hs & _)]; [|lia].
  exists q. split_and!; try done.
  { apply pcs_wf_insert; [done|]. by destruct op. }
  right. exists i, (start op). simpl. rewrite Hs.
  split_and!; [|by destruct op|done| |].
  - apply list_lookup_insert_eq. by eapply lookup_lt_Some.
  - intros j pj H Hin. destruct (insert_in_section _ _ _ _ _ H Hin) as [[-> _]|[_ Hj]]; [done|].
    apply Hn in Hj. congruence.
  - apply section_inv_start; [|done|exact (Hpcs _ _ Hi)].
    by eapply queue_at_file; [|exact Hq].
Qed.

Lemma ginv_access g i p p' s' :
  ginv g → g_pcs g !! i = Some p → section_step p (g_sys g) = Ok (p', s') →
  ginv (G (<[i:=p']> (g_pcs g)) s' (g_hist g)).
Proof.
  intros (q & Hh & Hwf & Hpcs & Hcase) Hi Hstep.
  assert (in_section p = true) as Hp by by destruct p.
  destruct Hcase as [(_ & _ & Hn)|(j & pj & Hj & Hin & Hs & Hu & Hinv)].
  { apply Hn in Hi. congruence. }
  assert (i = j) as -> by eauto. rewrite Hi in Hj. injection Hj as <-.
  destruct (section_inv_step _ _ _ Hinv Hp) as [(op & s1 & -> & _)|(p1 & s1 & Hs1 & Hp1 & Hsem & Hinv1)].
  { done. }
  rewrite Hstep in Hs1. injection Hs1 as <- <-.
  exists q. split_and!; try done.
  { apply pcs_wf_insert; [done|]. by destruct p'. }
  right. exists j, p'. simpl. split_and!; [|done|by rewrite Hsem| |done].
  - apply list_lookup_insert_eq. by eapply lookup_lt_Some.
  - intros k pk H Hk. destruct (insert_in_section _ _ _ _ _ H Hk) as [[-> _]|[_ Hk']]; eauto.
Qed.

Lemma ginv_post g i op out :
  ginv g → g_pcs g !! i = Some (Leave op out) →
  ginv (G (<[i:=Idle]> (g_pcs g)) (semaphore_post (g_sys g)) (g_hist g ++ [(op, out)])).
Proof.
  intros (q & Hh & Hwf & Hpcs & Hcase) Hi.
  destruct Hcase as [(_ & _ & Hn)|(j & pj & Hj & Hin & Hs & Hu & Hinv)].
  { apply Hn in Hi. done. }
  assert (i = j) as -> by eauto. rewrite Hi in Hj. injection Hj as <-.
  destruct (section_inv_step _ _ _ Hinv Hin) as [(op' & s1 & [= <- ->] & -> & Hq & Hwf')|(p1 & s1 & [=] & _)].
  exists (snd (fifo_step n op q)). simpl. rewrite !fmap_app. simpl.
  split_and!; [by apply fifo_run_snoc | done | by apply pcs_wf_insert |].
  left. split_and!; simpl; [by rewrite Hs | by eapply queue_at_file; [|exact Hq] |].
  intros k pk [(_ & <- & _)|[Hne Hk]]%list_lookup_insert_Some; [done|].
  destruct (in_section pk) eqn:E; [|done]. by apply Hu in Hk.
Qed.

Lemma ginv_step ev g g' :
  ginv g → gstep ev g = Ok g' → ev ≠ Init → (match ev with Call _ op => op_wf op | _ => True end) →
  ginv g'.
Proof.
  intros Hg Hs Hev Hop. destruct ev as [i op|i|i|i|]; simpl in Hs; [| | | |done];
    destruct (g_pcs g !! i) as [p|] eqn:Hi; try done.
  - destruct p; try done. injection Hs as <-. by eapply ginv_outside.
  - destruct p; try done. apply bind_Ok_inv in Hs as (s1 & Hw & [= <-]). by eapply ginv_wait.
  - apply bind_Ok_inv in Hs as ([p' s1] & Hp & [= <-]). by eapply ginv_access.
  - destruct p; try done. injection Hs as <-. by eapply ginv_post.
Qed.

Lemma reach_ginv g0 g : ginv g0 → reach false g0 g → ginv g.
Proof.
  intros H0 Hr. induction Hr as [|ev g g' _ IH Hs Hev Hop]; [done|].
  eapply ginv_step; eauto. intros ->. by specialize (Hev eq_refl).
Qed.

(** The processes of a system that starts. *)
Definition initial (k : nat) (s : sys) : gstate := G (replicate k Idle) s [].

Lemma initial_ginv k s : holds n [] s → ginv (initial k s).
Proof.
  intros (Hq & Hs & _). exists []. split_and!; [done | done | |].
  - by intros i p [-> _]%lookup_replicate_1.
  - left. split_and!; [done..|]. by intros i p [-> _]%lookup_replicate_1.
Qed.
End system.

(** ** Properties *)

(** C15: However the processes that share a queue interleave their accesses, at
    most one is inside a section, and no access of any of them faults: an
    event is possible or has to wait. *)
Theorem queue_mutual_exclusion o r n k s g :
  covers r n → holds n [] s → reach o r false (initial k s) g →
  (∀ i j p p', g_pcs g !! i = Some p → g_pcs g !! j = Some p' →
     in_section p = true → in_section p' = true → i = j) ∧
  ∀ ev, match gstep o r ev g with Ok _ => True | Err f => f = Blocked end.
Proof.
  intros Hc Hs Hr. apply (reach_ginv o r n Hc) in Hr; [|by apply initial_ginv].
  destruct Hr as (q & _ & _ & Hpcs & Hcase). split.
  - intros i j p p' Hi Hj Hp Hp'.
    destruct Hcase as [(_ & _ & Hn)|(l & pl & _ & _ & _ & Hu & _)].
    + apply Hn in Hi. congruence.
    + transitivity l; [|symmetry]; eauto.
  - intros [i op|i|i|i|]; simpl; [..|done];
      destruct (g_pcs g !! i) as [p|] eqn:Hi; try done; try (by destruct p).
    + destruct p; try done. unfold semaphore_wait. by case_decide.
    + destruct (in_section p) eqn:Hp; [|by destruct p].
      destruct Hcase as [(_ & _ & Hn)|(l & pl & Hl & _ & _ & Hu & Hinv)].
      { apply Hn in Hi. congruence. }
      assert (i = l) as -> by eauto. rewrite Hi in Hl. injection Hl as <-.
      destruct (section_inv_step o r n _ _ _ Hinv Hp) as [(op & s1 & -> & _)|(p1 & s1 & -> & _)];
        done.
Qed.

(** C8: The completed operations of all processes, in the order in which they
    left their sections, have the results of one bounded first-in first-out
    queue, and when nobody is inside a section the memory holds exactly that
    queue. *)
Theorem queue_linearizable o r n k s g :
  covers r n → holds n [] s → reach o r false (initial k s) g →
  (g_hist g).*2 = fst (fifo_run n (g_hist g).*1 []) ∧
  ((∀ i p, g_pcs g !! i = Some p → in_section p = false) →
   holds n (snd (fifo_run n (g_hist g).*1 [])) (g_sys g)).
Proof.
  intros Hc Hs Hr. apply (reach_ginv o r n Hc) in Hr; [|by apply initial_ginv].
  destruct Hr as (q & Hh & Hwf & _ & Hcase). rewrite Hh. split; [done|]. intros Hn.
  destruct Hcase as [(Hsem & Hq & _)|(i & p & Hi & Hp & _)]; [done|].
  apply Hn in Hi. congruence.
Qed.

(** C29: No deadlock: while some process has an operation under way, some
    process can move. *)
Theorem queue_progress o r n k s g i p :
  covers r n → holds n [] s → reach o r false (initial k s) g →
  g_pcs g !! i = Some p → p ≠ Idle →
  ∃ ev g', ev ≠ Init ∧ (∀ j op, ev ≠ Call j op) ∧ gstep o r ev g = Ok g'.
Proof.
  intros Hc Hs Hr Hi Hp. apply (reach_ginv o r n Hc) in Hr; [|by apply initial_ginv].
  destruct Hr as (q & _ & _ & _ & Hcase).
  destruct Hcase as [(Hsem & _ & Hn)|(j & pj & Hj & Hin & _ & _ & Hinv)].
  - pose proof (Hn _ _ Hi) as Hout. destruct p; try done.
    exists (Wait i). eexists. split_and!; [done | done |]. simpl. rewrite Hi.
    unfold semaphore_wait. rewrite Hsem. by simpl.
  - destruct (section_inv_step o r n _ _ _ Hinv Hin) as [(op & s1 & -> & _)|(p1 & s1 & Hs1 & _)].
    + exists (Post j). eexists. split_and!; [done | done |]. simpl. by rewrite Hj.
    + exists (Access j). eexists. split_and!; [done | done |]. simpl. by rewrite Hj, Hs1.
Qed.

(** Runs given by their events. *)
Fixpoint grun (o : os) (r : pq_ref) (evs : list event) (g : gstate) : res gstate :=
  match evs with
  | [] => Ok g
  | ev :: evs' => g' ← gstep o r ev g; grun o r evs' g'
  end.

Definition event_wf (ev : event) : Prop := match ev with Call _ op => op_wf op | _ => True end.

Lemma grun_reach o r b evs g0 g g' :
  reach o r b g0 g → grun o r evs g = Ok g' → Forall event_wf evs →
  (b = false → Init ∉ evs) → reach o r b g0 g'.
Proof.
  revert g. induction evs as [|ev evs IH]; intros g Hr Hg Hwf Hb; simpl in Hg.
  { by injection Hg as <-. }
  apply bind_Ok_inv in Hg as (g1 & Hs & Hg). apply Forall_cons in Hwf as [Hev Hwf].
  apply (IH g1); [|done|done|].
  - eapply reach_step; eauto. intros ->. destruct b; [done|].
    exfalso. apply Hb; [done|]. apply elem_of_cons. by left.
  - intros Hf Hin. apply Hb; [done|]. apply elem_of_cons. by right.
Qed.

(** ** A lost message *)

(** A queue of two empty slots, a reference to it, and the events of two
    processes: process 0 enqueues twice, process 1 dequeues. *)
Definition ex_ref : pq_ref := PqRef 3 65536 (Some 7).
Definition ex_queue : sys :=
  Sys (File (ring 0 0 0 2 (long_bytes 62088) [zero_slot; zero_slot])) [] 1 [].
Definition ex_events (init : bool) : list event :=
  [Call 0 (Enqueue (ex_mail 1)); Wait 0; Access 0; Access 0; Access 0; Access 0; Access 0; Post 0;
   Call 0 (Enqueue (ex_mail 2)); Call 1 Dequeue; Wait 0;
   Access 0; Access 0; Access 0; Access 0] ++
  (if init then [Init] else []) ++
  [Wait 1; Access 1; Access 1; Access 1; Access 1; Access 0; Access 1; Post 0; Post 1].

Definition codes (g : gstate) : list Z := (g_hist g).*2.*1.

Lemma ex_events_wf b : Forall event_wf (ex_events b).
Proof.
  assert (op_wf (Enqueue (ex_mail 1)) ∧ op_wf (Enqueue (ex_mail 2))) as [H1 H2]
    by (split; apply ex_mail_wf; by_compute).
  unfold ex_events. apply Forall_app. split; [|destruct b];
    repeat (apply Forall_cons; split; [done|]); apply Forall_nil_2.
Qed.

(** C40: When a further process runs [pq_init] while a section is occupied, its
    [semaphore_init] admits a second process to it, and a message is lost: two
    [pq_enqueue] and one [pq_dequeue] have all reported success, nobody is
    inside a section, and the queue says that it is empty. *)
Theorem semaphore_init_loses_message :
  ∃ g d s', reach ex_os ex_ref true (initial 2 ex_queue) g ∧ codes g = [0; 0; 0] ∧
    g_pcs g = [Idle; Idle] ∧
    pq_dequeue ex_os (PTo ex_ref) (malloc sizeof_mail) (set_sem 1 (g_sys g)) =
      Ok (PQ_MESSAGE_QUEUE_EMPTY_ERROR, d, s').
Proof.
  assert (match grun ex_os ex_ref (ex_events true) (initial 2 ex_queue) with
    | Ok g => bool_decide (codes g = [0; 0; 0]) &&
        match g_pcs g with [Idle; Idle] => true | _ => false end &&
        bool_decide (result_code (pq_dequeue ex_os (PTo ex_ref) (malloc sizeof_mail)
          (set_sem 1 (g_sys g))) = Some PQ_MESSAGE_QUEUE_EMPTY_ERROR)
    | Err _ => false end = true) as H by (vm_compute; reflexivity).
  destruct (grun ex_os ex_ref (ex_events true) (initial 2 ex_queue)) as [g|] eqn:Hg; [|done].
  apply andb_true_iff in H as [[Hc Hp]%andb_true_iff Hd].
  apply bool_decide_eq_true in Hc, Hd.
  destruct (pq_dequeue ex_os (PTo ex_ref) (malloc sizeof_mail) (set_sem 1 (g_sys g)))
    as [[[c d] s']|] eqn:Hdq; [|done]. injection Hd as ->.
  exists g, d, s'. split_and!; [|done| |done].
  - eapply grun_reach; [apply reach_refl | exact Hg | apply ex_events_wf | done].
  - destruct (g_pcs g) as [|[] [|[] []]]; done.
Qed.

(** ** Witnesses *)

Lemma ex_covers : covers ex_ref 2.
Proof. unfold covers. by_compute. Qed.

Lemma ex_queue_holds : holds 2 [] ex_queue.
Proof.
  split_and!; [|done|by constructor]. do 4 eexists.
  split_and!; [reflexivity | apply length_long_bytes |].
  apply (ring_inv_new 2). unfold INT_MAX. lia.
Qed.

(** Process 0 inside its section, process 1 waiting. *)
Definition ex_inside : gstate :=
  G [Enq_check (ex_mail 1); Enter Dequeue] (set_sem 0 ex_queue) [].

Lemma ex_inside_reach : reach ex_os ex_ref false (initial 2 ex_queue) ex_inside.
Proof.
  apply (grun_reach _ _ _ [Call 0 (Enqueue (ex_mail 1)); Call 1 Dequeue; Wait 0] _ (initial 2 ex_queue));
    [apply reach_refl | reflexivity | |].
  - repeat (apply Forall_cons; split; [try done|]); [|apply Forall_nil_2].
    apply ex_mail_wf. by_compute.
  - intros _. repeat (apply not_elem_of_cons; split; [discriminate|]). apply not_elem_of_nil.
Qed.

Lemma queue_mutual_exclusion_witness :
  (∀ i j p p', g_pcs ex_inside !! i = Some p → g_pcs ex_inside !! j = Some p' →
     in_section p = true → in_section p' = true → i = j) ∧
  ∀ ev, match gstep ex_os ex_ref ev ex_inside with Ok _ => True | Err f => f = Blocked end.
Proof.
  exact (queue_mutual_exclusion ex_os ex_ref 2 2 ex_queue ex_inside
    ex_covers ex_queue_holds ex_inside_reach).
Defined.

Lemma queue_linearizable_witness :
  ∃ g, codes g = [0; 0; 0] ∧ (g_hist g).*2 = fst (fifo_run 2 (g_hist g).*1 []).
Proof.
  set (evs := [Call 0 (Enqueue (ex_mail 1)); Wait 0; Access 0; Access 0; Access 0; Access 0;
    Access 0; Post 0; Call 0 (Enqueue (ex_mail 2)); Call 1 Dequeue; Wait 0; Access 0; Access 0;
    Access 0; Access 0; Access 0; Post 0; Wait 1; Access 1; Access 1; Access 1; Access 1;
    Access 1; Post 1]).
  assert (match grun ex_os ex_ref evs (initial 2 ex_queue) with
    | Ok g => bool_decide (codes g = [0; 0; 0]) | Err _ => false end = true) as H
    by (vm_compute; reflexivity).
  destruct (grun ex_os ex_ref evs (initial 2 ex_queue)) as [g|] eqn:Hg; [|discriminate H].
  exists g. split; [exact (bool_decide_eq_true_1 _ H)|].
  refine (proj1 (queue_linearizable ex_os ex_ref 2 2 ex_queue g ex_covers ex_queue_holds _)).
  apply (grun_reach _ _ _ evs _ (initial 2 ex_queue)); [apply reach_refl | exact Hg | |].
  - assert (op_wf (Enqueue (ex_mail 1)) ∧ op_wf (Enqueue (ex_mail 2))) as [H1 H2]
      by (split; apply ex_mail_wf; by_compute).
    unfold evs. repeat (apply Forall_cons; split; [exact I || assumption|]). apply Forall_nil_2.
  - intros _. unfold evs. repeat (apply not_elem_of_cons; split; [discriminate|]). apply not_elem_of_nil.
Defined.

Lemma queue_progress_witness :
  ∃ ev g', ev ≠ Init ∧ (∀ j op, ev ≠ Call j op) ∧ gstep ex_os ex_ref ev ex_inside = Ok g'.
Proof.
  refine (queue_progress ex_os ex_ref 2 2 ex_queue ex_inside 1 (Enter Dequeue)
    ex_covers ex_queue_holds ex_inside_reach eq_refl _). discriminate.
Defined.
