(* ===== verification/QueueFs.v ===== *)
(** QueueFs: queues by the paths of their files.  [Queue] treats one file and
    its mapping; here a file system holds many files, [pq_init] resolves its
    path in it, and a process that has a queue open sees the file that it
    mapped. *)
From stdpp Require Import gmap.
From S2P Require Import Prelude Base Layout Queue.

#[local] Open Scope Z_scope.

#[global] Instance byte_countable : Countable byte := inj_countable Byte.to_N Byte.of_N Byte.of_to_N.

(** ** The file system *)

(** The files with what of them is on the disk; the semaphore of [SEM_KEY] and
    the descriptors are there once for all queues. *)
Record world := World {
  w_files : gmap (list byte) (fsnode * buf);
  w_sem : Z;
  w_fds : list Z;
}.

(** What the functions of a queue see of it, and put back. *)
Definition at_path (p : list byte) (w : world) : sys :=
  let f := default (NoFile, []) (w_files w !! p) in Sys f.1 f.2 (w_sem w) (w_fds w).
Definition with_path (p : list byte) (s : sys) (w : world) : world :=
  World (<[p := (sys_file s, sys_disk s)]> (w_files w)) (sys_sem s) (sys_fds s).

(** [pq_init (&reference, path, max_count)]: the result, the reference with the
    path of the file that it maps, and the file system. *)
Definition pq_init_path (o : os) (path : buf) (max_count : Z) (w : world)
    : res (Z * option pq_ref * list byte * world) :=
  p ← cstring path;
  r ← pq_init o max_count (at_path p w);
  let '(code, ref, s) := r in Ok (code, ref, p, with_path p s w).

(** ** Laws *)

Lemma at_with_path p s w : at_path p (with_path p s w) = s.
Proof. unfold at_path, with_path. cbn [w_files w_sem w_fds]. rewrite lookup_insert_eq. by destruct s. Qed.

(** The other files stay as they are. *)
Lemma with_path_other p q s w : q ≠ p → w_files (with_path p s w) !! q = w_files w !! q.
Proof. intros Hne. unfold with_path. cbn [w_files]. by rewrite lookup_insert_ne. Qed.

Lemma with_path_twice p s s' w : with_path p s' (with_path p s w) = with_path p s' w.
Proof. unfold with_path. cbn [w_files]. by rewrite insert_insert_eq. Qed.
