(* ===== verification/Request.v ===== *)
(** Request: the SMTP side of a connection, [src/src/request.c]: the command
    scanner with its DATA accumulator.  The memory-level translation comes
    first, then an abstract SMTP session on byte lists that it refines. *)
From S2P Require Import Prelude Base Config Response.

(** ** Operations *)

Definition request_init : request :=
  Request (replicate (Z.to_nat HEADER_MAX_LEN) hdr_malloc)
    None None 0 false None 0 0 false false.

(** The strings of the protocol. *)
Definition crlf : list byte := [CR; LF].
Definition kw_data : list byte := lit "DATA" ++ crlf.
Definition kw_ehlo : list byte := lit "EHLO".
Definition kw_mail : list byte := lit "MAIL FROM:".
Definition kw_rcpt : list byte := lit "RCPT TO:".
Definition kw_quit : list byte := lit "QUIT".
Definition re_data : list byte := lit "354 End data with <CR><LF>.<CR><LF>" ++ crlf.
Definition re_ehlo : list byte := lit "250 Hi, you have a report for me?" ++ crlf.
Definition re_ok : list byte := lit "250 Ok" ++ crlf.
Definition re_quit : list byte := lit "221 Bye, see you tomorrow!" ++ crlf.
Definition re_queued : list byte := lit "250 Ok: queued as nada" ++ crlf.
Definition eod : list byte := crlf ++ lit "." ++ crlf.
Definition warn_data : list byte := lit "data size is too big.".

(** The variables of the scanning loop: the index, [*conn->request],
    [conn->response], [conn->status] and the warnings printed. *)
Record scan := Scan {
  sc_i : Z;
  sc_req : request;
  sc_resp : ptr response;
  sc_status : conn_status;
  sc_warn : list (list byte);
}.

(** [response_append (resp, "...")] on the pointer of the connection. *)
Definition reply (p : ptr response) (s : list byte) : res (ptr response) :=
  r ← deref p; r' ← response_append r (cstr s); Ok (PTo r').

(** [strncmp (data + i, s, strlen (s)) == 0]. *)
Definition looking_at (data : buf) (i : Z) (s : list byte) : res bool :=
  p ← ptr_add data i; strncmp_eq p (cstr s) (length s).

(** Outside DATA: look for a command at position [i]. *)
Definition scan_command (data : buf) (s : scan) : res (ctl scan) :=
  let i := sc_i s in
  let req := sc_req s in
  let said p := Next (Scan (i + 1) req p (sc_status s) (sc_warn s)) in
  is_data ← looking_at data i kw_data;
  if is_data : bool then
    p ← reply (sc_resp s) re_data;
    let req' := Request (req_headers req) (req_header_count req) (req_body req)
      (req_body_len req) true (req_data req) (req_data_alloc req) (req_data_len req)
      (req_quit req) (req_process req) in
    Ok (Next (Scan (i + 5 + 1) req' p (sc_status s) (sc_warn s)))
  else
  is_ehlo ← looking_at data i kw_ehlo;
  if is_ehlo : bool then p ← reply (sc_resp s) re_ehlo; Ok (said p) else
  is_mail ← looking_at data i kw_mail;
  if is_mail : bool then p ← reply (sc_resp s) re_ok; Ok (said p) else
  is_rcpt ← looking_at data i kw_rcpt;
  if is_rcpt : bool then p ← reply (sc_resp s) re_ok; Ok (said p) else
  is_quit ← looking_at data i kw_quit;
  if is_quit : bool then
    p ← reply (sc_resp s) re_quit;
    let req' := Request (req_headers req) (req_header_count req) (req_body req)
      (req_body_len req) (req_in_data req) (req_data req) (req_data_alloc req)
      (req_data_len req) true (req_process req) in
    Ok (Next (Scan (i + 1) req' p (sc_status s) (sc_warn s)))
  else Ok (Next (Scan (i + 1) req (sc_resp s) (sc_status s) (sc_warn s))).

(** [req] with another accumulator. *)
Definition req_set_data (d : option buf) (alloc len : Z) (req : request) : request :=
  Request (req_headers req) (req_header_count req) (req_body req) (req_body_len req)
    (req_in_data req) d alloc len (req_quit req) (req_process req).

(** [realloc data var]: room for two more bytes at least. *)
Definition data_grow (req : request) : res request :=
  if decide (req_data_alloc req <= req_data_len req + 2) then
    alloc ← i32 (req_data_len req + 512);
    tmp ← memcpy_opt (malloc alloc) 0 (req_data req) 0 (req_data_len req);
    Ok (req_set_data (Some tmp) alloc (req_data_len req) req)
  else Ok req.

(** Inside DATA: store one byte and look for the end of the data. *)
Definition scan_data (cfg : config) (cur : byte) (s : scan) : res (ctl scan) :=
  req ← data_grow (sc_req s);
  if decide (req_data_len req < data_buffer_size cfg) then
    match req_data req with
    | None => Err NullDeref
    | Some d =>
        d1 ← bstore d (req_data_len req) cur;
        let len := req_data_len req + 1 in
        let req1 := req_set_data (Some d1) (req_data_alloc req) len req in
        if decide (4 < len) then
          p ← ptr_add d1 (len - 5);
          is_end ← strncmp_eq p (cstr eod) 5;
          if is_end : bool then
            r ← reply (sc_resp s) re_queued;
            d2 ← bstore d1 (len - 5) NUL;
            let req2 := Request (req_headers req) (req_header_count req) (req_body req)
              (req_body_len req) false (Some d2) (req_data_alloc req) len true true in
            Ok (Next (Scan (sc_i s + 1) req2 r (sc_status s) (sc_warn s)))
          else Ok (Next (Scan (sc_i s + 1) req1 (sc_resp s) (sc_status s) (sc_warn s)))
        else Ok (Next (Scan (sc_i s + 1) req1 (sc_resp s) (sc_status s) (sc_warn s)))
    end
  else Ok (Break (Scan (sc_i s) req (sc_resp s) CONN_ERROR (sc_warn s ++ [warn_data]))).

Definition scan_step (srv : server) (data : buf) (data_len : Z) (s : scan) : res (ctl scan) :=
  if decide (sc_i s < data_len) then
    cur ← bload data (sc_i s);
    if req_in_data (sc_req s) then
      cfg ← deref (srv_config srv); scan_data cfg cur s
    else scan_command data s
  else Ok (Break s).

(** [request_parse_commands (srv, conn)]: the return value, the connection and
    the warnings. *)
Definition request_parse_commands (srv : server) (conn : connection)
    : res (Z * connection * list (list byte)) :=
  req ← deref (conn_request conn);
  data ← deref (conn_read_buffer conn);
  match conn_buffer_len conn with
  | None => Err Uninit
  | Some data_len =>
      s ← cloop (scan_step srv data data_len) (S (Z.to_nat data_len))
            (Scan 0 req (conn_response conn) (conn_status_of conn) []);
      let conn' := conn_set_status (sc_status s)
        (conn_set_response (sc_resp s) (conn_set_request (PTo (sc_req s)) conn)) in
      Ok (if decide (sc_status s = CONN_ERROR) then 1 else 0, conn', sc_warn s)
  end.

(** [request_free (req)]. *)
Definition request_free (p : ptr request) : res (ptr request) :=
  _ ← deref p; cfree p.

(** ** The abstract SMTP session *)

(** What a client's bytes mean: whether they are message data, the data so
    far, the replies, and the two flags the connection acts on. *)
Record smtp := Smtp {
  m_in : bool;
  m_data : list byte;
  m_out : list byte;
  m_quit : bool;
  m_process : bool;
}.

Definition keywords : list (list byte) := [kw_data; kw_ehlo; kw_mail; kw_rcpt; kw_quit].

(** The effect of the command that starts the line position [l], if any. *)
Definition smtp_command (l : list byte) (m : smtp) : smtp :=
  let say r := m_out m ++ r in
  if decide (kw_data `prefix_of` l) then
    Smtp true (m_data m) (say re_data) (m_quit m) (m_process m)
  else if decide (kw_ehlo `prefix_of` l) then
    Smtp (m_in m) (m_data m) (say re_ehlo) (m_quit m) (m_process m)
  else if decide (kw_mail `prefix_of` l) then
    Smtp (m_in m) (m_data m) (say re_ok) (m_quit m) (m_process m)
  else if decide (kw_rcpt `prefix_of` l) then
    Smtp (m_in m) (m_data m) (say re_ok) (m_quit m) (m_process m)
  else if decide (kw_quit `prefix_of` l) then
    Smtp (m_in m) (m_data m) (say re_quit) true (m_process m)
  else m.

(** The dot line that ends the data stays in it, its first byte overwritten by
    a NUL. *)
Definition end_data (d : list byte) : list byte := take (length d - 5) d ++ NUL :: tail eod.

(** One byte of data. *)
Definition smtp_data (c : byte) (m : smtp) : smtp :=
  let d := m_data m ++ [c] in
  if decide (eod `suffix_of` d) then
    Smtp false (end_data d) (m_out m ++ re_queued) true true
  else Smtp (m_in m) d (m_out m) (m_quit m) (m_process m).

(** A session over the bytes [l], the first [skip] of them already consumed;
    [true] when the data outgrew [limit]. *)
Fixpoint smtp_run (limit : Z) (skip : nat) (l : list byte) (m : smtp) : smtp * bool :=
  match l with
  | [] => (m, false)
  | c :: l' =>
      match skip with
      | S k => smtp_run limit k l' m
      | O =>
          if m_in m then
            if decide (zlen (m_data m) < limit) then smtp_run limit O l' (smtp_data c m)
            else (m, true)
          else smtp_run limit (if decide (kw_data `prefix_of` l) then 5 else 0)%nat l'
                 (smtp_command l m)
      end
  end.

(** No command keyword is cut off by the end of the bytes [l]. *)
Definition lookahead_safe (l : list byte) : Prop :=
  Forall (λ k, Forall (λ n, drop n l `prefix_of` k → drop n l = k) (seq 0 (length l))) keywords.
#[global] Instance lookahead_safe_dec l : Decision (lookahead_safe l).
Proof. unfold lookahead_safe. apply _. Defined.

(** ** Representation *)

(** The accumulator of [req] is allocated as its fields say and holds [d]. *)
Definition data_rep (req : request) (d : list byte) : Prop :=
  req_data_len req = zlen d ∧
  match req_data req with
  | None => d = [] ∧ req_data_alloc req = 0
  | Some b => ∃ rest, b = bs d ++ rest ∧ req_data_alloc req = zlen b
  end.

(** The fields that the scanner leaves alone. *)
Definition req_frame (r r' : request) : Prop :=
  req_headers r' = req_headers r ∧ req_header_count r' = req_header_count r ∧
  req_body r' = req_body r ∧ req_body_len r' = req_body_len r.

Definition req_rep (req : request) (m : smtp) : Prop :=
  data_rep req (m_data m) ∧ req_in_data req = m_in m ∧
  req_quit req = m_quit m ∧ req_process req = m_process m.

Definition out_rep (p : ptr response) (m : smtp) : Prop :=
  ∃ r, p = PTo r ∧ resp_rep r (m_out m).

Definition smtp_init : smtp := Smtp false [] [] false false.

Lemma request_init_rep : req_rep request_init smtp_init.
Proof. done. Qed.

(** ** Lemmas on the steps *)

Lemma reply_wp p m t :
  out_rep p m → nonul t → zlen (m_out m) + zlen t + 512 <= INT_MAX →
  wp (reply p t) (λ p', ∃ r, p' = PTo r ∧ resp_rep r (m_out m ++ t)).
Proof.
  intros (r & -> & Hr) Ht Hmax. unfold reply. simpl. apply wp_bind.
  eapply wp_mono; [by apply response_append_rep|]. intros r' Hr'. simpl. eauto.
Qed.

(** A keyword that is not cut off by the end of the bytes read. *)
Definition uncut (rest k : list byte) : Prop := rest `prefix_of` k → rest = k.

Lemma looking_at_eq pre rest junk i k :
  i = zlen pre → nonul k → uncut rest k →
  looking_at (bs (pre ++ rest) ++ junk) i k = Ok (bool_decide (k `prefix_of` rest)).
Proof.
  intros -> Hk Hcut. unfold looking_at.
  rewrite bs_app, <-app_assoc, ptr_add_app by zlia. rewrite bind_Ok.
  apply strncmp_lit; [done|]. intros [Hp Hn]. auto.
Qed.

Lemma keywords_nonul k : k ∈ keywords → nonul k.
Proof.
  assert (Forall nonul keywords) as H by by_compute.
  rewrite Forall_forall in H. apply H.
Qed.

Lemma lookahead_uncut pre rest k :
  lookahead_safe (pre ++ rest) → k ∈ keywords → rest ≠ [] → uncut rest k.
Proof.
  unfold lookahead_safe. rewrite Forall_forall. intros H Hk Hr Hp.
  specialize (H k Hk). rewrite Forall_forall in H.
  specialize (H (length pre)). rewrite drop_app_length in H. apply H; [|done].
  apply elem_of_seq. rewrite length_app. destruct rest; [done|]. simpl. lia.
Qed.

(** Bytes that end in a line feed cut no keyword. *)
Lemma lookahead_lf l : last l = Some LF → lookahead_safe l.
Proof.
  intros Hl. unfold lookahead_safe. rewrite Forall_forall. intros k Hk.
  rewrite Forall_forall. intros n [_ Hn]%elem_of_seq [t Hp].
  assert (last (drop n l) = Some LF) as Hd.
  { rewrite <-(take_drop n l), last_app in Hl.
    destruct (last (drop n l)) eqn:E; [congruence|].
    apply last_None in E. apply (f_equal length) in E. rewrite length_drop in E. simpl in E. lia. }
  destruct t as [|c t]; [by rewrite app_nil_r in Hp|]. exfalso.
  apply last_Some in Hd as [r Hr]. rewrite Hr, <-app_assoc in Hp. simpl in Hp.
  assert (Forall (λ k, Forall (λ i, k !! i ≠ Some LF) (seq 0 (length k - 1))) keywords) as Hno
    by by_compute.
  rewrite Forall_forall in Hno. specialize (Hno k Hk). rewrite Forall_forall in Hno.
  apply (Hno (length r)).
  - apply elem_of_seq. rewrite Hp, length_app. simpl. lia.
  - by rewrite Hp, list_lookup_middle.
Qed.

Definition replies : list (list byte) := [re_data; re_ehlo; re_ok; re_quit; re_queued].

Lemma replies_short t : t ∈ replies → nonul t ∧ zlen t <= 40.
Proof.
  assert (Forall (λ t, nonul t ∧ zlen t <= 40) replies) as H by by_compute.
  rewrite Forall_forall in H. apply H.
Qed.

Lemma replies_wp p m t :
  out_rep p m → zlen (m_out m) + 1000 <= INT_MAX → t ∈ replies →
  wp (reply p t) (λ p', ∃ r, p' = PTo r ∧ resp_rep r (m_out m ++ t)).
Proof. intros Hout Hmax [Hn Hl]%replies_short. apply reply_wp; [done..|lia]. Qed.

(** What one iteration outside DATA does. *)
Lemma scan_command_wp pre rest junk s m :
  sc_i s = zlen pre → (∀ k, k ∈ keywords → uncut rest k) →
  req_rep (sc_req s) m → out_rep (sc_resp s) m → zlen (m_out m) + 1000 <= INT_MAX →
  wp (scan_command (bs (pre ++ rest) ++ junk) s) (λ c, ∃ s', c = Next s' ∧
    sc_i s' = zlen pre + (if decide (kw_data `prefix_of` rest) then 6 else 1) ∧
    req_frame (sc_req s) (sc_req s') ∧ req_rep (sc_req s') (smtp_command rest m) ∧
    out_rep (sc_resp s') (smtp_command rest m) ∧
    sc_status s' = sc_status s ∧ sc_warn s' = sc_warn s).
Proof.
  intros Hi Hcut Hreq Hout Hmax.
  unfold scan_command, smtp_command.
  rewrite !(looking_at_eq pre rest) by
    (first [done | apply keywords_nonul; by_compute | apply Hcut; by_compute]).
  destruct Hreq as (Hd & Hin & Hq & Hp).
  repeat (rewrite bind_Ok; case_bool_decide as Hk;
    [rewrite ?(decide_True (P:=_ `prefix_of` rest)) by done; apply wp_bind;
     eapply wp_mono; [apply replies_wp; [done..|by_compute]|];
     intros p' (r & -> & Hr); eexists; split; [done|]; simpl;
     split_and!; try done; [lia | by exists r]
    |rewrite ?(decide_False (P:=_ `prefix_of` rest)) by done; clear Hk]).
  simpl. eexists; split; [done|]; simpl; split_and!; try done; lia.
Qed.

Lemma data_grow_wp req d :
  data_rep req d → zlen d + 512 <= INT_MAX →
  wp (data_grow req) (λ r, ∃ rest,
    r = req_set_data (Some (bs d ++ rest)) (zlen d + zlen rest) (zlen d) req ∧ 2 < zlen rest).
Proof.
  intros [Hlen Hd] Hmax. unfold data_grow. rewrite Hlen. case_decide as Hgrow.
  - int_ok. apply wp_bind.
    destruct (req_data req) as [b|]; simpl.
    + destruct Hd as (rest & -> & _). unfold memcpy.
      rewrite bread_bs by done. rewrite bind_Ok.
      rewrite bwrite_start by (rewrite zlen_malloc; zlia). simpl. rewrite length_bs.
      exists (drop (length d) (malloc (zlen d + 512))).
      split; [f_equal; zlia | zlia].
    + destruct Hd as [-> _]. simpl. exists (malloc 512). split; [done | zlia].
  - simpl. destruct (req_data req) as [b|] eqn:E.
    + destruct Hd as (rest & -> & Hal). exists rest. split; [|zlia].
      destruct req; simpl in *; subst. unfold req_set_data. simpl.
      f_equal; zlia.
    + destruct Hd as [-> Hal]. zlia.
Qed.

Lemma eod_length : length eod = 5%nat.
Proof. done. Qed.
Lemma crlf_length : length crlf = 2%nat.
Proof. done. Qed.
#[export] Hint Rewrite eod_length crlf_length : len.

(** The comparison with the last five bytes decides whether the data ends. *)
Lemma eod_compare d rest :
  4 < zlen d →
  (p ← ptr_add (bs d ++ rest) (zlen d - 5); strncmp_eq p (cstr eod) 5) =
    Ok (bool_decide (eod `suffix_of` d)).
Proof.
  intros Hl. rewrite <-(take_drop (length d - 5) d) at 1.
  rewrite bs_app, <-app_assoc, ptr_add_app by zlia. rewrite bind_Ok.
  assert (length (drop (length d - 5) d) = 5%nat) as H5 by (rewrite length_drop; zlia).
  rewrite (strncmp_lit eod).
  - f_equal. apply bool_decide_ext. split.
    + intros Hp. apply prefix_length_eq in Hp; [|by rewrite H5].
      exists (take (length d - 5) d). rewrite Hp. by rewrite take_drop.
    + intros [t ->]. rewrite length_app, eod_length.
      replace (length t + 5 - 5)%nat with (length t) by lia. by rewrite drop_app_length.
  - by_compute.
  - intros [Hp Hn]. apply Hn. by apply prefix_length_eq; [|rewrite H5].
Qed.

Lemma eod_marked_length d :
  eod `suffix_of` d → length (end_data d) = length d.
Proof.
  unfold end_data. intros [t ->]. rewrite length_app, length_take, length_app, eod_length. simpl. lia.
Qed.

Lemma eod_mark d c rest :
  eod `suffix_of` (d ++ [c]) →
  bstore (bs (d ++ [c]) ++ rest) (zlen d + 1 - 5) NUL =
    Ok (bs (end_data (d ++ [c])) ++ rest).
Proof.
  unfold end_data. intros [t Ht]. rewrite Ht, length_app, eod_length.
  apply (f_equal length) in Ht as Hl. rewrite !length_app, eod_length in Hl. simpl in Hl.
  replace (length t + 5 - 5)%nat with (length t) by lia. rewrite take_app_length.
  change eod with (CR :: tail eod) at 1. rewrite !bs_app, !bs_cons, <-!app_assoc. simpl.
  apply bstore_mid. zlia.
Qed.

(** What one iteration inside DATA does. *)
Lemma scan_data_wp cfg c s m :
  req_rep (sc_req s) m → out_rep (sc_resp s) m →
  zlen (m_data m) + 512 <= INT_MAX → zlen (m_out m) + 1000 <= INT_MAX →
  wp (scan_data cfg c s) (λ r,
    if decide (zlen (m_data m) < data_buffer_size cfg) then
      ∃ s', r = Next s' ∧ sc_i s' = sc_i s + 1 ∧
        req_frame (sc_req s) (sc_req s') ∧ req_rep (sc_req s') (smtp_data c m) ∧
        out_rep (sc_resp s') (smtp_data c m) ∧
        sc_status s' = sc_status s ∧ sc_warn s' = sc_warn s
    else
      ∃ s', r = Break s' ∧ req_frame (sc_req s) (sc_req s') ∧ req_rep (sc_req s') m ∧
        out_rep (sc_resp s') m ∧
        sc_status s' = CONN_ERROR ∧ sc_warn s' = sc_warn s ++ [warn_data]).
Proof.
  intros (Hd & Hin & Hq & Hp) Hout Hmax Hmax'. unfold scan_data.
  apply wp_bind. eapply wp_mono; [by apply data_grow_wp|].
  intros r (rest & -> & Hrest). simpl. case_decide as Hlim.
  - rewrite bstore_end by zlia. rewrite bind_Ok.
    change (bs (m_data m) ++ Some c :: drop 1 rest) with (bs (m_data m) ++ bs [c] ++ drop 1 rest).
    rewrite app_assoc, <-bs_app.
    assert (∀ alloc, alloc = zlen (m_data m) + zlen rest →
      data_rep (req_set_data (Some (bs (m_data m ++ [c]) ++ drop 1 rest)) alloc
        (zlen (m_data m) + 1) (sc_req s)) (m_data m ++ [c])) as Hrep.
    { intros alloc ->. split; simpl; [zlia|]. eexists. split; [done|zlia]. }
    unfold smtp_data. case_decide as H4.
    + pose proof (eod_compare (m_data m ++ [c]) (drop 1 rest) ltac:(zlia)) as Hcmp.
      replace (zlen (m_data m ++ [c])) with (zlen (m_data m) + 1) in Hcmp by zlia.
      apply bind_Ok_inv in Hcmp as (p & -> & Hcmp). rewrite bind_Ok, Hcmp, bind_Ok.
      case_bool_decide as Heod; [rewrite (decide_True _ _ Heod)|rewrite (decide_False _ _ Heod)].
      * apply wp_bind. eapply wp_mono; [apply replies_wp; [done..|by_compute]|].
        intros p' (r & -> & Hr). rewrite eod_mark by done. simpl.
        eexists. split; [done|]. simpl. split_and!; try done; [split_and!; try done|by exists r].
        apply eod_marked_length in Heod. unfold data_rep, zlen. simpl.
        rewrite Heod. split; [|eexists; split; [done|]]; zlia.
      * eexists. split; [done|]. simpl. split_and!; try done. split_and!; try done. by apply Hrep.
    + rewrite decide_False.
      * eexists. split; [done|]. simpl. split_and!; try done. split_and!; try done. by apply Hrep.
      * intros [t Ht]. apply (f_equal length) in Ht. rewrite !length_app, eod_length in Ht.
        simpl in Ht. zlia.
  - eexists. split; [done|]. simpl. split_and!; try done.
    split_and!; try done. split; simpl; [done|]. eexists. split; [done|zlia].
Qed.

(** ** The scanner refines the session *)

Lemma smtp_run_skip lim k l m : smtp_run lim k l m = smtp_run lim 0 (drop k l) m.
Proof.
  revert l. induction k as [|k IH]; intros l; [done|].
  destruct l as [|c l]; [done|]. apply IH.
Qed.

(** The bounds that keep every length of a session in the [int] range. *)
Lemma smtp_command_bounds l m :
  zlen (m_out (smtp_command l m)) <= zlen (m_out m) + 40 ∧
  m_data (smtp_command l m) = m_data m.
Proof.
  unfold smtp_command.
  repeat (case_decide; [simpl; rewrite zlen_app; split; [|done];
    match goal with |- context [zlen (?a)] =>
      match a with m_out _ => fail 1 | _ => idtac end;
      pose proof (proj2 (replies_short a ltac:(by_compute))); lia end|]).
  split; [lia | done].
Qed.

Lemma smtp_data_bounds c m :
  zlen (m_out (smtp_data c m)) <= zlen (m_out m) + 40 ∧
  zlen (m_data (smtp_data c m)) = zlen (m_data m) + 1.
Proof.
  unfold smtp_data. case_decide as Heod; simpl.
  - pose proof (proj2 (replies_short re_queued ltac:(by_compute))).
    apply eod_marked_length in Heod. rewrite zlen_app. split; [lia|]. zlia.
  - zlia.
Qed.

Lemma req_frame_refl r : req_frame r r.
Proof. by split_and!. Qed.

Lemma req_frame_trans r1 r2 r3 : req_frame r1 r2 → req_frame r2 r3 → req_frame r1 r3.
Proof. intros (?&?&?&?) (?&?&?&?). split_and!; congruence. Qed.

Section refinement.
Context (srv : server) (cfg : config) (Hcfg : srv_config srv = PTo cfg).
Context (bytes : list byte) (junk : buf) (Hsafe : lookahead_safe bytes).
Context (req0 : request) (st : conn_status) (m0 : smtp).
Context (Hdmax : zlen (m_data m0) + zlen bytes + 512 <= INT_MAX).
Context (Homax : zlen (m_out m0) + 40 * zlen bytes + 1000 <= INT_MAX).

Let final := smtp_run (data_buffer_size cfg) 0 bytes m0.

Definition scan_inv (s : scan) : Prop := ∃ pre rest m,
  bytes = pre ++ rest ∧ sc_i s = zlen pre ∧ req_frame req0 (sc_req s) ∧
  req_rep (sc_req s) m ∧ out_rep (sc_resp s) m ∧ sc_status s = st ∧ sc_warn s = [] ∧
  smtp_run (data_buffer_size cfg) 0 rest m = final ∧
  zlen (m_out m) + 40 * zlen rest <= zlen (m_out m0) + 40 * zlen bytes ∧
  zlen (m_data m) + zlen rest <= zlen (m_data m0) + zlen bytes.

Definition scan_post (s : scan) : Prop :=
  req_frame req0 (sc_req s) ∧ req_rep (sc_req s) (fst final) ∧ out_rep (sc_resp s) (fst final) ∧
  sc_status s = (if snd final then CONN_ERROR else st) ∧
  sc_warn s = (if snd final then [warn_data] else []).

Lemma scan_step_wp s :
  scan_inv s →
  wp (scan_step srv (bs bytes ++ junk) (zlen bytes) s) (λ c,
    match c with
    | Next s' => scan_inv s' ∧ (Z.to_nat (zlen bytes - sc_i s') < Z.to_nat (zlen bytes - sc_i s))%nat
    | Break s' => scan_post s'
    end).
Proof.
  intros (pre & rest & m & Hb & Hi & Hfr & Hreq & Hout & Hst & Hw & Hrun & Ho & Hd).
  unfold scan_step. destruct rest as [|c rest].
  { rewrite decide_False by (rewrite Hb; zlia). simpl in *.
    unfold scan_post. rewrite <-Hrun. done. }
  rewrite decide_True by (rewrite Hb; zlia).
  rewrite (bload_bs _ _ _ c) by (rewrite ?Hi, ?zlen_to_nat, ?Hb; try zlia; by apply list_lookup_middle).
  rewrite bind_Ok. pose proof Hreq as (_ & Hin & _ & _). rewrite Hin. simpl in Hrun.
  destruct (m_in m) eqn:Em.
  - rewrite Hcfg. simpl.
    eapply wp_mono; [apply (scan_data_wp cfg c s m Hreq Hout); zlia|]. simpl. intros r Hr.
    case_decide.
    + destruct Hr as (s' & -> & Hi' & Hfr' & Hreq' & Hout' & Hst' & Hw').
      pose proof (smtp_data_bounds c m) as [].
      split; [|rewrite Hi', Hi, Hb; zlia].
      exists (pre ++ [c]), rest, (smtp_data c m).
      rewrite <-app_assoc. split_and!; try done; try congruence; try zlia.
      by eapply req_frame_trans.
    + destruct Hr as (s' & -> & Hfr' & Hreq' & Hout' & Hst' & Hw').
      unfold scan_post. rewrite <-Hrun. simpl.
      split_and!; try done; [by eapply req_frame_trans | by rewrite Hw', Hw].
  - rewrite Hb at 1. eapply wp_mono.
    { apply (scan_command_wp pre (c :: rest) junk s m); [done| |done..|zlia].
      intros k Hk. eapply lookahead_uncut; [by rewrite <-Hb|done..]. }
    intros r (s' & -> & Hi' & Hfr' & Hreq' & Hout' & Hst' & Hw').
    pose proof (smtp_command_bounds (c :: rest) m) as [Hbo Hbd].
    rewrite smtp_run_skip in Hrun.
    set (n := (if decide (kw_data `prefix_of` c :: rest) then 5 else 0)%nat) in Hrun.
    assert ((n ≤ length rest)%nat ∧ sc_i s' = zlen pre + Z.of_nat n + 1) as [Hn Hi''].
    { unfold n. case_decide as Hkw; [|lia].
      apply prefix_length in Hkw. simpl in Hkw. lia. }
    split; [|rewrite Hi'', Hi, Hb; zlia].
    exists (pre ++ c :: take n rest), (drop n rest), (smtp_command (c :: rest) m).
    rewrite <-app_assoc. simpl. rewrite take_drop.
    split_and!; try done; try congruence; [zlia | by eapply req_frame_trans | zlia | rewrite Hbd; zlia].
Qed.

Lemma scan_loop_wp s :
  scan_inv s → sc_i s = 0 →
  wp (cloop (scan_step srv (bs bytes ++ junk) (zlen bytes)) (S (Z.to_nat (zlen bytes))) s) scan_post.
Proof.
  intros Hinv Hi.
  apply (wp_cloop _ scan_inv (λ s, Z.to_nat (zlen bytes - sc_i s))); [|done|].
  - apply scan_step_wp.
  - rewrite Hi. lia.
Qed.
End refinement.

(** ** Reads that end inside a keyword *)

(** [cut] is a keyword without its end. *)
Definition cut_keyword (cut : list byte) : Prop :=
  cut ≠ [] ∧ ∃ k, k ∈ keywords ∧ cut `prefix_of` k ∧ cut ≠ k.

Lemma not_lookahead_safe l : ¬ lookahead_safe l → ∃ pre cut, l = pre ++ cut ∧ cut_keyword cut.
Proof.
  unfold lookahead_safe. intros H. apply not_Forall_Exists in H; [|apply _].
  apply Exists_exists in H as (k & Hk & H). apply not_Forall_Exists in H; [|apply _].
  apply Exists_exists in H as (n & [_ Hn]%elem_of_seq & H).
  exists (take n l), (drop n l). split; [by rewrite take_drop|]. split.
  - intros E. apply (f_equal length) in E. rewrite length_drop in E. simpl in E. lia.
  - exists k. split; [done|]. destruct (decide (drop n l `prefix_of` k)) as [Hp|Hp]; [|by destruct H].
    split; [done|]. intros E. by apply H.
Qed.

(** A keyword has no line feed before its end, and is the only one with its
    first letter, which is no other letter of [kw_data]. *)
Lemma cut_keyword_no_lf cut : cut_keyword cut → LF ∉ cut.
Proof.
  intros (_ & k & Hk & [t ->] & Hne) Hin.
  assert (Forall (λ k, LF ∉ take (length k - 1) k) keywords) as H by by_compute.
  rewrite Forall_forall in H. apply (H _ Hk). destruct t as [|c t _] using rev_ind.
  { by rewrite app_nil_r in Hne. }
  rewrite app_assoc, length_app. change (length [c]) with 1%nat. rewrite Nat.add_sub, take_app_length, elem_of_app.
  by left.
Qed.

Lemma keyword_by_first k k' c l l' : k ∈ keywords → k' ∈ keywords → k = c :: l → k' = c :: l' → k = k'.
Proof.
  intros Hk Hk' E E'.
  assert (Forall (λ k, Forall (λ k', head k = head k' → k = k') keywords) keywords) as H by by_compute.
  rewrite Forall_forall in H. specialize (H k Hk). rewrite Forall_forall in H. apply (H k' Hk'). by subst.
Qed.

(** What is left of bytes that end in a cut keyword ends in one too, until the
    cut itself is reached. *)
Definition ends_cut (l : list byte) : Prop := ∃ pre cut, l = pre ++ cut ∧ cut_keyword cut.

Lemma ends_cut_next c l : ends_cut (c :: l) → ¬ cut_keyword (c :: l) → ends_cut l.
Proof.
  intros ([|d pre] & cut & E & Hcut) Hn; simpl in E; [by subst cut|]. injection E as -> ->. by exists pre, cut.
Qed.

Lemma ends_cut_data l : ends_cut (kw_data ++ l) → ends_cut l.
Proof.
  assert (Forall (λ k, Forall (λ c, head k ≠ Some c) (tail kw_data)) keywords) as H by by_compute.
  assert (∀ c l, c ∈ tail kw_data → ¬ cut_keyword (c :: l)) as Hno.
  { intros c l' Hc (_ & k & Hk & [t Ht] & _). rewrite Forall_forall in H. specialize (H k Hk).
    rewrite Forall_forall in H. apply (H c Hc). by rewrite Ht. }
  assert (∀ t l, Forall (.∈ tail kw_data) t → ends_cut (t ++ l) → ends_cut l) as Hskip.
  { intros t l' Ht. induction Ht as [|c t Hc _ IH]; [done|]. intros Hl. apply IH.
    by apply (ends_cut_next c); [|apply Hno]. }
  intros Hl. apply (Hskip (tail kw_data)); [by apply Forall_forall|]. apply (ends_cut_next (hd NUL kw_data)); [exact Hl|].
  intros (_ & k & Hk & Hp & Hne). destruct Hp as [t Ht].
  assert (k = kw_data) as -> by (apply (keyword_by_first k kw_data _ _ _ Hk ltac:(by_compute) Ht eq_refl)).
  change (hd NUL kw_data :: tail kw_data ++ l) with (kw_data ++ l) in *. rewrite <-app_assoc in Ht.
  apply (f_equal length) in Ht as Hlen. rewrite !length_app in Hlen.
  destruct l; [|simpl in Hlen; lia]. by rewrite app_nil_r in Hne.
Qed.

(** The comparisons at a cut keyword. *)
Lemma scan_command_cut pre cut junk s :
  cut_keyword cut → sc_i s = zlen pre → scan_command (bs (pre ++ cut) ++ None :: junk) s = Err Uninit.
Proof.
  intros (Hne & k & Hk & Hp & Hnk) Hi. unfold scan_command. rewrite Hi.
  assert (∀ k', k' ∈ keywords → k' ≠ k → looking_at (bs (pre ++ cut) ++ None :: junk) (zlen pre) k' = Ok false) as Hother.
  { intros k' Hk' Hd. destruct cut as [|c cut]; [done|].
    assert (¬ (c :: cut) `prefix_of` k' ∧ ¬ k' `prefix_of` (c :: cut)) as [H1 H2].
    { destruct Hp as [t Ht]. split.
      - intros [t' Ht']. by apply Hd, (keyword_by_first _ _ _ _ _ Hk' Hk Ht' Ht).
      - intros Hk''. destruct k' as [|c' k'];
        [assert (Forall (λ k, k ≠ []) keywords) as Hnil by by_compute; rewrite Forall_forall in Hnil; by apply Hnil in Hk'|].
        apply prefix_cons_inv_1 in Hk''. subst c'. by apply Hd, (keyword_by_first _ _ _ _ _ Hk' Hk eq_refl Ht). }
    rewrite (looking_at_eq pre (c :: cut)) by (done || (by apply keywords_nonul) || by intros ?).
    by rewrite bool_decide_false. }
  assert (looking_at (bs (pre ++ cut) ++ None :: junk) (zlen pre) k = Err Uninit) as Hself.
  { unfold looking_at. rewrite bs_app, <-app_assoc, ptr_add_app, bind_Ok by zlia.
    apply strncmp_cut; [by apply keywords_nonul | done | done]. }
  assert (∀ k', k' ∈ keywords → looking_at (bs (pre ++ cut) ++ None :: junk) (zlen pre) k' =
    if decide (k' = k) then Err Uninit else Ok false) as Hall
    by (intros k' Hk'; case_decide; [by subst | by apply Hother]).
  rewrite !Hall by by_compute.
  unfold keywords in Hk. rewrite !elem_of_cons, elem_of_nil in Hk.
  by destruct Hk as [Hk|[Hk|[Hk|[Hk|[Hk|[]]]]]]; subst k; vm_compute.
Qed.

(** Data ends with a line feed. *)
Lemma smtp_data_in c m : c ≠ LF → m_in m = true → m_in (smtp_data c m) = true.
Proof.
  intros Hc Hm. unfold smtp_data. case_decide as H; [|done]. destruct H as [t H].
  change eod with ((crlf ++ lit "." ++ [CR]) ++ [LF]) in H. rewrite app_assoc in H.
  by apply app_inj_tail in H as [_ ->].
Qed.

Lemma smtp_run_in lim l m m' :
  LF ∉ l → m_in m = true → smtp_run lim 0 l m = (m', false) → m_in m' = true.
Proof.
  revert m. induction l as [|c l IH]; intros m Hl Hm; [by intros [= <-]|].
  rewrite not_elem_of_cons in Hl. destruct Hl as [Hc Hl].
  simpl. rewrite Hm. case_decide; [|done]. apply IH; [done | by apply smtp_data_in; [congruence|]].
Qed.

Section fault.
Context (srv : server) (cfg : config) (Hcfg : srv_config srv = PTo cfg).
Context (bytes : list byte) (junk : buf) (m' : smtp) (Hm' : m_in m' = false).
Abbreviation lim := (data_buffer_size cfg).

(** The session ends outside DATA, and a cut keyword is still to come. *)
Definition cut_inv (s : scan) : Prop := ∃ pre rest m,
  bytes = pre ++ rest ∧ sc_i s = zlen pre ∧ req_rep (sc_req s) m ∧ out_rep (sc_resp s) m ∧
  ends_cut rest ∧ smtp_run lim 0 rest m = (m', false) ∧
  zlen (m_out m) + 40 * zlen rest + 1000 <= INT_MAX ∧ zlen (m_data m) + zlen rest + 512 <= INT_MAX.

Lemma scan_step_cut s :
  cut_inv s →
  scan_step srv (bs bytes ++ None :: junk) (zlen bytes) s = Err Uninit ∨
  ∃ s', scan_step srv (bs bytes ++ None :: junk) (zlen bytes) s = Ok (Next s') ∧ cut_inv s' ∧
    (Z.to_nat (zlen bytes - sc_i s') < Z.to_nat (zlen bytes - sc_i s))%nat.
Proof.
  intros (pre & rest & m & Hb & Hi & Hreq & Hout & Hcut & Hrun & Ho & Hd).
  destruct rest as [|c rest]; [by destruct Hcut as ([|] & cut & E & Hne & _); simpl in E; subst|].
  unfold scan_step. rewrite decide_True by (rewrite Hb; zlia).
  rewrite (bload_bs _ _ _ c) by (rewrite ?Hi, ?zlen_to_nat, ?Hb; try zlia; by apply list_lookup_middle).
  rewrite bind_Ok. pose proof Hreq as (_ & Hin & _ & _). rewrite Hin. simpl in Hrun.
  destruct (m_in m) eqn:Em.
  - right. rewrite Hcfg. cbn [deref]. rewrite bind_Ok.
    assert (¬ cut_keyword (c :: rest)) as Hno.
    { intros Hk%cut_keyword_no_lf. assert (m_in m' = true) by
        (apply (smtp_run_in lim (c :: rest) m); [done | done | by simpl; rewrite Em]). congruence. }
    apply ends_cut_next in Hcut; [|done]. case_decide as Hlim; [|done].
    destruct (wp_inv _ _ (scan_data_wp cfg c s m Hreq Hout ltac:(zlia) ltac:(zlia))) as (x & -> & Hx).
    rewrite decide_True in Hx by done.
    destruct Hx as (s' & -> & Hi' & _ & Hreq' & Hout' & _). pose proof (smtp_data_bounds c m) as [].
    exists s'. split; [done|]. split; [|rewrite Hi', Hi, Hb; zlia].
    exists (pre ++ [c]), rest, (smtp_data c m). rewrite <-app_assoc. split_and!; try done; zlia.
  - destruct (decide (Forall (uncut (c :: rest)) keywords)) as [Hun|Hun].
    + right. rewrite Forall_forall in Hun.
      replace (bs bytes ++ None :: junk) with (bs (pre ++ c :: rest) ++ None :: junk) by by rewrite Hb.
      destruct (wp_inv _ _ (scan_command_wp pre (c :: rest) (None :: junk) s m Hi Hun Hreq Hout ltac:(zlia)))
        as (x & -> & s' & -> & Hi' & _ & Hreq' & Hout' & _).
      pose proof (smtp_command_bounds (c :: rest) m) as [Hbo Hbd].
      exists s'. split; [done|]. rewrite smtp_run_skip in Hrun.
      set (n := (if decide (kw_data `prefix_of` c :: rest) then 5 else 0)%nat) in Hrun.
      assert ((n ≤ length rest)%nat ∧ sc_i s' = zlen pre + Z.of_nat n + 1 ∧ ends_cut (drop n rest)) as (Hn & Hi'' & Hcut').
      { unfold n. case_decide as Hkw; split_and!; [|lia| |lia|lia|].
        - apply prefix_length in Hkw. simpl in Hkw. lia.
        - destruct Hkw as [t E]. change rest with (tail (c :: rest)). rewrite E in Hcut |- *. by apply ends_cut_data in Hcut.
        - apply (ends_cut_next c); [done|]. intros (_ & k & Hk & Hp & Hne). by apply Hne, Hun. }
      split; [|rewrite Hi'', Hi, Hb; zlia].
      exists (pre ++ c :: take n rest), (drop n rest), (smtp_command (c :: rest) m).
      rewrite <-app_assoc. simpl. rewrite take_drop.
      split_and!; try done; try congruence; [zlia | zlia | rewrite Hbd; zlia].
    + left. rewrite Hb. apply scan_command_cut; [|done]. split; [done|].
      apply not_Forall_Exists in Hun; [|apply _]. apply Exists_exists in Hun as (k & Hk & Hun). exists k.
      split; [done|]. unfold uncut in Hun. destruct (decide (c :: rest `prefix_of` k)) as [Hp|]; [|by destruct Hun].
      split; [done|]. by intros E; apply Hun.
Qed.
End fault.

(** A connection in the middle of a session: its request and response hold the
    state [m] of the session, its read buffer starts with [bytes]. *)
Definition conn_rep (conn : connection) (m : smtp) (bytes : list byte) : Prop :=
  (∃ req, conn_request conn = PTo req ∧ req_rep req m) ∧
  out_rep (conn_response conn) m ∧
  (∃ junk, conn_read_buffer conn = PTo (bs bytes ++ junk)) ∧
  conn_buffer_len conn = Some (zlen bytes).

(** The whole scan of a read buffer, as the session sees it. *)
Lemma parse_commands_wp srv cfg conn m bytes :
  srv_config srv = PTo cfg → conn_rep conn m bytes → conn_status_of conn ≠ CONN_ERROR →
  lookahead_safe bytes →
  zlen (m_data m) + zlen bytes + 512 <= INT_MAX →
  zlen (m_out m) + 40 * zlen bytes + 1000 <= INT_MAX →
  wp (request_parse_commands srv conn) (λ '(ret, conn', warns),
    let '(m', err) := smtp_run (data_buffer_size cfg) 0 bytes m in
    conn_rep conn' m' bytes ∧ ret = (if err : bool then 1 else 0) ∧
    conn_status_of conn' = (if err then CONN_ERROR else conn_status_of conn) ∧
    warns = (if err then [warn_data] else []) ∧
    (∀ req, conn_request conn = PTo req →
      ∃ req', conn_request conn' = PTo req' ∧ req_frame req req') ∧
    conn_fd conn' = conn_fd conn).
Proof.
  intros Hcfg ((req & Hreq & Hrep) & Hout & (junk & Hbuf) & Hlen) Hst Hsafe Hd Ho.
  unfold request_parse_commands. rewrite Hreq, Hbuf, Hlen. simpl. apply wp_bind.
  eapply wp_mono.
  - apply (scan_loop_wp srv cfg Hcfg bytes junk Hsafe req (conn_status_of conn) m Hd Ho); [|done].
    exists [], bytes, m. by split_and!; try lia.
  - intros s (Hfr & Hrep' & Hout' & Hst' & Hw'). simpl.
    destruct (smtp_run _ _ _ _) as [m' err]. simpl in *.
    split_and!; try done; eauto.
    + unfold conn_rep. simpl. eauto 10.
    + rewrite Hst'. destruct err; [by rewrite decide_True by done | by rewrite decide_False by done].
    + intros req1 [= <-]. eauto.
Qed.

(** ** Lemmas on sessions *)

Lemma uncut_prefix r k l : uncut r k → k `prefix_of` (r ++ l) ↔ k `prefix_of` r.
Proof.
  intros Hcut. split; [|apply prefix_app_r].
  intros Hk. destruct (prefix_weak_total k r (r ++ l)) as [H|H]; [done|by eexists|done|].
  by rewrite (Hcut H).
Qed.

Lemma decide_uncut {A} r k l (x y : A) :
  uncut r k →
  (if decide (k `prefix_of` (r ++ l)) then x else y) = (if decide (k `prefix_of` r) then x else y).
Proof. intros Hcut. apply decide_ext. by apply uncut_prefix. Qed.

Lemma smtp_command_app l l' m :
  (∀ k, k ∈ keywords → uncut l k) → smtp_command (l ++ l') m = smtp_command l m.
Proof.
  intros Hcut. unfold smtp_command. by rewrite !(decide_uncut l _ l') by (apply Hcut; by_compute).
Qed.

(** A stream cut where it cuts no keyword means the same in two pieces. *)
Lemma smtp_run_app lim k l1 l2 m :
  (∀ r, r ≠ [] → r `suffix_of` l1 → ∀ k, k ∈ keywords → uncut r k) → (k ≤ length l1)%nat →
  smtp_run lim k (l1 ++ l2) m =
    (let '(m1, err) := smtp_run lim k l1 m in
     if err then (m1, true) else smtp_run lim 0 l2 m1).
Proof.
  revert k m. induction l1 as [|c l1 IH]; intros k m Hcut Hk.
  { simpl in Hk. by assert (k = 0%nat) as -> by lia. }
  assert (∀ r, r ≠ [] → r `suffix_of` l1 → ∀ k, k ∈ keywords → uncut r k) as Hcut'.
  { intros r Hr Hs. apply Hcut; [done|by apply suffix_cons_r]. }
  simpl in Hk. destruct k as [|k]; simpl.
  - destruct (m_in m).
    + case_decide; [apply IH; [done|lia] | done].
    + change (c :: l1 ++ l2) with ((c :: l1) ++ l2).
      assert (∀ k, k ∈ keywords → uncut (c :: l1) k) as Hc by (by apply Hcut).
      rewrite smtp_command_app by done.
      rewrite (decide_uncut (c :: l1)) by (apply Hc; by_compute).
      apply IH; [done|]. case_decide as Hkw; [|lia].
      apply prefix_length in Hkw. simpl in Hkw. lia.
  - apply IH; [done|lia].
Qed.

Lemma lookahead_suffix l r :
  lookahead_safe l → r ≠ [] → r `suffix_of` l → ∀ k, k ∈ keywords → uncut r k.
Proof. intros Hs Hr [t ->] k Hk. by eapply lookahead_uncut. Qed.

Lemma end_data_app d t : end_data (d ++ t ++ eod) = d ++ t ++ NUL :: tail eod.
Proof.
  unfold end_data. rewrite !length_app, eod_length, app_assoc.
  rewrite take_app_length' by (rewrite length_app; lia). by rewrite <-app_assoc.
Qed.

(** The data of a message runs to the first line with a single dot. *)
Lemma smtp_run_message lim t rest m :
  m_in m = true →
  (∀ p, p `prefix_of` t ++ eod → eod `suffix_of` m_data m ++ p → p = t ++ eod) →
  zlen (m_data m) + zlen (t ++ eod) <= lim →
  smtp_run lim 0 ((t ++ eod) ++ rest) m =
    smtp_run lim 0 rest
      (Smtp false (m_data m ++ t ++ NUL :: tail eod) (m_out m ++ re_queued) true true).
Proof.
  remember (t ++ eod) as l eqn:Hl. intros Hin Hfirst Hlim.
  assert (∀ p q, l = p ++ q → q ≠ [] → smtp_run lim 0 (l ++ rest) m =
    smtp_run lim 0 (q ++ rest) (Smtp true (m_data m ++ p) (m_out m) (m_quit m) (m_process m))) as Hrun.
  { intros p. induction p as [|c p IH] using rev_ind; intros q Hpq Hq.
    - rewrite app_nil_r, Hpq. destruct m; simpl in *; by rewrite Hin.
    - rewrite <-app_assoc in Hpq. rewrite (IH _ Hpq) by done. simpl.
      rewrite decide_True by (rewrite Hpq in Hlim; destruct q; [done|]; zlia).
      unfold smtp_data. simpl. rewrite decide_False; [by rewrite <-app_assoc|].
      intros Hs. rewrite <-app_assoc in Hs. apply Hfirst in Hs; [|exists q; by rewrite <-app_assoc].
      rewrite Hpq in Hs. apply (f_equal length) in Hs. rewrite !length_app in Hs.
      destruct q; [done|]. simpl in Hs. lia. }
  assert (t ++ eod = (t ++ [CR; LF; x2e; CR]) ++ [LF]) as Hsplit by by rewrite <-app_assoc.
  rewrite (Hrun (t ++ [CR; LF; x2e; CR]) [LF]); [|by rewrite Hl|done]. simpl.
  rewrite decide_True by (rewrite Hl, Hsplit in Hlim; zlia). unfold smtp_data. simpl.
  rewrite <-app_assoc, <-Hsplit, decide_True by (exists (m_data m ++ t); by rewrite app_assoc).
  by rewrite end_data_app.
Qed.

Lemma smtp_run_bounded lim k l m :
  zlen (m_data m) <= lim → zlen (m_data (smtp_run lim k l m).1) <= lim.
Proof.
  revert k m. induction l as [|c l IH]; intros k m Hm; [done|]. simpl.
  destruct k as [|k]; [|by apply IH]. destruct (m_in m).
  - case_decide; [|done]. apply IH. pose proof (smtp_data_bounds c m) as []. lia.
  - apply IH. by rewrite (proj2 (smtp_command_bounds _ _)).
Qed.

Lemma smtp_run_sizes lim k l m :
  zlen (m_data (smtp_run lim k l m).1) <= zlen (m_data m) + zlen l ∧
  zlen (m_out (smtp_run lim k l m).1) <= zlen (m_out m) + 40 * zlen l.
Proof.
  revert k m. induction l as [|c l IH]; intros k m; simpl; [zlia|].
  destruct k as [|k]; [|destruct (IH k m); zlia]. destruct (m_in m).
  - case_decide; [|simpl; zlia]. pose proof (smtp_data_bounds c m) as [].
    destruct (IH 0%nat (smtp_data c m)). zlia.
  - pose proof (smtp_command_bounds (c :: l) m) as [? Hd].
    match goal with |- context [smtp_run lim ?k l ?m'] => destruct (IH k m') as [H1 H2] end.
    rewrite Hd in H1. zlia.
Qed.

Lemma conn_rep_buffer conn m l l' junk :
  conn_rep conn m l →
  conn_rep (conn_set_buffer (PTo (bs l' ++ junk)) (Some (zlen l')) conn) m l'.
Proof. intros (Hr & Ho & _ & _). unfold conn_rep. simpl. eauto. Qed.

Lemma lookahead_app l1 l2 :
  lookahead_safe l1 → lookahead_safe l2 → lookahead_safe (l1 ++ l2).
Proof.
  intros H1 H2. unfold lookahead_safe. rewrite Forall_forall. intros k Hk.
  rewrite Forall_forall. intros n [_ Hn]%elem_of_seq Hp. rewrite length_app in Hn.
  destruct (decide (n < length l1)%nat) as [Hlt|Hge].
  - rewrite drop_app_le in Hp |- * by lia.
    assert (drop n l1 = k) as Hd.
    { apply (lookahead_suffix l1); [done| |by exists (take n l1); rewrite take_drop|done|].
      - intros E. apply (f_equal length) in E. rewrite length_drop in E. simpl in E. lia.
      - by eapply prefix_app_l. }
    rewrite <-Hd in Hp. destruct Hp as [t Ht]. rewrite <-app_assoc in Ht.
    apply (f_equal length) in Ht. rewrite !length_app in Ht.
    destruct l2; [by rewrite app_nil_r|]. simpl in Ht. lia.
  - rewrite drop_app_ge in Hp |- * by lia.
    apply (lookahead_suffix l2); [done| |by exists (take (n - length l1) l2); rewrite take_drop|done|done].
    intros E. apply (f_equal length) in E. rewrite length_drop in E. simpl in E. lia.
Qed.

Lemma request_parse_commands_ok srv cfg conn m bytes :
  srv_config srv = PTo cfg → conn_rep conn m bytes → conn_status_of conn ≠ CONN_ERROR →
  lookahead_safe bytes →
  zlen (m_data m) + zlen bytes + 512 <= INT_MAX →
  zlen (m_out m) + 40 * zlen bytes + 1000 <= INT_MAX →
  ∃ conn', request_parse_commands srv conn =
      (let '(m', err) := smtp_run (data_buffer_size cfg) 0 bytes m in
       Ok (if err then 1 else 0, conn', if err then [warn_data] else [])) ∧
    conn_rep conn' (smtp_run (data_buffer_size cfg) 0 bytes m).1 bytes ∧
    conn_status_of conn' =
      (if (smtp_run (data_buffer_size cfg) 0 bytes m).2 then CONN_ERROR else conn_status_of conn).
Proof.
  intros Hcfg Hrep Hst Hsafe Hd Ho.
  destruct (wp_inv _ _ (parse_commands_wp srv cfg conn m bytes Hcfg Hrep Hst Hsafe Hd Ho))
    as ([[ret conn'] warns] & -> & Hpost).
  destruct (smtp_run _ _ _ _) as [m' err]. destruct Hpost as (Hrep' & -> & Hst' & -> & _).
  by exists conn'.
Qed.

(** ** Properties *)

(** The two connections are at the same point of a session. *)
Definition same_session (c c' : connection) : Prop :=
  ∃ m r r', conn_request c = PTo r ∧ req_rep r m ∧ out_rep (conn_response c) m ∧
    conn_request c' = PTo r' ∧ req_rep r' m ∧ out_rep (conn_response c') m.

(** C3: On a read buffer that cuts no keyword, [request_parse_commands] touches
    no memory outside its objects and no indeterminate byte, overflows no
    [int], ends, and does what the abstract SMTP session does on the same
    bytes: the DATA accumulator, the replies and the [quit], [process] and
    [in_data] flags are those of the session, the return value and the status
    report its error. *)
Theorem request_parse_commands_refines srv cfg conn m bytes :
  srv_config srv = PTo cfg → conn_rep conn m bytes → conn_status_of conn ≠ CONN_ERROR →
  lookahead_safe bytes →
  zlen (m_data m) + zlen bytes + 512 <= INT_MAX →
  zlen (m_out m) + 40 * zlen bytes + 1000 <= INT_MAX →
  ∃ conn', request_parse_commands srv conn =
      (let '(m', err) := smtp_run (data_buffer_size cfg) 0 bytes m in
       Ok (if err then 1 else 0, conn', if err then [warn_data] else [])) ∧
    conn_rep conn' (smtp_run (data_buffer_size cfg) 0 bytes m).1 bytes ∧
    conn_status_of conn' =
      (if (smtp_run (data_buffer_size cfg) 0 bytes m).2 then CONN_ERROR else conn_status_of conn).
Proof. apply request_parse_commands_ok. Qed.

(** C19: Splitting the client's stream into two reads at a point that cuts no
    keyword changes nothing: parsing the pieces one after the other leaves the
    connection at the same point of the session, with the same return value
    and warnings, as parsing them at once. *)
Theorem request_parse_commands_split srv cfg conn m l1 l2 junk :
  srv_config srv = PTo cfg → conn_rep conn m l1 → conn_status_of conn ≠ CONN_ERROR →
  lookahead_safe l1 → lookahead_safe l2 →
  zlen (m_data m) + zlen (l1 ++ l2) + 512 <= INT_MAX →
  zlen (m_out m) + 40 * zlen (l1 ++ l2) + 1000 <= INT_MAX →
  (smtp_run (data_buffer_size cfg) 0 l1 m).2 = false →
  ∃ c1 c2 c12 ret warns,
    request_parse_commands srv conn = Ok (0, c1, []) ∧
    request_parse_commands srv (conn_set_buffer (PTo (bs l2 ++ junk)) (Some (zlen l2)) c1) =
      Ok (ret, c2, warns) ∧
    request_parse_commands srv
      (conn_set_buffer (PTo (bs (l1 ++ l2) ++ junk)) (Some (zlen (l1 ++ l2))) conn) =
      Ok (ret, c12, warns) ∧
    same_session c2 c12.
Proof.
  intros Hcfg Hrep Hst Hs1 Hs2 Hd Ho Herr.
  set (lim := data_buffer_size cfg) in *.
  pose proof (smtp_run_app lim 0 l1 l2 m
    (λ r Hr Hsuf, lookahead_suffix l1 r Hs1 Hr Hsuf) ltac:(lia)) as Hrun.
  pose proof (smtp_run_sizes lim 0 l1 m) as [Hsd Hso].
  rewrite !zlen_app in *.
  destruct (request_parse_commands_ok srv cfg conn m l1) as (c1 & E1 & Hrep1 & Hst1);
    [done..|pose proof (zlen_nonneg l2); lia|pose proof (zlen_nonneg l2); lia|].
  fold lim in E1, Hrep1, Hst1. destruct (smtp_run lim 0 l1 m) as [m1 err1]. simpl in *. subst err1.
  destruct (request_parse_commands_ok srv cfg
    (conn_set_buffer (PTo (bs l2 ++ junk)) (Some (zlen l2)) c1) m1 l2) as (c2 & E2 & Hrep2 & _);
    [done|by eapply conn_rep_buffer|by simpl; rewrite Hst1|done|lia|lia|].
  destruct (request_parse_commands_ok srv cfg
    (conn_set_buffer (PTo (bs (l1 ++ l2) ++ junk)) (Some (zlen (l1 ++ l2))) conn) m (l1 ++ l2))
    as (c12 & E12 & Hrep12 & _);
    [done|by eapply conn_rep_buffer|done|by apply lookahead_app|rewrite zlen_app; lia..|].
  fold lim in E2, Hrep2, E12, Hrep12. rewrite Hrun in E12, Hrep12.
  destruct (smtp_run lim 0 l2 m1) as [m2 err2].
  exists c1, c2, c12, (if err2 then 1 else 0), (if err2 then [warn_data] else []).
  split_and!; [done|done|rewrite <-zlen_app; done|].
  destruct Hrep2 as ((r & Hr & Hrr) & Hro & _). destruct Hrep12 as ((r' & Hr' & Hrr') & Hro' & _).
  exists m2, r, r'. done.
Qed.

(** C21: However much a client sends, and whether or not it is refused, the
    DATA accumulator stays within [data-buffer-size] bytes, and its recorded
    length is the number of bytes it holds. *)
Theorem request_data_bounded srv cfg conn m bytes :
  srv_config srv = PTo cfg → conn_rep conn m bytes → conn_status_of conn ≠ CONN_ERROR →
  lookahead_safe bytes → zlen (m_data m) <= data_buffer_size cfg →
  zlen (m_data m) + zlen bytes + 512 <= INT_MAX →
  zlen (m_out m) + 40 * zlen bytes + 1000 <= INT_MAX →
  ∃ ret conn' warns req' d, request_parse_commands srv conn = Ok (ret, conn', warns) ∧
    conn_request conn' = PTo req' ∧ data_rep req' d ∧
    req_data_len req' = zlen d ∧ zlen d <= data_buffer_size cfg.
Proof.
  intros Hcfg Hrep Hst Hsafe Hlim Hd Ho.
  destruct (request_parse_commands_ok srv cfg conn m bytes) as (conn' & E & Hrep' & _); [done..|].
  pose proof (smtp_run_bounded (data_buffer_size cfg) 0 bytes m Hlim) as Hb.
  destruct (smtp_run _ _ _ _) as [m' err]. destruct Hrep' as ((req' & Hreq' & Hr & _) & _).
  do 4 eexists. exists (m_data m'). split_and!; [done..| |done]. apply Hr.
Qed.

(** C20: In DATA mode a message ends at its first CR LF dot CR LF and nowhere
    before: the accumulator then holds what came before that mark (and the
    mark with its first byte zeroed), the reply is the 250 of the end of data,
    and the connection is told to process the message and to close. *)
Theorem request_message_collected srv cfg conn m text :
  srv_config srv = PTo cfg → conn_rep conn m (text ++ eod) → conn_status_of conn ≠ CONN_ERROR →
  m_in m = true →
  (∀ p, p `prefix_of` text ++ eod → eod `suffix_of` m_data m ++ p → p = text ++ eod) →
  zlen (m_data m) + zlen (text ++ eod) <= data_buffer_size cfg →
  zlen (m_data m) + zlen (text ++ eod) + 512 <= INT_MAX →
  zlen (m_out m) + 40 * zlen (text ++ eod) + 1000 <= INT_MAX →
  ∃ conn' req', request_parse_commands srv conn = Ok (0, conn', []) ∧
    conn_request conn' = PTo req' ∧
    data_rep req' (m_data m ++ text ++ NUL :: tail eod) ∧
    req_in_data req' = false ∧ req_process req' = true ∧ req_quit req' = true ∧
    (∃ r, conn_response conn' = PTo r ∧ resp_rep r (m_out m ++ re_queued)).
Proof.
  intros Hcfg Hrep Hst Hin Hfirst Hlim Hd Ho.
  assert (lookahead_safe (text ++ eod)) as Hsafe by (apply lookahead_lf; by rewrite last_app).
  destruct (request_parse_commands_ok srv cfg conn m (text ++ eod)) as (conn' & E & Hrep' & _);
    [done..|].
  pose proof (smtp_run_message (data_buffer_size cfg) text [] m Hin Hfirst Hlim) as Hrun.
  rewrite app_nil_r in Hrun. rewrite Hrun in E, Hrep'. simpl in E, Hrep'.
  destruct Hrep' as ((req' & Hreq' & Hr & Hi & Hq & Hp) & Hout & _).
  exists conn', req'. split_and!; done.
Qed.

(** A connection that has just read [bytes] into a buffer of [n] more
    indeterminate bytes. *)
Definition fresh_conn (bytes : list byte) (n : Z) : connection :=
  Connection 5 (PTo request_init) (PTo response_init) CONN_READING
    (PTo (bs bytes ++ malloc n)) (Some (zlen bytes)).
Definition default_server : server := Server (PTo config_init) config_init.

(** C38: Reads that end inside a keyword.  Whatever came before, when the bytes
    read end in a proper, non-empty prefix of a keyword, the session that they
    make is outside DATA at their end (and its data did not outgrow the limit),
    and the byte after them is still as [malloc] left it, the scanner looks at
    that byte: its comparisons are not bounded by the length of the data. *)
Theorem request_cut_keyword_uninit srv cfg conn m bytes junk m' :
  srv_config srv = PTo cfg → conn_rep conn m bytes →
  conn_read_buffer conn = PTo (bs bytes ++ None :: junk) →
  ¬ lookahead_safe bytes →
  smtp_run (data_buffer_size cfg) 0 bytes m = (m', false) → m_in m' = false →
  zlen (m_data m) + zlen bytes + 512 <= INT_MAX →
  zlen (m_out m) + 40 * zlen bytes + 1000 <= INT_MAX →
  request_parse_commands srv conn = Err Uninit.
Proof.
  intros Hcfg ((req & Hreq & Hrep) & Hout & _ & Hlen) Hbuf Hcut%not_lookahead_safe Hrun Hin Hd Ho.
  unfold request_parse_commands. rewrite Hreq, Hbuf, Hlen. cbn [deref]. rewrite !bind_Ok.
  rewrite (cloop_fault _ (cut_inv cfg bytes m') (λ s, Z.to_nat (zlen bytes - sc_i s)) _ _ Uninit); [done|..].
  - by apply scan_step_cut.
  - by exists [], bytes, m.
  - cbn [sc_i]. lia.
Qed.

(** ** Witnesses *)

Lemma fresh_conn_rep bytes n : conn_rep (fresh_conn bytes n) smtp_init bytes.
Proof.
  unfold conn_rep, fresh_conn. simpl.
  split_and!; [by exists request_init | by exists response_init | by exists (malloc n) | done].
Qed.

Definition ex_session : list byte :=
  lit "EHLO a" ++ crlf ++ lit "MAIL FROM:<b>" ++ crlf ++ kw_data ++ lit "A: b" ++ eod.

Lemma request_parse_commands_refines_witness :
  ∃ conn', request_parse_commands default_server (fresh_conn ex_session 10) = Ok (0, conn', []).
Proof.
  destruct (request_parse_commands_refines default_server config_init
    (fresh_conn ex_session 10) smtp_init ex_session) as (conn' & E & _);
    [done|apply fresh_conn_rep|done|by_compute|vm_compute; congruence..|].
  exists conn'. exact E.
Defined.

Lemma request_parse_commands_split_witness :
  ∃ c1 c2 c12 ret warns,
    request_parse_commands default_server (fresh_conn (lit "EHLO a" ++ crlf ++ lit "MA") 10) = Err Uninit ∧
    request_parse_commands default_server (fresh_conn (lit "EHLO a" ++ crlf) 10) = Ok (0, c1, []) ∧
    request_parse_commands default_server
      (conn_set_buffer (PTo (bs (lit "QUIT" ++ crlf) ++ malloc 7)) (Some 6) c1) = Ok (ret, c2, warns) ∧
    request_parse_commands default_server (conn_set_buffer
      (PTo (bs (lit "EHLO a" ++ crlf ++ lit "QUIT" ++ crlf) ++ malloc 7)) (Some 14)
      (fresh_conn (lit "EHLO a" ++ crlf) 10)) = Ok (ret, c12, warns) ∧
    same_session c2 c12.
Proof.
  destruct (request_parse_commands_split default_server config_init
    (fresh_conn (lit "EHLO a" ++ crlf) 10) smtp_init (lit "EHLO a" ++ crlf) (lit "QUIT" ++ crlf)
    (malloc 7)) as (c1 & c2 & c12 & ret & warns & H);
    [done|apply fresh_conn_rep|done|by_compute|by_compute|vm_compute; congruence..|
     vm_compute; reflexivity|].
  exists c1, c2, c12, ret, warns. split; [apply is_err_eq; vm_compute; reflexivity | exact H].
Defined.

Lemma request_data_bounded_witness :
  ∃ ret conn' warns req' d,
    request_parse_commands default_server (fresh_conn ex_session 10) = Ok (ret, conn', warns) ∧
    conn_request conn' = PTo req' ∧ data_rep req' d ∧ req_data_len req' = zlen d ∧ zlen d <= 40000.
Proof.
  apply (request_data_bounded default_server config_init (fresh_conn ex_session 10) smtp_init ex_session);
    [done|apply fresh_conn_rep|done|by_compute|vm_compute; congruence..].
Defined.

(** A connection in DATA mode. *)
Definition ex_data_conn (bytes : list byte) : connection :=
  conn_set_request (PTo (Request (req_headers request_init) None None 0 true None 0 0 false false))
    (fresh_conn bytes 10).

Lemma request_message_collected_witness :
  ∃ conn' req', request_parse_commands default_server (ex_data_conn (lit "A: b" ++ eod)) = Ok (0, conn', []) ∧
    conn_request conn' = PTo req' ∧
    data_rep req' (lit "A: b" ++ NUL :: tail eod) ∧
    req_in_data req' = false ∧ req_process req' = true ∧ req_quit req' = true ∧
    (∃ r, conn_response conn' = PTo r ∧ resp_rep r re_queued).
Proof.
  apply (request_message_collected default_server config_init (ex_data_conn (lit "A: b" ++ eod))
    (Smtp true [] [] false false) (lit "A: b")); [done| |done|done| |vm_compute; congruence..].
  - unfold conn_rep, ex_data_conn, fresh_conn. simpl.
    split_and!; [by eexists | by exists response_init | by exists (malloc 10) | done].
  - intros p [q Hq] Hs. simpl in Hs.
    destruct (decide (q = [])) as [->|Hne]; [by rewrite app_nil_r in Hq|].
    exfalso. destruct Hs as [t ->].
    assert (Forall (λ n, ¬ eod `suffix_of` take n (lit "A: b" ++ eod)) (seq 0 9)) as Hall by by_compute.
    rewrite Forall_forall in Hall. apply (Hall (length (t ++ eod))).
    + apply elem_of_seq. apply (f_equal length) in Hq. rewrite !length_app, !eod_length in Hq.
      rewrite length_app, eod_length. change (length (lit "A: b")) with 4%nat in Hq.
      destruct q; [done|]. simpl in Hq. lia.
    + rewrite Hq, take_app_length. by exists t.
Defined.

Lemma request_cut_keyword_uninit_witness :
  request_parse_commands default_server (fresh_conn (lit "EHLO a" ++ crlf ++ lit "MAIL FRO") 32) = Err Uninit.
Proof.
  apply (request_cut_keyword_uninit default_server config_init _ smtp_init
    (lit "EHLO a" ++ crlf ++ lit "MAIL FRO") (malloc 31) (Smtp false [] re_ehlo false false));
    [done | apply fresh_conn_rep | done | by_compute | vm_compute; reflexivity | done | vm_compute; congruence..].
Defined.
