(* ===== verification/RequestData.v ===== *)
(** RequestData: the parser of the message that DATA collected,
    [request_parse_data] of [src/src/request.c]: header lines into the
    fixed [hdr] arrays, the rest into the body. *)
From S2P Require Import Prelude Base Config Response Request.

(** ** Operations *)

(** The variables of the parsing loop. *)
Record parse := Parse {
  pd_i : Z;
  pd_header_count : Z;
  pd_done : bool;
  pd_is_key : bool;
  pd_cur_len : Z;
  pd_in_line_folding : bool;
  pd_headers : list hdr;
}.

(** [data[i] == '\r' && data[i+1] == '\n' && data[i+2] == '\r' && data[i+3] == '\n'] *)
Definition at_blank_line (data : buf) (i : Z) : res bool :=
  c0 ← bload data i;
  if decide (c0 = CR) then
    c1 ← bload data (i + 1);
    if decide (c1 = LF) then
      c2 ← bload data (i + 2);
      if decide (c2 = CR) then
        c3 ← bload data (i + 3); Ok (bool_decide (c3 = LF))
      else Ok false
    else Ok false
  else Ok false.

(** [headers[n]->key[j] = c] and [headers[n]->value[j] = c]. *)
Definition put_key (hs : list hdr) (n j : Z) (c : byte) : res (list hdr) :=
  h ← aload hs n; k ← bstore (hdr_key h) j c; astore hs n (Hdr k (hdr_value h)).
Definition put_value (hs : list hdr) (n j : Z) (c : byte) : res (list hdr) :=
  h ← aload hs n; v ← bstore (hdr_value h) j c; astore hs n (Hdr (hdr_key h) v).

Definition fold_tab : list byte := crlf ++ [TAB].
Definition fold_sp : list byte := crlf ++ [SP].
Definition colon : byte := x3a.

(** The part of an iteration after the line-folding flag: [i] may already have
    been moved over the end of the last header line. *)
Definition parse_char (data : buf) (cur : byte) (i : Z) (done : bool) (s : parse)
    : res (ctl parse) :=
  let n := pd_header_count s in
  let hs := pd_headers s in
  let len := pd_cur_len s in
  if decide (cur = colon ∧ pd_is_key s = true) then
    hs' ← put_key hs n len NUL;
    Ok (Next (Parse (i + 1 + 1) n done false 0 false hs'))
  else
  tab ← looking_at data i fold_tab;
  fold ← (if tab : bool then Ok true else looking_at data i fold_sp);
  if fold : bool then Ok (Next (Parse (i + 2 + 1) n done (pd_is_key s) len false hs))
  else if decide (cur = CR) then
    hs' ← (if decide (n < HEADER_MAX_LEN) then put_value hs n len NUL else Ok hs);
    Ok (Next (Parse (i + 1 + 1) (n + 1) done true 0 false hs'))
  else if decide (cur ≠ NUL) then
    if pd_is_key s then
      if decide (cur ≠ SP ∧ len < KEY_MAX_LEN - 1) then
        hs' ← put_key hs n len cur;
        Ok (Next (Parse (i + 1) n done true (len + 1) false hs'))
      else Ok (Next (Parse (i + 1) n done true len false hs))
    else if decide (len < VALUE_MAX_LEN - 1) then
      hs' ← put_value hs n len cur;
      Ok (Next (Parse (i + 1) n done false (len + 1) false hs'))
    else Ok (Next (Parse (i + 1) n done false len false hs))
  else Ok (Next (Parse (i + 1) n done (pd_is_key s) len false hs)).

Definition parse_step (data : buf) (data_len : Z) (s : parse) : res (ctl parse) :=
  let i := pd_i s in
  if decide (i < data_len ∧ pd_done s = false) then
    cur ← bload data i;
    if decide (pd_in_line_folding s = true ∧ cur ∈ [SP; TAB; CR; LF]) then
      Ok (Next (Parse (i + 1) (pd_header_count s) (pd_done s) (pd_is_key s)
        (pd_cur_len s) true (pd_headers s)))
    else
    blank ← (if decide (2 < data_len - i) then at_blank_line data i else Ok false);
    if blank : bool then parse_char data cur (i + 2) true s
    else parse_char data cur i (pd_done s) s
  else Ok (Break s).

(** [request_parse_data (srv, conn)] on [*conn->request]; it returns 0. *)
Definition request_parse_data (req : request) : res request :=
  let data := default [] (req_data req) in
  let data_len := req_data_len req in
  s ← cloop (parse_step data data_len) (S (Z.to_nat data_len))
        (Parse 0 0 false true 0 false (req_headers req));
  body ← (if decide (pd_i s < data_len ∧ pd_done s = true) then
            let body_len := data_len - pd_i s in
            b ← memcpy (malloc (body_len + 1)) 0 data (pd_i s) body_len;
            b' ← bstore b body_len NUL;
            Ok (Some b', body_len)
          else Ok (req_body req, req_body_len req));
  Ok (Request (pd_headers s) (Some (pd_header_count s)) (fst body) (snd body)
    (req_in_data req) (req_data req) (req_data_alloc req) (req_data_len req)
    (req_quit req) (req_process req)).

(** ** Header fields *)

(** The two arrays of an [hdr], selected by "in the key". *)
Definition hget (isk : bool) (h : hdr) : buf := if isk then hdr_key h else hdr_value h.
Definition hset (isk : bool) (h : hdr) (b : buf) : hdr :=
  if isk then Hdr b (hdr_value h) else Hdr (hdr_key h) b.
Definition hput (isk : bool) : list hdr → Z → Z → byte → res (list hdr) :=
  if isk then put_key else put_value.
Definition hsize (isk : bool) : Z := if isk then KEY_MAX_LEN else VALUE_MAX_LEN.

(** The bytes that fit: one is kept for the terminating NUL. *)
Definition fit (isk : bool) (s : list byte) : list byte := take (Z.to_nat (hsize isk - 1)) s.

(** The array starts with [s], which leaves room for a NUL. *)
Definition filled (isk : bool) (b : buf) (s : list byte) : Prop :=
  ∃ free, b = bs s ++ free ∧ zlen b = hsize isk ∧ zlen s < hsize isk.

(** The array holds the string [s]. *)
Definition holds (isk : bool) (b : buf) (s : list byte) : Prop :=
  ∃ free, b = bs s ++ Some NUL :: free ∧ zlen b = hsize isk.

Lemma hget_set isk h b : hget isk (hset isk h b) = b.
Proof. by destruct isk. Qed.
Lemma hget_set_other isk h b : hget (negb isk) (hset isk h b) = hget (negb isk) h.
Proof. by destruct isk. Qed.

Lemma hput_mid isk hs1 h hs2 n j c b :
  n = zlen hs1 → bstore (hget isk h) j c = Ok b →
  hput isk (hs1 ++ h :: hs2) n j c = Ok (hs1 ++ hset isk h b :: hs2).
Proof.
  intros -> Hb. destruct isk; simpl in *; unfold put_key, put_value;
    rewrite aload_mid by done; rewrite bind_Ok, Hb, bind_Ok; by apply astore_mid.
Qed.

Lemma hsize_pos isk : 0 < hsize isk.
Proof. by destruct isk. Qed.

Lemma fit_short isk s : zlen s < hsize isk → fit isk s = s.
Proof. intros. unfold fit. apply take_ge. zlia. Qed.

Lemma fit_lt isk s : zlen (fit isk s) < hsize isk.
Proof. pose proof (hsize_pos isk). unfold fit. zlia. Qed.

Lemma fit_app isk s t : fit isk (fit isk s ++ t) = fit isk (s ++ t).
Proof.
  unfold fit. rewrite !take_app, take_take, Nat.min_id. do 2 f_equal.
  rewrite length_take. lia.
Qed.

Lemma fit_long isk s c : hsize isk - 1 <= zlen s → fit isk (s ++ [c]) = fit isk s.
Proof. intros. unfold fit. apply take_app_le. zlia. Qed.

Lemma fit_nonul isk s : nonul s → nonul (fit isk s).
Proof. unfold nonul, fit. apply Forall_take. Qed.

Lemma holds_cstring isk b s : holds isk b s → nonul s → cstring b = Ok s.
Proof. intros (free & -> & _) Hs. by apply cstring_bs. Qed.

Lemma filled_store isk b s c :
  filled isk b s → zlen s < hsize isk - 1 →
  ∃ b', bstore b (zlen s) c = Ok b' ∧ filled isk b' (s ++ [c]).
Proof.
  intros (free & -> & Hl & Hs) Hlt. rewrite bstore_end by zlia. eexists. split; [done|].
  exists (drop 1 free). rewrite bs_app, <-app_assoc. split_and!; [done|zlia..].
Qed.

Lemma filled_terminate isk b s :
  filled isk b s → ∃ b', bstore b (zlen s) NUL = Ok b' ∧ holds isk b' s.
Proof.
  intros (free & -> & Hl & Hs). rewrite bstore_end by zlia. eexists. split; [done|].
  exists (drop 1 free). split; [done|zlia].
Qed.

(** ** Single iterations *)

(** A comparison that the bytes at hand decide. *)
Lemma uncut_long rest k : (length k ≤ length rest)%nat → uncut rest k.
Proof. intros Hl Hp. by apply prefix_length_eq. Qed.

Section steps.
Context (D : list byte) (junk : buf).
Let data := bs D ++ junk.
Let data_len := zlen D.

Lemma load_at pre c rest i : D = pre ++ c :: rest → i = zlen pre → bload data i = Ok c.
Proof.
  intros HD ->. unfold data. apply bload_bs; [zlia|].
  by rewrite zlen_to_nat, HD, list_lookup_middle.
Qed.

Lemma looking_at_fold pre c rest k i :
  D = pre ++ c :: rest → c ≠ CR → i = zlen pre → k ∈ [fold_tab; fold_sp] →
  looking_at data i k = Ok false.
Proof.
  intros HD Hc Hi Hk.
  assert (∃ k', k = CR :: k') as [k' ->] by (set_unfold; destruct_or?; subst; eauto).
  assert (nonul (CR :: k')) as Hn.
  { assert (Forall nonul [fold_tab; fold_sp]) as Hall by by_compute.
    rewrite Forall_forall in Hall. by apply Hall. }
  unfold data. rewrite HD, looking_at_eq; [|done..|].
  - f_equal. apply bool_decide_eq_false_2. by intros ?%prefix_cons_inv_1.
  - by intros ?%prefix_cons_inv_1.
Qed.

(** A byte other than a carriage return starts no line break. *)
Lemma parse_step_plain pre c rest n isk len hs :
  D = pre ++ c :: rest → c ≠ CR → ¬ (c = colon ∧ isk = true) → c ≠ NUL →
  parse_step data data_len (Parse (zlen pre) n false isk len false hs) =
    (if decide ((isk = true → c ≠ SP) ∧ len < hsize isk - 1) then
       hs' ← hput isk hs n len c;
       Ok (Next (Parse (zlen pre + 1) n false isk (len + 1) false hs'))
     else Ok (Next (Parse (zlen pre + 1) n false isk len false hs))).
Proof.
  intros HD Hcr Hcol Hnul. unfold parse_step. simpl.
  rewrite decide_True by (split; [unfold data_len; rewrite HD; zlia | done]).
  rewrite (load_at pre c rest) by done. rewrite bind_Ok.
  replace (if decide (2 < data_len - zlen pre) then at_blank_line data (zlen pre) else Ok false)
    with (@Ok bool false).
  2:{ case_decide; [|done]. unfold at_blank_line.
      rewrite (load_at pre c rest (zlen pre)) by done. by rewrite bind_Ok, (decide_False (P:=c = CR)). }
  rewrite bind_Ok. unfold parse_char. simpl. rewrite (decide_False _ _ Hcol).
  rewrite !(looking_at_fold pre c rest) by (first [done | by_compute]). rewrite !bind_Ok.
  rewrite (decide_False (P:=c = CR)), (decide_True (P:=c ≠ NUL)) by done.
  destruct isk; simpl.
  - case_decide as H1.
    + destruct H1. rewrite decide_True by done. done.
    + rewrite decide_False by tauto. done.
  - case_decide as H1.
    + by rewrite decide_True by done.
    + by rewrite decide_False by tauto.
Qed.

(** The colon that ends a key, and the byte after it. *)
Lemma parse_step_colon pre sep rest n len hs :
  D = pre ++ colon :: sep :: rest →
  parse_step data data_len (Parse (zlen pre) n false true len false hs) =
    (hs' ← hput true hs n len NUL;
     Ok (Next (Parse (zlen pre + 1 + 1) n false false 0 false hs'))).
Proof.
  intros HD. unfold parse_step. simpl.
  rewrite decide_True by (split; [unfold data_len; rewrite HD; zlia | done]).
  rewrite (load_at pre colon (sep :: rest) (zlen pre)) by done. rewrite bind_Ok.
  replace (if decide (2 < data_len - zlen pre) then at_blank_line data (zlen pre) else Ok false)
    with (@Ok bool false); [done|].
  case_decide; [|done]. unfold at_blank_line.
  by rewrite (load_at pre colon (sep :: rest) (zlen pre)).
Qed.

Lemma at_blank_line_eq pre c rest :
  D = pre ++ CR :: LF :: c :: rest →
  (if decide (2 < data_len - zlen pre) then at_blank_line data (zlen pre) else Ok false) =
    (if decide (c = CR) then
       c3 ← bload data (zlen pre + 3); Ok (bool_decide (c3 = LF)) else Ok false).
Proof.
  intros HD. rewrite decide_True by (unfold data_len; rewrite HD; zlia).
  unfold at_blank_line.
  rewrite (load_at pre CR (LF :: c :: rest) (zlen pre)) by done. rewrite bind_Ok, decide_True by done.
  rewrite (load_at (pre ++ [CR]) LF (c :: rest) (zlen pre + 1)) by (rewrite <-?app_assoc; first [done|zlia]).
  rewrite bind_Ok, decide_True by done.
  by rewrite (load_at (pre ++ [CR; LF]) c rest (zlen pre + 2)) by (rewrite <-?app_assoc; first [done|zlia]).
Qed.

Lemma looking_at_crlf pre c rest w :
  D = pre ++ CR :: LF :: c :: rest → w ≠ NUL →
  looking_at data (zlen pre) (crlf ++ [w]) = Ok (bool_decide (c = w)).
Proof.
  intros HD Hw. unfold data. rewrite HD, looking_at_eq; [|done| |apply uncut_long; simpl; lia].
  - f_equal. apply bool_decide_ext. unfold crlf. simpl. split.
    + intros H%prefix_cons_inv_2%prefix_cons_inv_2%prefix_cons_inv_1. done.
    + intros ->. do 3 apply prefix_cons. apply prefix_nil.
  - unfold crlf, nonul. simpl. repeat constructor; done.
Qed.

(** A line break followed by white space folds the line: three bytes go. *)
Lemma parse_step_fold pre c rest n isk len hs :
  D = pre ++ CR :: LF :: c :: rest → c ∈ [TAB; SP] →
  parse_step data data_len (Parse (zlen pre) n false isk len false hs) =
    Ok (Next (Parse (zlen pre + 2 + 1) n false isk len false hs)).
Proof.
  intros HD Hc. unfold parse_step. simpl.
  rewrite decide_True by (split; [unfold data_len; rewrite HD; zlia | done]).
  rewrite (load_at pre CR (LF :: c :: rest) (zlen pre)) by done. rewrite bind_Ok.
  rewrite (at_blank_line_eq pre c rest) by done.
  rewrite decide_False by (set_unfold; by destruct_or?; subst). rewrite bind_Ok.
  unfold parse_char. simpl. unfold fold_tab, fold_sp.
  rewrite !(looking_at_crlf pre c rest) by done. rewrite bind_Ok.
  set_unfold. destruct_or?; subst; done.
Qed.

(** Any other line break ends the value. *)
Lemma parse_step_eol pre c rest n len hs :
  D = pre ++ CR :: LF :: c :: rest → c ∉ [TAB; SP; CR] → n < HEADER_MAX_LEN →
  parse_step data data_len (Parse (zlen pre) n false false len false hs) =
    (hs' ← hput false hs n len NUL;
     Ok (Next (Parse (zlen pre + 1 + 1) (n + 1) false true 0 false hs'))).
Proof.
  intros HD Hc Hn. unfold parse_step. simpl.
  rewrite decide_True by (split; [unfold data_len; rewrite HD; zlia | done]).
  rewrite (load_at pre CR (LF :: c :: rest) (zlen pre)) by done. rewrite bind_Ok.
  rewrite (at_blank_line_eq pre c rest) by done.
  rewrite decide_False by set_solver. rewrite bind_Ok.
  unfold parse_char. simpl. unfold fold_tab, fold_sp.
  rewrite !(looking_at_crlf pre c rest) by done. rewrite bind_Ok.
  rewrite !bool_decide_eq_false_2 by set_solver. rewrite bind_Ok.
  by rewrite (decide_True (P:=n < HEADER_MAX_LEN)).
Qed.

(** The blank line ends the value and the headers. *)
Lemma parse_step_blank pre c rest n len hs :
  D = pre ++ CR :: LF :: CR :: LF :: c :: rest → c ∉ [TAB; SP] → n < HEADER_MAX_LEN →
  parse_step data data_len (Parse (zlen pre) n false false len false hs) =
    (hs' ← hput false hs n len NUL;
     Ok (Next (Parse (zlen pre + 2 + 1 + 1) (n + 1) true true 0 false hs'))).
Proof.
  intros HD Hc Hn. unfold parse_step. simpl.
  rewrite decide_True by (split; [unfold data_len; rewrite HD; zlia | done]).
  rewrite (load_at pre CR (LF :: CR :: LF :: c :: rest) (zlen pre)) by done. rewrite bind_Ok.
  rewrite (at_blank_line_eq pre CR (LF :: c :: rest)) by done. rewrite decide_True by done.
  rewrite (load_at (pre ++ [CR; LF; CR]) LF (c :: rest) (zlen pre + 3))
    by (rewrite <-?app_assoc; first [done|zlia]).
  rewrite !bind_Ok. simpl.
  unfold parse_char. simpl. unfold fold_tab, fold_sp.
  replace (zlen pre + 2) with (zlen (pre ++ [CR; LF])) by zlia.
  rewrite !(looking_at_crlf (pre ++ [CR; LF]) c rest) by (rewrite <-?app_assoc; done).
  rewrite bind_Ok. rewrite !bool_decide_eq_false_2 by set_solver. rewrite bind_Ok.
  by rewrite (decide_True (P:=n < HEADER_MAX_LEN)).
Qed.
End steps.

(** ** Messages *)

(** A header field as a sender writes it: its name, the byte after the colon,
    and its value on a first line and on continuation lines, each after a line
    break and one byte of white space. *)
Record field := Field {
  f_name : list byte;
  f_sep : byte;
  f_first : list byte;
  f_more : list (byte * list byte);
}.

Definition name_char (c : byte) : Prop := c ∉ [NUL; CR; SP; TAB; colon].
Definition value_char (c : byte) : Prop := c ∉ [NUL; CR].

Definition field_ok (f : field) : Prop :=
  f_name f ≠ [] ∧ Forall name_char (f_name f) ∧ Forall value_char (f_first f) ∧
  Forall (λ p, p.1 ∈ [TAB; SP] ∧ Forall value_char p.2) (f_more f).
#[global] Instance field_ok_dec f : Decision (field_ok f).
Proof. unfold field_ok, name_char, value_char. apply _. Defined.

Definition more_bytes (m : list (byte * list byte)) : list byte :=
  concat ((λ p, crlf ++ p.1 :: p.2) <$> m).
Definition field_bytes (f : field) : list byte :=
  f_name f ++ [colon; f_sep f] ++ f_first f ++ more_bytes (f_more f).
Definition fields_bytes (fs : list field) : list byte :=
  concat ((λ f, field_bytes f ++ crlf) <$> fs).

(** The value as the parser reads it: the pieces, nothing between them, and
    never the byte after the colon, whatever it is. *)
Definition field_value (f : field) : list byte := f_first f ++ concat ((f_more f).*2).

(** What [h] holds of the field [f]. *)
Definition stored (h : hdr) (f : field) : Prop :=
  holds true (hdr_key h) (fit true (f_name f)) ∧
  holds false (hdr_value h) (fit false (field_value f)).

(** A header of the request before it is written. *)
Definition blank_hdr (h : hdr) : Prop :=
  zlen (hdr_key h) = hsize true ∧ zlen (hdr_value h) = hsize false.

Lemma field_bytes_head f :
  field_ok f → ∃ c t, field_bytes f = c :: t ∧ (c ∉ [TAB; SP; CR]) ∧ name_char c.
Proof.
  intros (Hne & Hname & _). unfold field_bytes.
  destruct (f_name f) as [|c name]; [done|]. simpl. do 2 eexists. split; [done|].
  apply Forall_cons in Hname as [Hc _]. split; [|done]. unfold name_char in Hc.
  rewrite !not_elem_of_cons in Hc. rewrite !not_elem_of_cons. tauto.
Qed.

Lemma fields_bytes_snoc fs f : fields_bytes (fs ++ [f]) = fields_bytes fs ++ field_bytes f ++ crlf.
Proof. unfold fields_bytes. rewrite fmap_app, concat_app. simpl. by rewrite app_nil_r. Qed.

Section parsing.
Context (D : list byte) (junk : buf).
Abbreviation step := (parse_step (bs D ++ junk) (zlen D)).

Definition text_char (isk : bool) (c : byte) : Prop :=
  if isk then name_char c else value_char c.

Lemma text_char_facts isk c :
  text_char isk c →
  c ≠ CR ∧ c ≠ NUL ∧ ¬ (c = colon ∧ isk = true) ∧ (isk = true → c ≠ SP).
Proof. destruct isk; unfold text_char, name_char, value_char;
  rewrite !not_elem_of_cons; intuition congruence. Qed.

Lemma text_runs isk t pre rest acc n hs1 h hs2 :
  D = pre ++ t ++ rest → Forall (text_char isk) t → n = zlen hs1 →
  filled isk (hget isk h) (fit isk acc) →
  ∃ h', runs step (length t)
      (Parse (zlen pre) n false isk (zlen (fit isk acc)) false (hs1 ++ h :: hs2))
      (Parse (zlen (pre ++ t)) n false isk (zlen (fit isk (acc ++ t))) false (hs1 ++ h' :: hs2)) ∧
    filled isk (hget isk h') (fit isk (acc ++ t)) ∧
    hget (negb isk) h' = hget (negb isk) h.
Proof.
  revert pre acc h. induction t as [|c t IH]; intros pre acc h HD Ht Hn Hf.
  { exists h. rewrite !app_nil_r. split_and!; [constructor|done..]. }
  apply Forall_cons in Ht as [Hc Ht].
  destruct (text_char_facts _ _ Hc) as (Hcr & Hnul & Hcol & Hsp).
  assert (∃ h1, step (Parse (zlen pre) n false isk (zlen (fit isk acc)) false (hs1 ++ h :: hs2)) =
      Ok (Next (Parse (zlen (pre ++ [c])) n false isk (zlen (fit isk (acc ++ [c]))) false
        (hs1 ++ h1 :: hs2))) ∧
    filled isk (hget isk h1) (fit isk (acc ++ [c])) ∧
    hget (negb isk) h1 = hget (negb isk) h) as (h1 & Hstep & Hf1 & Ho1).
  { rewrite (parse_step_plain _ _ pre c (t ++ rest)) by done.
    replace (zlen pre + 1) with (zlen (pre ++ [c])) by zlia. case_decide as Hroom.
    - destruct Hroom as [_ Hroom].
      assert (zlen acc < hsize isk - 1) as Hacc by (unfold fit in Hroom; zlia).
      rewrite (fit_short isk (acc ++ [c])) by zlia.
      rewrite (fit_short isk acc) in * by lia.
      destruct (filled_store _ _ _ c Hf Hacc) as (b' & Hb & Hf').
      rewrite (hput_mid isk hs1 h hs2 n _ _ b' Hn Hb), bind_Ok.
      exists (hset isk h b'). rewrite hget_set, hget_set_other.
      split_and!; [|done..]. do 4 f_equal. zlia.
    - exists h. rewrite fit_long; [done|].
      assert (¬ (zlen (fit isk acc) < hsize isk - 1)) as Hfull by tauto.
      unfold fit in Hfull. zlia. }
  destruct (IH (pre ++ [c]) (acc ++ [c]) h1) as (h' & Hr & Hf' & Ho');
    [by rewrite HD, <-app_assoc|done..|].
  exists h'. rewrite <-!app_assoc in Hr. rewrite <-app_assoc in Hf'.
  split_and!; [|done|congruence]. simpl. econstructor; done.
Qed.

(** The continuation lines of a value. *)
Lemma more_runs m pre rest acc n hs1 h hs2 :
  D = pre ++ more_bytes m ++ rest →
  Forall (λ p, p.1 ∈ [TAB; SP] ∧ Forall value_char p.2) m → n = zlen hs1 →
  filled false (hdr_value h) (fit false acc) →
  ∃ k h', runs step k
      (Parse (zlen pre) n false false (zlen (fit false acc)) false (hs1 ++ h :: hs2))
      (Parse (zlen (pre ++ more_bytes m)) n false false
        (zlen (fit false (acc ++ concat m.*2))) false (hs1 ++ h' :: hs2)) ∧
    (k ≤ length (more_bytes m))%nat ∧
    filled false (hdr_value h') (fit false (acc ++ concat m.*2)) ∧ hdr_key h' = hdr_key h.
Proof.
  revert pre acc h. induction m as [|[w t] m IH]; intros pre acc h HD Hm Hn Hf.
  { exists 0%nat, h. simpl. rewrite !app_nil_r. split_and!; [constructor|done..]. }
  apply Forall_cons in Hm as [[Hw Ht] Hm]. simpl in Hw, Ht.
  assert (more_bytes ((w, t) :: m) = crlf ++ w :: t ++ more_bytes m) as Hmb.
  { unfold more_bytes. simpl. by rewrite <-?app_assoc. }
  rewrite Hmb in HD |- *. unfold crlf in HD |- *. simpl in HD |- *.
  destruct (text_runs false t (pre ++ [CR; LF; w]) (more_bytes m ++ rest) acc n hs1 h hs2)
    as (h1 & Hr1 & Hf1 & Ho1); [rewrite HD, <-!app_assoc; done|done..|].
  destruct (IH ((pre ++ [CR; LF; w]) ++ t) (acc ++ t) h1) as (k & h' & Hr2 & Hk & Hf2 & Ho2);
    [rewrite HD, <-!app_assoc; done|done..|].
  repeat rewrite <-app_assoc in Hr2. rewrite <-app_assoc in Hf2. rewrite <-app_assoc in Hr1. simpl in *.
  exists (S (length t + k)), h'. rewrite ?length_app. simpl. rewrite ?length_app.
  split_and!; [|lia|done|congruence].
  eapply runs_S; [by apply (parse_step_fold D junk pre w ((t ++ more_bytes m) ++ rest))|].
  replace (zlen pre + 2 + 1) with (zlen (pre ++ [CR; LF; w])) by zlia.
  eapply runs_trans; [exact Hr1 | exact Hr2].
Qed.

(** A field, up to the line break after it. *)
Lemma field_runs f pre rest n hs1 h hs2 :
  D = pre ++ field_bytes f ++ rest → field_ok f → n = zlen hs1 → blank_hdr h →
  ∃ k h', runs step k
      (Parse (zlen pre) n false true 0 false (hs1 ++ h :: hs2))
      (Parse (zlen (pre ++ field_bytes f)) n false false
        (zlen (fit false (field_value f))) false (hs1 ++ h' :: hs2)) ∧
    (k ≤ length (field_bytes f))%nat ∧
    holds true (hdr_key h') (fit true (f_name f)) ∧
    filled false (hdr_value h') (fit false (field_value f)).
Proof.
  intros HD (_ & Hname & Hfirst & Hmore) Hn [Hkl Hvl]. unfold field_bytes in HD |- *.
  destruct (text_runs true (f_name f) pre ([colon; f_sep f] ++ f_first f ++ more_bytes (f_more f) ++ rest)
    [] n hs1 h hs2) as (h1 & Hr1 & Hf1 & Ho1).
  { by rewrite HD, <-!app_assoc. } { done. } { done. }
  { exists (hdr_key h). split_and!; done. }
  change ([] ++ f_name f) with (f_name f) in *.
  destruct (filled_terminate _ _ _ Hf1) as (b & Hb & Hkey).
  pose proof (hput_mid true hs1 h1 hs2 n _ _ _ Hn Hb) as Hput.
  set (h2 := hset true h1 b) in *.
  assert (hdr_value h2 = hdr_value h) as Hv by exact Ho1.
  destruct (text_runs false (f_first f) (pre ++ f_name f ++ [colon; f_sep f])
    (more_bytes (f_more f) ++ rest) [] n hs1 h2 hs2) as (h3 & Hr3 & Hf3 & Ho3).
  { by rewrite HD, <-!app_assoc. } { done. } { done. }
  { change (hget false h2) with (hdr_value h2). rewrite Hv. exists (hdr_value h). split_and!; done. }
  destruct (more_runs (f_more f) (pre ++ f_name f ++ [colon; f_sep f] ++ f_first f) rest
    (f_first f) n hs1 h3 hs2) as (k & h4 & Hr4 & Hk & Hf4 & Ho4).
  { by rewrite HD, <-!app_assoc. } { done. } { done. } { done. }
  simpl in Hr1, Hr3, Hf3, Ho3.
  exists (length (f_name f) + (1 + (length (f_first f) + k)))%nat, h4.
  split_and!; [|rewrite !length_app; simpl; lia|by rewrite Ho4, Ho3|done].
  eapply runs_trans; [exact Hr1|]. eapply runs_trans.
  - apply runs_1. rewrite (parse_step_colon D junk (pre ++ f_name f) (f_sep f) (f_first f ++ more_bytes (f_more f) ++ rest)).
    2:{ by rewrite HD, <-!app_assoc. }
    by rewrite Hput, bind_Ok.
  - replace (zlen (pre ++ f_name f) + 1 + 1) with (zlen (pre ++ f_name f ++ [colon; f_sep f])) by zlia.
    eapply runs_trans; [exact Hr3|]. rewrite <-!app_assoc in Hr4 |- *. exact Hr4.
Qed.

(** Fields followed by something that starts another field. *)
Lemma fields_runs fs pre c rest n hs1 hs2 :
  D = pre ++ fields_bytes fs ++ c :: rest → c ∉ [TAB; SP; CR] →
  Forall field_ok fs → Forall blank_hdr hs2 → (length fs ≤ length hs2)%nat →
  n = zlen hs1 → zlen (hs1 ++ hs2) = HEADER_MAX_LEN →
  ∃ k hs', runs step k
      (Parse (zlen pre) n false true 0 false (hs1 ++ hs2))
      (Parse (zlen (pre ++ fields_bytes fs)) (n + zlen fs) false true 0 false
        (hs1 ++ hs' ++ drop (length fs) hs2)) ∧
    (k ≤ length (fields_bytes fs))%nat ∧ Forall2 stored hs' fs.
Proof.
  revert pre n hs1 hs2.
  induction fs as [|f fs IH]; intros pre n hs1 hs2 HD Hc Hfs Hbl Hlen Hn Hmax.
  { exists 0%nat, []. rewrite app_nil_r, Z.add_0_r. split_and!; [constructor|simpl; lia|constructor]. }
  destruct hs2 as [|h hs2]; simpl in Hlen; [lia|].
  apply Forall_cons in Hfs as [Hf Hfs]. apply Forall_cons in Hbl as [Hb Hbl].
  assert (fields_bytes (f :: fs) = field_bytes f ++ crlf ++ fields_bytes fs) as Hfb.
  { unfold fields_bytes. simpl. by rewrite <-app_assoc. }
  rewrite Hfb in HD |- *.
  (** the byte after the line break *)
  assert (∃ c' rest', fields_bytes fs ++ c :: rest = c' :: rest' ∧ c' ∉ [TAB; SP; CR])
    as (c' & rest' & Hnext & Hc').
  { destruct fs as [|f' fs']; [by exists c, rest|].
    apply Forall_cons in Hfs as [Hf' _].
    destruct (field_bytes_head f' Hf') as (c' & t & Ht & Hc' & _).
    unfold fields_bytes. simpl. rewrite Ht. simpl. eauto. }
  destruct (field_runs f pre (crlf ++ c' :: rest') n hs1 h hs2)
    as (k & h1 & Hr1 & Hk & Hkey & Hval); [by rewrite HD, <-Hnext, <-!app_assoc|done..|].
  destruct (filled_terminate _ _ _ Hval) as (b & Hput & Hval').
  pose proof (hput_mid false hs1 h1 hs2 n _ _ _ Hn Hput) as Hput'.
  set (h2 := hset false h1 b) in *.
  destruct (IH (pre ++ field_bytes f ++ crlf) (n + 1) (hs1 ++ [h2]) hs2)
    as (k' & hs' & Hr2 & Hk' & Hst).
  { by rewrite HD, <-!app_assoc. } { done. } { done. } { done. } { lia. } { zlia. }
  { rewrite <-Hmax. zlia. }
  exists (k + (1 + k'))%nat, (h2 :: hs'). split_and!.
  - eapply runs_trans; [exact Hr1|]. eapply runs_trans.
    + apply runs_1. rewrite (parse_step_eol D junk (pre ++ field_bytes f) c' rest').
      * by rewrite Hput', bind_Ok.
      * by rewrite HD, <-Hnext, <-!app_assoc.
      * done.
      * rewrite <-Hmax. zlia.
    + replace (zlen (pre ++ field_bytes f) + 1 + 1) with (zlen (pre ++ field_bytes f ++ crlf)) by zlia.
      replace (n + zlen (f :: fs)) with (n + 1 + zlen fs) by zlia.
      repeat rewrite <-app_assoc in Hr2. repeat rewrite <-app_assoc. exact Hr2.
  - rewrite !length_app. simpl. lia.
  - constructor; [|done]. split; [exact Hkey | exact Hval'].
Qed.
End parsing.

(** ** The whole parser *)

(** A request whose DATA holds [D] and whose headers are as [request_init]
    left them. *)
Definition parse_ready (req : request) (D : list byte) : Prop :=
  data_rep req D ∧ Forall blank_hdr (req_headers req) ∧ zlen (req_headers req) = HEADER_MAX_LEN.

Lemma parse_ready_data req D :
  parse_ready req D → D ≠ [] → ∃ junk, default [] (req_data req) = bs D ++ junk ∧ req_data_len req = zlen D.
Proof.
  intros [[Hl Hd] _] Hne. destruct (req_data req) as [b|]; simpl.
  - destruct Hd as (junk & -> & _). eauto.
  - by destruct Hd as [-> _].
Qed.

(** The header loop on a well-formed message of at most [HEADER_MAX_LEN] fields. *)
Lemma parse_loop_ok fs c text junk hs :
  let D := fields_bytes fs ++ crlf ++ c :: text in
  fs ≠ [] → Forall field_ok fs → zlen fs <= HEADER_MAX_LEN → c ∉ [TAB; SP] →
  Forall blank_hdr hs → zlen hs = HEADER_MAX_LEN →
  ∃ hs', cloop (parse_step (bs D ++ junk) (zlen D)) (S (Z.to_nat (zlen D)))
      (Parse 0 0 false true 0 false hs) =
    Ok (Parse (zlen (fields_bytes fs ++ crlf)) (zlen fs) true true 0 false
      (hs' ++ drop (length fs) hs)) ∧ Forall2 stored hs' fs.
Proof.
  intros D Hne Hok Hn Hc Hbl Hmax.
  destruct (exists_last Hne) as (fs' & f & ->).
  apply Forall_app in Hok as [Hok' Hok]. apply Forall_cons in Hok as [Hok _].
  destruct (field_bytes_head f Hok) as (c' & t & Ht & Hc' & _).
  assert (D = [] ++ fields_bytes fs' ++ c' :: t ++ crlf ++ crlf ++ c :: text) as HD.
  { unfold D. rewrite fields_bytes_snoc, Ht, <-!app_assoc. done. }
  destruct (fields_runs D junk fs' [] c' (t ++ crlf ++ crlf ++ c :: text) 0 [] hs)
    as (k & hs1 & Hr1 & Hk & Hst1); [done..|zlia|done|done|].
  simpl in Hr1. rewrite Z.add_0_l in Hr1.
  assert (length hs1 = length fs') as Hl1 by by eapply Forall2_length.
  destruct (drop (length fs') hs) as [|h hs2] eqn:Edrop.
  { apply (f_equal length) in Edrop. rewrite length_drop in Edrop. simpl in Edrop. zlia. }
  assert (blank_hdr h) as Hh.
  { rewrite Forall_forall in Hbl. apply Hbl. rewrite <-(take_drop (length fs') hs), Edrop.
    apply elem_of_app. right. apply elem_of_cons. by left. }
  destruct (field_runs D junk f (fields_bytes fs') (crlf ++ crlf ++ c :: text) (zlen fs') hs1 h hs2)
    as (k2 & h1 & Hr2 & Hk2 & Hkey & Hval); [by rewrite HD, Ht|done|zlia|done|].
  destruct (filled_terminate _ _ _ Hval) as (b & Hput & Hval').
  pose proof (hput_mid false hs1 h1 hs2 (zlen fs') _ _ _ ltac:(zlia) Hput) as Hput'.
  exists (hs1 ++ [hset false h1 b]). split.
  - eapply cloop_runs_break.
    + eapply runs_trans; [exact Hr1|]. eapply runs_trans; [exact Hr2|].
      apply runs_1. rewrite (parse_step_blank D junk (fields_bytes fs' ++ field_bytes f) c text).
      * by rewrite Hput', bind_Ok.
      * by rewrite HD, Ht, <-!app_assoc.
      * done.
      * zlia.
    + unfold parse_step. simpl. rewrite decide_False by (by intros [_ [=]]).
      replace (zlen (fields_bytes fs' ++ field_bytes f) + 2 + 1 + 1)
        with (zlen (fields_bytes (fs' ++ [f]) ++ crlf)) by (rewrite fields_bytes_snoc; zlia).
      replace (zlen fs' + 1) with (zlen (fs' ++ [f])) by zlia.
      rewrite <-app_assoc. simpl. do 4 f_equal.
      rewrite length_app, <-drop_drop, Edrop. done.
    + unfold D. rewrite fields_bytes_snoc. zlia.
  - apply Forall2_app; [done|]. constructor; [|constructor]. split; [exact Hkey | exact Hval'].
Qed.

(** The fields that parsing the data leaves alone. *)
Definition parse_frame (r r' : request) : Prop :=
  req_in_data r' = req_in_data r ∧ req_data r' = req_data r ∧
  req_data_alloc r' = req_data_alloc r ∧ req_data_len r' = req_data_len r ∧
  req_quit r' = req_quit r ∧ req_process r' = req_process r.

Lemma parse_data_ok req fs c text :
  let D := fields_bytes fs ++ crlf ++ c :: text in
  parse_ready req D → fs ≠ [] → Forall field_ok fs → zlen fs <= HEADER_MAX_LEN →
  c ∉ [TAB; SP] →
  ∃ req' hs', request_parse_data req = Ok req' ∧
    req_headers req' = hs' ++ drop (length fs) (req_headers req) ∧ Forall2 stored hs' fs ∧
    req_header_count req' = Some (zlen fs) ∧
    req_body req' = Some (bs (c :: text) ++ [Some NUL]) ∧ req_body_len req' = zlen (c :: text) ∧
    parse_frame req req'.
Proof.
  intros D Hready Hne Hok Hn Hc.
  destruct (parse_ready_data req D Hready) as (junk & Hdata & Hlen).
  { unfold D. intros [_ H%app_eq_nil]%app_eq_nil. by destruct H. }
  destruct Hready as (_ & Hbl & Hmax).
  destruct (parse_loop_ok fs c text junk (req_headers req)) as (hs' & Hloop & Hst); [done..|].
  unfold request_parse_data. rewrite Hdata, Hlen. fold D in Hloop. rewrite Hloop, bind_Ok. simpl.
  assert (D = (fields_bytes fs ++ crlf) ++ c :: text) as HD by (unfold D; by rewrite app_assoc).
  set (pre := fields_bytes fs ++ crlf) in *.
  rewrite decide_True by (split; [rewrite HD; zlia | done]).
  replace (zlen D - zlen pre) with (zlen (c :: text)) by (rewrite HD; zlia).
  unfold memcpy. rewrite HD, bs_app, <-app_assoc, bread_mid by zlia. rewrite bind_Ok.
  rewrite bwrite_start by zlia. rewrite bind_Ok.
  rewrite bstore_end by zlia. rewrite !bind_Ok.
  do 2 eexists. split_and!; try done.
  - simpl. do 2 f_equal. rewrite drop_drop, drop_ge by zlia. done.
  - unfold parse_frame; simpl; split_and!; try done. by rewrite Hlen, HD.
Qed.

(** A twenty-first field: its key would go past the header array. *)
Lemma parse_data_overflow req fs f rest :
  let D := fields_bytes fs ++ field_bytes f ++ rest in
  parse_ready req D → Forall field_ok fs → field_ok f → zlen fs = HEADER_MAX_LEN →
  request_parse_data req = Err OutOfBounds.
Proof.
  intros D Hready Hok Hf Hn. destruct (field_bytes_head f Hf) as (c & t & Ht & Hc & Hname).
  destruct (parse_ready_data req D Hready) as (junk & Hdata & Hlen).
  { unfold D. rewrite Ht. by intros [_ ?]%app_eq_nil. }
  destruct Hready as (_ & Hbl & Hmax).
  assert (D = [] ++ fields_bytes fs ++ c :: t ++ rest) as HD by (unfold D; by rewrite Ht).
  destruct (fields_runs D junk fs [] c (t ++ rest) 0 [] (req_headers req))
    as (k & hs1 & Hr1 & Hk & Hst1); [done..|zlia|done|done|].
  simpl in Hr1. rewrite Z.add_0_l in Hr1.
  rewrite drop_ge, app_nil_r in Hr1 by zlia.
  assert (length hs1 = length fs) as Hl1 by by eapply Forall2_length.
  destruct (text_char_facts true c Hname) as (Hcr & Hnul & Hcol & Hsp).
  unfold request_parse_data. rewrite Hdata, Hlen.
  erewrite cloop_runs_err; [done|exact Hr1| |rewrite HD; zlia].
  rewrite (parse_step_plain D junk (fields_bytes fs) c (t ++ rest)) by done.
  rewrite decide_True by (split; [done|reflexivity]).
  simpl. unfold put_key. rewrite aload_oob by zlia. done.
Qed.

(** ** Properties *)

Lemma stored_strings h f :
  field_ok f → stored h f →
  cstring (hdr_key h) = Ok (fit true (f_name f)) ∧
  cstring (hdr_value h) = Ok (fit false (field_value f)).
Proof.
  intros (_ & Hname & Hfirst & Hmore) [Hk Hv]. split; eapply holds_cstring; try done; apply fit_nonul.
  - eapply Forall_impl; [exact Hname|]. intros c Hc. by destruct (text_char_facts true c Hc) as (_ & ? & _).
  - unfold nonul, field_value. apply Forall_app. split.
    + eapply Forall_impl; [exact Hfirst|]. intros c Hc.
      by destruct (text_char_facts false c Hc) as (_ & ? & _).
    + induction Hmore as [|[w t] m [_ Ht] _ IH]; [constructor|]. simpl. apply Forall_app.
      split; [|done]. eapply Forall_impl; [exact Ht|]. intros c Hc.
      by destruct (text_char_facts false c Hc) as (_ & ? & _).
Qed.

(** C12: A message of at most [HEADER_MAX_LEN] well-formed fields, a blank line
    and a body is parsed back: no access leaves its object, field by field the
    key and the value read as strings are the sender's (cut to the arrays'
    sizes, folded lines joined, the byte after the colon dropped), and the body
    read as a string is the sender's. *)
Theorem request_parse_data_roundtrip req fs body :
  parse_ready req (fields_bytes fs ++ crlf ++ body ++ NUL :: tail eod) →
  fs ≠ [] → Forall field_ok fs → zlen fs <= HEADER_MAX_LEN → nonul body →
  (∀ c, head body = Some c → c ∉ [TAB; SP]) →
  ∃ req' b, request_parse_data req = Ok req' ∧ req_header_count req' = Some (zlen fs) ∧
    (∀ j f, fs !! j = Some f → ∃ h, req_headers req' !! j = Some h ∧
      cstring (hdr_key h) = Ok (fit true (f_name f)) ∧
      cstring (hdr_value h) = Ok (fit false (field_value f))) ∧
    req_body req' = Some b ∧ cstring b = Ok body ∧
    req_body_len req' = zlen body + zlen eod.
Proof.
  intros Hready Hne Hok Hn Hnul Hhead.
  assert (∃ c text, body ++ NUL :: tail eod = c :: text ∧ c ∉ [TAB; SP]) as (c & text & Hbt & Hc).
  { destruct body as [|c body]; simpl; [|eauto]. exists NUL, (tail eod). by split; [|by_compute]. }
  rewrite Hbt in Hready.
  destruct (parse_data_ok req fs c text Hready Hne Hok Hn Hc)
    as (req' & hs' & E & Hhs & Hst & Hcount & Hbody & Hlen & _).
  exists req', (bs (c :: text) ++ [Some NUL]). rewrite <-Hbt in *.
  split_and!; [done..| |done| |by rewrite Hlen, zlen_app].
  - intros j f Hj. destruct (Forall2_lookup_r _ _ _ _ _ Hst Hj) as (h & Hh & Hs).
    exists h. rewrite Hhs. split; [by apply lookup_app_l_Some|].
    apply stored_strings; [|done]. eapply Forall_lookup_1; [exact Hok|exact Hj].
  - rewrite bs_app, <-app_assoc. by apply cstring_bs.
Qed.

(** The limit on the number of fields is not enforced: on a message with
    more than [HEADER_MAX_LEN] fields the parser indexes the array of header
    pointers past its end. *)
Theorem request_parse_data_too_many_fields req fs f rest :
  parse_ready req (fields_bytes fs ++ field_bytes f ++ rest) →
  Forall field_ok fs → field_ok f → zlen fs = HEADER_MAX_LEN →
  request_parse_data req = Err OutOfBounds.
Proof. apply parse_data_overflow. Qed.

(** ** Witnesses *)

Definition ex_field : field :=
  Field (lit "Subject") SP (lit "Report") [(TAB, lit "domain"); (SP, lit " x")].

(** A request that holds the data [D]. *)
Definition ex_request (D : list byte) : request :=
  Request (req_headers request_init) None None 0 false (Some (bs D ++ malloc 8)) (zlen D + 8)
    (zlen D) true true.

Lemma ex_request_ready D : parse_ready (ex_request D) D.
Proof.
  split_and!; [|by apply Forall_replicate|done].
  split; [done|]. simpl. eexists. split; [done|]. zlia.
Qed.

Lemma request_parse_data_roundtrip_witness :
  ∃ req' b, request_parse_data (ex_request (fields_bytes [ex_field; ex_field] ++ crlf ++
      lit "body" ++ NUL :: tail eod)) = Ok req' ∧
    req_header_count req' = Some 2 ∧ req_body req' = Some b ∧ cstring b = Ok (lit "body") ∧
    fit false (field_value ex_field) = lit "Reportdomain x".
Proof.
  destruct (request_parse_data_roundtrip (ex_request (fields_bytes [ex_field; ex_field] ++ crlf ++
      lit "body" ++ NUL :: tail eod)) [ex_field; ex_field] (lit "body"))
    as (req' & b & E & Hc & _ & Hb & Hs & _);
    [apply ex_request_ready|done|by_compute|done|by_compute|intros c [= <-]; by_compute|].
  exists req', b. split_and!; done.
Defined.

Lemma request_parse_data_too_many_fields_witness :
  request_parse_data (ex_request (fields_bytes (replicate 20 ex_field) ++ field_bytes ex_field ++ [])) =
    Err OutOfBounds.
Proof.
  apply (request_parse_data_too_many_fields _ (replicate 20 ex_field) ex_field []);
    [apply ex_request_ready|by_compute|by_compute|done].
Defined.
