(* ===== verification/Connection.v ===== *)
(** Connection: one client connection, [src/src/connection.c]: the status
    machine of [connection_handle], which reads, parses, queues the mail,
    replies and closes. *)
From S2P Require Import Prelude Base Config Response Layout Socket Queue QueueSys Request RequestData.

(** ** The world of a handler *)

(** The answers of the socket calls: [read] delivers bytes (none at the end of
    the stream) or fails, [send] of the bytes at an offset of the response
    accepts a number of them or fails; whether [epoll_ctl] succeeds does not
    matter. *)
Record net := Net {
  net_read : Z → option (list byte);
  net_send : Z → list byte → bool → option Z;
}.

(** [read] never delivers more than it was asked for. *)
Definition net_ok (w : net) : Prop :=
  ∀ n bytes, net_read w n = Some bytes → zlen bytes <= n.

(** What the processes do to the outside: the [send] calls with their
    [MSG_MORE] flag, the warnings, the options of a socket, the events asked
    for, the end of the connection. *)
Inductive action :=
  | Send (bytes : list byte) (more : bool)
  | Warn (msg : list byte)
  | QueueFull
  | Queued
  | Call (c : syscall)
  | AddEvent (ep fd flags : Z)
  | DelEvent (fd : Z)
  | Close (fd : Z).

(** The state outside the connection: the queue of the worker and the actions
    so far. *)
Record env := Env {
  env_sys : sys;
  env_log : list action;
}.

Definition act (a : action) (e : env) : env := Env (env_sys e) (env_log e ++ [a]).
Definition acts (l : list action) (e : env) : env := Env (env_sys e) (env_log e ++ l).

(** ** Operations *)

(** A [connection] fresh from [malloc]; its [status] is whatever [garbage]
    says, its pointers are indeterminate. *)
Definition connection_init (garbage : conn_status) : connection :=
  Connection 0 PUninit PUninit garbage PUninit None.

Definition connection_setup (cfg : config) : res (list connection) :=
  n ← i32 (max_clients cfg * 2);
  Ok ((λ i, let c := conn_set_status CONN_INACTIVE (connection_init CONN_INACTIVE) in
            Connection (Z.of_nat i) (conn_request c) (conn_response c) (conn_status_of c)
              (conn_read_buffer c) (conn_buffer_len c)) <$> seq 0 (Z.to_nat n)).

Definition connection_start (conn : connection) : connection :=
  Connection (conn_fd conn) (PTo request_init) (PTo response_init) CONN_STARTED PNull (Some 0).

Definition free_unless_null {A} (f : ptr A → res (ptr A)) (p : ptr A) : res (ptr A) :=
  set ← non_null p; if set : bool then _ ← f p; Ok PNull else Ok p.

Definition connection_reset (conn : connection) : res connection :=
  b ← free_unless_null cfree (conn_read_buffer conn);
  q ← free_unless_null request_free (conn_request conn);
  r ← free_unless_null response_free (conn_response conn);
  Ok (Connection (conn_fd conn) q r CONN_INACTIVE b (Some 0)).

Definition connection_free (conn : connection) : res (ptr connection) :=
  c ← connection_reset conn; cfree (PTo c).

(** The peer of a connection: the family and the address [getpeername] gives,
    and the text [inet_ntop] writes for them, if it fits. *)
Definition AF_INET : Z := 2.
Definition AF_INET6 : Z := 10.
Definition INET6_ADDRSTRLEN : Z := 46.

Section peer.
Context (getpeername : Z → option (Z * list byte)) (inet_ntop : Z → list byte → list byte).

Definition connection_get_ip (conn : connection) : res (option buf) :=
  let str := malloc (INET6_ADDRSTRLEN + 1) in
  match getpeername (conn_fd conn) with
  | None => Ok None
  | Some (family, addr) =>
      let text := inet_ntop (if decide (family = AF_INET) then AF_INET else AF_INET6) addr in
      b ← (if decide (zlen text < INET6_ADDRSTRLEN) then bwrite str 0 (cstr text) else Ok str);
      Ok (Some b)
  end.

Definition connection_get_iplong (conn : connection) : Z :=
  match getpeername (conn_fd conn) with
  | None => 0
  | Some (family, addr) => if decide (family = AF_INET) then le_value (take 4 addr) else 0
  end.
End peer.

(** [response_append (conn->response, s)] *)
Definition append_to (p : ptr response) (s : buf) : res (ptr response) :=
  r ← deref p; r' ← response_append r s; Ok (PTo r').

(** The welcome message. *)
Definition connection_welcome (cfg : config) (conn : connection) : res connection :=
  p1 ← append_to (conn_response conn) (cstr (lit "220 "));
  p2 ← append_to p1 (hostname cfg);
  p3 ← append_to p2 (cstr (lit " SMTP "));
  p4 ← append_to p3 (server_name cfg);
  p5 ← append_to p4 (cstr crlf);
  Ok (conn_set_status CONN_WRITING (conn_set_response p5 conn)).

(** The [mail] built from a parsed request. *)
Fixpoint copy_headers (n : nat) (from to : list hdr) : res (list hdr) :=
  match n, from, to with
  | O, _, _ => Ok to
  | S n', h :: from', _ :: to' => l ← copy_headers n' from' to'; Ok (h :: l)
  | S _, _, _ => Err OutOfBounds
  end.

Definition warn_body : list byte := lit "body to large for queue.".
Definition warn_size : list byte := lit "request size is too big.".
Definition warn_headers : list byte := lit "missing headers".

Definition make_mail (req : request) (n : Z) : res (mail * list action) :=
  body ← (if decide (req_body_len req < BODY_MAX_LEN) then
            b ← memcpy_opt (malloc BODY_MAX_LEN) 0 (req_body req) 0 (req_body_len req + 1);
            Ok (b, [])
          else b ← bstore (malloc BODY_MAX_LEN) 0 NUL; Ok (b, [Warn warn_body]));
  hs ← copy_headers (Z.to_nat n) (req_headers req)
         (replicate (Z.to_nat HEADER_MAX_LEN) hdr_malloc);
  Ok (Mail hs n (fst body), snd body).

(** Parse the collected data and queue the mail. *)
Definition connection_process (o : os) (queue : ptr pq_ref) (conn : connection) (e : env)
    : res (connection * env) :=
  req ← deref (conn_request conn);
  req' ← request_parse_data req;
  let conn1 := conn_set_request (PTo req') conn in
  match req_header_count req' with
  | None => Err Uninit
  | Some n =>
      if decide (0 < n) then
        ml ← make_mail req' n;
        ret ← pq_enqueue o queue (mail_bytes (fst ml)) (env_sys e);
        let '(code, s') := ret in
        Ok (conn1, Env s' (env_log e ++ snd ml ++
          [if decide (code = PQ_MESSAGE_SIZE_REACHED_ERROR) then QueueFull else Queued]))
      else Ok (conn_set_status CONN_ERROR conn1, act (Warn warn_headers) e)
  end.

(** The reading part: the connection's buffer and one [read] into it, ... *)
Definition connection_fill (w : net) (srv : server) (conn : connection) (e : env)
    : res (connection * env) :=
  let master := srv_master_config srv in
  len ← (match conn_buffer_len conn with Some z => Ok z | None => Err Uninit end);
  let conn0 := if decide (len = 0)
    then conn_set_buffer (PTo (malloc (read_buffer_size master + 1))) (Some len) conn else conn in
  cfg ← deref (srv_config srv);
  if decide (0 < read_buffer_size cfg - len) then
    match net_read w (read_buffer_size master - len) with
    | Some bytes =>
        b ← deref (conn_read_buffer conn0);
        b' ← bwrite b len (bs bytes);
        Ok (conn_set_buffer (PTo b') (Some (len + zlen bytes)) conn0, e)
    | None => Ok (conn_set_status CONN_ERROR conn0, e)
    end
  else Ok (conn_set_status CONN_ERROR conn0, act (Warn warn_size) e).

(** ... the commands in it, and the message that they may complete. *)
Definition connection_commands (o : os) (queue : ptr pq_ref) (srv : server) (conn : connection) (e : env)
    : res (connection * env) :=
  ret ← request_parse_commands srv conn;
  let '(code, conn2, warns) := ret in
  let e2 := acts (Warn <$> warns) e in
  if decide (code = 0) then
    req ← deref (conn_request conn2);
    r2 ← (if req_process req then connection_process o queue conn2 e2 else Ok (conn2, e2));
    let '(conn3, e3) := r2 in
    Ok (conn_set_status CONN_WRITING conn3, e3)
  else Ok (conn_set_status CONN_ERROR conn2, e2).

Definition connection_read (o : os) (w : net) (queue : ptr pq_ref) (srv : server)
    (conn : connection) (e : env) : res (connection * env) :=
  r ← connection_fill w srv conn e;
  let '(conn1, e1) := r in
  len1 ← (match conn_buffer_len conn1 with Some z => Ok z | None => Err Uninit end);
  if decide (0 < len1 ∧ conn_status_of conn1 ≠ CONN_ERROR)
  then connection_commands o queue srv conn1 e1 else Ok (conn1, e1).

(** The chunks of a large response: [data_sent] advances by the size asked
    for, whatever [send] accepted. *)
Record sending := Sending {
  sd_sent : Z;
  sd_failed : bool;
  sd_log : list action;
}.

Definition send_step (w : net) (data : buf) (data_len limit : Z) (s : sending) : res (ctl sending) :=
  if decide (sd_sent s < data_len) then
    let rest := data_len - sd_sent s in
    let more := bool_decide (limit <= rest) in
    let size := if more then limit else rest in
    m ← bread data (sd_sent s) size;
    bytes ← buf_bytes m;
    let log := sd_log s ++ [Send bytes more] in
    match net_send w (sd_sent s) bytes more with
    | None => Ok (Break (Sending (sd_sent s) true log))
    | Some _ => Ok (Next (Sending (sd_sent s + size) (sd_failed s) log))
    end
  else Ok (Break s).

Definition connection_send (w : net) (limit : Z) (r : response) : res (bool * list action) :=
  if decide (resp_data_len r <= limit) then
    m ← (match resp_data r with
         | Some d => bread d 0 (resp_data_len r)
         | None => if decide (resp_data_len r = 0) then Ok [] else Err NullDeref
         end);
    bytes ← buf_bytes m;
    Ok (bool_decide (net_send w 0 bytes false = None), [Send bytes false])
  else
    d ← (match resp_data r with Some d => Ok d | None => Err NullDeref end);
    s ← cloop (send_step w d (resp_data_len r) limit) (S (Z.to_nat (resp_data_len r)))
          (Sending 0 false []);
    Ok (sd_failed s, sd_log s).

(** The writing part: the reply, then the connection is made ready to read
    again or to close. *)
Definition connection_write (w : net) (srv : server) (conn : connection) (e : env)
    : res (connection * env) :=
  r ← deref (conn_response conn);
  sent ← connection_send w (write_buffer_size (srv_master_config srv)) r;
  let e1 := acts (snd sent) e in
  if fst sent : bool then Ok (conn_set_status CONN_ERROR conn, e1)
  else
    req ← deref (conn_request conn);
    let status := if req_quit req then CONN_CLOSED else CONN_READING in
    p ← (if req_in_data req then Ok (conn_request conn)
         else _ ← request_free (conn_request conn); Ok (PTo request_init));
    _ ← response_free (conn_response conn);
    b ← free_unless_null cfree (conn_read_buffer conn);
    Ok (Connection (conn_fd conn) p (PTo response_init) status b (Some 0), e1).

(** The end of a connection. *)
Definition connection_close (fd : Z) (conn : connection) (e : env) : res (connection * env) :=
  let conn1 := if decide (conn_status_of conn = CONN_ERROR)
    then conn_set_status CONN_CLOSED conn else conn in
  let '(conn2, e2) := if decide (conn_status_of conn1 = CONN_CLOSED)
    then (conn_set_status CONN_INACTIVE conn1, acts [DelEvent fd; Close fd] e) else (conn1, e) in
  if decide (conn_status_of conn2 = CONN_INACTIVE) then
    c ← connection_reset conn2; Ok (c, e2)
  else Ok (conn2, e2).

(** [connection_handle (w, conn, ev_handler, fd)]; it returns 0. *)
Definition connection_handle (o : os) (w : net) (queue : ptr pq_ref) (srv : server) (fd : Z)
    (conn : connection) (e : env) : res (connection * env) :=
  c1 ← (if decide (conn_status_of conn = CONN_STARTED) then
          cfg ← deref (srv_config srv); connection_welcome cfg conn
        else Ok conn);
  r2 ← (if decide (conn_status_of c1 = CONN_READING)
        then connection_read o w queue srv c1 e else Ok (c1, e));
  let '(c2, e2) := r2 in
  r3 ← (if decide (conn_status_of c2 = CONN_WRITING)
        then connection_write w srv c2 e2 else Ok (c2, e2));
  let '(c3, e3) := r3 in connection_close fd c3 e3.

(** ** Sending a response *)

(** The actions are [send]s of pieces of at most [limit] bytes that make up
    [bytes] in order. *)
Definition sends (limit : Z) (l : list action) (bytes : list byte) : Prop :=
  ∃ cs : list (list byte * bool), l = (λ p, Send p.1 p.2) <$> cs ∧
    concat cs.*1 = bytes ∧ Forall (λ p, zlen p.1 <= limit) cs.

Lemma sends_nil limit : sends limit [] [].
Proof. exists []. by split_and!. Qed.

Lemma sends_snoc limit l bytes b more :
  sends limit l bytes → zlen b <= limit → sends limit (l ++ [Send b more]) (bytes ++ b).
Proof.
  intros (cs & -> & <- & Hc) Hb. exists (cs ++ [(b, more)]).
  rewrite !fmap_app, concat_app. simpl. rewrite app_nil_r.
  split_and!; [done | done |]. apply Forall_app. split; [done | by constructor].
Qed.

Lemma send_loop_wp w bytes junk limit :
  0 < limit → (∀ i b f, net_send w i b f ≠ None) →
  wp (cloop (send_step w (bs bytes ++ junk) (zlen bytes) limit) (S (Z.to_nat (zlen bytes)))
       (Sending 0 false []))
     (λ s, sd_failed s = false ∧ sends limit (sd_log s) bytes).
Proof.
  intros Hl Hsend.
  apply (wp_cloop _ (λ s, ∃ pre post, bytes = pre ++ post ∧ sd_sent s = zlen pre ∧
    sd_failed s = false ∧ sends limit (sd_log s) pre) (λ s, Z.to_nat (zlen bytes - sd_sent s))).
  - intros s (pre & post & Hb & Hs & Hf & Hlog). unfold send_step. rewrite Hs.
    case_decide as Hlt.
    + set (more := bool_decide (limit <= zlen bytes - zlen pre)).
      set (size := if more then limit else zlen bytes - zlen pre).
      assert (0 < size <= zlen post ∧ size <= limit) as [Hsize Hsl].
      { subst size more. case_bool_decide; rewrite Hb in *; zlia. }
      assert (zlen (take (Z.to_nat size) post) = size) as Htake.
      { unfold zlen in *. rewrite length_take. lia. }
      assert (bread (bs bytes ++ junk) (zlen pre) size = Ok (bs (take (Z.to_nat size) post))) as ->.
      { rewrite Hb, <-(take_drop (Z.to_nat size) post), !bs_app, <-!app_assoc.
        rewrite take_drop. apply bread_mid; [by rewrite zlen_bs|].
        rewrite zlen_bs. by rewrite Htake. }
      rewrite bind_Ok, buf_bytes_bs, bind_Ok.
      destruct (net_send w _ _ _) eqn:E; [|by apply Hsend in E]. simpl. split.
      * exists (pre ++ take (Z.to_nat size) post), (drop (Z.to_nat size) post).
        rewrite <-app_assoc, take_drop, zlen_app, Htake. split_and!; [done..|].
        apply sends_snoc; [done | lia].
      * lia.
    + simpl. split; [done|]. assert (post = []) as ->.
      { rewrite Hb in Hlt. destruct post; [done|]. exfalso. zlia. }
      rewrite app_nil_r in Hb. by subst.
  - exists [], bytes. simpl. split_and!; try done. apply sends_nil.
  - simpl. lia.
Qed.

Lemma connection_send_ok w limit r s :
  resp_rep r s → 0 < limit → (∀ i b f, net_send w i b f ≠ None) →
  ∃ l, connection_send w limit r = Ok (false, l) ∧ sends limit l s.
Proof.
  intros [Hlen Hd] Hl Hsend. unfold connection_send. rewrite Hlen. case_decide as Hsmall.
  - assert (match resp_data r with
      | Some d => bread d 0 (zlen s)
      | None => if decide (zlen s = 0) then Ok [] else Err NullDeref end = Ok (bs s)) as ->.
    { destruct (resp_data r) as [d|].
      - destruct Hd as (rest & -> & _). by apply bread_bs.
      - by destruct Hd as [-> _]. }
    rewrite bind_Ok, buf_bytes_bs, bind_Ok.
    rewrite bool_decide_false by apply Hsend. eexists. split; [done|].
    exists [(s, false)]. simpl. rewrite app_nil_r. split_and!; [done | done | by constructor].
  - destruct (resp_data r) as [d|].
    + destruct Hd as (rest & -> & _). rewrite bind_Ok.
      destruct (wp_inv _ _ (send_loop_wp w s (Some NUL :: rest) limit Hl Hsend))
        as (st & -> & Hf & Hs). rewrite bind_Ok, Hf. eauto.
    + destruct Hd as [-> _]. simpl in Hsmall. unfold zlen in Hsmall. simpl in Hsmall. lia.
Qed.

(** ** A connection between two events *)

(** The connection waits for bytes: its request and response hold the session
    [m], its headers are unused, its read buffer is gone. *)
Definition session (c : connection) (m : smtp) : Prop :=
  (∃ req, conn_request c = PTo req ∧ req_rep req m ∧
     Forall blank_hdr (req_headers req) ∧ zlen (req_headers req) = HEADER_MAX_LEN) ∧
  out_rep (conn_response c) m ∧ conn_read_buffer c = PNull ∧
  conn_buffer_len c = Some 0 ∧ conn_status_of c = CONN_READING.

(** Between reading and replying: the session has moved on, the read buffer may
    be there. *)
Definition scanned (c : connection) (m : smtp) : Prop :=
  (∃ req, conn_request c = PTo req ∧ req_rep req m ∧
     Forall blank_hdr (req_headers req) ∧ zlen (req_headers req) = HEADER_MAX_LEN) ∧
  out_rep (conn_response c) m ∧
  (conn_read_buffer c = PNull ∨ ∃ b, conn_read_buffer c = PTo b).

(** The limits under which no counter of the scanner overflows. *)
Definition fits (m : smtp) (bytes : list byte) : Prop :=
  zlen (m_data m) + zlen bytes + 512 <= INT_MAX ∧
  zlen (m_out m) + 40 * zlen bytes + 1000 <= INT_MAX.

(** The configuration of a running server: the server's copy and the master's. *)
Definition configured (srv : server) (cfg : config) : Prop :=
  srv_config srv = PTo cfg ∧ srv_master_config srv = cfg ∧ 0 < read_buffer_size cfg ∧
  0 < write_buffer_size cfg.

Section handler.
Context (o : os) (w : net) (queue : ptr pq_ref) (srv : server) (cfg : config).
Hypothesis (Hcfg : configured srv cfg).

Lemma connection_read_ok c m e bytes :
  session c m → net_read w (read_buffer_size cfg) = Some bytes →
  zlen bytes <= read_buffer_size cfg → bytes ≠ [] → lookahead_safe bytes → fits m bytes →
  ∃ c2, scanned c2 (smtp_run (data_buffer_size cfg) 0 bytes m).1 ∧
    conn_fd c2 = conn_fd c ∧
    connection_read o w queue srv c e =
      (let '(m', err) := smtp_run (data_buffer_size cfg) 0 bytes m in
       if err : bool then Ok (conn_set_status CONN_ERROR c2, act (Warn warn_data) e)
       else
         r2 ← (if m_process m' then connection_process o queue c2 e else Ok (c2, e));
         let '(c3, e3) := r2 in Ok (conn_set_status CONN_WRITING c3, e3)).
Proof.
  intros ((req & Hreq & Hrep & Hbl & Hmax) & Hout & Hbuf & Hlen & Hst) Hread Hle Hne Hsafe [Hd Ho].
  destruct Hcfg as (Hc1 & Hc2 & Hr & Hw). pose proof (zlen_nonneg bytes).
  assert (0 < zlen bytes) as Hpos by (destruct bytes; [done|zlia]).
  unfold connection_read, connection_fill. rewrite Hlen, Hc1, Hc2. cbn [deref]. rewrite !bind_Ok.
  rewrite (decide_True (P := 0 = 0)) by done.
  rewrite decide_True by lia. rewrite Z.sub_0_r, Hread. cbn [deref conn_read_buffer conn_set_buffer].
  rewrite bind_Ok, bwrite_start by (rewrite zlen_malloc, zlen_bs; lia). rewrite !bind_Ok.
  rewrite Z.add_0_l. cbn [conn_buffer_len conn_set_buffer conn_status_of].
  rewrite bind_Ok, Hst. rewrite decide_True by done. unfold connection_commands.
  set (junk := drop _ _).
  match goal with |- context [request_parse_commands srv ?c1] => set (conn1 := c1) end.
  assert (conn_rep conn1 m bytes) as Hrep1.
  { split_and!; [by exists req | done | by exists junk | done]. }
  assert (conn_status_of conn1 ≠ CONN_ERROR) as Hst1 by (simpl; by rewrite Hst).
  destruct (wp_inv _ _ (parse_commands_wp srv cfg conn1 m bytes Hc1 Hrep1 Hst1 Hsafe Hd Ho))
    as ([[ret c2] warns] & -> & Hpost).
  rewrite bind_Ok. exists c2. destruct (smtp_run _ _ _ _) as [m' err].
  destruct Hpost as (Hrep2 & -> & Hst2 & -> & Hframe & Hfd).
  destruct (Hframe req Hreq) as (req' & Hreq' & Hh & _).
  assert (req_rep req' m') as Hrr.
  { destruct Hrep2 as ((req2 & Hreq2 & ?) & _). congruence. }
  split_and!; [|by rewrite Hfd|].
  { destruct Hrep2 as (_ & Hout2 & (junk2 & Hbuf2) & _).
    split_and!; [exists req'; by rewrite Hh | done | right; by eexists]. }
  destruct err; [by rewrite decide_False by done|].
  rewrite decide_True by done. rewrite Hreq'. cbn [deref]. rewrite bind_Ok.
  unfold acts. rewrite app_nil_r.
  destruct Hrr as (_ & _ & _ & ->). destruct e. by destruct (m_process m').
Qed.

Lemma connection_write_ok c m e req :
  conn_request c = PTo req → req_rep req m → out_rep (conn_response c) m →
  (conn_read_buffer c = PNull ∨ ∃ b, conn_read_buffer c = PTo b) →
  (∀ i b f, net_send w i b f ≠ None) →
  ∃ l, sends (write_buffer_size cfg) l (m_out m) ∧
    connection_write w srv c e =
      Ok (Connection (conn_fd c) (if m_in m then PTo req else PTo request_init)
            (PTo response_init) (if m_quit m then CONN_CLOSED else CONN_READING) PNull (Some 0),
          acts l e).
Proof.
  intros Hreq Hrr (r & Hr & Hout) Hbuf Hsend.
  destruct Hcfg as (_ & Hc2 & _ & Hw).
  destruct (connection_send_ok w (write_buffer_size cfg) r (m_out m) Hout Hw Hsend) as (l & Hl & Hs).
  exists l. split; [done|]. unfold connection_write. rewrite Hr, Hc2. cbn [deref].
  rewrite bind_Ok, Hl. cbn [fst snd]. rewrite bind_Ok, Hreq. cbn [deref]. rewrite bind_Ok.
  destruct Hrr as (_ & -> & -> & _).
  unfold request_free, response_free, free_unless_null.
  by destruct Hbuf as [-> | [b ->]], (m_in m).
Qed.

(** The end of a connection that holds live objects. *)
Lemma connection_close_ok fd c e req r b :
  conn_request c = PTo req → conn_response c = PTo r →
  conn_read_buffer c = PNull ∨ conn_read_buffer c = PTo b →
  conn_status_of c = CONN_ERROR ∨ conn_status_of c = CONN_CLOSED →
  connection_close fd c e =
    Ok (Connection (conn_fd c) PNull PNull CONN_INACTIVE PNull (Some 0), acts [DelEvent fd; Close fd] e).
Proof.
  intros Hreq Hr Hb Hst. unfold connection_close.
  destruct Hst as [-> | Hst].
  - simpl. unfold connection_reset. simpl. rewrite Hreq, Hr. by destruct Hb as [-> | ->].
  - rewrite Hst. simpl. rewrite Hst. simpl. unfold connection_reset. simpl. rewrite Hreq, Hr.
    by destruct Hb as [-> | ->].
Qed.
End handler.

(** ** The mail of a message *)

Lemma copy_headers_ok n from to :
  (n <= length from)%nat → (n <= length to)%nat →
  copy_headers n from to = Ok (take n from ++ drop n to).
Proof.
  revert from to. induction n as [|n IH]; intros [|h from] [|t to]; simpl; try lia; try done.
  intros. by rewrite IH by lia.
Qed.

(** The mail has the fields [fs], cut to the sizes of the arrays, and the body. *)
Definition mail_is (ml : mail) (fs : list field) (body : list byte) : Prop :=
  mail_header_count ml = zlen fs ∧
  (∀ j f, fs !! j = Some f → ∃ h, mail_headers ml !! j = Some h ∧
     cstring (hdr_key h) = Ok (fit true (f_name f)) ∧
     cstring (hdr_value h) = Ok (fit false (field_value f))) ∧
  cstring (mail_body ml) = Ok body.

Lemma stored_wf h f : stored h f → hdr_wf h.
Proof. by intros [(k & _ & Hk) (v & _ & Hv)]. Qed.

(** Data that [request_parse_data] parses as the fields and the body. *)
Definition message (fs : list field) (body : list byte) : list byte :=
  fields_bytes fs ++ crlf ++ body ++ NUL :: tail eod.

Definition message_ok (fs : list field) (body : list byte) : Prop :=
  fs ≠ [] ∧ Forall field_ok fs ∧ zlen fs <= HEADER_MAX_LEN ∧ nonul body ∧
  (∀ c, head body = Some c → c ∉ [TAB; SP]) ∧ zlen body + zlen eod < BODY_MAX_LEN.

Lemma message_body fs body :
  message_ok fs body → ∃ c text, body ++ NUL :: tail eod = c :: text ∧ c ∉ [TAB; SP].
Proof.
  intros (_ & _ & _ & _ & Hhead & _). destruct body as [|c body]; simpl; [|eauto].
  exists NUL, (tail eod). by split; [|by_compute].
Qed.

Lemma process_message req fs body :
  parse_ready req (message fs body) → message_ok fs body →
  ∃ req' ml, request_parse_data req = Ok req' ∧ req_header_count req' = Some (zlen fs) ∧
    make_mail req' (zlen fs) = Ok (ml, []) ∧ mail_is ml fs body ∧ mail_wf ml ∧
    parse_frame req req'.
Proof.
  intros Hready Hmsg. destruct (message_body fs body Hmsg) as (c & text & Hbt & Hc).
  destruct Hmsg as (Hne & Hok & Hn & Hnul & _ & Hsize).
  unfold message in Hready. rewrite Hbt in Hready.
  destruct (parse_data_ok req fs c text Hready Hne Hok Hn Hc)
    as (req' & hs' & E & Hhs & Hst & Hcount & Hbody & Hlen & Hframe).
  pose proof (Forall2_length _ _ _ Hst) as Hl.
  assert (zlen (c :: text) = zlen body + zlen eod) as Hbl by (rewrite <-Hbt, zlen_app; done).
  set (b := bs (c :: text) ++ [Some NUL]) in *.
  assert (zlen b = zlen (c :: text) + 1) as Hb by (subst b; by autorewrite with zlen).
  exists req', (Mail (hs' ++ drop (length fs) (replicate (Z.to_nat HEADER_MAX_LEN) hdr_malloc))
    (zlen fs) (b ++ drop (length b) (malloc BODY_MAX_LEN))).
  split_and!; [done | done | | | | done].
  - unfold make_mail. rewrite Hlen, Hbl, decide_True, Hbody by done. cbn [memcpy_opt].
    unfold memcpy. rewrite bread_all, bind_Ok by (rewrite Hb; lia).
    rewrite bwrite_start, !bind_Ok by (rewrite zlen_malloc; [unfold BODY_MAX_LEN in *; lia | done]).
    rewrite copy_headers_ok; [|rewrite Hhs, zlen_to_nat; zlia
      |rewrite zlen_to_nat, length_replicate; unfold HEADER_MAX_LEN in *; zlia].
    rewrite bind_Ok, zlen_to_nat, Hhs, take_app_length' by done. done.
  - split_and!; [done | | ].
    + intros j f Hj. destruct (Forall2_lookup_r _ _ _ _ _ Hst Hj) as (h & Hh & Hs).
      exists h. simpl. split; [by apply lookup_app_l_Some|].
      apply stored_strings; [|done]. eapply Forall_lookup_1; [exact Hok|exact Hj].
    + cbn [mail_body]. subst b. rewrite <-Hbt, bs_app, <-!app_assoc. by apply cstring_bs.
  - split_and!; cbn [mail_headers mail_header_count mail_body].
    + autorewrite with zlen. unfold zlen in *. rewrite length_drop, length_replicate.
      unfold HEADER_MAX_LEN in *. lia.
    + apply Forall_app. split.
      * clear -Hst. induction Hst; constructor; [by eapply stored_wf | done].
      * apply Forall_drop, Forall_replicate. split; by apply zlen_malloc.
    + unfold is_int, INT_MIN, INT_MAX, HEADER_MAX_LEN in *. pose proof (zlen_nonneg fs). lia.
    + rewrite zlen_app. unfold zlen in *. rewrite length_drop.
      pose proof (zlen_malloc BODY_MAX_LEN ltac:(done)) as Hm. unfold zlen, BODY_MAX_LEN in *. lia.
Qed.

(** ** Lemmas on whole events *)

(** Processing implies closing, at every point of a session. *)
Lemma smtp_run_process lim k l m :
  (m_process m = true → m_quit m = true) →
  m_process (smtp_run lim k l m).1 = true → m_quit (smtp_run lim k l m).1 = true.
Proof.
  revert k m. induction l as [|c l IH]; intros k m Hm; [done|]. cbn [smtp_run].
  destruct k as [|k]; [|by apply IH]. destruct (m_in m).
  - case_decide; [|done]. apply IH. unfold smtp_data. by case_decide.
  - apply IH. unfold smtp_command. repeat case_decide; done.
Qed.

(** The session that goes on after a reply. *)
Definition next_session (m : smtp) : smtp :=
  if m_in m then Smtp true (m_data m) [] false false else smtp_init.

Definition closed (c : connection) : Prop :=
  conn_status_of c = CONN_INACTIVE ∧ conn_request c = PNull ∧ conn_response c = PNull ∧
  conn_read_buffer c = PNull.

Lemma request_init_blank :
  Forall blank_hdr (req_headers request_init) ∧ zlen (req_headers request_init) = HEADER_MAX_LEN.
Proof. split; [by apply Forall_replicate | done]. Qed.

Section events.
Context (o : os) (w : net) (queue : ptr pq_ref) (srv : server) (cfg : config) (fd : Z).
Hypothesis (Hcfg : configured srv cfg) (Hsend : ∀ i b f, net_send w i b f ≠ None).

(** From the write state on. *)
Lemma handle_write c m e :
  scanned c m → (m_quit m = false → m_process m = false) →
  ∃ c' ls, (r3 ← connection_write w srv (conn_set_status CONN_WRITING c) e;
     let '(c3, e3) := r3 in connection_close fd c3 e3) =
    Ok (c', acts (ls ++ if m_quit m then [DelEvent fd; Close fd] else []) e) ∧
    sends (write_buffer_size cfg) ls (m_out m) ∧
    if m_quit m then closed c' else session c' (next_session m).
Proof.
  intros ((req & Hreq & Hrr & Hbl & Hmax) & Hout & Hbuf) Hq.
  destruct (connection_write_ok w srv cfg Hcfg (conn_set_status CONN_WRITING c) m e req
    Hreq Hrr Hout Hbuf Hsend) as (ls & Hs & ->). rewrite bind_Ok.
  destruct (m_quit m) eqn:Equit.
  - rewrite (connection_close_ok _ _ _ (if m_in m then req else request_init) response_init []);
      [|by destruct (m_in m) | done | by left | by right].
    eexists _, ls. split; [unfold acts; simpl; by rewrite app_assoc|].
    split; [exact Hs | by split_and!].
  - eexists _, ls. rewrite app_nil_r. unfold connection_close. simpl.
    split_and!; [done | exact Hs |]. specialize (Hq eq_refl).
    unfold next_session. destruct (m_in m) eqn:Ein.
    + split_and!; try done; [|by exists response_init].
      exists req. split_and!; try done. destruct Hrr as (Hd & Hi & Hquit & Hp).
      split_and!; simpl; congruence || done.
    + split_and!; try done; [|by exists response_init].
      exists request_init. split_and!; try done; apply request_init_blank.
Qed.

Lemma handle_reading c m e bytes :
  session c m → m_process m = false →
  net_read w (read_buffer_size cfg) = Some bytes → zlen bytes <= read_buffer_size cfg →
  bytes ≠ [] → lookahead_safe bytes → fits m bytes →
  ∃ c2, scanned c2 (smtp_run (data_buffer_size cfg) 0 bytes m).1 ∧
    connection_handle o w queue srv fd c e =
      (let '(m', err) := smtp_run (data_buffer_size cfg) 0 bytes m in
       if err : bool then connection_close fd (conn_set_status CONN_ERROR c2) (act (Warn warn_data) e)
       else
         r2 ← (if m_process m' then connection_process o queue c2 e else Ok (c2, e));
         let '(c3, e3) := r2 in
         r3 ← connection_write w srv (conn_set_status CONN_WRITING c3) e3;
         let '(c4, e4) := r3 in connection_close fd c4 e4).
Proof.
  intros Hs Hp Hread Hle Hne Hsafe Hfits.
  destruct (connection_read_ok o w queue srv cfg Hcfg c m e bytes Hs Hread Hle Hne Hsafe Hfits)
    as (c2 & Hsc & Hfd & Heq).
  destruct Hs as (_ & _ & _ & _ & Hst). exists c2. split; [done|].
  unfold connection_handle. rewrite Hst. rewrite decide_False, bind_Ok by done.
  rewrite Hst, decide_True by done. rewrite Heq. destruct (smtp_run _ _ _ _) as [m' err].
  destruct err; [done|].
  destruct (if m_process m' then _ else _) as [[c3 e3]|f]; [|done]. done.
Qed.
End events.

(** ** The status after an event *)

(** Actions that do not end a connection. *)
Definition quiet (l : list action) : Prop :=
  Forall (λ a, match a with DelEvent _ | Close _ => False | _ => True end) l.

Lemma quiet_app l k : quiet l → quiet k → quiet (l ++ k).
Proof. intros. by apply Forall_app. Qed.

Lemma connection_send_quiet w limit r b l : connection_send w limit r = Ok (b, l) → quiet l.
Proof.
  unfold connection_send. case_decide.
  - intros (m & _ & (bytes & _ & [= _ <-])%bind_Ok_inv)%bind_Ok_inv. by constructor.
  - intros (d & _ & (s & Hs & [= _ <-])%bind_Ok_inv)%bind_Ok_inv.
    eapply (cloop_Ok_inv _ (λ s, quiet (sd_log s)) (λ s, quiet (sd_log s))); [| |exact Hs]; [|by constructor].
    intros s0 c Hq. unfold send_step. case_decide; [|by intros [= <-]].
    intros (m & _ & (bytes & _ & Hc)%bind_Ok_inv)%bind_Ok_inv.
    assert (quiet (sd_log s0 ++ [Send bytes
      (bool_decide (limit <= resp_data_len r - sd_sent s0))])) as Hlog by (apply quiet_app; [done | by constructor]).
    destruct (net_send w _ _ _); injection Hc as <-; exact Hlog.
Qed.

(** [e'] adds quiet actions to [e]. *)
Definition quietly (e e' : env) : Prop := ∃ l, env_log e' = env_log e ++ l ∧ quiet l.

Lemma quietly_refl e : quietly e e.
Proof. exists []. split; [by rewrite app_nil_r | by constructor]. Qed.
Lemma quietly_acts e l : quiet l → quietly e (acts l e).
Proof. by exists l. Qed.
Lemma quietly_trans e e' e'' : quietly e e' → quietly e' e'' → quietly e e''.
Proof.
  intros (l & H & Hl) (l' & H' & Hl'). exists (l ++ l').
  split; [by rewrite H', H, <-app_assoc | by apply quiet_app].
Qed.

Lemma make_mail_quiet req n ml l : make_mail req n = Ok (ml, l) → quiet l.
Proof.
  unfold make_mail. intros ([b w] & Hb & (hs & _ & [= _ <-])%bind_Ok_inv)%bind_Ok_inv. simpl.
  case_decide; apply bind_Ok_inv in Hb as (? & _ & [= _ <-]); repeat constructor.
Qed.

Lemma connection_process_quiet o queue c e c' e' :
  connection_process o queue c e = Ok (c', e') → quietly e e'.
Proof.
  unfold connection_process. intros (req & _ & (req' & _ & H)%bind_Ok_inv)%bind_Ok_inv.
  destruct (req_header_count req') as [n|]; [|done]. case_decide.
  - apply bind_Ok_inv in H as ([ml l] & Hml & ([code s'] & _ & [= _ <-])%bind_Ok_inv).
    exists (l ++ [if decide (code = PQ_MESSAGE_SIZE_REACHED_ERROR) then QueueFull else Queued]).
    split; [done|]. apply quiet_app; [by eapply make_mail_quiet|].
    case_decide; by constructor.
  - injection H as _ <-. apply quietly_acts. by constructor.
Qed.

Lemma connection_read_status o w queue srv c e c' e' :
  conn_status_of c = CONN_READING → connection_read o w queue srv c e = Ok (c', e') →
  quietly e e' ∧ conn_status_of c' ∈ [CONN_READING; CONN_ERROR; CONN_WRITING].
Proof.
  intros Hst. unfold connection_read.
  intros ([c1 e1] & (len & _ & (cfg & _ & Hr)%bind_Ok_inv)%bind_Ok_inv & (len1 & _ & H)%bind_Ok_inv)%bind_Ok_inv.
  assert (quietly e e1 ∧ conn_status_of c1 ∈ [CONN_READING; CONN_ERROR; CONN_WRITING]) as [Hq1 Hs1].
  { set (c0 := if decide (len = 0) then _ else c) in Hr.
    assert (conn_status_of c0 = CONN_READING) as Hst0 by (subst c0; destruct (decide (len = 0)); exact Hst).
    clearbody c0. destruct (decide (0 < read_buffer_size cfg - len)).
    - destruct (net_read w _) as [bytes|].
      + apply bind_Ok_inv in Hr as (b & _ & (b' & _ & [= <- <-])%bind_Ok_inv).
        split; [apply quietly_refl|]. simpl. rewrite Hst0. in_list.
      + injection Hr as <- <-. split; [apply quietly_refl|]. simpl. in_list.
    - injection Hr as <- <-. split; [|simpl; in_list]. apply quietly_acts. by constructor. }
  destruct (decide (0 < len1 ∧ _)); [|by injection H as <- <-].
  apply bind_Ok_inv in H as ([[code c2] warns] & _ & H).
  assert (quietly e (acts (Warn <$> warns) e1)) as Hq2.
  { eapply quietly_trans; [exact Hq1|]. apply quietly_acts. by apply Forall_fmap, Forall_true. }
  case_decide.
  - apply bind_Ok_inv in H as (req & _ & ([c3 e3] & Hp & [= <- <-])%bind_Ok_inv).
    split; [|simpl; in_list]. eapply quietly_trans; [exact Hq2|].
    destruct (req_process req); [by eapply connection_process_quiet|].
    injection Hp as <- <-. apply quietly_refl.
  - injection H as <- <-. split; [done|]. simpl. in_list.
Qed.

Lemma connection_write_status w srv c e c' e' :
  connection_write w srv c e = Ok (c', e') →
  quietly e e' ∧ conn_status_of c' ∈ [CONN_READING; CONN_ERROR; CONN_CLOSED].
Proof.
  unfold connection_write. intros (r & _ & ([b l] & Hl & H)%bind_Ok_inv)%bind_Ok_inv.
  apply connection_send_quiet in Hl. destruct b.
  - injection H as <- <-. split; [by apply quietly_acts | simpl; in_list].
  - apply bind_Ok_inv in H as (req & _ & (p & _ & (x & _ & (b & _ & [= <- <-])
      %bind_Ok_inv)%bind_Ok_inv)%bind_Ok_inv).
    split; [by apply quietly_acts|]. simpl. destruct (req_quit req); in_list.
Qed.

Lemma free_unless_null_null {A} (f : ptr A → res (ptr A)) p p' :
  free_unless_null f p = Ok p' → p' = PNull.
Proof.
  unfold free_unless_null. destruct p; simpl; try done; [by intros [= <-]|].
  by intros (? & _ & [= <-])%bind_Ok_inv.
Qed.

Lemma connection_reset_closed c c' : connection_reset c = Ok c' → closed c'.
Proof.
  unfold connection_reset.
  intros (b & ->%free_unless_null_null & (q & ->%free_unless_null_null &
    (r & ->%free_unless_null_null & [= <-])%bind_Ok_inv)%bind_Ok_inv)%bind_Ok_inv.
  by split_and!.
Qed.

Lemma connection_close_status fd c e c' e' :
  conn_status_of c ∈ [CONN_READING; CONN_ERROR; CONN_CLOSED] →
  connection_close fd c e = Ok (c', e') →
  (c' = c ∧ e' = e ∧ conn_status_of c = CONN_READING) ∨
  (closed c' ∧ e' = acts [DelEvent fd; Close fd] e).
Proof.
  intros Hst. unfold connection_close.
  rewrite !elem_of_cons in Hst. destruct Hst as [Hst|[Hst|[Hst|[]%elem_of_nil]]];
    rewrite Hst; simpl; rewrite ?Hst; simpl; rewrite ?Hst; simpl.
  - intros [= <- <-]. by left.
  - intros (c1 & Hc%connection_reset_closed & [= <- <-])%bind_Ok_inv. by right.
  - intros (c1 & Hc%connection_reset_closed & [= <- <-])%bind_Ok_inv. by right.
Qed.

(** ** Properties *)

(** A round without a message. *)
Lemma handle_talk o w queue srv cfg fd c m e bytes :
  configured srv cfg → (∀ i b f, net_send w i b f ≠ None) →
  session c m → m_process m = false →
  net_read w (read_buffer_size cfg) = Some bytes → zlen bytes <= read_buffer_size cfg →
  bytes ≠ [] → lookahead_safe bytes → fits m bytes →
  m_process (smtp_run (data_buffer_size cfg) 0 bytes m).1 = false →
  ∃ c' l, connection_handle o w queue srv fd c e = Ok (c', acts l e) ∧
    let '(m', err) := smtp_run (data_buffer_size cfg) 0 bytes m in
    if err : bool then l = [Warn warn_data; DelEvent fd; Close fd] ∧ closed c'
    else ∃ ls, sends (write_buffer_size cfg) ls (m_out m') ∧
      l = ls ++ (if m_quit m' then [DelEvent fd; Close fd] else []) ∧
      if m_quit m' then closed c' else session c' (next_session m').
Proof.
  intros Hcfg Hsend Hs Hp Hread Hle Hne Hsafe Hfits Hp'.
  destruct (handle_reading o w queue srv cfg fd Hcfg c m e bytes Hs Hp Hread Hle Hne Hsafe Hfits)
    as (c2 & Hsc & ->).
  destruct (smtp_run _ _ _ _) as [m' err]. simpl in Hsc, Hp'. rewrite Hp'. destruct err.
  - destruct Hsc as ((req & Hreq & _) & (r & Hr & _) & Hb).
    rewrite (connection_close_ok fd (conn_set_status CONN_ERROR c2) _ req r
      (match conn_read_buffer c2 with PTo b => b | _ => [] end));
      [|exact Hreq | exact Hr | destruct Hb as [Hb|[b Hb]]; simpl; rewrite Hb; auto | by left].
    eexists _, [Warn warn_data; DelEvent fd; Close fd].
    split; [unfold acts, act; simpl; by rewrite <-app_assoc|]. by split_and!.
  - destruct (handle_write w srv cfg fd Hcfg Hsend c2 m' e Hsc ltac:(done))
      as (c' & ls & Heq & Hls & Hc'). rewrite bind_Ok, Heq. do 2 eexists. split; [done|].
    exists ls. by split_and!.
Qed.

(** C16: A round of conversation: on a read that cuts no keyword and completes
    no message, the handler faults nowhere and does what the abstract session
    does: it sends the session's replies, whole and in order, in pieces within
    the write buffer; it closes the connection after QUIT and otherwise leaves
    it ready for the next round of the session; when the data grow too large
    it warns and closes without a reply. *)
Theorem connection_handle_conversation o w queue srv cfg fd c m e bytes :
  configured srv cfg → (∀ i b f, net_send w i b f ≠ None) →
  session c m → m_process m = false →
  net_read w (read_buffer_size cfg) = Some bytes → zlen bytes <= read_buffer_size cfg →
  bytes ≠ [] → lookahead_safe bytes → fits m bytes →
  m_process (smtp_run (data_buffer_size cfg) 0 bytes m).1 = false →
  ∃ c' l, connection_handle o w queue srv fd c e = Ok (c', acts l e) ∧
    let '(m', err) := smtp_run (data_buffer_size cfg) 0 bytes m in
    if err : bool then l = [Warn warn_data; DelEvent fd; Close fd] ∧ closed c'
    else ∃ ls, sends (write_buffer_size cfg) ls (m_out m') ∧
      l = ls ++ (if m_quit m' then [DelEvent fd; Close fd] else []) ∧
      if m_quit m' then closed c' else session c' (next_session m').
Proof. apply handle_talk. Qed.

(** A round that completes a message. *)
Lemma handle_delivers o w r n srv cfg fd c m m' e q bytes fs body :
  configured srv cfg → (∀ i b f, net_send w i b f ≠ None) → covers r n →
  Queue.holds n q (env_sys e) → session c m → m_process m = false →
  net_read w (read_buffer_size cfg) = Some bytes → zlen bytes <= read_buffer_size cfg →
  bytes ≠ [] → lookahead_safe bytes → fits m bytes →
  smtp_run (data_buffer_size cfg) 0 bytes m = (m', false) → m_process m' = true →
  m_data m' = message fs body → message_ok fs body →
  ∃ ml c' ls s', mail_is ml fs body ∧
    connection_handle o w (PTo r) srv fd c e =
      Ok (c', Env s' (env_log e ++ [if decide (zlen q < n) then Queued else QueueFull] ++
                      ls ++ [DelEvent fd; Close fd])) ∧
    sends (write_buffer_size cfg) ls (m_out m') ∧ closed c' ∧
    Queue.holds n (snd (fifo_step n (Enqueue ml) q)) s'.
Proof.
  intros Hcfg Hsend Hcov Hq Hs Hp Hread Hle Hne Hsafe Hfits Hrun Hp' Hdata Hmsg.
  pose proof (smtp_run_process (data_buffer_size cfg) 0 bytes m ltac:(by rewrite Hp)) as Hquit.
  destruct (handle_reading o w (PTo r) srv cfg fd Hcfg c m e bytes Hs Hp Hread Hle Hne Hsafe Hfits)
    as (c2 & Hsc & ->).
  rewrite Hrun in Hsc, Hquit |- *. simpl in Hsc, Hquit. rewrite Hp'. specialize (Hquit Hp').
  destruct Hsc as ((req & Hreq & Hrr & Hbl & Hmax) & Hout & Hbuf).
  assert (parse_ready req (message fs body)) as Hready.
  { split_and!; [|done..]. rewrite <-Hdata. apply Hrr. }
  destruct (process_message req fs body Hready Hmsg)
    as (req' & ml & Hparse & Hcount & Hmake & Hml & Hwf & Hframe).
  destruct (pq_enqueue_refines o r n Hcov ml q (env_sys e) Hq Hwf) as (s' & Henq & Hs').
  assert (0 < zlen fs) as Hpos by (destruct Hmsg as [Hfs _]; destruct fs; [done|zlia]).
  unfold connection_process. rewrite Hreq. cbn [deref]. rewrite bind_Ok, Hparse, bind_Ok, Hcount.
  rewrite decide_True, Hmake, bind_Ok by done. cbn [fst snd]. rewrite Henq, !bind_Ok.
  set (c3 := conn_set_request (PTo req') c2). set (e3 := Env s' _).
  (* the rest only needs the flags of the request *)
  destruct Hframe as (Fi & Fd & Fa & Fl & Fq & Fp). destruct Hrr as (Hd & Hi & Hqt & Hpr).
  assert (req_rep req' m') as Hrr'.
  { split_and!; [|congruence..]. unfold data_rep in *. rewrite Fl, Fd, Fa. done. }
  destruct (connection_write_ok w srv cfg Hcfg (conn_set_status CONN_WRITING c3) m' e3 req'
    eq_refl Hrr' Hout Hbuf Hsend) as (ls & Hls & ->).
  rewrite bind_Ok, Hquit.
  rewrite (connection_close_ok _ _ _ (if m_in m' then req' else request_init) response_init []);
    [|by destruct (m_in m') | done | by left | by right].
  exists ml. eexists _, ls, s'. split; [done|]. split.
  - do 2 f_equal. unfold acts, e3. cbn [env_sys env_log]. f_equal. rewrite <-!app_assoc. simpl.
    do 2 f_equal. by destruct (decide (zlen q < n)).
  - split; [exact Hls|]. split; [by split_and! | exact Hs'].
Qed.

(** C5: From the client's bytes to the queue: when a read completes a message of
    well-formed fields and a body that fits, the handler appends to the queue
    one [mail] with exactly these fields and this body (unless the queue is
    full, when the message is dropped), sends the replies, the 250 of the end of
    data among them in both cases, and closes the connection. *)
Theorem connection_handle_delivers o w r n srv cfg fd c m m' e q bytes fs body :
  configured srv cfg → (∀ i b f, net_send w i b f ≠ None) → covers r n →
  Queue.holds n q (env_sys e) → session c m → m_process m = false →
  net_read w (read_buffer_size cfg) = Some bytes → zlen bytes <= read_buffer_size cfg →
  bytes ≠ [] → lookahead_safe bytes → fits m bytes →
  smtp_run (data_buffer_size cfg) 0 bytes m = (m', false) → m_process m' = true →
  m_data m' = message fs body → message_ok fs body →
  ∃ ml c' ls s', mail_is ml fs body ∧
    connection_handle o w (PTo r) srv fd c e =
      Ok (c', Env s' (env_log e ++ [if decide (zlen q < n) then Queued else QueueFull] ++
                      ls ++ [DelEvent fd; Close fd])) ∧
    sends (write_buffer_size cfg) ls (m_out m') ∧ closed c' ∧
    Queue.holds n (snd (fifo_step n (Enqueue ml) q)) s'.
Proof. apply handle_delivers. Qed.

(** C18: The status machine settles: whatever the client sent and the calls
    returned, a handler that is called on a started, a reading or a closed
    connection and returns leaves it reading, with the end of the connection
    not announced, or inactive, with every pointer null and the descriptor
    removed from the events and closed, once, as its last actions. *)
Theorem connection_handle_settles o w queue srv fd c e c' e' :
  conn_status_of c ∈ [CONN_STARTED; CONN_READING; CONN_CLOSED] →
  connection_handle o w queue srv fd c e = Ok (c', e') →
  ∃ l, quiet l ∧
    ((conn_status_of c' = CONN_READING ∧ env_log e' = env_log e ++ l) ∨
     (closed c' ∧ env_log e' = env_log e ++ l ++ [DelEvent fd; Close fd])).
Proof.
  intros Hst. unfold connection_handle.
  intros (c1 & H1 & ([c2 e2] & H2 & ([c3 e3] & H3 & H)%bind_Ok_inv)%bind_Ok_inv)%bind_Ok_inv.
  assert (conn_status_of c1 ∈ [CONN_READING; CONN_WRITING; CONN_CLOSED]) as Hs1.
  { destruct (decide (conn_status_of c = CONN_STARTED)) as [Hs|Hs].
    - apply bind_Ok_inv in H1 as (cfg & _ & H1). unfold connection_welcome in H1.
      repeat (apply bind_Ok_inv in H1 as (? & _ & H1)). injection H1 as <-. simpl. in_list.
    - injection H1 as <-. in_list. }
  assert (quietly e e2 ∧ conn_status_of c2 ∈ [CONN_READING; CONN_ERROR; CONN_WRITING; CONN_CLOSED])
    as [Hq2 Hs2].
  { destruct (decide (conn_status_of c1 = CONN_READING)) as [Hs|Hs].
    - destruct (connection_read_status _ _ _ _ _ _ _ _ Hs H2). split; [done | in_list].
    - injection H2 as <- <-. split; [apply quietly_refl | in_list]. }
  assert (quietly e e3 ∧ conn_status_of c3 ∈ [CONN_READING; CONN_ERROR; CONN_CLOSED]) as [Hq3 Hs3].
  { destruct (decide (conn_status_of c2 = CONN_WRITING)) as [Hs|Hs].
    - destruct (connection_write_status _ _ _ _ _ _ H3). split; [by eapply quietly_trans | done].
    - injection H3 as <- <-. split; [done | in_list]. }
  destruct Hq3 as (l & Hl & Hq). exists l. split; [done|].
  destruct (connection_close_status _ _ _ _ _ Hs3 H) as [(-> & -> & ?)|[? ->]]; [by left|right].
  split; [done|]. simpl. by rewrite Hl, <-app_assoc.
Qed.

(** Short writes are lost: what a handler sends, and everything it does
    afterwards, does not depend on how many bytes [send] accepted; bytes that
    the kernel did not take are not sent again. *)
Theorem connection_send_ignores_short_writes w w' limit r :
  (∀ i b f, net_send w i b f = None ↔ net_send w' i b f = None) →
  connection_send w limit r = connection_send w' limit r.
Proof.
  intros Heq. unfold connection_send. case_decide.
  - destruct (match resp_data r with Some _ => _ | None => _ end) as [m|]; [|done]. simpl.
    destruct (buf_bytes m) as [bytes|]; [|done]. simpl. do 2 f_equal.
    apply bool_decide_ext, Heq.
  - destruct (match resp_data r with Some _ => _ | None => _ end) as [d|]; [|done].
    rewrite !bind_Ok. erewrite cloop_ext; [done|]. intros s. unfold send_step. case_decide; [|done].
    destruct (bread _ _ _) as [m|]; [|done]. rewrite !bind_Ok.
    destruct (buf_bytes m) as [bytes|]; [|done]. rewrite !bind_Ok.
    match goal with |- context [net_send w ?i ?b ?f] => specialize (Heq i b f) end.
    destruct (net_send w _ _ _), (net_send w' _ _ _); [done | | | done];
      exfalso; intuition congruence.
Qed.

Lemma append_to_ok r s0 t :
  resp_rep r s0 → nonul t → zlen (s0 ++ t) + 512 <= INT_MAX →
  ∃ r', append_to (PTo r) (cstr t) = Ok (PTo r') ∧ resp_rep r' (s0 ++ t).
Proof.
  intros Hr Ht Hl. unfold append_to. cbn [deref]. rewrite bind_Ok.
  destruct (wp_inv _ _ (response_append_rep r s0 t Hr Ht ltac:(by rewrite <-zlen_app)))
    as (r' & -> & ?). by exists r'.
Qed.

Lemma connection_welcome_ok cfg c h s :
  hostname cfg = cstr h → server_name cfg = cstr s → nonul h → nonul s →
  zlen (lit "220 " ++ h ++ lit " SMTP " ++ s ++ crlf) + 512 <= INT_MAX →
  ∃ r, connection_welcome cfg (connection_start c) =
      Ok (conn_set_status CONN_WRITING (conn_set_response (PTo r) (connection_start c))) ∧
    resp_rep r (lit "220 " ++ h ++ lit " SMTP " ++ s ++ crlf).
Proof.
  intros Hh Hs Hnh Hns Hmax. rewrite !zlen_app in Hmax.
  pose proof (zlen_nonneg h). pose proof (zlen_nonneg s). pose proof (zlen_nonneg crlf).
  pose proof (zlen_nonneg (lit " SMTP ")).
  destruct (append_to_ok response_init [] (lit "220 ") response_init_rep) as (r1 & E1 & R1);
    [by_compute | by_compute |].
  destruct (append_to_ok r1 _ h R1 Hnh) as (r2 & E2 & R2); [autorewrite with zlen; lia|].
  destruct (append_to_ok r2 _ (lit " SMTP ") R2) as (r3 & E3 & R3);
    [by_compute | autorewrite with zlen; lia|].
  destruct (append_to_ok r3 _ s R3 Hns) as (r4 & E4 & R4); [autorewrite with zlen; lia|].
  destruct (append_to_ok r4 _ crlf R4) as (r5 & E5 & R5); [by_compute | autorewrite with zlen; lia|].
  exists r5. split; [|by rewrite <-!app_assoc in R5].
  unfold connection_welcome. cbn [conn_response connection_start]. rewrite Hh, Hs.
  by rewrite E1, bind_Ok, E2, bind_Ok, E3, bind_Ok, E4, bind_Ok, E5.
Qed.

(** The first call, on a started connection. *)
Lemma handle_welcome o w queue srv cfg fd c e h s :
  configured srv cfg → (∀ i b f, net_send w i b f ≠ None) →
  hostname cfg = cstr h → server_name cfg = cstr s → nonul h → nonul s →
  zlen (lit "220 " ++ h ++ lit " SMTP " ++ s ++ crlf) + 512 <= INT_MAX →
  ∃ c' ls, connection_handle o w queue srv fd (connection_start c) e = Ok (c', acts ls e) ∧
    sends (write_buffer_size cfg) ls (lit "220 " ++ h ++ lit " SMTP " ++ s ++ crlf) ∧
    session c' smtp_init.
Proof.
  intros Hcfg Hsend Hh Hs Hnh Hns Hmax.
  destruct (connection_welcome_ok cfg c h s Hh Hs Hnh Hns Hmax) as (r & Hw & Hr).
  set (out := lit "220 " ++ h ++ lit " SMTP " ++ s ++ crlf) in *.
  set (cw := conn_set_response (PTo r) (connection_start c)) in *.
  assert (scanned cw (Smtp false [] out false false)) as Hsc.
  { split_and!; [|by exists r | by left]. exists request_init.
    split_and!; try done; apply request_init_blank. }
  destruct (handle_write w srv cfg fd Hcfg Hsend cw _ e Hsc ltac:(done)) as (c' & ls & Heq & Hls & Hc').
  simpl in Heq, Hls, Hc'. rewrite app_nil_r in Heq. exists c', ls. split_and!; [|done..].
  destruct Hcfg as (Hcf & _). unfold connection_handle. rewrite decide_True by done.
  rewrite Hcf. cbn [deref]. rewrite bind_Ok, Hw, bind_Ok.
  rewrite decide_False, bind_Ok by done. by rewrite decide_True by done.
Qed.

(** ** The peer *)

Section peer_ok.
Context (getpeername : Z → option (Z * list byte)) (inet_ntop : Z → list byte → list byte).
Hypothesis (Hntop : ∀ af addr, nonul (inet_ntop af addr) ∧ zlen (inet_ntop af addr) < INET6_ADDRSTRLEN).

(** The address as text, in a buffer of its own. *)
Lemma connection_get_ip_ok conn family addr :
  getpeername (conn_fd conn) = Some (family, addr) →
  ∃ b, connection_get_ip getpeername inet_ntop conn = Ok (Some b) ∧
    cstring b = Ok (inet_ntop (if decide (family = AF_INET) then AF_INET else AF_INET6) addr).
Proof.
  intros Hp. unfold connection_get_ip. rewrite Hp. set (text := inet_ntop _ _).
  destruct (Hntop (if decide (family = AF_INET) then AF_INET else AF_INET6) addr) as [Hn Hl]. fold text in Hn, Hl.
  rewrite decide_True, bwrite_start, bind_Ok by (done || (unfold INET6_ADDRSTRLEN in *; zlia)).
  eexists. split; [done|]. unfold cstr. rewrite <-app_assoc. by apply cstring_bs.
Qed.

(** The number is an IPv4 address in network order; 0 stands for an error, for
    IPv6 and for 0.0.0.0. *)
Lemma connection_get_iplong_range conn : 0 <= connection_get_iplong getpeername conn < 2 ^ 32.
Proof.
  unfold connection_get_iplong. destruct (getpeername _) as [[family addr]|]; [|lia]. case_decide; [|lia].
  pose proof (le_value_range (take 4 addr)) as Hv. split; [apply Hv|].
  eapply Z.lt_le_trans; [apply Hv|]. change (2 ^ 32) with (256 ^ 4). apply Z.pow_le_mono_r; [lia|].
  unfold zlen. rewrite length_take. lia.
Qed.
End peer_ok.

(** ** Witnesses *)

(** A client whose next read delivers [bytes], and a network that takes [k]
    bytes of each [send] at most. *)
Definition ex_net (bytes : list byte) (k : Z) : net :=
  Net (λ _, Some bytes) (λ _ b _, Some (Z.min k (zlen b))).
Definition ex_server : server := Server (PTo config_init) config_init.
Definition ex_waiting : connection :=
  Connection 5 (PTo request_init) (PTo response_init) CONN_READING PNull (Some 0).
Definition ex_env : env := Env ex_queue [].

Lemma ex_configured : configured ex_server config_init.
Proof. by split_and!. Qed.

Lemma ex_waiting_session : session ex_waiting smtp_init.
Proof.
  split_and!; try done; [|by exists response_init].
  exists request_init. split_and!; try done; apply request_init_blank.
Qed.

Definition ex_hello : list byte := lit "EHLO a" ++ crlf ++ lit "QUIT" ++ crlf.

Lemma connection_handle_conversation_witness :
  ∃ c' l ls, connection_handle ex_os (ex_net ex_hello 1000) (PTo ex_ref) ex_server 5 ex_waiting ex_env =
      Ok (c', acts l ex_env) ∧
    sends 131072 ls (re_ehlo ++ re_quit) ∧ l = ls ++ [DelEvent 5; Close 5] ∧ closed c'.
Proof.
  destruct (connection_handle_conversation ex_os (ex_net ex_hello 1000) (PTo ex_ref) ex_server
    config_init 5 ex_waiting smtp_init ex_env ex_hello) as (c' & l & H & H');
    [exact ex_configured | done | exact ex_waiting_session | done | done | by_compute | done
    | by_compute | split; by_compute | reflexivity |].
  assert (smtp_run (data_buffer_size config_init) 0 ex_hello smtp_init =
    (Smtp false [] (re_ehlo ++ re_quit) true false, false)) as Hrun by (vm_compute; reflexivity).
  rewrite Hrun in H'. destruct H' as (ls & Hs & Hl & Hc). exists c', l, ls. by split_and!.
Defined.

Definition ex_fields : list field := [ex_field; Field (lit "From") SP (lit "x@y") []].
Definition ex_upload : list byte :=
  lit "EHLO a" ++ crlf ++ lit "MAIL FROM:<x@y>" ++ crlf ++ lit "RCPT TO:<d@z>" ++ crlf ++ kw_data ++
  fields_bytes ex_fields ++ crlf ++ lit "report" ++ eod.

Lemma connection_handle_delivers_witness :
  ∃ ml c' ls s', mail_is ml ex_fields (lit "report") ∧
    connection_handle ex_os (ex_net ex_upload 1000) (PTo ex_ref) ex_server 5 ex_waiting ex_env =
      Ok (c', Env s' ([Queued] ++ ls ++ [DelEvent 5; Close 5])) ∧
    sends 131072 ls (re_ehlo ++ re_ok ++ re_ok ++ re_data ++ re_queued) ∧
    Queue.holds 2 [ml] s'.
Proof.
  assert (smtp_run (data_buffer_size config_init) 0 ex_upload smtp_init =
    (Smtp false (message ex_fields (lit "report")) (re_ehlo ++ re_ok ++ re_ok ++ re_data ++ re_queued)
       true true, false)) as Hrun by (vm_compute; reflexivity).
  destruct (connection_handle_delivers ex_os (ex_net ex_upload 1000) ex_ref 2 ex_server config_init
    5 ex_waiting smtp_init _ ex_env [] ex_upload ex_fields (lit "report")
    ex_configured ltac:(done) ex_covers ex_queue_holds ex_waiting_session eq_refl eq_refl
    ltac:(by_compute) ltac:(done) ltac:(by_compute) ltac:(split; by_compute) Hrun eq_refl eq_refl)
    as (ml & c' & ls & s' & Hml & Hh & Hls & Hc & Hq).
  { split_and!; [done | by_compute | by_compute | by_compute | intros c [= <-]; by_compute | by_compute]. }
  exists ml, c', ls, s'. split_and!; [exact Hml | exact Hh | exact Hls | exact Hq].
Defined.

Lemma connection_handle_settles_witness :
  ∃ c' e' l, connection_handle ex_os (ex_net ex_hello 1000) (PTo ex_ref) ex_server 5 ex_waiting ex_env =
      Ok (c', e') ∧ quiet l ∧
    ((conn_status_of c' = CONN_READING ∧ env_log e' = [] ++ l) ∨
     (closed c' ∧ env_log e' = [] ++ l ++ [DelEvent 5; Close 5])).
Proof.
  assert (match connection_handle ex_os (ex_net ex_hello 1000) (PTo ex_ref) ex_server 5 ex_waiting
    ex_env with Ok _ => true | Err _ => false end = true) as H by (vm_compute; reflexivity).
  destruct (connection_handle ex_os (ex_net ex_hello 1000) (PTo ex_ref) ex_server 5 ex_waiting ex_env)
    as [[c' e']|f] eqn:E; [clear H | discriminate H].
  destruct (connection_handle_settles ex_os (ex_net ex_hello 1000) (PTo ex_ref) ex_server 5 ex_waiting
    ex_env c' e') as (l & Hq & H); [by_compute | exact E |].
  exists c', e', l. split; [reflexivity|]. split; [exact Hq | exact H].
Defined.

Lemma connection_send_ignores_short_writes_witness :
  ∃ r, connection_send (ex_net [] 0) 4 r = connection_send (ex_net [] 1000) 4 r ∧
    connection_send (ex_net [] 0) 4 r = Ok (false, [Send (lit "250 ") true; Send (lit "Ok") false]).
Proof.
  exists (Response 7 6 (Some (cstr (lit "250 Ok")))). split; [|vm_compute; reflexivity].
  apply connection_send_ignores_short_writes. intros i b f. split; discriminate.
Defined.

