(* ===== verification/ConnectionEnds.v ===== *)
(** ConnectionEnds: the handler of a connection ends on every input, and keeps
    its memory well-typed. *)
From S2P Require Import Prelude Base Config Response Layout Ends Socket Queue QueueSys Request RequestData Connection.

(** ** Response *)

(** The recorded capacity is the size of the object, and the text with its
    terminator fits in it. *)
Definition response_typed (r : response) : Prop :=
  match resp_data r with
  | None => resp_data_alloc r = 0 ∧ resp_data_len r = 0
  | Some d => zlen d = resp_data_alloc r ∧ 0 <= resp_data_len r < resp_data_alloc r
  end.

Lemma response_append_ends r data :
  ends (response_append r data) (λ r', zlen data <= INT_MAX → response_typed r → response_typed r').
Proof.
  unfold response_append. ends_auto; intros Hsmall Hr.
  all: rewrite to_int_small in * by (unfold INT_MIN; lia).
  all: unfold response_typed in *; cbn [resp_data resp_data_len resp_data_alloc] in *; simplify_eq.
  - assert (0 <= resp_data_len r) by (destruct (resp_data r); lia).
    rewrite zlen_malloc in * by lia. lia.
  - rewrite Heqo in Hr. lia.
Qed.
#[export] Hint Resolve response_append_ends : ends.

Lemma reply_ends p s :
  ends (reply p s) (λ p', zlen s < INT_MAX → (∀ r, p = PTo r → response_typed r) →
    ∀ r, p' = PTo r → response_typed r).
Proof.
  unfold reply. ends_auto. intros Hs Hp r [= <-]. subst p.
  match goal with H : _ → response_typed _ → _ |- _ => apply H end; [unfold cstr; zlia | by apply Hp].
Qed.
#[export] Hint Resolve reply_ends : ends.

(** ** The scanner *)

(** The accumulator is as large as its fields say. *)
Definition data_typed (req : request) : Prop :=
  match req_data req with
  | None => req_data_alloc req = 0 ∧ req_data_len req = 0
  | Some d => zlen d = req_data_alloc req ∧ 0 <= req_data_len req <= req_data_alloc req
  end.

Definition headers_typed (hs : list hdr) : Prop := zlen hs = HEADER_MAX_LEN ∧ Forall hdr_wf hs.
Definition request_typed (req : request) : Prop := headers_typed (req_headers req) ∧ data_typed req.

Definition scan_typed (s : scan) : Prop :=
  request_typed (sc_req s) ∧ ∀ r, sc_resp s = PTo r → response_typed r.

(** An iteration moves the index on. *)
Definition scan_on (s : scan) (c : ctl scan) : Prop :=
  match c with
  | Next s' => sc_i s < sc_i s' ∧ (scan_typed s → scan_typed s')
  | Break s' => scan_typed s → scan_typed s'
  end.

Lemma looking_at_ends data i s : ends (looking_at data i s) anything.
Proof. unfold looking_at. ends_auto. done. Qed.
#[export] Hint Resolve looking_at_ends : ends.

Lemma scan_command_ends data s : ends (scan_command data s) (scan_on s).
Proof.
  unfold scan_command. ends_auto; split; cbn [sc_i]; try lia; intros [Hr Hp]; split; try done; cbn [sc_resp] in *.
  all: match goal with H : zlen _ < INT_MAX → _ |- _ => apply H; [by_compute | done] end.
Qed.

Lemma data_grow_ends req :
  ends (data_grow req) (λ req', req_headers req' = req_headers req ∧
    (data_typed req → data_typed req' ∧ req_data_len req' + 2 < req_data_alloc req')).
Proof.
  unfold data_grow. ends_auto; split; try done; unfold data_typed, req_set_data; cbn [req_data req_data_len req_data_alloc].
  - intros Hd. simplify_eq. assert (0 <= req_data_len req) by (destruct (req_data req); lia).
    rewrite zlen_malloc in * by lia. lia.
  - intros Hd. split; [done|]. lia.
Qed.
#[export] Hint Resolve data_grow_ends : ends.

(** The request of a [scan] in DATA mode, and what happens to it. *)
Lemma scan_typed_data s req' p st w i :
  scan_typed s → req_headers req' = req_headers (sc_req s) → data_typed req' →
  (∀ r, p = PTo r → response_typed r) → scan_typed (Scan i req' p st w).
Proof. intros [[Hh _] _] Heq Hd Hp. split; [|done]. split; cbn [sc_req]; [by rewrite Heq | done]. Qed.

Lemma scan_data_ends cfg cur s : ends (scan_data cfg cur s) (scan_on s).
Proof.
  unfold scan_data. ends_auto; cbn [scan_on sc_i].
  all: match goal with H : _ ∧ (data_typed _ → _) |- _ => destruct H as [Hh Hd] end.
  1-3: split; [lia|].
  all: intros Hs; pose proof Hs as [[_ Hdt] Hp]; apply Hd in Hdt as [Hdt Hlen].
  all: eapply scan_typed_data; [exact Hs | done | | try done]; try done.
  all: try by (unfold data_typed, req_set_data in *; cbn [req_data req_data_len req_data_alloc] in *;
    rewrite Heqo in Hdt; lia).
  intros r ->. match goal with H : zlen re_queued < _ → _ |- _ => apply H; [by_compute | done | done] end.
Qed.
#[export] Hint Resolve scan_command_ends scan_data_ends : ends.

Lemma scan_loop_ends srv data data_len s :
  sc_i s = 0 → ends (cloop (scan_step srv data data_len) (S (Z.to_nat data_len)) s)
    (λ s', scan_typed s → scan_typed s').
Proof.
  intros Hi. apply (ends_cloop _ (λ s1, 0 <= sc_i s1 ∧ (scan_typed s → scan_typed s1))
    (λ s1, Z.to_nat (data_len - sc_i s1))); [|by rewrite Hi | rewrite Hi; lia].
  intros s1 [Hs1 Ht]. unfold scan_step. ends_auto; [| |by intros ?%Ht].
  all: match goal with H : scan_on _ ?c |- _ => destruct c as [s2|s2]; cbn [scan_on] in H end; [|tauto].
  all: split; [split; [lia | tauto] | lia].
Qed.
#[export] Hint Resolve scan_loop_ends : ends.

Lemma request_parse_commands_ends srv conn :
  ends (request_parse_commands srv conn) (λ r, conn_read_buffer r.1.2 = conn_read_buffer conn ∧
    ((∀ q, conn_request conn = PTo q → request_typed q) →
     (∀ p, conn_response conn = PTo p → response_typed p) →
     (∀ q, conn_request r.1.2 = PTo q → request_typed q) ∧
     (∀ p, conn_response r.1.2 = PTo p → response_typed p))).
Proof.
  unfold request_parse_commands. ends_auto. split; [done|]. intros Hq Hp.
  match goal with H : scan_typed ?s0 → scan_typed _ |- _ =>
    assert (scan_typed s0) as [Hr' Hp']%H by (split; [by apply Hq | done]) end.
  cbn [fst snd conn_set_status conn_set_response conn_set_request conn_request conn_response].
  split; [by intros ? [= <-] | done].
Qed.
#[export] Hint Resolve request_parse_commands_ends : ends.

(** ** The parser of a message *)

Lemma hput_typed (f : hdr → hdr) hs n h :
  (∀ h, hdr_wf h → hdr_wf (f h)) → hs !! n = Some h → headers_typed hs → headers_typed (<[n := f h]> hs).
Proof.
  intros Hf Hh [Hl Hs]. split; [by rewrite zlen_insert|]. apply Forall_insert; [done|].
  apply Hf. by eapply Forall_lookup_1.
Qed.

Lemma put_key_ends hs n j c : ends (put_key hs n j c) (λ hs', headers_typed hs → headers_typed hs').
Proof.
  unfold put_key. ends_auto. destruct_and!. subst. intros Hs.
  apply (hput_typed (λ h, Hdr a0 (hdr_value a))) with (h := a); [|done..].
  intros _ _. pose proof Hs as [_ Hall]. eapply Forall_lookup_1 in Hall as [Hk Hv]; [|done].
  split; [by rewrite <-Hk | done].
Qed.

Lemma put_value_ends hs n j c : ends (put_value hs n j c) (λ hs', headers_typed hs → headers_typed hs').
Proof.
  unfold put_value. ends_auto. destruct_and!. subst. intros Hs.
  apply (hput_typed (λ h, Hdr (hdr_key a) a0)) with (h := a); [|done..].
  intros _ _. pose proof Hs as [_ Hall]. eapply Forall_lookup_1 in Hall as [Hk Hv]; [|done].
  split; [done | by rewrite <-Hv].
Qed.

Lemma at_blank_line_ends data i : ends (at_blank_line data i) anything.
Proof. unfold at_blank_line. by ends_auto. Qed.
#[export] Hint Resolve put_key_ends put_value_ends at_blank_line_ends : ends.

(** An iteration moves the index on. *)
Definition parse_on (i : Z) (s : parse) (c : ctl parse) : Prop :=
  match c with
  | Next s' => i < pd_i s' ∧ (headers_typed (pd_headers s) → headers_typed (pd_headers s'))
  | Break s' => headers_typed (pd_headers s) → headers_typed (pd_headers s')
  end.

Lemma parse_char_ends data cur i done s : ends (parse_char data cur i done s) (parse_on i s).
Proof. unfold parse_char. ends_auto; cbn [parse_on pd_i pd_headers]; (split; [lia | auto]). Qed.
#[export] Hint Resolve parse_char_ends : ends.

Lemma parse_loop_ends data data_len hs :
  ends (cloop (parse_step data data_len) (S (Z.to_nat data_len)) (Parse 0 0 false true 0 false hs))
    (λ s', headers_typed hs → headers_typed (pd_headers s')).
Proof.
  apply (ends_cloop _ (λ s, 0 <= pd_i s ∧ (headers_typed hs → headers_typed (pd_headers s)))
    (λ s, Z.to_nat (data_len - pd_i s))); [|by split | cbn [pd_i]; lia].
  intros s [Hi Hs]. unfold parse_step. ends_auto.
  all: try (match goal with H : parse_on _ _ ?c |- _ => destruct c; cbn [parse_on] in H end).
  all: cbn [pd_i pd_headers]; try tauto.
  all: split; [split; [lia | tauto] | lia].
Qed.
#[export] Hint Resolve parse_loop_ends : ends.

Lemma request_parse_data_ends req :
  ends (request_parse_data req) (λ req', request_typed req → request_typed req').
Proof. unfold request_parse_data. ends_auto; intros [Hh Hd]; split; auto. Qed.
#[export] Hint Resolve request_parse_data_ends : ends.

(** ** The queue *)

Section queue.
Context (o : os) (r : pq_ref).

Lemma shm_read_ends s i n : ends (shm_read r s i n) anything.
Proof. unfold shm_read. by ends_auto. Qed.
Lemma shm_write_ends s i m : ends (shm_write r s i m) anything.
Proof. unfold shm_write. by ends_auto. Qed.
#[local] Hint Resolve shm_read_ends shm_write_ends : ends.

Lemma get_int_ends s i : ends (get_int r s i) anything.
Proof. unfold get_int. by ends_auto. Qed.
Lemma put_int_ends s i z : ends (put_int r s i z) anything.
Proof. apply shm_write_ends. Qed.
#[local] Hint Resolve get_int_ends put_int_ends : ends.

Lemma advance_ends field s : ends (advance r field s) anything.
Proof. unfold advance. by ends_auto. Qed.
Lemma add_count_ends d s : ends (add_count r d s) anything.
Proof. unfold add_count. by ends_auto. Qed.
#[local] Hint Resolve advance_ends add_count_ends : ends.

Lemma enqueue_section_ends m s : ends (enqueue_section o r m s) anything.
Proof. unfold enqueue_section. by ends_auto. Qed.
Lemma dequeue_section_ends d s : ends (dequeue_section o r d s) anything.
Proof. unfold dequeue_section. by ends_auto. Qed.
Lemma semaphore_wait_ends s : ends (semaphore_wait s) anything.
Proof. unfold semaphore_wait. by ends_auto. Qed.
End queue.
#[export] Hint Resolve enqueue_section_ends dequeue_section_ends semaphore_wait_ends : ends.

(** Between two states of the queue, mails were added at its end at most. *)
Definition queue_grew (queue : ptr pq_ref) (s s' : sys) : Prop :=
  ∀ r n q, queue = PTo r → covers r n → Queue.holds n q s → ∃ l, Queue.holds n (q ++ l) s'.

Lemma queue_grew_refl queue s : queue_grew queue s s.
Proof. intros r n q _ _ H. exists []. by rewrite app_nil_r. Qed.

Lemma queue_grew_trans queue s1 s2 s3 :
  queue_grew queue s1 s2 → queue_grew queue s2 s3 → queue_grew queue s1 s3.
Proof.
  intros H1 H2 r n q Hr Hc Hq. destruct (H1 r n q Hr Hc Hq) as [l1 Hl1].
  destruct (H2 r n _ Hr Hc Hl1) as [l2 Hl2]. exists (l1 ++ l2). by rewrite app_assoc.
Qed.

Lemma pq_enqueue_ends o queue m s :
  ends (pq_enqueue o queue (mail_bytes m) s) (λ ret, mail_wf m → queue_grew queue s ret.2).
Proof.
  assert (ends (pq_enqueue o queue (mail_bytes m) s) anything) as H by (unfold pq_enqueue; by ends_auto).
  destruct (pq_enqueue o queue (mail_bytes m) s) as [[code s']|f] eqn:E; [|exact H].
  intros Hm r n q -> Hc Hq. destruct (pq_step_refines o r n Hc (Enqueue m) q s Hq Hm) as (s1 & Hs & Hq1).
  cbn [pq_step] in Hs. rewrite E, bind_Ok in Hs. injection Hs as _ ->. cbn [snd].
  cbn [fifo_step] in Hq1. case_decide; [by exists [m]|]. exists []. by rewrite app_nil_r.
Qed.
#[export] Hint Resolve pq_enqueue_ends : ends.

(** ** The mail *)

Lemma copy_headers_ends n : ∀ from to, ends (copy_headers n from to) (λ l,
  (n <= length from)%nat ∧ (Forall hdr_wf from → Forall hdr_wf to → Forall hdr_wf l) ∧ length l = length to).
Proof.
  induction n as [|n IH]; intros from to; [simpl; split; [lia | auto]|].
  destruct from as [|h from], to as [|h' to]; try done. cbn [copy_headers].
  eapply ends_bind; [apply IH|]. intros l (Hn & Hf & Hl). cbn [ends length]. split_and!; [lia | | lia].
  rewrite !Forall_cons. intros [? ?] [_ ?]. auto.
Qed.

#[export] Hint Resolve copy_headers_ends : ends.

Lemma hdr_malloc_wf : hdr_wf hdr_malloc.
Proof. by split. Qed.

Lemma make_mail_ends req n :
  ends (make_mail req n) (λ ml, 0 < n → request_typed req → mail_wf ml.1).
Proof.
  unfold make_mail. ends_auto.
  all: match goal with H : _ ∧ _ ∧ length _ = _ |- _ => destruct H as (Hn & Hf & Hl) end.
  all: cbn [fst]; intros Hpos [[Hh Hw] _]; split_and!; cbn [mail_headers mail_header_count mail_body].
  all: try (unfold zlen in *; rewrite ?Hl, ?length_replicate in *; unfold is_int, INT_MIN, INT_MAX, HEADER_MAX_LEN in *; lia).
  all: try (apply Hf; [done | apply Forall_replicate, hdr_malloc_wf]).
  all: match goal with H : zlen ?b = zlen (malloc BODY_MAX_LEN) |- zlen ?b = _ => by rewrite H end.
Qed.
#[export] Hint Resolve make_mail_ends : ends.

(** ** The handler *)

(** What the pointers of a connection lead to, [size] being the size of its
    read buffer. *)
Definition conn_typed (size : Z) (c : connection) : Prop :=
  (∀ q, conn_request c = PTo q → request_typed q) ∧
  (∀ p, conn_response c = PTo p → response_typed p) ∧
  (∀ b, conn_read_buffer c = PTo b → zlen b = size).

Definition read_size (cfg : config) : Z := zlen (malloc (read_buffer_size cfg + 1)).

(** A part of the handler keeps the types, and what is queued. *)
Definition keeps (queue : ptr pq_ref) (size : Z) (c : connection) (e : env) (r : connection * env) : Prop :=
  conn_typed size c → conn_typed size r.1 ∧ queue_grew queue (env_sys e) (env_sys r.2).

Lemma connection_process_ends o queue conn e :
  ends (connection_process o queue conn e) (λ r, ∀ size, keeps queue size conn e r).
Proof.
  unfold connection_process. ends_auto; intros size (Hq & Hp & Hb).
  all: assert (request_typed a0) as Hr by (match goal with H : request_typed _ → _ |- _ => by apply H, Hq end).
  all: split; [by split_and!; [intros ? [= <-]|..]|].
  - match goal with H : mail_wf _ → _ |- _ => apply H end. auto.
  - apply queue_grew_refl.
Qed.
#[export] Hint Resolve connection_process_ends : ends.

Lemma keeps_status queue size c c0 e e' r st :
  keeps queue size c e (r, e') → conn_request c0 = conn_request r → conn_response c0 = conn_response r →
  conn_read_buffer c0 = conn_read_buffer r → keeps queue size c e (conn_set_status st c0, e').
Proof. intros H H1 H2 H3 (H4 & H5)%H. split; [|done]. unfold conn_typed in *. cbn in *. by rewrite H1, H2, H3. Qed.

(** The commands that were read, and the message they may complete. *)
Lemma connection_commands_ends o queue srv conn e :
  ends (connection_commands o queue srv conn e) (λ r, ∀ size, keeps queue size conn e r).
Proof.
  eapply ends_bind; [apply request_parse_commands_ends|]. intros [[code conn2] warns] [Hbuf Hty]. cbn [fst snd] in *.
  assert (∀ size, keeps queue size conn e (conn2, acts (Warn <$> warns) e)) as Hk.
  { intros size (Hq & Hp & Hb). destruct (Hty Hq Hp) as [Hq' Hp'].
    split; [split_and!; [done | done | cbn [fst]; by rewrite Hbuf] | apply queue_grew_refl]. }
  clear Hty. cbn zeta. ends_auto; intros size.
  - match goal with H : ∀ size, keeps _ _ _ _ _ |- _ => specialize (H size) end.
    intros Hc. destruct (Hk size Hc) as [Hc2 Hg]. destruct (H0 Hc2) as [Hc3 Hg']. split; [exact Hc3|].
    exact (queue_grew_trans _ _ _ _ Hg Hg').
  - exact (Hk size).
  - exact (Hk size).
Qed.

Lemma connection_fill_ends w queue srv conn e :
  ends (connection_fill w srv conn e) (keeps queue (read_size (srv_master_config srv)) conn e).
Proof.
  unfold connection_fill. set (size := read_size _).
  eapply ends_bind; [by instantiate (1 := anything); destruct (conn_buffer_len conn)|]. intros len _.
  set (conn0 := if decide (len = 0) then _ else conn).
  eapply ends_bind; [apply ends_deref|]. intros cfg _.
  assert (conn_typed size conn → conn_typed size conn0) as H0.
  { intros (Hq & Hp & Hb). unfold conn0. case_decide; split_and!; try done. by intros ? [= <-]. }
  ends_auto; intros Hc; (split; [|apply queue_grew_refl]); try by apply H0.
  destruct (H0 Hc) as (Hq & Hp & Hb). split_and!; [done..|]. intros ? [= <-]. subst.
  etrans; [eassumption|]. by apply Hb.
Qed.

Lemma connection_read_ends o w queue srv conn e :
  ends (connection_read o w queue srv conn e) (keeps queue (read_size (srv_master_config srv)) conn e).
Proof.
  unfold connection_read. set (size := read_size _).
  eapply ends_bind; [apply connection_fill_ends|]. intros [conn1 e1] H1.
  eapply ends_bind; [by instantiate (1 := anything); destruct (conn_buffer_len conn1)|]. intros len1 _.
  case_decide; [|exact H1]. eapply ends_mono; [apply connection_commands_ends|].
  intros r Hr Hc. destruct (H1 Hc) as [Hc1 Hg1]. destruct (Hr size Hc1) as [Hc2 Hg2].
  split; [done|]. by eapply queue_grew_trans.
Qed.
#[export] Hint Resolve connection_read_ends : ends.

Lemma send_loop_ends w data data_len limit :
  limit ≠ 0 → ends (cloop (send_step w data data_len limit) (S (Z.to_nat data_len)) (Sending 0 false [])) anything.
Proof.
  intros Hl. apply (ends_cloop _ (λ s, 0 <= sd_sent s) (λ s, Z.to_nat (data_len - sd_sent s))); [|done | cbn [sd_sent]; lia].
  intros s Hs. unfold send_step. ends_auto; try done. destruct_and!. cbn [sd_sent].
  case_bool_decide; lia.
Qed.
#[export] Hint Resolve send_loop_ends : ends.

Lemma connection_send_ends w limit r : limit ≠ 0 → ends (connection_send w limit r) anything.
Proof. intros Hl. unfold connection_send. by ends_auto. Qed.
#[export] Hint Resolve connection_send_ends : ends.

Lemma request_init_typed : request_typed request_init.
Proof. split; [|done]. split; [done|]. apply Forall_replicate, hdr_malloc_wf. Qed.

Lemma request_free_ends p : ends (request_free p) (λ p', p' = PFreed ∨ p' = PNull).
Proof. unfold request_free. by ends_auto. Qed.
Lemma response_free_ends p : ends (response_free p) (λ p', p' = PFreed ∨ p' = PNull).
Proof. unfold response_free. by ends_auto. Qed.
#[export] Hint Resolve request_free_ends response_free_ends : ends.

Lemma free_unless_null_ends {A} (f : ptr A → res (ptr A)) p (P : ptr A → Prop) :
  ends (f p) P → ends (free_unless_null f p) (λ p', p' = PNull).
Proof.
  intros Hf. unfold free_unless_null. ends_auto; auto.
Qed.
#[export] Hint Resolve free_unless_null_ends : ends.

Lemma connection_write_ends w queue srv conn e size :
  write_buffer_size (srv_master_config srv) ≠ 0 →
  ends (connection_write w srv conn e) (keeps queue size conn e).
Proof.
  intros Hw. unfold connection_write. ends_auto; intros (Hq & Hp & Hb); subst.
  all: split; [|apply queue_grew_refl]; split_and!; try done.
  all: try (intros ? [= <-]; apply request_init_typed || done).
Qed.

Lemma connection_reset_ends conn : ends (connection_reset conn) (λ c, ∀ size, conn_typed size c).
Proof. unfold connection_reset. ends_auto. subst. done. Qed.
#[export] Hint Resolve connection_write_ends connection_reset_ends : ends.

Lemma connection_close_ends queue fd conn e size :
  ends (connection_close fd conn e) (keeps queue size conn e).
Proof.
  unfold connection_close. set (conn1 := if decide (conn_status_of conn = CONN_ERROR) then _ else conn).
  set (two := if decide (conn_status_of conn1 = CONN_CLOSED) then _ else _).
  assert (keeps queue size conn e two) as H.
  { intros (Hq & Hp & Hb). split; [|unfold two; case_decide; apply queue_grew_refl].
    unfold two, conn1. repeat case_decide; by split_and!. }
  destruct two as [conn2 e2]. case_decide; [|exact H].
  eapply ends_bind; [apply connection_reset_ends|]. intros c Hc Hconn. by split; [apply Hc | apply H].
Qed.

(** The texts of the configuration are not longer than an [int] can say. *)
Definition small_texts (cfg : config) : Prop :=
  zlen (hostname cfg) <= INT_MAX ∧ zlen (server_name cfg) <= INT_MAX.

Lemma append_to_ends p s :
  ends (append_to p s) (λ p', zlen s <= INT_MAX → (∀ r, p = PTo r → response_typed r) →
    ∀ r, p' = PTo r → response_typed r).
Proof. unfold append_to. ends_auto. intros Hs Hp r [= <-]. auto. Qed.
#[export] Hint Resolve append_to_ends : ends.

Lemma connection_welcome_ends cfg conn :
  ends (connection_welcome cfg conn) (λ c, small_texts cfg → ∀ size, conn_typed size conn → conn_typed size c).
Proof.
  unfold connection_welcome. ends_auto. intros [Hh Hs] size (Hq & Hp & Hb). split_and!; try done.
  cbn [conn_set_status conn_set_response conn_response].
  repeat (match goal with H : zlen _ <= _ → _ → ∀ r, ?p = PTo r → _ |- ∀ r, ?p = PTo r → _ => apply H end;
    [first [exact Hh | exact Hs | by_compute]|]). done.
Qed.
#[export] Hint Resolve connection_welcome_ends : ends.

(** One event, whatever the client sends, the network answers and the queue
    says. *)
Lemma connection_handle_keeps o w queue srv fd conn e :
  write_buffer_size (srv_master_config srv) ≠ 0 →
  ends (connection_handle o w queue srv fd conn e) (λ r,
    (conn_status_of conn = CONN_STARTED → ∀ cfg, srv_config srv = PTo cfg → small_texts cfg) →
    keeps queue (read_size (srv_master_config srv)) conn e r).
Proof.
  intros Hw. set (size := read_size _). unfold connection_handle.
  set (ok := conn_status_of conn = CONN_STARTED → ∀ cfg, srv_config srv = PTo cfg → small_texts cfg).
  apply (ends_bind _ _ (λ c1, ok → conn_typed size conn → conn_typed size c1)).
  { ends_auto; [|auto]. intros Hok. match goal with H : small_texts _ → _ |- _ => apply H end. by apply Hok. }
  intros c1 H1. apply (ends_bind _ _ (keeps queue size c1 e)).
  { ends_auto; [done|]. intros Hc. split; [done | apply queue_grew_refl]. }
  intros [c2 e2] H2. apply (ends_bind _ _ (keeps queue size c2 e2)).
  { ends_auto; [done|]. intros Hc. split; [done | apply queue_grew_refl]. }
  intros [c3 e3] H3. eapply ends_mono; [apply (connection_close_ends queue _ _ _ size)|].
  intros r H4 Hok Hc. destruct (H2 (H1 Hok Hc)) as [Hc2 G2]. destruct (H3 Hc2) as [Hc3 G3].
  destruct (H4 Hc3) as [Hc4 G4]. split; [done|].
  exact (queue_grew_trans _ _ _ _ G2 (queue_grew_trans _ _ _ _ G3 G4)).
Qed.

(** ** Properties *)

(** With a write buffer of size 0 nothing is ever sent of a response. *)
Lemma send_loop_stuck w d n fuel l :
  0 < n → (∀ i b f, net_send w i b f ≠ None) →
  cloop (send_step w d n 0) fuel (Sending 0 false l) = Err OutOfFuel.
Proof.
  intros Hn Hsend. revert l. induction fuel as [|fuel IH]; intros l; [done|].
  unfold cloop; fold (@cloop sending). unfold send_step. cbn [sd_sent sd_failed sd_log].
  rewrite decide_True, bool_decide_true by lia. cbn zeta.
  assert (bread d 0 0 = Ok []) as -> by (unfold bread; rewrite decide_True; [done|]; pose proof (zlen_nonneg d); lia).
  rewrite bind_Ok. cbn [buf_bytes].
  rewrite bind_Ok. destruct (net_send w 0 [] true) eqn:E; [|by destruct (Hsend 0 [] true)].
  rewrite bind_Ok. apply IH.
Qed.

(** The loop that sends a large response ends exactly when
    [write-buffer-size] is not 0.  If it is not, the loop of [connection_send]
    ends after at most as many iterations as the response has bytes, for every
    response and whatever the network answers.  If it is 0, then it sends
    nothing for ever on every response that is not empty, to a client that
    stays. *)
Theorem send_loop_ends_iff w d n limit :
  0 < n → (∀ i b f, net_send w i b f ≠ None) →
  (limit ≠ 0 ↔ ∃ fuel, cloop (send_step w d n limit) fuel (Sending 0 false []) ≠ Err OutOfFuel) ∧
  (limit ≠ 0 → cloop (send_step w d n limit) (S (Z.to_nat n)) (Sending 0 false []) ≠ Err OutOfFuel).
Proof.
  intros Hn Hsend.
  assert (limit ≠ 0 → cloop (send_step w d n limit) (S (Z.to_nat n)) (Sending 0 false []) ≠ Err OutOfFuel) as H
    by (intros Hl; by eapply ends_fuel, send_loop_ends).
  split; [|exact H]. split; [by exists (S (Z.to_nat n)); auto|].
  intros [fuel Hf] ->. by destruct (Hf (send_loop_stuck w d n fuel [] Hn Hsend)).
Qed.

Lemma send_loop_ends_iff_witness :
  let d := bs (lit "250 OK") in let w := ex_net [] 1000 in
  (∃ fuel, cloop (send_step w d 6 4) fuel (Sending 0 false []) ≠ Err OutOfFuel) ∧
  ¬ (∃ fuel, cloop (send_step w d 6 0) fuel (Sending 0 false []) ≠ Err OutOfFuel).
Proof.
  intros d w. split.
  - apply (send_loop_ends_iff w d 6 4); [lia | done | lia].
  - intros H. by apply (send_loop_ends_iff w d 6 0) in H; [|lia|done].
Defined.
