(* ===== verification/ConnectionSafe.v ===== *)
(** ConnectionSafe: which faults the handler of a connection can run into,
    whatever its client sends.  [safe X m Q] says that [m] gives a result with
    [Q], or stops with a fault that harms no memory, or accesses memory outside
    an object with the excuse [X]; the handler is shown safe with the one
    excuse that a message has more headers than [request_parse_data] has room
    for. *)
From S2P Require Import Prelude Base Config Response Layout Ends Socket Queue QueueSys Request RequestData Connection.
From S2P Require Import ConnectionEnds.

(** ** The predicate and its rules *)

(** A fault that touches no object it should not: an indeterminate value, a
    null pointer, an overflow of [int]. *)
Definition benign (f : fault) : Prop :=
  match f with Uninit | NullDeref | IntOverflow => True | _ => False end.

Definition safe {A} (X : Prop) (m : res A) (Q : A → Prop) : Prop :=
  match m with Ok a => Q a | Err f => benign f ∨ (f = OutOfBounds ∧ X) end.

Lemma safe_mono {A} (X : Prop) (m : res A) (P Q : A → Prop) : safe X m P → (∀ a, P a → Q a) → safe X m Q.
Proof. destruct m; simpl; auto. Qed.

Lemma safe_excuse {A} (X Y : Prop) (m : res A) (Q : A → Prop) : safe X m Q → (X → Y) → safe Y m Q.
Proof. destruct m; simpl; tauto. Qed.

Lemma safe_bind {A B} X (m : res A) (k : A → res B) (P : A → Prop) (Q : B → Prop) :
  safe X m P → (∀ a, m = Ok a → P a → safe X (k a) Q) → safe X (m ≫= k) Q.
Proof. destruct m; simpl; auto. Qed.

(** What is known of the result from elsewhere. *)
Lemma safe_ends {A} X (m : res A) (P Q : A → Prop) : safe X m P → ends m Q → safe X m (λ a, P a ∧ Q a).
Proof. destruct m; simpl; auto. Qed.

Section loop.
Context {S : Type} (step : S → res (ctl S)).

Lemma safe_cloop X (I : S → Prop) (m : S → nat) (Q : S → Prop) fuel s :
  (∀ s, I s → safe X (step s) (λ c,
     match c with Next s' => I s' ∧ (m s' < m s)%nat | Break s' => Q s' end)) →
  I s → (m s < fuel)%nat → safe X (cloop step fuel s) Q.
Proof.
  intros Hstep. revert s. induction fuel as [|fuel IH]; intros s HI Hm; [lia|].
  simpl. eapply safe_bind; [by apply Hstep|].
  intros [s'|s'] _; [|done]. intros [HI' Hm']. apply IH; [done | lia].
Qed.
End loop.

(** ** The operations on memory *)

Section memory.
Context (X : Prop).
Implicit Types (b dst : buf).

Lemma safe_bload b i : 0 <= i < zlen b → safe X (bload b i) anything.
Proof.
  intros Hi. unfold bload. rewrite decide_True by lia.
  destruct (b !! Z.to_nat i) as [[c|]|] eqn:E; [done | by left |].
  apply lookup_ge_None in E. unfold zlen in Hi. lia.
Qed.

Lemma safe_bstore b i c : 0 <= i < zlen b → safe X (bstore b i c) (λ b', zlen b' = zlen b).
Proof. intros Hi. unfold bstore. rewrite decide_True by done. apply zlen_insert. Qed.

Lemma safe_bread b j n : 0 <= j → 0 <= n → j + n <= zlen b → safe X (bread b j n) (λ m, zlen m = n).
Proof. intros. unfold bread. rewrite decide_True by done. simpl. zlia. Qed.

Lemma safe_bwrite dst i src :
  0 <= i → i + zlen src <= zlen dst → safe X (bwrite dst i src) (λ b', zlen b' = zlen dst).
Proof. intros. unfold bwrite. rewrite decide_True by done. simpl. zlia. Qed.

Lemma safe_memcpy dst i src j n :
  0 <= i → 0 <= j → 0 <= n → j + n <= zlen src → i + n <= zlen dst →
  safe X (memcpy dst i src j n) (λ b', zlen b' = zlen dst).
Proof.
  intros. eapply safe_bind; [by apply safe_bread|]. intros s _ Hs. cbn beta in Hs.
  apply safe_bwrite; lia.
Qed.

(** From an object of at least [n] bytes, or from nowhere. *)
Lemma safe_memcpy_opt dst (src : option buf) n :
  0 <= n → n <= zlen dst → (∀ b, src = Some b → n <= zlen b) →
  safe X (memcpy_opt dst 0 src 0 n) (λ b', zlen b' = zlen dst).
Proof.
  intros Hn Hd Hs. destruct src as [b|]; [apply safe_memcpy; try lia; by apply Hs|].
  unfold memcpy_opt. destruct (decide (n = 0)); [done | by left].
Qed.

Lemma safe_ptr_add b i : 0 <= i <= zlen b → safe X (ptr_add b i) (λ b', b' = drop (Z.to_nat i) b).
Proof. intros Hi. unfold ptr_add. by rewrite decide_True. Qed.

(** A comparison stops at an indeterminate byte, if the object has one. *)
Lemma safe_strncmp a b n :
  (None ∈ a ∨ (n ≤ length a)%nat) → (n ≤ length b)%nat → safe X (strncmp_eq a b n) anything.
Proof.
  revert a b. induction n as [|n IH]; intros a b Ha Hb; [done|]. unfold strncmp_eq; fold strncmp_eq.
  destruct b as [|d b]; [simpl in Hb; lia|].
  destruct a as [|[c|] a]; [destruct Ha as [[]%elem_of_nil|Ha]; simpl in Ha; lia| |by left].
  cbn [first]. rewrite bind_Ok. destruct d as [d|]; [|by left]. rewrite bind_Ok.
  case_decide; [|done]. case_decide; [done|]. apply IH; [|simpl in Hb; cbn [tail]; lia].
  cbn [tail]. destruct Ha as [[|Ha]%elem_of_cons|Ha]; [done | by left | right; simpl in Ha; lia].
Qed.

Lemma safe_i32 z : safe X (i32 z) (λ z', z' = z).
Proof. unfold i32. case_decide; [done | by left]. Qed.

Lemma safe_buf_bytes b : safe X (buf_bytes b) anything.
Proof.
  induction b as [|[c|] b IH]; [done| |by left]. cbn [buf_bytes]. by eapply safe_bind; [exact IH|].
Qed.

(** What a pointer leads to, if it leads anywhere; it was not freed. *)
Definition points {A} (P : A → Prop) (p : ptr A) : Prop :=
  match p with PTo a => P a | PFreed => False | _ => True end.

Lemma safe_deref {A} (P : A → Prop) p : points P p → safe X (deref p) (λ a, p = PTo a ∧ P a).
Proof. by destruct p; [left | left | |]. Qed.

Lemma safe_aload {A} (l : list A) i : 0 <= i < zlen l → safe X (aload l i) (λ a, l !! Z.to_nat i = Some a).
Proof.
  intros Hi. unfold aload. rewrite decide_True by lia. destruct (l !! Z.to_nat i) eqn:E; [done|].
  apply lookup_ge_None in E. unfold zlen in Hi. lia.
Qed.

Lemma safe_astore {A} (l : list A) i a :
  0 <= i < zlen l → safe X (astore l i a) (λ l', l' = <[Z.to_nat i := a]> l).
Proof. intros Hi. unfold astore. by rewrite decide_True. Qed.
End memory.

(** ** Response *)

Lemma response_append_safe X r s :
  nonul s → zlen s < INT_MAX → response_typed r → safe X (response_append r (cstr s)) response_typed.
Proof.
  intros Hs Hmax Hr. assert (zlen (cstr s) = zlen s + 1) as Hcs by (unfold cstr; zlia).
  apply (safe_mono _ _ (λ r', anything r' ∧ (zlen (cstr s) <= INT_MAX → response_typed r → response_typed r')));
    [|intros r' [_ H]; apply H; [lia | done]].
  apply safe_ends; [|apply response_append_ends]. pose proof (zlen_nonneg s).
  unfold response_append. rewrite strlen_cstr, bind_Ok, to_int_small by (unfold INT_MIN in *; done || lia).
  eapply safe_bind; [apply safe_i32|]. intros need _ ->. cbn beta.
  assert (0 <= resp_data_len r ∧ (∀ d, resp_data r = Some d → zlen d = resp_data_alloc r ∧
    resp_data_len r < resp_data_alloc r)) as [Hlen Hd].
  { unfold response_typed in Hr. destruct (resp_data r) as [d|]; (split; [lia|]); intros ? E; simplify_eq; lia. }
  eapply (safe_bind _ _ _ (λ r', resp_data_len r' = resp_data_len r ∧
    ∀ d, resp_data r' = Some d → resp_data_len r + zlen s + 1 < zlen d)).
  { case_decide as Hgrow; [|split; [done|]; intros d E; apply Hd in E; lia].
    eapply safe_bind; [apply safe_i32|]. intros alloc _ ->. cbn beta.
    eapply safe_bind; [apply safe_memcpy_opt; [lia | rewrite zlen_malloc; lia | intros b E; apply Hd in E; lia]|].
    intros tmp _ Htmp. cbn beta in Htmp. rewrite zlen_malloc in Htmp by lia. split; [done|]. intros d [= <-]. lia. }
  intros r' _ [-> Hd']. destruct (resp_data r') as [d|]; [|by left]. specialize (Hd' d eq_refl).
  eapply safe_bind; [apply safe_memcpy; lia|]. intros d' _ _.
  by eapply safe_bind; [apply safe_i32|].
Qed.

Lemma reply_safe X p s :
  s ∈ replies → points response_typed p → safe X (reply p s) (points response_typed).
Proof.
  intros [Hn Hl]%replies_short Hp. unfold reply. eapply safe_bind; [exact (safe_deref X _ _ Hp)|]. intros r _ [_ Hr].
  eapply safe_bind; [apply response_append_safe; [done | unfold INT_MAX; lia | done]|]. by intros r' _ Hr'.
Qed.

(** ** The scanner *)

(** The accumulator is as large as its fields say and has room for two more
    bytes. *)
Definition data_room (req : request) : Prop :=
  match req_data req with
  | None => req_data_alloc req = 0 ∧ req_data_len req = 0
  | Some d => zlen d = req_data_alloc req ∧ 0 <= req_data_len req ∧ req_data_len req + 2 <= req_data_alloc req
  end.

(** The body is terminated. *)
Definition body_room (req : request) : Prop :=
  ∀ b, req_body req = Some b → zlen b = req_body_len req + 1 ∧ 0 <= req_body_len req.

Definition request_safe (req : request) : Prop :=
  headers_typed (req_headers req) ∧ data_room req ∧ body_room req.

Definition scan_safe (s : scan) : Prop := request_safe (sc_req s) ∧ points response_typed (sc_resp s).

Definition scan_keeps (c : ctl scan) : Prop := match c with Next s | Break s => scan_safe s end.

(** A buffer with an indeterminate byte after the data. *)
Lemma looking_at_safe X bytes junk i k :
  0 <= i <= zlen bytes → safe X (looking_at (bs bytes ++ None :: junk) i k) anything.
Proof.
  intros Hi. unfold looking_at. eapply safe_bind; [apply safe_ptr_add; zlia|]. intros p _ ->. cbn beta.
  apply safe_strncmp; [left | unfold cstr; rewrite length_app, length_bs; lia].
  rewrite drop_app_le by (rewrite length_bs; unfold zlen in Hi; lia). apply elem_of_app. right. by left.
Qed.

Lemma scan_command_safe X bytes junk s :
  0 <= sc_i s <= zlen bytes → scan_safe s → safe X (scan_command (bs bytes ++ None :: junk) s) scan_keeps.
Proof.
  intros Hi [Hr Hp]. unfold scan_command.
  repeat (eapply safe_bind; [by apply looking_at_safe|]; intros [|] _ _;
    [eapply safe_bind; [apply reply_safe; [by_compute | done]|]; by intros p _ Hp' |]).
  done.
Qed.

Lemma data_grow_safe X req :
  data_room req → safe X (data_grow req) (λ req', req_headers req' = req_headers req ∧
    req_body req' = req_body req ∧ req_body_len req' = req_body_len req ∧
    data_room req' ∧ req_data_len req' + 2 < req_data_alloc req').
Proof.
  intros Hd. unfold data_grow. case_decide as Hgrow; [|by split_and!; [..|lia]].
  assert (0 <= req_data_len req ∧ ∀ b, req_data req = Some b → req_data_len req <= zlen b) as [Hlen Hb].
  { unfold data_room in Hd. destruct (req_data req); split; try lia; [intros ? [= <-]; lia | done]. }
  eapply safe_bind; [apply safe_i32|]. intros alloc _ ->. cbn beta.
  eapply safe_bind; [apply safe_memcpy_opt; [lia | rewrite zlen_malloc; lia | done]|].
  intros tmp _ Htmp. cbn beta in Htmp. rewrite zlen_malloc in Htmp by lia.
  split_and!; try done; unfold data_room, req_set_data; cbn [req_data req_data_len req_data_alloc]; lia.
Qed.

Lemma scan_data_safe X cfg cur s : scan_safe s → safe X (scan_data cfg cur s) scan_keeps.
Proof.
  intros [(Hh & Hd & Hb) Hp]. unfold scan_data.
  eapply safe_bind; [by apply data_grow_safe|]. intros req _ (Eh & Eb & El & Hd' & Hroom). cbn beta.
  assert (headers_typed (req_headers req) ∧ body_room req) as [Hh' Hb'] by (unfold body_room; by rewrite Eh, Eb, El).
  clear Eh Eb El Hd Hh Hb. case_decide; [|by split_and!].
  destruct (req_data req) as [d|] eqn:E; [|by left]. unfold data_room in Hd'. rewrite E in Hd'.
  destruct Hd' as (Hz & H0 & Hlen).
  eapply safe_bind; [apply safe_bstore; lia|]. intros d1 _ Hd1. cbn beta zeta in *.
  assert (∀ d2 i inn q pr p st w, zlen d2 = zlen d1 → points response_typed p →
    scan_safe (Scan i (Request (req_headers req) (req_header_count req) (req_body req) (req_body_len req) inn (Some d2)
      (req_data_alloc req) (req_data_len req + 1) q pr) p st w)) as Hdone.
  { intros. split; [|done]. split_and!; [done | | done]. unfold data_room. cbn [sc_req req_data req_data_len req_data_alloc]. lia. }
  case_decide; [|by apply Hdone].
  eapply safe_bind; [apply safe_ptr_add; lia|]. intros p _ ->. cbn beta.
  eapply safe_bind; [apply safe_strncmp; [right; rewrite length_drop; unfold zlen in *; lia | by_compute]|].
  intros [|] _ _; [|by apply Hdone].
  eapply safe_bind; [apply reply_safe; [by_compute | done]|]. intros p _ Hp'. cbn beta in *.
  eapply safe_bind; [apply safe_bstore; lia|]. intros d2 _ Hd2. cbn beta in *. by apply Hdone.
Qed.

(** What is left of a connection after its commands: its objects, and that no
    pointer leads to a freed one. *)
Definition conn_safe (c : connection) : Prop :=
  points request_safe (conn_request c) ∧ points response_typed (conn_response c) ∧
  points (λ _, True) (conn_read_buffer c).

Lemma request_parse_commands_safe X srv conn bytes junk :
  points (λ _, True) (srv_config srv) → conn_safe conn →
  conn_read_buffer conn = PTo (bs bytes ++ None :: junk) → conn_buffer_len conn = Some (zlen bytes) →
  safe X (request_parse_commands srv conn) (λ r, conn_safe r.1.2).
Proof.
  intros Hsrv (Hq & Hp & _) Hb Hlen. unfold request_parse_commands. rewrite Hb, Hlen.
  eapply safe_bind; [exact (safe_deref X _ _ Hq)|]. intros req _ [_ Hreq]. cbn [deref]. rewrite bind_Ok.
  eapply safe_bind.
  - apply (safe_cloop _ X (λ s, 0 <= sc_i s ∧ scan_safe s) (λ s, Z.to_nat (zlen bytes - sc_i s)) scan_safe);
      [|by split | cbn [sc_i]; lia].
    intros s [Hi Hs]. unfold scan_step. case_decide as Hlt; [|done].
    eapply safe_bind; [apply safe_bload; zlia|]. intros cur _ _.
    assert (∀ m, safe X m scan_keeps → ends m (scan_on s) → safe X m (λ c, match c with
      | Next s' => (0 <= sc_i s' ∧ scan_safe s') ∧ (Z.to_nat (zlen bytes - sc_i s') < Z.to_nat (zlen bytes - sc_i s))%nat
      | Break s' => scan_safe s' end)) as Hstep.
    { intros m H1 H2. eapply safe_mono; [by apply safe_ends|]. intros [s'|s'] [Hk Hon]; [|done].
      destruct Hon as [Hon _]. split; [split; [lia | done] | lia]. }
    destruct (req_in_data (sc_req s)).
    + eapply safe_bind; [exact (safe_deref X _ _ Hsrv)|]. intros cfg _ _.
      apply Hstep; [by apply scan_data_safe | apply scan_data_ends].
    + apply Hstep; [apply scan_command_safe; [lia | done] | apply scan_command_ends].
  - intros s _ [Hr Hp']. cbn [safe fst snd]. split_and!; [exact Hr | exact Hp' |].
    cbn [conn_set_status conn_set_response conn_set_request conn_read_buffer]. by rewrite Hb.
Qed.

(** ** The parser of a message *)

(** The parser of a message reaches a state with as many headers as there is
    room for. *)
Definition too_many_headers (req : request) : Prop :=
  ∃ k s, runs (parse_step (default [] (req_data req)) (req_data_len req)) k
    (Parse 0 0 false true 0 false (req_headers req)) s ∧ HEADER_MAX_LEN <= pd_header_count s.

(** [HEADER_MAX_LEN] header arrays; a counter, and a position in the array that
    is being written. *)
Definition parse_safe (s : parse) : Prop :=
  headers_typed (pd_headers s) ∧ 0 <= pd_i s ∧ 0 <= pd_header_count s ∧
  0 <= pd_cur_len s < hsize (pd_is_key s).

Definition parse_goes (c : ctl parse) : Prop := match c with Next s => parse_safe s | Break _ => False end.

Lemma hput_safe X isk hs n j c :
  headers_typed hs → 0 <= n → 0 <= j < hsize isk → (HEADER_MAX_LEN <= n → X) →
  safe X (hput isk hs n j c) headers_typed.
Proof.
  intros Hh Hn Hj HX. pose proof Hh as [Hl Hall].
  apply (safe_mono _ _ (λ h, anything h ∧ (headers_typed hs → headers_typed h))); [|by intros h [_ H]; apply H].
  apply safe_ends; [|by destruct isk; [apply put_key_ends | apply put_value_ends]].
  destruct (decide (n < HEADER_MAX_LEN)) as [Hlt|Hge].
  - assert (∀ h, hs !! Z.to_nat n = Some h → zlen (hget isk h) = hsize isk) as Hsize.
    { intros h Hhn. destruct (Forall_lookup_1 _ _ _ _ Hall Hhn). by destruct isk. }
    destruct isk; (eapply safe_bind; [apply safe_aload; lia|]; intros h _ Hhn; cbn beta in Hhn;
      pose proof (Hsize h Hhn) as Hs; cbn [hget hsize] in Hs, Hj;
      eapply safe_bind; [apply safe_bstore; lia|]; intros k _ _;
      eapply safe_mono; [apply safe_astore; lia | done]).
  - assert (aload hs n = Err OutOfBounds) as E.
    { unfold aload. rewrite decide_True by lia. rewrite lookup_ge_None_2; [done|]. unfold zlen in Hl. lia. }
    destruct isk; unfold hput, put_key, put_value; rewrite E; right; (split; [done | apply HX; lia]).
Qed.

(** Comparisons of three bytes inside the accumulator. *)
Lemma fold_safe X data i k :
  0 <= i → i + 3 <= zlen data → k ∈ [fold_tab; fold_sp] → safe X (looking_at data i k) anything.
Proof.
  intros Hi Hz Hk. assert (length k = 3%nat) as Hlk.
  { assert (Forall (λ k, length k = 3%nat) [fold_tab; fold_sp]) as H by by_compute.
    rewrite Forall_forall in H. by apply H. }
  unfold looking_at. eapply safe_bind; [apply safe_ptr_add; lia|]. intros p _ ->. cbn beta.
  apply safe_strncmp; [right | unfold cstr; rewrite length_app, length_bs; lia].
  rewrite length_drop. unfold zlen in Hz. lia.
Qed.

Lemma at_blank_line_safe X data i :
  0 <= i → i + 4 <= zlen data → safe X (at_blank_line data i) anything.
Proof.
  intros Hi Hz. unfold at_blank_line.
  repeat (eapply safe_bind; [apply safe_bload; lia|]; intros ? _ _; try case_decide; try done).
Qed.

Lemma parse_char_safe X data cur i done s :
  headers_typed (pd_headers s) → 0 <= pd_header_count s → 0 <= pd_cur_len s < hsize (pd_is_key s) →
  0 <= i → i + 3 <= zlen data → (HEADER_MAX_LEN <= pd_header_count s → X) →
  safe X (parse_char data cur i done s) parse_goes.
Proof.
  intros Hh Hn Hl Hi Hz HX. unfold parse_char.
  assert (∀ isk j c k, 0 <= j < hsize isk → (∀ hs, headers_typed hs → safe X (k hs) parse_goes) →
    safe X (hput isk (pd_headers s) (pd_header_count s) j c ≫= k) parse_goes) as Hput.
  { intros isk j c k Hj Hk. eapply safe_bind; [by apply hput_safe|]. intros hs _ Hhs. by apply Hk. }
  case_decide as Hcolon.
  { destruct Hcolon as [_ Hkey]. rewrite Hkey in Hl. apply (Hput true); [done|].
    intros hs Hhs. split_and!; cbn; try done; try lia. }
  eapply safe_bind; [apply fold_safe; [lia | lia | by_compute]|]. intros tab _ _.
  eapply (safe_bind _ _ _ anything); [destruct tab; [done|]; apply fold_safe; [lia | lia | by_compute]|].
  intros fold _ _. destruct fold; [split_and!; cbn; try done; lia|].
  case_decide.
  { eapply (safe_bind _ _ _ headers_typed).
    - case_decide; [|done]. apply (hput_safe X false); try done. cbn. destruct (pd_is_key s); cbn in Hl; unfold KEY_MAX_LEN, VALUE_MAX_LEN in *; lia.
    - intros hs _ Hhs. split_and!; cbn; try done; try lia. }
  case_decide; [|split_and!; cbn; try done; lia].
  destruct (pd_is_key s) eqn:Ek; cbn [hsize] in Hl; case_decide; try (split_and!; cbn; try done; lia).
  - apply (Hput true); [done|]. intros hs Hhs. split_and!; cbn; try done; lia.
  - apply (Hput false); [done|]. intros hs Hhs. split_and!; cbn; try done; lia.
Qed.

Lemma parse_loop_safe req :
  request_safe req →
  let data := default [] (req_data req) in let data_len := req_data_len req in
  let s0 := Parse 0 0 false true 0 false (req_headers req) in
  safe (too_many_headers req) (cloop (parse_step data data_len) (S (Z.to_nat data_len)) s0)
    (λ s, parse_safe s ∧ ∃ k, runs (parse_step data data_len) k s0 s).
Proof.
  intros (Hh & Hd & _) data data_len s0.
  assert (0 < data_len → data_len + 2 <= zlen data) as Hroom.
  { unfold data_len, data. unfold data_room in Hd. destruct (req_data req); cbn [default id]; lia. }
  apply (safe_cloop _ _ (λ s, parse_safe s ∧ ∃ k, runs (parse_step data data_len) k s0 s)
    (λ s, Z.to_nat (data_len - pd_i s))); [|split; [by split_and! | exists 0%nat; apply runs_0] | unfold s0; cbn [pd_i]; lia].
  intros s [Hs [k Hk]]. pose proof Hs as (Hhs & Hi & Hn & Hl).
  assert (HEADER_MAX_LEN <= pd_header_count s → too_many_headers req) as HX by (intros Hc; by exists k, s).
  assert (safe (too_many_headers req) (parse_step data data_len s) (λ c, match c with
    | Next s' => parse_safe s' ∧ pd_i s < pd_i s' ∧ pd_i s < data_len | Break s' => s' = s end)) as Hstep.
  2:{ destruct (parse_step data data_len s) as [[s'|s']|f] eqn:E; [| |exact Hstep]; cbn [safe] in *.
      - destruct Hstep as (Hs' & Hon & Hlt). split; [split; [done|] | lia]. exists (S k). by eapply runs_snoc.
      - subst s'. split; [done|]. by exists k. }
  unfold parse_step. case_decide as Hin; [|done]. destruct Hin as [Hlt _].
  specialize (Hroom ltac:(lia)). clearbody data data_len. clear s0 Hk.
  assert (∀ i done, pd_i s <= i → i + 3 <= zlen data → ∀ cur,
    safe (too_many_headers req) (parse_char data cur i done s) (λ c, match c with
      | Next s' => parse_safe s' ∧ pd_i s < pd_i s' ∧ pd_i s < data_len | Break s' => s' = s end)) as Hchar.
  { intros i done Hle Hz cur. eapply safe_mono; [apply safe_ends; [by apply parse_char_safe; [..|lia|lia|] | apply parse_char_ends]|].
    intros [s'|s'] [H1 H2]; [|done]. destruct H2 as [H2 _]. split_and!; [done | lia | done]. }
  eapply safe_bind; [apply safe_bload; lia|]. intros cur _ _.
  case_decide; [split; [split_and!; [done | cbn [pd_i]; lia | done | exact (proj1 Hl) | exact (proj2 Hl)] | cbn [pd_i]; lia]|].
  eapply (safe_bind _ _ _ (λ b, b = true → 2 < data_len - pd_i s)).
  { case_decide; [|done]. eapply safe_mono; [apply at_blank_line_safe; lia | done]. }
  intros [|] _ Hb; [apply Hchar; [lia|]; specialize (Hb eq_refl); lia | apply Hchar; lia].
Qed.

Lemma request_parse_data_safe req :
  request_safe req → safe (too_many_headers req) (request_parse_data req) (λ req',
    request_safe req' ∧ ∀ n, req_header_count req' = Some n → HEADER_MAX_LEN < n → too_many_headers req).
Proof.
  intros Hreq. pose proof Hreq as (Hh & Hd & Hb). unfold request_parse_data.
  eapply safe_bind; [by apply parse_loop_safe|]. cbn beta. intros s _ [(Hhs & Hi & Hn & _) [k Hk]].
  eapply (safe_bind _ _ _ (λ b, ∀ x, b.1 = Some x → zlen x = b.2 + 1 ∧ 0 <= b.2)).
  - case_decide as Hc; [|exact Hb]. destruct Hc as [Hlt _].
    assert (req_data_len req <= zlen (default [] (req_data req))) as Hz.
    { unfold data_room in Hd. destruct (req_data req); cbn [default id]; lia. }
    eapply safe_bind; [apply safe_memcpy; rewrite ?zlen_malloc; lia|]. intros b _ Hbz. cbn beta in *.
    rewrite zlen_malloc in Hbz by lia.
    eapply safe_bind; [apply safe_bstore; lia|]. intros b' _ Hb'. cbn beta in *. intros x [= <-]. cbn [snd]. lia.
  - intros body _ Hbody. cbn [safe]. split; [split_and!; [exact Hhs | exact Hd | exact Hbody]|].
    intros n [= <-] Hlt. exists k, s. split; [exact Hk | lia].
Qed.

(** ** The mail *)

Lemma copy_headers_safe (X : Prop) n from to :
  ((n <= length from)%nat ∧ (n <= length to)%nat ∨ X) → safe X (copy_headers n from to) anything.
Proof.
  revert from to. induction n as [|n IH]; intros [|h from] [|t to] H; try done.
  1-3: destruct H as [[]|]; [simpl in *; lia | by right].
  cbn [copy_headers]. eapply safe_bind; [|done]. apply IH. simpl in H. destruct H; [left; lia | by right].
Qed.

Lemma make_mail_safe (X : Prop) req n :
  request_safe req → (HEADER_MAX_LEN < n → X) → safe X (make_mail req n) anything.
Proof.
  intros ([Hl _] & _ & Hb) HX. unfold make_mail. eapply (safe_bind _ _ _ anything).
  - case_decide as Hlt.
    + eapply (safe_bind _ _ _ anything); [|done]. destruct (req_body req) as [b|] eqn:E.
      * destruct (Hb b E). eapply safe_mono; [apply safe_memcpy; rewrite ?zlen_malloc; unfold BODY_MAX_LEN in *; lia | done].
      * unfold memcpy_opt. destruct (decide (req_body_len req + 1 = 0)); [done | by left].
    + eapply safe_bind; [by apply safe_bstore | done].
  - intros body _ _. eapply safe_bind; [|done]. apply copy_headers_safe. rewrite length_replicate.
    unfold zlen in Hl. unfold HEADER_MAX_LEN in *.
    destruct (decide (20 < n)); [right; auto | left; lia].
Qed.

Lemma pq_enqueue_safe X o r n q m s :
  covers r n → Queue.holds n q s → mail_wf m → safe X (pq_enqueue o (PTo r) (mail_bytes m) s) anything.
Proof.
  intros Hc Hq Hm. destruct (pq_step_refines o r n Hc (Enqueue m) q s Hq Hm) as (s1 & Hs & _).
  cbn [pq_step] in Hs. by apply bind_Ok_inv in Hs as ([code s'] & -> & _).
Qed.

(** ** The handler *)

Section handler.
Context (o : os) (w : net) (r : pq_ref) (n : Z) (srv : server) (cfg : config).
Hypothesis (Hcfg : configured srv cfg) (Hw : net_ok w) (Hcov : covers r n).

Lemma connection_process_safe q conn e :
  conn_safe conn → Queue.holds n q (env_sys e) →
  safe (∃ req, conn_request conn = PTo req ∧ too_many_headers req) (connection_process o (PTo r) conn e)
    (λ c, conn_safe c.1).
Proof.
  intros (Hq & Hp & Hb) Hh. unfold connection_process.
  eapply safe_bind; [exact (safe_deref _ _ _ Hq)|]. intros req _ [Hc Hreq].
  set (X := ∃ req, _). assert (too_many_headers req → X) as HX by (intros Hm; by exists req).
  eapply safe_bind.
  { eapply safe_ends; [eapply safe_excuse; [by apply request_parse_data_safe | exact HX] | apply request_parse_data_ends]. }
  cbn beta. intros req' _ [[Hreq' Hcount] _].
  assert (conn_safe (conn_set_request (PTo req') conn)) as Hconn by by split_and!.
  destruct (req_header_count req') as [k|]; [|by left]. case_decide as Hk; [|by apply Hconn].
  eapply safe_bind.
  { eapply safe_ends; [apply (make_mail_safe X); [exact Hreq' | by eauto] | apply make_mail_ends]. }
  cbn beta. intros ml _ [_ Hml]. eapply safe_bind.
  { eapply pq_enqueue_safe; [exact Hcov | exact Hh |]. apply Hml; [done|].
    destruct Hreq' as (Hh' & Hd & _). split; [done|]. unfold data_typed. unfold data_room in Hd.
    destruct (req_data req'); lia. }
  intros [code s'] _ _. exact Hconn.
Qed.

(** The message that the bytes in a read buffer complete has too many headers. *)
Definition overlong (conn : connection) : Prop :=
  ∃ conn2 warns req, request_parse_commands srv conn = Ok (0, conn2, warns) ∧
    conn_request conn2 = PTo req ∧ req_process req = true ∧ too_many_headers req.

Lemma connection_commands_safe q conn e bytes junk :
  conn_safe conn → conn_read_buffer conn = PTo (bs bytes ++ None :: junk) →
  conn_buffer_len conn = Some (zlen bytes) → Queue.holds n q (env_sys e) →
  safe (overlong conn) (connection_commands o (PTo r) srv conn e) (λ c,
    conn_safe c.1 ∧ conn_status_of c.1 ∈ [CONN_WRITING; CONN_ERROR]).
Proof.
  intros Hc Hb Hl Hq. unfold connection_commands. destruct Hcfg as (Hsrv & _).
  eapply safe_bind; [apply (request_parse_commands_safe _ _ _ bytes junk); [by rewrite Hsrv | done..]|].
  cbn beta. intros [[code c2] warns] E Hc2. cbn [fst snd] in Hc2. cbn beta iota zeta.
  case_decide as Hcode; [|split; [exact Hc2 | in_list]]. subst code.
  eapply safe_bind; [exact (safe_deref _ _ _ (proj1 Hc2))|]. intros req _ [Hreq _].
  eapply (safe_bind _ _ _ (λ c, conn_safe c.1)).
  - destruct (req_process req) eqn:Hp; [|exact Hc2].
    eapply safe_excuse; [by apply (connection_process_safe q)|].
    intros (req' & Hreq' & Hm). exists c2, warns, req'. rewrite Hreq in Hreq'. injection Hreq' as <-. done.
  - intros [c3 e3] _ Hc3. split; [exact Hc3 | in_list].
Qed.

Lemma connection_fill_safe X conn e :
  conn_safe conn → conn_buffer_len conn = Some 0 → conn_status_of conn = CONN_READING →
  safe X (connection_fill w srv conn e) (λ c, conn_safe c.1 ∧ env_sys c.2 = env_sys e ∧
    (conn_status_of c.1 = CONN_ERROR ∨ conn_status_of c.1 = CONN_READING ∧
     ∃ bytes junk, conn_read_buffer c.1 = PTo (bs bytes ++ None :: junk) ∧
       conn_buffer_len c.1 = Some (zlen bytes)) ∧
    ∃ len, conn_buffer_len c.1 = Some len).
Proof.
  intros (Hq & Hp & Hb) Hl Hst. destruct Hcfg as (Hsrv & Hmaster & Hread & _).
  unfold connection_fill. rewrite Hl, bind_Ok, Hsrv, Hmaster. cbn [deref]. rewrite bind_Ok.
  rewrite (decide_True (P := 0 = 0)), decide_True, Z.sub_0_r by lia.
  destruct (net_read w (read_buffer_size cfg)) as [bytes|] eqn:E.
  - pose proof (Hw _ _ E) as Hle. cbn [conn_set_buffer conn_read_buffer deref]. rewrite bind_Ok.
    rewrite bwrite_start, bind_Ok by (rewrite zlen_malloc, zlen_bs; lia).
    split_and!; [by split_and! | done | right; split; [exact Hst|] | by eexists].
    unfold malloc. rewrite drop_replicate.
    exists bytes, (replicate (Z.to_nat (read_buffer_size cfg) - length bytes) None). split; [|done].
    cbn [fst conn_set_buffer conn_read_buffer]. do 2 f_equal. rewrite <-replicate_S. f_equal.
    rewrite length_bs. unfold zlen in Hle. lia.
  - split_and!; [by split_and! | done | by left | by eexists].
Qed.

(** The excuse of one event: its read completes a message with too many
    headers. *)
Definition overlong_read (conn : connection) (e : env) : Prop :=
  ∃ c1 e1, connection_fill w srv conn e = Ok (c1, e1) ∧ overlong c1.

Lemma connection_read_safe q conn e :
  conn_safe conn → conn_buffer_len conn = Some 0 → conn_status_of conn = CONN_READING →
  Queue.holds n q (env_sys e) →
  safe (overlong_read conn e) (connection_read o w (PTo r) srv conn e) (λ c,
    conn_safe c.1 ∧ (conn_status_of c.1 = CONN_READING → conn_buffer_len c.1 = Some 0) ∧
    conn_status_of c.1 ∈ [CONN_READING; CONN_WRITING; CONN_ERROR]).
Proof.
  intros Hc Hl Hst Hq. unfold connection_read. eapply safe_bind; [by apply connection_fill_safe|].
  cbn beta. intros [c1 e1] E (Hc1 & Hsys & Hbuf & len & Hlen). cbn [fst snd] in *. rewrite Hlen, bind_Ok.
  case_decide as Hd.
  - destruct Hd as [_ Hne]. destruct Hbuf as [?|(_ & bytes & junk & Hb & Hbl)]; [done|].
    eapply safe_excuse; [eapply safe_mono; [apply (connection_commands_safe q _ _ bytes junk); [done..|by rewrite Hsys]|]
      | intros Ho; by exists c1, e1].
    intros c [H1 H2]. rewrite !elem_of_cons in H2.
    destruct H2 as [H2|[H2|[]%elem_of_nil]]; rewrite H2; (split_and!; [done | done | in_list]).
  - cbn [safe fst]. split_and!; [done | |].
    + intros Hr. destruct Hbuf as [Hbuf|(_ & bytes & junk & Hb & Hbl)]; [congruence|].
      rewrite Hlen in Hbl |- *. injection Hbl as ->. f_equal. pose proof (zlen_nonneg bytes).
      destruct (decide (zlen bytes = 0)); [done|]. destruct Hd. split; [lia | by rewrite Hr].
    + destruct Hbuf as [->|[-> _]]; in_list.
Qed.

Lemma connection_send_safe X limit resp :
  0 < limit → response_typed resp → safe X (connection_send w limit resp) anything.
Proof.
  intros Hlim Hr. unfold connection_send. unfold response_typed in Hr. case_decide.
  - eapply (safe_bind _ _ _ anything); [|intros m _ _; by eapply safe_bind; [apply safe_buf_bytes|]].
    destruct (resp_data resp) as [d|]; [eapply safe_mono; [apply safe_bread; lia | done]|].
    destruct (decide (resp_data_len resp = 0)); [done | by left].
  - destruct (resp_data resp) as [d|]; [|by left]. rewrite bind_Ok. destruct Hr as [Hz Hlen].
    eapply (safe_bind _ _ _ anything); [|done].
    apply (safe_cloop _ _ (λ s, 0 <= sd_sent s) (λ s, Z.to_nat (resp_data_len resp - sd_sent s)));
      [|done | cbn [sd_sent]; lia].
    intros s Hs. unfold send_step. case_decide; [|done].
    eapply safe_bind; [apply safe_bread; try case_bool_decide; lia|]. intros m _ _.
    eapply safe_bind; [apply safe_buf_bytes|]. intros bytes _ _.
    destruct (net_send _ _ _ _); [|done]. cbn [safe sd_sent]. case_bool_decide; lia.
Qed.

Lemma free_unless_null_safe {A} X (f : ptr A → res (ptr A)) p :
  (∀ a, safe X (f (PTo a)) anything) → points (λ _, True) p → safe X (free_unless_null f p) (λ p', p' = PNull).
Proof.
  intros Hf Hp. unfold free_unless_null. destruct p as [| | |a]; [by left | done | done|]. cbn [non_null].
  rewrite bind_Ok. by eapply safe_bind; [apply Hf|].
Qed.

Lemma request_init_safe : request_safe request_init.
Proof. split_and!; [apply request_init_typed | done | done]. Qed.

Lemma points_mono {A} (P Q : A → Prop) p : points P p → (∀ a, P a → Q a) → points Q p.
Proof. destruct p; simpl; auto. Qed.

Lemma connection_write_safe X conn e :
  conn_safe conn → safe X (connection_write w srv conn e) (λ c,
    conn_safe c.1 ∧ (conn_status_of c.1 = CONN_READING → conn_buffer_len c.1 = Some 0) ∧
    conn_status_of c.1 ∈ [CONN_READING; CONN_ERROR; CONN_CLOSED]).
Proof.
  intros (Hq & Hp & Hb). destruct Hcfg as (_ & Hmaster & _ & Hlim). unfold connection_write.
  eapply safe_bind; [exact (safe_deref _ _ _ Hp)|]. intros resp _ [Hresp Hr].
  rewrite Hmaster. eapply safe_bind; [by apply connection_send_safe|]. intros [[|] l] _ _; cbn [fst snd].
  { split_and!; [by split_and! | done | in_list]. }
  eapply safe_bind; [exact (safe_deref _ _ _ Hq)|]. intros req _ [Hreq Hrs].
  eapply (safe_bind _ _ _ (points request_safe)).
  { rewrite Hreq. destruct (req_in_data req); [exact Hrs|]. apply request_init_safe. }
  intros p _ Hp'. rewrite Hresp. unfold response_free at 1. cbn [deref cfree]. rewrite !bind_Ok.
  eapply safe_bind; [apply free_unless_null_safe; [done | exact Hb]|]. intros b _ ->.
  split_and!; [by split_and! | done |]. cbn [fst conn_status_of]. destruct (req_quit req); in_list.
Qed.

(** What a connection is between two events. *)
Definition slot_safe (c : connection) : Prop :=
  conn_safe c ∧ (conn_status_of c = CONN_INACTIVE ∨ conn_status_of c = CONN_READING ∧ conn_buffer_len c = Some 0).

Lemma connection_reset_safe X conn :
  conn_safe conn → safe X (connection_reset conn) slot_safe.
Proof.
  intros (Hq & Hp & Hb). unfold connection_reset.
  eapply safe_bind; [apply free_unless_null_safe; [done | exact Hb]|]. intros b _ ->.
  eapply safe_bind; [apply free_unless_null_safe; [done | by eapply points_mono]|]. intros q _ ->.
  eapply safe_bind; [apply free_unless_null_safe; [done | by eapply points_mono]|]. intros p _ ->.
  split; [by split_and! | by left].
Qed.

Lemma connection_close_safe X fd conn e :
  conn_safe conn → (conn_status_of conn = CONN_READING → conn_buffer_len conn = Some 0) →
  conn_status_of conn ∈ [CONN_READING; CONN_ERROR; CONN_CLOSED] →
  safe X (connection_close fd conn e) (λ c, slot_safe c.1).
Proof.
  intros Hc Hlen Hst. unfold connection_close. rewrite !elem_of_cons in Hst.
  destruct Hst as [Hst|[Hst|[Hst|[]%elem_of_nil]]];
    rewrite Hst; simpl; rewrite ?Hst; simpl; rewrite ?Hst; simpl.
  - split; [done | right; auto].
  - by eapply safe_bind; [by apply connection_reset_safe|].
  - by eapply safe_bind; [by apply connection_reset_safe|].
Qed.

(** One event: a connection that waits for bytes, or whose client hung up. *)
Lemma connection_handle_safe q fd conn e :
  conn_safe conn → Queue.holds n q (env_sys e) →
  conn_status_of conn = CONN_CLOSED ∨ conn_status_of conn = CONN_READING ∧ conn_buffer_len conn = Some 0 →
  safe (conn_status_of conn = CONN_READING ∧ overlong_read conn e)
    (connection_handle o w (PTo r) srv fd conn e) (λ c, slot_safe c.1).
Proof.
  intros Hc Hq Hst. set (X := _ ∧ _). unfold connection_handle.
  rewrite decide_False, bind_Ok by (by destruct Hst as [->|[-> _]]).
  apply (safe_bind _ _ _ (λ c, conn_safe c.1 ∧ (conn_status_of c.1 = CONN_READING → conn_buffer_len c.1 = Some 0) ∧
    conn_status_of c.1 ∈ [CONN_READING; CONN_WRITING; CONN_ERROR; CONN_CLOSED])).
  { destruct Hst as [Hst|[Hst Hlen]]; rewrite Hst.
    - rewrite decide_False by done. cbn [safe fst]. split_and!; [done | by rewrite Hst | rewrite Hst; in_list].
    - rewrite decide_True by done.
      eapply safe_excuse; [eapply safe_mono; [by apply (connection_read_safe q)|] | by split].
      intros c (H1 & H2 & H3). split_and!; [done..|].
      rewrite !elem_of_cons in H3. destruct H3 as [->|[->|[->|[]%elem_of_nil]]]; in_list. }
  intros [c2 e2] _ (H1 & H2 & H3). cbn [fst snd] in *.
  apply (safe_bind _ _ _ (λ c, conn_safe c.1 ∧ (conn_status_of c.1 = CONN_READING → conn_buffer_len c.1 = Some 0) ∧
    conn_status_of c.1 ∈ [CONN_READING; CONN_ERROR; CONN_CLOSED])).
  { case_decide as Hd; [by apply connection_write_safe|]. split_and!; [done..|].
    cbn [fst]. rewrite !elem_of_cons in H3.
    destruct H3 as [H3|[H3|[H3|[H3|[]%elem_of_nil]]]]; rewrite H3; first [done | in_list]. }
  intros [c3 e3] _ (H4 & H5 & H6). by apply connection_close_safe.
Qed.
End handler.
