(* ===== verification/Worker.v ===== *)
(** Worker: the event loop of a worker process, [src/src/worker.c], with the
    epoll wrappers of [src/src/events.c]; that it serves every client its own
    SMTP session. *)
From stdpp Require Import gmap.
From S2P Require Import Prelude Base Config Response Layout Queue QueueSys Request RequestData Connection.

#[local] Open Scope Z_scope.

(** ** events.c *)

Definition EPOLLIN : Z := 1.
Definition EPOLLRDHUP : Z := 8192.
Definition EPOLLET : Z := 2147483648.

(** [sizeof (struct epoll_event)], which is packed, and of a pointer. *)
Definition sizeof_epoll_event : Z := 12.
Definition sizeof_pointer : Z := 8.

Record epoll_event := EpollEvent {
  ev_events : Z;
  ev_fd : Z;
}.

(** [event_handler]: the descriptor and the array [events], which is allocated
    for pointers and given to [epoll_wait] as an array of structs: so many
    bytes, and whether its pointers were overwritten. *)
Record event_handler := EventHandler {
  eh_fd : Z;
  eh_bytes : Z;
  eh_clobbered : bool;
}.

(** [events_create (max_clients)]; [None] is the [exit (1)] after a failed
    [epoll_create]. *)
Definition events_create (epoll_create : Z → option Z) (clients : Z) : option event_handler :=
  match epoll_create clients with
  | None => None
  | Some fd => Some (EventHandler fd (Z.max 0 clients * sizeof_pointer) false)
  end.

(** [events_wait]: what [epoll_wait] reports is stored from the start of the
    array; [None] is its failure. *)
Definition events_wait {A} (eh : event_handler) (ready : option (list A)) : res (list A * event_handler) :=
  match ready with
  | None => Ok ([], eh)
  | Some l =>
      if decide (zlen l * sizeof_epoll_event <= eh_bytes eh)
      then Ok (l, EventHandler (eh_fd eh) (eh_bytes eh) (eh_clobbered eh || bool_decide (l ≠ [])))
      else Err OutOfBounds
  end.

(** [events_add_event (evhand, fd)] and [events_add_event_2], with the
    descriptor of [evhand]; [events_del_event] is [DelEvent].  A failure of
    [epoll_ctl] is reported by the caller. *)
Definition events_add_event (ep fd : Z) : action := AddEvent ep fd EPOLLIN.
Definition events_add_event_2 (ep fd : Z) : action :=
  AddEvent ep fd (Z.lor (Z.lor EPOLLIN EPOLLET) EPOLLRDHUP).

Definition events_closed (ev : epoll_event) : bool := bool_decide (Z.land (ev_events ev) EPOLLRDHUP ≠ 0).
Definition events_get_fd (ev : epoll_event) : Z := ev_fd ev.

(** [events_free]: frees the pointers of the array, which must be the ones
    that [malloc] returned. *)
Definition events_free (eh : event_handler) : res unit :=
  if eh_clobbered eh then Err OutOfBounds else Ok tt.

(** ** The loop of [worker_server] *)

(** The event of a descriptor, and how the socket then answers the calls of the
    handler. *)
Abbreviation turn := (epoll_event * net)%type.

(** The connection before its handler is called: the end announced, a new
    connection started, or as it is. *)
Definition worker_prepare (closed : bool) (conn : connection) : connection :=
  if closed then conn_set_status CONN_CLOSED conn
  else if decide (conn_status_of conn = CONN_INACTIVE)
  then conn_set_status CONN_READING (connection_start conn) else conn.

Section loop.
Context (o : os) (queue : ptr pq_ref) (srv : server).

Definition worker_event (t : turn) (s : list connection * env) : res (list connection * env) :=
  let '(conns, e) := s in
  let fd := events_get_fd t.1 in
  conn ← aload conns fd;
  r ← connection_handle o t.2 queue srv fd (worker_prepare (events_closed t.1) conn) e;
  conns' ← astore conns fd r.1;
  Ok (conns', r.2).

(** [for (i = 0; i < nfds; ++i)] *)
Fixpoint worker_batch (l : list turn) (s : list connection * env) : res (list connection * env) :=
  match l with
  | [] => Ok s
  | t :: l' => s' ← worker_event t s; worker_batch l' s'
  end.

(** [while (master_srv->running)]: the results of [epoll_wait] until the signal
    to stop. *)
Fixpoint worker_loop (batches : list (option (list turn))) (eh : event_handler)
    (s : list connection * env) : res (event_handler * (list connection * env)) :=
  match batches with
  | [] => Ok (eh, s)
  | b :: batches' =>
      r ← events_wait eh b;
      s' ← worker_batch r.1 s;
      worker_loop batches' r.2 s'
  end.

(** [worker_server] up to the end of its loop, and the clean-up; [None] is an
    early exit. *)
Definition worker_server (cfg : config) (epoll_create : Z → option Z)
    (batches : list (option (list turn))) (e : env) : res (option (event_handler * (list connection * env))) :=
  conns ← connection_setup cfg;
  match events_create epoll_create (max_clients cfg) with
  | None => Ok None
  | Some eh => r ← worker_loop batches eh (conns, e); Ok (Some r)
  end.

Definition worker_shutdown (eh : event_handler) : res unit := events_free eh.
End loop.

(** ** The specification: a session per client *)

(** The open sessions by descriptor, and the messages queued. *)
Abbreviation desk := (gmap Z smtp * list (list field * list byte))%type.

Inductive input :=
  | Data (bytes : list byte)   (** the next read delivers bytes *)
  | Failed                     (** the read fails *)
  | Hangup.                    (** the client ended the stream *)

(** The session that a descriptor's client is in. *)
Definition session_of (ss : gmap Z smtp) (fd : Z) : smtp := default smtp_init (ss !! fd).

(** What one event does: the reply, and the sessions and messages after it.
    [lim] is [data-buffer-size], [n] the size of the queue. *)
Inductive serve (lim n : Z) (fd : Z) : input → desk → list byte → desk → Prop :=
  | serve_talk bytes ss q m' :
      fits (session_of ss fd) bytes →
      smtp_run lim 0 bytes (session_of ss fd) = (m', false) → m_process m' = false →
      serve lim n fd (Data bytes) (ss, q) (m_out m')
        (if m_quit m' then delete fd ss else <[fd := next_session m']> ss, q)
  | serve_message bytes ss q m' fs body :
      fits (session_of ss fd) bytes →
      smtp_run lim 0 bytes (session_of ss fd) = (m', false) → m_process m' = true →
      m_data m' = message fs body → message_ok fs body →
      serve lim n fd (Data bytes) (ss, q) (m_out m')
        (delete fd ss, if decide (zlen q < n) then q ++ [(fs, body)] else q)
  | serve_refuse bytes ss q m' :
      fits (session_of ss fd) bytes →
      smtp_run lim 0 bytes (session_of ss fd) = (m', true) → m_process m' = false →
      serve lim n fd (Data bytes) (ss, q) [] (delete fd ss, q)
  | serve_failed ss q : serve lim n fd Failed (ss, q) [] (delete fd ss, q)
  | serve_hangup ss q : is_Some (ss !! fd) → serve lim n fd Hangup (ss, q) [] (delete fd ss, q).

(** A turn of the loop that brings an input: no keyword is cut by a read, and
    what the handler sends is not refused. *)
Definition brings (cfg : config) (t : turn) (i : input) : Prop :=
  0 <= events_get_fd t.1 < max_clients cfg * 2 ∧ (∀ j b f, net_send t.2 j b f ≠ None) ∧
  events_closed t.1 = (match i with Hangup => true | _ => false end) ∧
  match i with
  | Data bytes => net_read t.2 (read_buffer_size cfg) = Some bytes ∧
      zlen bytes <= read_buffer_size cfg ∧ bytes ≠ [] ∧ lookahead_safe bytes
  | Failed => net_read t.2 (read_buffer_size cfg) = None
  | Hangup => True
  end.

(** A sequence of turns, the replies being listed with their descriptors. *)
Inductive serves (cfg : config) (n : Z) : list turn → desk → list (Z * list byte) → desk → Prop :=
  | serves_nil d : serves cfg n [] d [] d
  | serves_cons t ts i d d1 d2 reply replies :
      brings cfg t i → serve (data_buffer_size cfg) n (events_get_fd t.1) i d reply d1 →
      serves cfg n ts d1 replies d2 →
      serves cfg n (t :: ts) d ((events_get_fd t.1, reply) :: replies) d2.

(** The bytes that actions send, and whether they end with the removal and the
    closing of a descriptor. *)
Definition sent (l : list action) : list byte :=
  concat ((λ a, match a with Send b _ => b | _ => [] end) <$> l).
Definition hangs_up (fd : Z) (l : list action) : Prop := [DelEvent fd; Close fd] `suffix_of` l.

(** ** Refinement *)

(** The slot of a descriptor: in its session, or inactive. *)
Definition slot_ok (ss : gmap Z smtp) (fd : Z) (c : connection) : Prop :=
  match ss !! fd with
  | Some m => session c m ∧ m_process m = false
  | None => conn_status_of c = CONN_INACTIVE
  end.

Definition queue_is (n : Z) (q : list (list field * list byte)) (e : env) : Prop :=
  ∃ ms, Queue.holds n ms (env_sys e) ∧ Forall2 (λ ml x, mail_is ml x.1 x.2) ms q.

Definition worker_rel (cfg : config) (n : Z) (s : list connection * env) (d : desk) : Prop :=
  zlen s.1 = max_clients cfg * 2 ∧
  (∀ j c, s.1 !! j = Some c → slot_ok d.1 (Z.of_nat j) c) ∧
  queue_is n d.2 s.2.

Lemma sent_app l k : sent (l ++ k) = sent l ++ sent k.
Proof. unfold sent. by rewrite fmap_app, concat_app. Qed.

Lemma sends_sent limit l bytes : sends limit l bytes → sent l = bytes.
Proof.
  intros (cs & -> & <- & _). unfold sent. f_equal. induction cs as [|[b f] cs IH]; [done|].
  rewrite !fmap_cons. by f_equal.
Qed.

(** A session that starts. *)
Lemma started_session c : session (conn_set_status CONN_READING (connection_start c)) smtp_init.
Proof.
  split_and!; try done; [|by exists response_init].
  exists request_init. split_and!; try done; apply request_init_blank.
Qed.

Lemma prepared_session ss fd c :
  slot_ok ss fd c →
  session (worker_prepare false c) (session_of ss fd) ∧ m_process (session_of ss fd) = false.
Proof.
  unfold slot_ok, session_of, worker_prepare. destruct (ss !! fd) as [m|]; cbn [default].
  - intros [Hs Hp]. rewrite decide_False; [done|]. destruct Hs as (_ & _ & _ & _ & ->). done.
  - intros ->. rewrite decide_True by done. split; [apply started_session | done].
Qed.

(** Closing what a session holds. *)
Lemma session_close fd c m st e :
  session c m → st ∈ [CONN_ERROR; CONN_CLOSED] →
  ∃ c', connection_close fd (conn_set_status st c) e = Ok (c', acts [DelEvent fd; Close fd] e) ∧ closed c'.
Proof.
  intros ((req & Hreq & _) & (r & Hr & _) & Hb & _) Hst.
  rewrite (connection_close_ok fd (conn_set_status st c) e req r []); [|done|done|by left|in_list].
  eexists. split; [done | by split_and!].
Qed.

Section refinement.
Context (o : os) (r : pq_ref) (n : Z) (srv : server) (cfg : config).
Hypothesis (Hcfg : configured srv cfg) (Hcov : covers r n).

(** What the handler of one event achieves. *)
Definition served (fd : Z) (ss : gmap Z smtp) (e : env) (reply : list byte) (d' : desk)
    (m : res (connection * env)) : Prop :=
  ∃ c' e' l, m = Ok (c', e') ∧ env_log e' = env_log e ++ l ∧ sent l = reply ∧
    (d'.1 !! fd = None → hangs_up fd l) ∧ slot_ok d'.1 fd c' ∧ queue_is n d'.2 e'.

Lemma closed_slot ss fd c : closed c → slot_ok (delete fd ss) fd c.
Proof. intros [Hc _]. unfold slot_ok. by rewrite lookup_delete_eq. Qed.

Lemma queue_is_acts q l e : queue_is n q e → queue_is n q (acts l e).
Proof. done. Qed.

Lemma served_talk w fd ss q c e bytes m' :
  (∀ i b f, net_send w i b f ≠ None) → slot_ok ss fd c → queue_is n q e →
  net_read w (read_buffer_size cfg) = Some bytes → zlen bytes <= read_buffer_size cfg →
  bytes ≠ [] → lookahead_safe bytes → fits (session_of ss fd) bytes →
  smtp_run (data_buffer_size cfg) 0 bytes (session_of ss fd) = (m', false) → m_process m' = false →
  served fd ss e (m_out m') (if m_quit m' then delete fd ss else <[fd := next_session m']> ss, q)
    (connection_handle o w (PTo r) srv fd (worker_prepare false c) e).
Proof.
  intros Hsend Hslot Hq Hread Hle Hne Hsafe Hfits Hrun Hp'.
  destruct (prepared_session ss fd c Hslot) as [Hs Hp].
  destruct (handle_talk o w (PTo r) srv cfg fd _ _ e bytes Hcfg Hsend Hs Hp Hread Hle Hne Hsafe Hfits
    ltac:(by rewrite Hrun)) as (c' & l & -> & H).
  rewrite Hrun in H. destruct H as (ls & Hls & -> & Hc).
  eexists c', _, _. split; [done|]. split; [done|]. rewrite sent_app, (sends_sent _ _ _ Hls).
  destruct (m_quit m'); cbn [fst snd].
  - split_and!; [by rewrite app_nil_r | intros _; by exists ls | by apply closed_slot | done].
  - split_and!; [by rewrite app_nil_r | by rewrite lookup_insert_eq | | done].
    unfold slot_ok. rewrite lookup_insert_eq. split; [done|]. unfold next_session. by destruct (m_in m').
Qed.

Lemma served_message w fd ss q c e bytes m' fs body :
  (∀ i b f, net_send w i b f ≠ None) → slot_ok ss fd c → queue_is n q e →
  net_read w (read_buffer_size cfg) = Some bytes → zlen bytes <= read_buffer_size cfg →
  bytes ≠ [] → lookahead_safe bytes → fits (session_of ss fd) bytes →
  smtp_run (data_buffer_size cfg) 0 bytes (session_of ss fd) = (m', false) → m_process m' = true →
  m_data m' = message fs body → message_ok fs body →
  served fd ss e (m_out m') (delete fd ss, if decide (zlen q < n) then q ++ [(fs, body)] else q)
    (connection_handle o w (PTo r) srv fd (worker_prepare false c) e).
Proof.
  intros Hsend Hslot (ms & Hms & Hq) Hread Hle Hne Hsafe Hfits Hrun Hp' Hdata Hmsg.
  destruct (prepared_session ss fd c Hslot) as [Hs Hp].
  destruct (handle_delivers o w r n srv cfg fd _ _ m' e ms bytes fs body Hcfg Hsend Hcov Hms Hs Hp
    Hread Hle Hne Hsafe Hfits Hrun Hp' Hdata Hmsg) as (ml & c' & ls & s' & Hml & -> & Hls & Hc & Hms').
  eexists c', _, _. split; [done|]. split; [done|]. cbn [fst snd].
  split_and!.
  - rewrite sent_app, sent_app, (sends_sent _ _ _ Hls), app_nil_r. by case_decide.
  - intros _. rewrite app_assoc. by eexists.
  - by apply closed_slot.
  - unfold queue_is. cbn [env_sys]. unfold fifo_step in Hms'.
    assert (zlen ms = zlen q) as Hlen by (unfold zlen; by rewrite (Forall2_length _ _ _ Hq)).
    rewrite <-Hlen. destruct (decide (zlen ms < n)) as [Hlt|Hge].
    + exists (ms ++ [ml]). split; [exact Hms'|apply Forall2_app; [done | by constructor]].
    + by exists ms.
Qed.

Lemma served_refuse w fd ss q c e bytes m' :
  (∀ i b f, net_send w i b f ≠ None) → slot_ok ss fd c → queue_is n q e →
  net_read w (read_buffer_size cfg) = Some bytes → zlen bytes <= read_buffer_size cfg →
  bytes ≠ [] → lookahead_safe bytes → fits (session_of ss fd) bytes →
  smtp_run (data_buffer_size cfg) 0 bytes (session_of ss fd) = (m', true) → m_process m' = false →
  served fd ss e [] (delete fd ss, q)
    (connection_handle o w (PTo r) srv fd (worker_prepare false c) e).
Proof.
  intros Hsend Hslot Hq Hread Hle Hne Hsafe Hfits Hrun Hp'.
  destruct (prepared_session ss fd c Hslot) as [Hs Hp].
  destruct (handle_talk o w (PTo r) srv cfg fd _ _ e bytes Hcfg Hsend Hs Hp Hread Hle Hne Hsafe Hfits
    ltac:(by rewrite Hrun)) as (c' & l & -> & H).
  rewrite Hrun in H. destruct H as (-> & Hc).
  eexists c', _, _. split_and!; try done; [|by apply closed_slot].
  intros _. by exists [Warn warn_data].
Qed.

Lemma served_failed w fd ss q c e :
  slot_ok ss fd c → queue_is n q e → net_read w (read_buffer_size cfg) = None →
  served fd ss e [] (delete fd ss, q)
    (connection_handle o w (PTo r) srv fd (worker_prepare false c) e).
Proof.
  intros Hslot Hq Hread. destruct (prepared_session ss fd c Hslot) as [Hs Hp].
  set (c0 := worker_prepare false c) in *. set (m := session_of ss fd) in *. clearbody c0 m.
  destruct Hcfg as (Hcf & Hmc & Hrb & _).
  destruct Hs as ((req & Hreq & Hrr) & (rs & Hrs & Hout) & Hb & Hbl & Hst).
  set (b := malloc (read_buffer_size cfg + 1)).
  assert (connection_read o w (PTo r) srv c0 e =
    Ok (conn_set_status CONN_ERROR (conn_set_buffer (PTo b) (Some 0) c0), e)) as Hr.
  { unfold connection_read, connection_fill. rewrite Hbl, bind_Ok, Hcf, Hmc. cbn [deref]. rewrite bind_Ok.
    rewrite (decide_True (P := 0 = 0)), decide_True by lia.
    rewrite Z.sub_0_r, Hread, bind_Ok. done. }
  destruct (connection_close_ok fd (conn_set_status CONN_ERROR (conn_set_buffer (PTo b) (Some 0) c0)) e
    req rs b Hreq Hrs ltac:(by right) ltac:(by left)).
  eexists _, _, [DelEvent fd; Close fd]. split.
  { unfold connection_handle. rewrite Hst. rewrite decide_False, bind_Ok by done.
    rewrite Hst, decide_True, Hr, bind_Ok by done. rewrite decide_False, bind_Ok by done.
    apply connection_close_ok with (req := req) (r := rs) (b := b); [done | done | by right | by left]. }
  split_and!; try done; [by intros _; exists [] | by apply closed_slot].
Qed.

Lemma served_hangup w fd ss q c e :
  slot_ok ss fd c → queue_is n q e → is_Some (ss !! fd) →
  served fd ss e [] (delete fd ss, q)
    (connection_handle o w (PTo r) srv fd (worker_prepare true c) e).
Proof.
  intros Hslot Hq [m Hm]. unfold slot_ok in Hslot. rewrite Hm in Hslot. destruct Hslot as [Hs _].
  destruct (session_close fd c m CONN_CLOSED e Hs ltac:(in_list)) as (c' & Hc & Hcl).
  eexists c', _, [DelEvent fd; Close fd]. split.
  { unfold connection_handle, worker_prepare.
    rewrite decide_False, bind_Ok by done. rewrite decide_False, bind_Ok by done.
    rewrite decide_False, bind_Ok by done. exact Hc. }
  split_and!; try done; [by intros _; exists [] | by apply closed_slot].
Qed.

(** The handler does what the specification says. *)
Lemma serve_served t i ss q c e reply d' :
  brings cfg t i → slot_ok ss (events_get_fd t.1) c → queue_is n q e →
  serve (data_buffer_size cfg) n (events_get_fd t.1) i (ss, q) reply d' →
  served (events_get_fd t.1) ss e reply d'
    (connection_handle o t.2 (PTo r) srv (events_get_fd t.1) (worker_prepare (events_closed t.1) c) e).
Proof.
  intros (_ & Hsend & -> & Hi) Hslot Hq Hserve. inversion Hserve; subst; try destruct Hi as (? & ? & ? & ?).
  - by eapply served_talk.
  - by eapply served_message.
  - by eapply served_refuse.
  - by apply served_failed.
  - by apply served_hangup.
Qed.

(** Only the session of the event's descriptor changes. *)
Lemma serve_others lim fd i d reply d' fd' :
  serve lim n fd i d reply d' → fd' ≠ fd → d'.1 !! fd' = d.1 !! fd'.
Proof.
  intros H Hne. inversion H; subst; cbn [fst]; rewrite ?lookup_delete_ne by done; try done.
  destruct (m_quit m'); [by rewrite lookup_delete_ne | by rewrite lookup_insert_ne].
Qed.

Lemma worker_event_serves t i s d reply d' :
  brings cfg t i → worker_rel cfg n s d → serve (data_buffer_size cfg) n (events_get_fd t.1) i d reply d' →
  ∃ s' l, worker_event o (PTo r) srv t s = Ok s' ∧ worker_rel cfg n s' d' ∧
    env_log s'.2 = env_log s.2 ++ l ∧ sent l = reply ∧
    (d'.1 !! events_get_fd t.1 = None → hangs_up (events_get_fd t.1) l).
Proof.
  intros Hb (Hlen & Hslots & Hq) Hserve. destruct s as [conns e], d as [ss q]. cbn [fst snd] in *.
  set (fd := events_get_fd t.1) in *. destruct (proj1 Hb) as [Hfd Hlt].
  destruct (lookup_lt_is_Some_2 conns (Z.to_nat fd)) as [c Hc]; [unfold zlen in Hlen; lia|].
  pose proof (Hslots _ _ Hc) as Hslot. rewrite Z2Nat.id in Hslot by done.
  destruct (serve_served t i ss q c e reply d' Hb Hslot Hq Hserve)
    as (c' & e' & l & Hh & Hlog & Hsent & Hup & Hslot' & Hq').
  exists (<[Z.to_nat fd := c']> conns, e'), l. split.
  { unfold worker_event. fold fd. rewrite (aload_lookup _ _ c), bind_Ok by done.
    fold fd in Hh. rewrite Hh, bind_Ok. unfold astore. by rewrite decide_True by lia. }
  split_and!; try done. unfold worker_rel. cbn [fst snd]. split_and!; [by rewrite zlen_insert | | done].
  intros j cj Hj. destruct (decide (j = Z.to_nat fd)) as [->|Hne].
  - rewrite list_lookup_insert_eq in Hj by (unfold zlen in Hlen; lia). injection Hj as <-.
    by rewrite Z2Nat.id.
  - rewrite list_lookup_insert_ne in Hj by done. specialize (Hslots _ _ Hj). unfold slot_ok in *.
    by rewrite (serve_others _ _ _ _ _ _ (Z.of_nat j) Hserve) by lia.
Qed.

(** A whole batch. *)
Definition replied (ls : list (list action)) (replies : list (Z * list byte)) : Prop :=
  Forall2 (λ l p, sent l = p.2) ls replies.

Lemma worker_batch_serves ts s d replies d' :
  worker_rel cfg n s d → serves cfg n ts d replies d' →
  ∃ s' ls, worker_batch o (PTo r) srv ts s = Ok s' ∧ worker_rel cfg n s' d' ∧
    env_log s'.2 = env_log s.2 ++ concat ls ∧ replied ls replies.
Proof.
  intros Hrel Hs. revert s Hrel. induction Hs as [d|t ts i d d1 d2 reply replies Hb Hserve _ IH]; intros s Hrel.
  - exists s, []. split_and!; [done | done | by rewrite app_nil_r | constructor].
  - destruct (worker_event_serves t i s d reply d1 Hb Hrel Hserve) as (s1 & l & H1 & Hrel1 & Hlog & Hsent & _).
    destruct (IH s1 Hrel1) as (s2 & ls & H2 & Hrel2 & Hlog2 & Hls). exists s2, (l :: ls). split.
    { cbn [worker_batch]. by rewrite H1, bind_Ok. }
    split_and!; [done | by rewrite Hlog2, Hlog, <-app_assoc | by constructor].
Qed.

Lemma serves_app ts ts' d replies d' :
  serves cfg n (ts ++ ts') d replies d' →
  ∃ d1 r1 r2, replies = r1 ++ r2 ∧ serves cfg n ts d r1 d1 ∧ serves cfg n ts' d1 r2 d'.
Proof.
  revert d replies. induction ts as [|t ts IH]; intros d replies H.
  - exists d, [], replies. split_and!; [done | constructor | done].
  - inversion H as [|? ? i ? da ? reply rs Hb Hs Hr]; subst.
    destruct (IH da rs Hr) as (d1 & r1 & r2 & -> & H1 & H2).
    exists d1, ((events_get_fd t.1, reply) :: r1), r2. split_and!; [done | | done]. by econstructor.
Qed.

(** The turns of the batches, and batches that fit the array of events. *)
Definition turns (batches : list (option (list turn))) : list turn := concat (default [] <$> batches).
Definition batches_fit (eh : event_handler) (batches : list (option (list turn))) : Prop :=
  Forall (λ b, zlen (default [] b) * sizeof_epoll_event <= eh_bytes eh) batches.

Lemma worker_loop_serves batches eh s d replies d' :
  worker_rel cfg n s d → batches_fit eh batches → serves cfg n (turns batches) d replies d' →
  ∃ eh' s' ls, worker_loop o (PTo r) srv batches eh s = Ok (eh', s') ∧ worker_rel cfg n s' d' ∧
    env_log s'.2 = env_log s.2 ++ concat ls ∧ replied ls replies.
Proof.
  intros Hrel Hfit. revert eh s d replies Hrel Hfit. induction batches as [|b batches IH]; intros eh s d replies Hrel Hfit Hs.
  - destruct (worker_batch_serves [] s d replies d' Hrel Hs) as (s' & ls & [= <-] & H). by exists eh, s, ls.
  - apply Forall_cons in Hfit as [Hb Hfit]. apply serves_app in Hs as (d1 & r1 & r2 & -> & H1 & H2).
    destruct (worker_batch_serves _ s d r1 d1 Hrel H1) as (s1 & l1 & E1 & Hrel1 & Hlog1 & Hr1).
    assert (∃ eh1, events_wait eh b = Ok (default [] b, eh1) ∧ eh_bytes eh1 = eh_bytes eh) as (eh1 & Ew & Eb).
    { destruct b as [l|]; cbn [events_wait default] in *; [|by exists eh].
      rewrite decide_True by done. by eexists. }
    destruct (IH eh1 s1 d1 r2 Hrel1 ltac:(unfold batches_fit; by rewrite Eb) H2)
      as (eh2 & s2 & l2 & E2 & Hrel2 & Hlog2 & Hr2).
    exists eh2, s2, (l1 ++ l2). split.
    { cbn [worker_loop]. rewrite Ew, bind_Ok. cbn [fst snd]. by rewrite E1, bind_Ok, E2. }
    split_and!; [done | by rewrite Hlog2, Hlog1, concat_app, app_assoc | by apply Forall2_app].
Qed.
End refinement.

Lemma worker_setup_rel cfg n e :
  0 <= max_clients cfg * 2 <= INT_MAX → Queue.holds n [] (env_sys e) →
  ∃ conns, connection_setup cfg = Ok conns ∧ worker_rel cfg n (conns, e) (∅, []).
Proof.
  intros Hmax Hq. unfold connection_setup. rewrite i32_ok by (unfold INT_MIN; lia). rewrite bind_Ok.
  eexists. split; [done|]. unfold worker_rel. cbn [fst snd]. split_and!.
  - rewrite zlen_fmap. unfold zlen. rewrite length_seq. lia.
  - intros j c (i & -> & _)%list_lookup_fmap_Some. unfold slot_ok. by rewrite lookup_empty.
  - exists []. by split.
Qed.

(** An early end of the stream: a client that hangs up before it sent anything
    meets a connection whose pointers were never assigned. *)
Lemma worker_hangup_uninit o queue srv cfg t e conns :
  0 <= max_clients cfg * 2 <= INT_MAX → connection_setup cfg = Ok conns →
  0 <= events_get_fd t.1 < max_clients cfg * 2 → events_closed t.1 = true →
  worker_event o queue srv t (conns, e) = Err Uninit.
Proof.
  intros Hmax Hsetup [Hfd Hlt] Hcl. unfold connection_setup in Hsetup.
  rewrite i32_ok, bind_Ok in Hsetup by (unfold INT_MIN; lia). injection Hsetup as <-.
  unfold worker_event. erewrite aload_lookup; [|done|].
  2:{ rewrite list_lookup_fmap, lookup_seq_lt by lia. done. }
  rewrite bind_Ok, Hcl. unfold worker_prepare, connection_handle.
  rewrite decide_False, bind_Ok by done. rewrite decide_False, bind_Ok by done.
  by rewrite decide_False, bind_Ok by done.
Qed.

(** The array of events holds pointers of [malloc] no longer once an event was
    stored in it: the clean-up frees what the kernel wrote. *)
Lemma worker_shutdown_clobbered (eh : event_handler) (l : list turn) l' eh' :
  l ≠ [] → events_wait eh (Some l) = Ok (l', eh') → worker_shutdown eh' = Err OutOfBounds.
Proof.
  intros Hl. unfold events_wait. case_decide; [|done]. intros [= _ <-].
  unfold worker_shutdown, events_free. cbn [eh_clobbered]. rewrite bool_decide_true by done.
  by rewrite orb_true_r.
Qed.

(** [worker_server] from its start. *)
Lemma worker_server_serves o r n srv cfg epoll_create epfd batches e replies d :
  configured srv cfg → covers r n → Queue.holds n [] (env_sys e) →
  0 <= max_clients cfg * 2 <= INT_MAX → epoll_create (max_clients cfg) = Some epfd →
  Forall (λ b, zlen (default [] b) * 12 <= max_clients cfg * 8) batches →
  serves cfg n (turns batches) (∅, []) replies d →
  ∃ eh s ls, worker_server o (PTo r) srv cfg epoll_create batches e = Ok (Some (eh, s)) ∧
    worker_rel cfg n s d ∧ env_log s.2 = env_log e ++ concat ls ∧ replied ls replies.
Proof.
  intros Hcfg Hcov Hq Hmax Hep Hfit Hs.
  destruct (worker_setup_rel cfg n e Hmax Hq) as (conns & Hsetup & Hrel).
  destruct (worker_loop_serves o r n srv cfg Hcfg Hcov batches
    (EventHandler epfd (Z.max 0 (max_clients cfg) * sizeof_pointer) false) (conns, e) (∅, []) replies d Hrel)
    as (eh & s & ls & Hl & Hrel' & Hlog & Hr); [|done|].
  { eapply Forall_impl; [exact Hfit|]. intros b. cbn beta. cbn [eh_bytes].
    unfold sizeof_epoll_event, sizeof_pointer. lia. }
  exists eh, s, ls. split; [|done]. unfold worker_server. rewrite Hsetup, bind_Ok.
  unfold events_create. rewrite Hep. by rewrite Hl.
Qed.

(** C4: A worker serves every client its own session.  Whatever the order in
    which the events of its clients arrive, [worker_server] from its start
    faults nowhere and does what the specification says for each of them: the
    bytes a client sends are a step of the SMTP session of its own descriptor,
    which starts with its first bytes and ends with QUIT, a message, a refusal,
    an error or the end of the stream; the reply sent is that session's, in
    the order of the events; a completed message is put into the queue, in
    order, with the sender's fields and body, unless the queue holds [n]
    messages already - then it is dropped, and answered 250 like the others;
    and every slot of the table is in its session or inactive.  The events of
    [serves] are reads that cut no keyword, the messages that they complete
    being fields and a body that fit a [mail] ([message_ok]), failed reads, and
    the end of a stream whose client has an open session.  Not among them are
    the reads that end inside a keyword (C38), other messages (C10), and clients
    that hang up before they sent anything ([worker_hangup_uninit]). *)
Theorem worker_serves_sessions o r n srv cfg epoll_create epfd batches e replies d :
  configured srv cfg → covers r n → Queue.holds n [] (env_sys e) →
  0 <= max_clients cfg * 2 <= INT_MAX → epoll_create (max_clients cfg) = Some epfd →
  Forall (λ b, zlen (default [] b) * 12 <= max_clients cfg * 8) batches →
  serves cfg n (turns batches) (∅, []) replies d →
  ∃ eh s ls, worker_server o (PTo r) srv cfg epoll_create batches e = Ok (Some (eh, s)) ∧
    worker_rel cfg n s d ∧ env_log s.2 = env_log e ++ concat ls ∧ replied ls replies.
Proof. apply worker_server_serves. Qed.

(** ** Witness: two clients at once *)

Definition ex_small : config := set_queue_size 2 (set_max_clients 8 config_init).
Definition ex_small_server : server := Server (PTo ex_small) ex_small.
Definition ex_turn (fd : Z) (bytes : list byte) : turn := (EpollEvent EPOLLIN fd, ex_net bytes 1000).
Definition ex_bye (fd : Z) : turn := (EpollEvent (Z.lor EPOLLIN EPOLLRDHUP) fd, ex_net [] 1000).
Definition ex_batches : list (option (list turn)) := [
  Some [ex_turn 5 (lit "EHLO a" ++ crlf); ex_turn 6 (lit "EHLO b" ++ crlf)]; None;
  Some [ex_turn 6 (lit "MAIL FROM:<b@b>" ++ crlf); ex_turn 5 ex_upload]; Some [ex_bye 6]].
Definition ex_desk : desk := (∅, [(ex_fields, lit "report")]).

(** A turn that delivers bytes. *)
Lemma ex_turn_brings fd bytes :
  0 <= fd < 16 → zlen bytes <= 4046 → bytes ≠ [] → lookahead_safe bytes →
  brings ex_small (ex_turn fd bytes) (Data bytes).
Proof.
  intros Hfd Hlen Hne Hsafe. split; [exact Hfd|]. split; [done|]. split; [done|].
  by split_and!.
Qed.

(** The rules with their results as equations. *)
Lemma serve_talk_eq lim n fd bytes ss q m' reply d :
  fits (session_of ss fd) bytes → smtp_run lim 0 bytes (session_of ss fd) = (m', false) →
  m_process m' = false → reply = m_out m' →
  d = (if m_quit m' then delete fd ss else <[fd := next_session m']> ss, q) →
  serve lim n fd (Data bytes) (ss, q) reply d.
Proof. intros ? ? ? -> ->. by apply serve_talk. Qed.

Lemma serve_message_eq lim n fd bytes ss q m' fs body reply d :
  fits (session_of ss fd) bytes → smtp_run lim 0 bytes (session_of ss fd) = (m', false) →
  m_process m' = true → m_data m' = message fs body → message_ok fs body → reply = m_out m' →
  d = (delete fd ss, if decide (zlen q < n) then q ++ [(fs, body)] else q) →
  serve lim n fd (Data bytes) (ss, q) reply d.
Proof. intros ? ? ? ? ? -> ->. by eapply serve_message. Qed.

Lemma ex_serves :
  serves ex_small 2 (turns ex_batches) (∅, [])
    [(5, re_ehlo); (6, re_ehlo); (6, re_ok);
     (5, re_ehlo ++ re_ok ++ re_ok ++ re_data ++ re_queued); (6, [])] ex_desk.
Proof.
  change (turns ex_batches) with [ex_turn 5 (lit "EHLO a" ++ crlf); ex_turn 6 (lit "EHLO b" ++ crlf);
    ex_turn 6 (lit "MAIL FROM:<b@b>" ++ crlf); ex_turn 5 ex_upload; ex_bye 6].
  eapply serves_cons; [apply ex_turn_brings; by_compute | |].
  { eapply serve_talk_eq; [split; by_compute | vm_compute; reflexivity | reflexivity | vm_compute; reflexivity | reflexivity]. }
  eapply serves_cons; [apply ex_turn_brings; by_compute | |].
  { eapply serve_talk_eq; [split; by_compute | vm_compute; reflexivity | reflexivity | vm_compute; reflexivity | reflexivity]. }
  eapply serves_cons; [apply ex_turn_brings; by_compute | |].
  { eapply serve_talk_eq; [split; by_compute | vm_compute; reflexivity | reflexivity | vm_compute; reflexivity | reflexivity]. }
  eapply serves_cons; [apply ex_turn_brings; by_compute | |].
  { eapply (serve_message_eq _ _ _ _ _ _ _ ex_fields (lit "report"));
      [split; by_compute | vm_compute; reflexivity | reflexivity | reflexivity | | vm_compute; reflexivity | reflexivity].
    split_and!; [done | by_compute | by_compute | by_compute | intros c [= <-]; by_compute | by_compute]. }
  change (6, []) with (events_get_fd (ex_bye 6).1, @nil byte).
  eapply (serves_cons _ _ _ _ Hangup); [split; [by_compute | by split_and!] | |].
  { apply serve_hangup. vm_compute. by eexists. }
  exact (serves_nil _ _ ex_desk).
Qed.

Lemma worker_serves_sessions_witness :
  ∃ eh s ls, worker_server ex_os (PTo ex_ref) ex_small_server ex_small (λ _, Some 9) ex_batches ex_env =
      Ok (Some (eh, s)) ∧ worker_rel ex_small 2 s ex_desk ∧
    sent <$> ls = [re_ehlo; re_ehlo; re_ok; re_ehlo ++ re_ok ++ re_ok ++ re_data ++ re_queued; []].
Proof.
  destruct (worker_serves_sessions ex_os ex_ref 2 ex_small_server ex_small (λ _, Some 9) 9 ex_batches
    ex_env _ ex_desk ltac:(by split_and!) ex_covers ex_queue_holds ltac:(by_compute) eq_refl
    ltac:(by_compute) ex_serves) as (eh & s & ls & H & Hrel & _ & Hr).
  exists eh, s, ls. split; [exact H|]. split; [exact Hrel|].
  unfold replied in Hr. repeat (let a := fresh in apply Forall2_cons_inv_r in Hr as (? & ? & a & Hr & ->);
    cbn [snd] in a; rewrite fmap_cons, a; f_equal). by apply Forall2_nil_inv_r in Hr as ->.
Defined.
