(* ===== verification/WorkerEnds.v ===== *)
(** WorkerEnds: whatever a worker's clients send and in whatever order, its
    handlers end, its memory stays well-typed and its queue well-formed; and
    which faults can stop it. *)
From S2P Require Import Prelude Base Config Response Layout Ends Socket Queue QueueSys Request RequestData Connection.
From S2P Require Import ConnectionEnds ConnectionSafe Worker.

(** ** Any configuration: the handlers end *)

Section worker.
Context (o : os) (queue : ptr pq_ref) (srv : server).
Hypothesis (Hw : write_buffer_size (srv_master_config srv) ≠ 0).
Hypothesis (Hsmall : ∀ cfg, srv_config srv = PTo cfg → small_texts cfg).
Abbreviation size := (read_size (srv_master_config srv)).

Lemma worker_prepare_typed closed conn : conn_typed size conn → conn_typed size (worker_prepare closed conn).
Proof.
  intros Hc. unfold worker_prepare. destruct closed; [done|]. case_decide; [|done].
  split_and!; intros ? [= <-]. apply request_init_typed. done.
Qed.

(** The table of connections is well-typed, and the queue only grows. *)
Definition table_keeps (s s' : list connection * env) : Prop :=
  Forall (conn_typed size) s.1 →
  Forall (conn_typed size) s'.1 ∧ zlen s'.1 = zlen s.1 ∧ queue_grew queue (env_sys s.2) (env_sys s'.2).

Lemma table_keeps_refl s : table_keeps s s.
Proof. intros H. split_and!; [done | done | apply queue_grew_refl]. Qed.

Lemma table_keeps_trans s1 s2 s3 : table_keeps s1 s2 → table_keeps s2 s3 → table_keeps s1 s3.
Proof.
  intros H1 H2 H. destruct (H1 H) as (Hf1 & Hl1 & G1). destruct (H2 Hf1) as (Hf2 & Hl2 & G2).
  split_and!; [done | by rewrite Hl2 | by eapply queue_grew_trans].
Qed.

Lemma worker_event_ends t s : ends (worker_event o queue srv t s) (table_keeps s).
Proof.
  destruct s as [conns e]. unfold worker_event. set (fd := events_get_fd t.1).
  eapply ends_bind; [apply ends_aload|]. intros c [Hfd Hc].
  eapply ends_bind; [by apply connection_handle_keeps|]. intros [c' e'] H.
  eapply ends_bind; [apply ends_astore|]. intros conns' [-> Hlt] Ht. cbn [fst snd] in *.
  destruct H as [Hc' G]; [by intros _ | apply worker_prepare_typed; by eapply Forall_lookup_1 |].
  split_and!; [by apply Forall_insert | apply zlen_insert | exact G].
Qed.

Lemma worker_batch_ends l s : ends (worker_batch o queue srv l s) (table_keeps s).
Proof.
  revert s. induction l as [|t l IH]; intros s; [apply table_keeps_refl|].
  eapply ends_bind; [apply worker_event_ends|]. intros s1 H1.
  eapply ends_mono; [apply IH|]. intros s2. by apply table_keeps_trans.
Qed.

Lemma events_wait_ends {A} eh (b : option (list A)) : ends (events_wait eh b) anything.
Proof. unfold events_wait. by ends_auto. Qed.

Lemma worker_loop_ends batches eh s : ends (worker_loop o queue srv batches eh s) (λ r, table_keeps s r.2).
Proof.
  revert eh s. induction batches as [|b batches IH]; intros eh s; [apply table_keeps_refl|].
  eapply ends_bind; [apply events_wait_ends|]. intros r _.
  eapply ends_bind; [apply worker_batch_ends|]. intros s1 H1.
  eapply ends_mono; [apply IH|]. intros r2. by apply table_keeps_trans.
Qed.
End worker.

(** Fresh connections: no pointer was assigned. *)
Lemma connection_setup_typed cfg size :
  ends (connection_setup cfg) (λ conns, Forall (conn_typed size) conns ∧ zlen conns = Z.max 0 (max_clients cfg * 2)).
Proof.
  unfold connection_setup. ends_auto. subst. split.
  - apply Forall_fmap, Forall_forall. by intros i _.
  - rewrite zlen_fmap. unfold zlen. rewrite length_seq. lia.
Qed.

(** Whatever the configuration of the server and the answers of the system, the
    worker ends with its batches, its memory well-typed, or runs into a fault
    of the program. *)
Lemma worker_server_ends o r n srv cfg epoll_create batches e q :
  write_buffer_size (srv_master_config srv) ≠ 0 → (∀ c, srv_config srv = PTo c → small_texts c) →
  covers r n → Queue.holds n q (env_sys e) →
  ends (worker_server o (PTo r) srv cfg epoll_create batches e) (λ x, match x with
    | Some (eh, s) => zlen s.1 = Z.max 0 (max_clients cfg * 2) ∧
        Forall (conn_typed (read_size (srv_master_config srv))) s.1 ∧ ∃ l, Queue.holds n (q ++ l) (env_sys s.2)
    | None => epoll_create (max_clients cfg) = None end).
Proof.
  intros Hw Hsmall Hcov Hq. unfold worker_server.
  eapply ends_bind; [apply connection_setup_typed|]. intros conns [Hc Hl].
  destruct (events_create _ _) as [eh|] eqn:E.
  - eapply ends_bind; [by apply worker_loop_ends|]. intros [eh' s] H. cbn [ends snd] in *.
    destruct (H Hc) as (Hc' & Hl' & G). split_and!; [by rewrite Hl' | done | by apply (G r n q)].
  - cbn [ends]. unfold events_create in E. by destruct (epoll_create (max_clients cfg)).
Qed.

(** ** A running configuration: what can stop it *)

Section safe.
Context (o : os) (r : pq_ref) (n : Z) (srv : server) (cfg : config) (q0 : list mail).
Hypothesis (Hcfg : configured srv cfg) (Hcov : covers r n).
Abbreviation size := (read_size (srv_master_config srv)).
Abbreviation queue := (PTo r).

(** The table of connections between two events, and the queue. *)
Definition table_safe (s : list connection * env) : Prop :=
  Forall (λ c, slot_safe c ∧ conn_typed size c) s.1 ∧ ∃ l, Queue.holds n (q0 ++ l) (env_sys s.2).

(** A turn of the loop with a descriptor of the table, whose socket delivers no
    more than it was asked for. *)
Definition turn_ok (len : Z) (t : turn) : Prop := 0 <= events_get_fd t.1 < len ∧ net_ok t.2.

(** This turn reads from its connection, and the read completes a message with
    too many headers. *)
Definition overlong_turn (t : turn) (s : list connection * env) : Prop :=
  ∃ c, s.1 !! Z.to_nat (events_get_fd t.1) = Some c ∧
    let c0 := worker_prepare (events_closed t.1) c in
    conn_status_of c0 = CONN_READING ∧ overlong_read t.2 srv c0 s.2.

(** One of the turns does, after those before it. *)
Definition overlong_turns (l : list turn) (s : list connection * env) : Prop :=
  ∃ l1 t l2 s1, l = l1 ++ t :: l2 ∧ worker_batch o queue srv l1 s = Ok s1 ∧ overlong_turn t s1.

Lemma worker_prepare_safe closed c :
  slot_safe c → let c' := worker_prepare closed c in
  conn_safe c' ∧ (conn_status_of c' = CONN_CLOSED ∨ conn_status_of c' = CONN_READING ∧ conn_buffer_len c' = Some 0).
Proof.
  intros [Hc Hst]. unfold worker_prepare. destruct closed; [by split; [|left]|].
  case_decide as Hi; [by split; [split_and!; [apply request_init_safe | done..] | right]|].
  split; [done|]. right. by destruct Hst.
Qed.

Lemma worker_event_safe t s :
  turn_ok (zlen s.1) t → table_safe s →
  safe (overlong_turn t s) (worker_event o queue srv t s) (λ s', table_safe s' ∧ zlen s'.1 = zlen s.1).
Proof.
  destruct s as [conns e]. cbn [fst]. intros [Hfd Hnet] [Hs [l Hq]]. cbn [fst snd] in *. unfold worker_event.
  set (fd := events_get_fd t.1) in *. eapply safe_bind; [by apply safe_aload|]. cbn beta. intros c _ Hc.
  destruct (Forall_lookup_1 _ _ _ _ Hs Hc) as [Hslot Hty].
  set (c0 := worker_prepare (events_closed t.1) c).
  destruct (worker_prepare_safe (events_closed t.1) c Hslot) as [Hsafe Hst]. fold c0 in Hsafe, Hst.
  assert (conn_typed size c0) as Hty0 by by apply worker_prepare_typed.
  assert (0 < write_buffer_size (srv_master_config srv)) as Hwb by by destruct Hcfg as (_ & -> & _ & ?).
  eapply safe_bind.
  { eapply safe_ends; [eapply safe_excuse; [by apply (connection_handle_safe o t.2 r n srv cfg Hcfg Hnet Hcov (q0 ++ l))|]
      | apply connection_handle_keeps; lia].
    intros [Hr Ho]. by exists c. }
  intros [c' e'] _ [Hslot' Hk]. cbn [fst snd] in *.
  destruct Hk as [Hty' G]; [by destruct Hst as [->|[-> _]] | done |].
  destruct (G r n (q0 ++ l) eq_refl Hcov Hq) as [l' Hq'].
  eapply safe_bind; [by apply safe_astore|]. cbn beta. intros conns' _ ->. cbn [safe fst snd].
  split; [|apply zlen_insert]. split; [by apply Forall_insert | exists (l ++ l'); by rewrite app_assoc].
Qed.

Lemma worker_batch_safe l s :
  Forall (turn_ok (zlen s.1)) l → table_safe s →
  safe (overlong_turns l s) (worker_batch o queue srv l s) (λ s', table_safe s' ∧ zlen s'.1 = zlen s.1).
Proof.
  revert s. induction l as [|t l IH]; intros s Hl Hs; [done|]. apply Forall_cons in Hl as [Ht Hl].
  cbn [worker_batch]. eapply safe_bind.
  { eapply safe_excuse; [by apply worker_event_safe|]. intros Ho. by exists [], t, l, s. }
  cbn beta. intros s1 E [Hs1 Hlen]. rewrite <-Hlen in Hl |- *.
  eapply safe_excuse; [by apply IH|]. intros (l1 & t' & l2 & s2 & -> & E2 & Ho).
  exists (t :: l1), t', l2, s2. split_and!; [done | by cbn [worker_batch]; rewrite E, bind_Ok | done].
Qed.

Lemma worker_batch_app l1 l2 s s1 :
  worker_batch o queue srv l1 s = Ok s1 → worker_batch o queue srv (l1 ++ l2) s = worker_batch o queue srv l2 s1.
Proof.
  revert s. induction l1 as [|t l1 IH]; intros s; cbn [worker_batch app]; [by intros [= ->]|].
  intros (s' & -> & H)%bind_Ok_inv. rewrite bind_Ok. by apply IH.
Qed.

Lemma worker_loop_safe batches eh s :
  batches_fit eh batches → Forall (turn_ok (zlen s.1)) (turns batches) → table_safe s →
  safe (overlong_turns (turns batches) s) (worker_loop o queue srv batches eh s)
    (λ x, table_safe x.2 ∧ zlen x.2.1 = zlen s.1).
Proof.
  revert eh s. induction batches as [|b batches IH]; intros eh s Hfit Ht Hs; [done|].
  apply Forall_cons in Hfit as [Hb Hfit]. change (turns (b :: batches)) with (default [] b ++ turns batches) in *.
  apply Forall_app in Ht as [Ht1 Ht2]. cbn [worker_loop].
  assert (∃ eh1, events_wait eh b = Ok (default [] b, eh1) ∧ eh_bytes eh1 = eh_bytes eh) as (eh1 & -> & Eb).
  { destruct b as [l|]; cbn [events_wait default] in *; [|by exists eh]. rewrite decide_True by done. by eexists. }
  rewrite bind_Ok. cbn [fst snd]. eapply safe_bind.
  { eapply safe_excuse; [by apply worker_batch_safe|]. intros (l1 & t & l2 & s1 & -> & E & Ho).
    exists l1, t, (l2 ++ turns batches), s1. by rewrite <-app_assoc. }
  cbn beta. intros s1 E [Hs1 Hlen]. rewrite <-Hlen in Ht2 |- *.
  eapply safe_excuse; [apply IH; [unfold batches_fit; by rewrite Eb | done..]|].
  intros (l1 & t & l2 & s2 & -> & E2 & Ho). exists (default [] b ++ l1), t, l2, s2.
  split_and!; [by rewrite app_assoc | by rewrite (worker_batch_app _ _ _ _ E) | done].
Qed.
End safe.

(** ** Properties *)


(** ** Witness: bytes that are not SMTP, and a read that fails; a message with
    more headers than there is room for *)

Definition ex_client (bytes : list byte) : net :=
  Net (λ n, if decide (0 <= n) then Some (take (Z.to_nat n) bytes) else None) (λ _ b _, Some (zlen b)).
Definition ex_sends (fd : Z) (bytes : list byte) : turn := (EpollEvent EPOLLIN fd, ex_client bytes).

Definition ex_hostile : list (option (list turn)) := [
  Some [ex_sends 5 (xff :: x00 :: lit "nonsense" ++ crlf ++ lit "." ++ crlf); ex_sends 6 (x00 :: crlf)]; None;
  Some [(EpollEvent EPOLLIN 5, Net (λ _, None) (λ _ _ _, None))]].
Definition ex_long : list (option (list turn)) := [
  Some [ex_sends 5 (kw_data ++ mjoin (replicate 22 (lit "a:b" ++ crlf)) ++ eod)]].

Lemma ex_sends_ok fd bytes len : 0 <= fd < len → turn_ok len (ex_sends fd bytes).
Proof.
  intros Hfd. split; [exact Hfd|]. intros n b. cbn [ex_sends ex_client snd net_read].
  case_decide; [|done]. intros [= <-]. unfold zlen. rewrite length_take. lia.
Qed.

