(* ===== verification/Server.v ===== *)
(** Server: the master process, [src/src/master_server.c], with the creation of
    the workers of [src/src/worker.c], [src/src/server.c] and
    [src/src/lock.c]: start-up, and the loop that accepts connections and hands
    them to the workers. *)
From stdpp Require Import gmap.
From S2P Require Import Prelude Base Config Response Layout Socket Queue QueueSys QueueFs Request RequestData Connection Worker.

#[local] Open Scope Z_scope.

(** ** lock.c *)

(** A lock is the count of its semaphore. *)
Definition lock_init : Z := 1.
Definition lock_lock (l : Z) : res Z := if decide (0 < l) then Ok (l - 1) else Err Blocked.
Definition lock_unlock (l : Z) : Z := l + 1.

(** ** Workers *)

Definition SHARED_MEM_KEY : Z := 8212.

(** [worker], in shared memory; [wk_file] is the file that the memory of
    [msg_queue] maps, [wk_ev_fd] is [ev_handler.fd]. *)
Record worker := MkWorker {
  wk_num : Z;
  wk_msg_queue : ptr pq_ref;
  wk_file : list byte;
  wk_ev_fd : Z;
  wk_pid : Z;
}.

(** [sprintf] into a fresh buffer of [size] bytes. *)
Definition sprintf_buf (size : Z) (text : list byte) : res buf := bwrite (malloc size) 0 (cstr text).

(** The path of the worker's queue and the arguments of its mail handler. *)
Definition worker_path (cfg : config) (num : Z) : res buf :=
  n ← strlen (queue_file cfg);
  p ← cstring (queue_file cfg);
  sprintf_buf (n + 10) (p ++ lit "-" ++ decimal num).

Definition handler_argv (cfg : config) (num : Z) : res (list buf) :=
  filepath ← worker_path cfg num;
  q_size ← sprintf_buf 30 (decimal (queue_size cfg));
  Ok [cstr (lit "/usr/local/bin/dmarc-mailhandler"); filepath; q_size; web_service_url cfg].

(** [worker_init (master_srv, num)] with the system calls' answers: whether the
    shared memory can be had, the calls of the queue, the file system.  [None]
    is NULL; new shared memory is zero. *)
Definition worker_init (o : os) (shm : bool) (cfg : config) (num : Z) (w : world)
    : res (option worker * world) :=
  _ ← i32 (SHARED_MEM_KEY + num);
  if shm then
    filepath ← worker_path cfg num;
    r ← pq_init_path o filepath (queue_size cfg) w;
    let '(code, ref, file, w1) := r in
    if decide (code < 0) then Ok (None, w1)
    else
      _ ← handler_argv cfg num;
      Ok (Some (MkWorker num (match ref with Some q => PTo q | None => PNull end) file 0 0), w1)
  else Ok (None, w).

(** [worker_spawn]: [malloc (child_stack_size)] is passed to [clone] one
    pointer above its start; the stack grows down, so that a child that needs
    more than these bytes writes before the object. *)
Definition stack_top : Z := sizeof_pointer.
Definition worker_spawn (clone_ok : bool) (need : Z) : res Z :=
  if clone_ok then (if decide (need <= stack_top) then Ok 0 else Err OutOfBounds) else Ok (-1).

(** ** The master *)

(** [master_server]: the workers, and [worker_map] as indices of them. *)
Record master := Master {
  ms_config : config;
  ms_workers : list worker;
  ms_map : list Z;
  ms_lock : Z;
}.

(** The loop of [master_server_init] over the workers; [answers num] is what the
    system answers to the worker with that number.  [None] when one cannot be
    created. *)
Fixpoint init_workers (cfg : config) (answers : Z → os * bool) (n : nat) (num : Z) (w : world)
    : res (option (list worker * world)) :=
  match n with
  | O => Ok (Some ([], w))
  | S n' =>
      let '(o, shm) := answers num in
      r ← worker_init o shm cfg num w;
      match r with
      | (None, _) => Ok None
      | (Some wk, w') =>
          ws ← init_workers cfg answers n' (num + 1) w';
          Ok (match ws with Some (wks, w'') => Some (wk :: wks, w'') | None => None end)
      end
  end.

(** [worker_map[i] = workers[i % max_workers]] *)
Fixpoint init_map (cfg : config) (n : nat) (i : Z) : res (list Z) :=
  match n with
  | O => Ok []
  | S n' => j ← int_rem i (max_workers cfg); l ← init_map cfg n' (i + 1); Ok (j :: l)
  end.

Definition master_server_init (cfg : config) (answers : Z → os * bool) (w : world)
    : res (option (master * world)) :=
  ws ← init_workers cfg answers (Z.to_nat (max_workers cfg)) 0 w;
  match ws with
  | None => Ok None
  | Some (wks, w') =>
      n ← i32 (max_clients cfg * 2);
      m ← init_map cfg (Z.to_nat n) 0;
      Ok (Some (Master cfg wks m lock_init, w'))
  end.

(** [server_init], [config_copy] and the assignments that follow in [main]:
    [srv->config] was never assigned. *)
Definition server_setup (m : master) : res server :=
  c ← config_copy PUninit (ms_config m);
  Ok (Server c (ms_config m)).

(** The system's answers to [main] before its loop: the file of the
    configuration, the calls of the workers' queues
    and the file system they are in, [setsid], [chdir], [chroot],
    [epoll_create], the calls on the listening socket and [epoll_ctl]. *)
Record start_answers := StartAnswers {
  sa_file : option (list byte);
  sa_answers : Z → os * bool;
  sa_world : world;
  sa_setsid : bool;
  sa_chdir : bool;
  sa_chroot : bool;
  sa_epoll_create : Z → option Z;
  sa_ret : syscall → Z;
  sa_epoll_ctl : bool;
  sa_clone : Z → bool;
}.

(** [chdir] and [chroot]; [false] is the [exit (1)] of a failure. *)
Definition main_chroot (a : start_answers) (cfg : config) : res bool :=
  n ← strlen (chroot cfg);
  Ok (if decide (0 < n) then sa_chdir a && sa_chroot a else sa_chdir a).

(** The loop that starts the workers; its result is ignored. *)
Fixpoint spawn_workers (clone_ok : Z → bool) (need : Z) (n : nat) (i : Z) : res unit :=
  match n with
  | O => Ok tt
  | S n' => _ ← worker_spawn (clone_ok i) need; spawn_workers clone_ok need n' (i + 1)
  end.

(** [main] from reading the configuration to its loop, [need] being the stack
    that a worker uses: the master, the file system with the queues, the server, its events and
    what was asked of the system; [None] is an [exit (1)]. *)
Definition main_start (a : start_answers) (need : Z)
    : res (option (master * world * server * event_handler * list action)) :=
  r ← config_load (sa_file a) config_init;
  if decide (r.1 = -1) then Ok None
  else
    let cfg := r.2 in
    mi ← master_server_init cfg (sa_answers a) (sa_world a);
    match mi with
    | None => Ok None
    | Some (m, fs) =>
        if bool_decide (daemonize cfg ≠ 0) && negb (sa_setsid a) then Ok None
        else
          root ← main_chroot a cfg;
          if negb root then Ok None
          else
            match events_create (sa_epoll_create a) (max_clients cfg) with
            | None => Ok None
            | Some eh =>
                srv ← server_setup m;
                c ← deref (srv_config srv);
                let l := socket_listen (sa_ret a) c socket_init in
                let fd := sa_ret a SysSocket in
                if bool_decide (l.1 = -1) || negb (sa_epoll_ctl a) then Ok None
                else
                  _ ← spawn_workers (sa_clone a) need (Z.to_nat (max_workers cfg)) 0;
                  Ok (Some (m, fs, srv, eh, (Call <$> l.2) ++ [events_add_event (eh_fd eh) fd]))
            end
    end.

(** What a worker writes into the shared memory when it starts: its event
    descriptor and its process id. *)
Definition worker_publish (ep pid : Z) (wk : worker) : worker :=
  MkWorker (wk_num wk) (wk_msg_queue wk) (wk_file wk) ep pid.

Definition share_fds (eps : list (Z * Z)) (m : master) : master :=
  Master (ms_config m) (zip_with (λ wk ep, worker_publish ep.1 ep.2 wk) (ms_workers m) eps)
    (ms_map m) (ms_lock m).

(** One event of the accept loop: [accept] gives a descriptor or fails; [ret]
    answers the calls that set the socket's options. *)
Definition accept_step (o : os) (ret : syscall → Z) (w : net) (m : master) (srv : server) (accepted : option Z) (e : env)
    : res env :=
  match accepted with
  | None => Ok e
  | Some fd =>
      j ← aload (ms_map m) fd;
      wk ← aload (ms_workers m) j;
      let c := connection_init CONN_INACTIVE in
      let conn := Connection fd (conn_request c) (conn_response c) (conn_status_of c)
        (conn_read_buffer c) (conn_buffer_len c) in
      let e1 := acts (Call <$> (socket_setup ret (ms_config m) fd).2) e in
      r ← connection_handle o w (wk_msg_queue wk) srv fd (connection_start conn) e1;
      _ ← connection_free r.1;
      Ok (act (events_add_event_2 (wk_ev_fd wk) fd) r.2)
  end.

(** The events of one [epoll_wait], and the loop of [main]. *)
Fixpoint accept_batch (o : os) (ret : syscall → Z) (m : master) (srv : server) (l : list (option Z * net)) (e : env) : res env :=
  match l with
  | [] => Ok e
  | (a, w) :: l' => e' ← accept_step o ret w m srv a e; accept_batch o ret m srv l' e'
  end.

Fixpoint master_loop (o : os) (ret : syscall → Z) (m : master) (srv : server)
    (batches : list (option (list (option Z * net)))) (eh : event_handler) (e : env)
    : res (event_handler * env) :=
  match batches with
  | [] => Ok (eh, e)
  | b :: batches' =>
      r ← events_wait eh b;
      e' ← accept_batch o ret m srv r.1 e;
      master_loop o ret m srv batches' r.2 e'
  end.

(** ** A worker and its queue *)

Lemma sprintf_buf_ok size text :
  zlen text < size → ∃ junk, sprintf_buf size text = Ok (cstr text ++ junk).
Proof.
  intros H. pose proof (zlen_nonneg text). unfold sprintf_buf. eexists.
  apply bwrite_start. rewrite zlen_malloc by lia. unfold cstr. zlia.
Qed.

(** The file of the queue of a worker whose configured file is [p]. *)
Definition queue_path (p : list byte) (num : Z) : list byte := p ++ lit "-" ++ decimal num.

Lemma cstring_queue_path p num junk :
  nonul p → cstring (cstr (queue_path p num) ++ junk) = Ok (queue_path p num).
Proof.
  intros Hnp. unfold cstr. rewrite <-app_assoc. apply cstring_bs.
  apply nonul_app. split; [done|]. apply nonul_app. split; [by_compute | apply nonul_decimal].
Qed.

(** [worker_init] creates an empty queue in the file of the worker's number,
    and the mail handler is started with the path of that file and its size. *)
Lemma worker_init_ok o handle semid cfg num w p :
  os_ok o handle semid → sys_file (at_path (queue_path p num) w) = NoFile →
  queue_file cfg = cstr p → nonul p →
  0 <= num < 10 ^ 8 → 0 <= queue_size cfg → queue_size cfg * sizeof_mail <= INT_MAX →
  ∃ r s1 path junk,
    worker_init o true cfg num w =
      Ok (Some (MkWorker num (PTo r) (queue_path p num) 0 0), with_path (queue_path p num) s1 w) ∧
    covers r (queue_size cfg) ∧ Queue.holds (queue_size cfg) [] s1 ∧
    handler_argv cfg num = Ok [cstr (lit "/usr/local/bin/dmarc-mailhandler"); path;
      cstr (decimal (queue_size cfg)) ++ junk; web_service_url cfg] ∧
    cstring path = Ok (queue_path p num).
Proof.
  intros Ho Hf Hp Hnp Hnum Hn Hmax.
  destruct (pq_init_creates o handle semid Ho (queue_size cfg) _ Hf Hn Hmax) as (r & s1 & Hi & Hc & Hh & _).
  pose proof (zlen_decimal_le 8 num ltac:(lia) ltac:(lia)) as Hdig.
  destruct (sprintf_buf_ok (zlen p + 10) (queue_path p num)) as [j1 H1].
  { unfold queue_path. rewrite !zlen_app. change (zlen (lit "-")) with 1. lia. }
  destruct (sprintf_buf_ok 30 (decimal (queue_size cfg))) as [j2 H2].
  { pose proof (zlen_decimal (queue_size cfg)). lia. }
  assert (worker_path cfg num = Ok (cstr (queue_path p num) ++ j1)) as Hpath.
  { unfold worker_path. by rewrite Hp, strlen_cstr, bind_Ok, cstring_cstr, bind_Ok. }
  assert (handler_argv cfg num = Ok [cstr (lit "/usr/local/bin/dmarc-mailhandler"); cstr (queue_path p num) ++ j1;
    cstr (decimal (queue_size cfg)) ++ j2; web_service_url cfg]) as Hargv.
  { unfold handler_argv. by rewrite Hpath, bind_Ok, H2. }
  pose proof (cstring_queue_path p num j1 Hnp) as Hcs.
  exists r, s1. do 2 eexists. split_and!; [| done | done | exact Hargv | exact Hcs].
  unfold worker_init, pq_init_path. rewrite i32_ok, bind_Ok by (unfold SHARED_MEM_KEY, INT_MIN, INT_MAX; lia).
  rewrite Hpath, bind_Ok, Hcs, bind_Ok, Hi, !bind_Ok. rewrite decide_False by done. by rewrite Hargv.
Qed.

(** ** Dispatch *)

Lemma worker_init_num o shm cfg num w wk w' : worker_init o shm cfg num w = Ok (Some wk, w') → wk_num wk = num.
Proof.
  intros (? & _ & Hw)%bind_Ok_inv. destruct shm; [|done].
  apply bind_Ok_inv in Hw as (? & _ & ([[[code ref] file] w1] & _ & Hw)%bind_Ok_inv).
  case_decide; [done|]. by apply bind_Ok_inv in Hw as (? & _ & [= <- _]).
Qed.

Lemma init_workers_ok cfg answers n num w wks w' :
  init_workers cfg answers n num w = Ok (Some (wks, w')) →
  length wks = n ∧ ∀ j wk, wks !! j = Some wk → wk_num wk = num + Z.of_nat j.
Proof.
  revert num w wks w'. induction n as [|n IH]; intros num w wks w'; cbn [init_workers].
  - by intros [= <- <-].
  - destruct (answers num) as [o shm]. intros ([[wk|] w1] & Hw & H)%bind_Ok_inv; [|done].
    apply bind_Ok_inv in H as ([[wks' w2]|] & Hr & [= <- <-]).
    destruct (IH _ _ _ _ Hr) as [Hl Hn]. split; [by simpl; rewrite Hl|].
    apply worker_init_num in Hw as Hwk.
    intros [|j] wk' Hj; [injection Hj as <-; lia|]. rewrite (Hn j wk' Hj). lia.
Qed.

Lemma init_map_ok cfg n i l :
  0 < max_workers cfg → 0 <= i → init_map cfg n i = Ok l →
  ∀ j, (j < n)%nat → l !! j = Some ((i + Z.of_nat j) mod max_workers cfg).
Proof.
  intros Hm. revert i l. induction n as [|n IH]; intros i l Hi; [intros _ j; lia|]. cbn [init_map].
  unfold int_rem. rewrite decide_False, bind_Ok by lia. intros (l' & Hl & [= <-])%bind_Ok_inv j Hj.
  destruct j as [|j]; cbn.
  - rewrite Z.add_0_r. f_equal. apply Z.rem_mod_nonneg; lia.
  - rewrite (IH (i + 1) l') by (done || lia). do 2 f_equal. lia.
Qed.

Lemma session_free c m : session c m → ∃ p, connection_free c = Ok p.
Proof.
  intros ((req & Hreq & _) & (r & Hr & _) & Hb & _). unfold connection_free, connection_reset.
  rewrite Hreq, Hr, Hb. by eexists.
Qed.

(** The welcome message. *)
Definition welcome (h s : list byte) : list byte := lit "220 " ++ h ++ lit " SMTP " ++ s ++ crlf.

(** C24: Every accepted connection gets one worker.  After [master_server_init]
    with at least one worker, and once the workers published their event
    descriptors, [accept] of a descriptor below twice [max-clients] faults
    nowhere: it tries to set the configured options of the socket (and goes on
    when that fails), welcomes the client, frees the temporary connection and
    adds the descriptor to the events of the worker with number
    [fd mod max_workers], and of no other. *)
Theorem accept_dispatches o ret w cfg answers w0 m0 w1 eps srv fd e h s :
  master_server_init cfg answers w0 = Ok (Some (m0, w1)) → 0 < max_workers cfg →
  zlen eps = max_workers cfg → configured srv cfg → (∀ i b f, net_send w i b f ≠ None) →
  hostname cfg = cstr h → server_name cfg = cstr s → nonul h → nonul s →
  zlen (welcome h s) + 512 <= INT_MAX → 0 <= fd < max_clients cfg * 2 →
  ∃ wk ep pid ls, ms_workers m0 !! Z.to_nat (fd mod max_workers cfg) = Some wk ∧
    wk_num wk = fd mod max_workers cfg ∧ eps !! Z.to_nat (fd mod max_workers cfg) = Some (ep, pid) ∧
    accept_step o ret w (share_fds eps m0) srv (Some fd) e =
      Ok (acts ((Call <$> (socket_setup ret cfg fd).2) ++ ls ++ [events_add_event_2 ep fd]) e) ∧
    sends (write_buffer_size cfg) ls (welcome h s).
Proof.
  intros Hinit Hw Heps Hcfg Hsend Hh Hs Hnh Hns Hlen Hfd. unfold zlen in Heps.
  apply bind_Ok_inv in Hinit as ([[wks ss']|] & Hws & H); [|done].
  apply bind_Ok_inv in H as (n & Hn & (mp & Hmp & [= <- <-])%bind_Ok_inv).
  destruct (init_workers_ok _ _ _ _ _ _ _ Hws) as [Hlw Hnum].
  unfold i32 in Hn. case_decide; [|done]. injection Hn as <-.
  pose proof (Z.mod_pos_bound fd (max_workers cfg) Hw) as Hj.
  set (j := fd mod max_workers cfg) in *.
  destruct (lookup_lt_is_Some_2 wks (Z.to_nat j)) as [wk Hwk]; [lia|].
  destruct (lookup_lt_is_Some_2 eps (Z.to_nat j)) as [[ep pid] Hep]; [lia|].
  pose proof (init_map_ok cfg _ 0 mp Hw ltac:(lia) Hmp (Z.to_nat fd) ltac:(lia)) as Hmap.
  rewrite Z.add_0_l, Z2Nat.id in Hmap by lia. fold j in Hmap.
  set (c := Connection fd PUninit PUninit CONN_INACTIVE PUninit None).
  set (opts := Call <$> (socket_setup ret cfg fd).2).
  destruct (handle_welcome o w (wk_msg_queue wk) srv cfg fd c (acts opts e) h s Hcfg Hsend Hh Hs Hnh Hns Hlen)
    as (c' & ls & Hhandle & Hls & Hc').
  destruct (session_free c' _ Hc') as [p Hp].
  exists wk, ep, pid, ls. split_and!; [done | rewrite (Hnum _ _ Hwk); lia | done | | done].
  unfold accept_step, share_fds. cbn [ms_map ms_workers ms_config].
  rewrite (aload_lookup _ _ j), bind_Ok by (done || lia).
  rewrite (aload_lookup _ _ (worker_publish ep pid wk)), bind_Ok;
    [|lia | by rewrite lookup_zip_with, Hwk; cbn; rewrite Hep].
  cbn [worker_publish wk_msg_queue wk_ev_fd connection_init conn_request conn_response conn_status_of conn_read_buffer conn_buffer_len].
  fold c opts. rewrite Hhandle, bind_Ok. cbn [fst snd]. rewrite Hp, bind_Ok.
  unfold act, acts. cbn [env_log env_sys]. by rewrite <-!app_assoc.
Qed.

(** The start of [main] cannot succeed: the configuration is copied to where an
    indeterminate pointer points. *)
Lemma server_setup_uninit m : server_setup m = Err Uninit.
Proof. done. Qed.

(** So that [main] exits or faults before its loop, whatever the system
    answers. *)
Lemma main_start_fails a need r : main_start a need = Ok r → r = None.
Proof.
  intros (lr & _ & H)%bind_Ok_inv. case_decide; [by injection H as <-|].
  apply bind_Ok_inv in H as ([[m ss]|] & _ & H); [|by injection H as <-].
  destruct (_ && _); [by injection H as <-|].
  apply bind_Ok_inv in H as (root & _ & H). destruct (negb root); [by injection H as <-|].
  by destruct (events_create _ _) as [eh|]; [|injection H as <-].
Qed.

(** A configuration without workers divides by zero. *)
Lemma master_server_init_no_workers cfg :
  max_workers cfg = 0 → 0 < max_clients cfg * 2 <= INT_MAX →
  ∀ answers w, master_server_init cfg answers w = Err DivByZero.
Proof.
  intros Hw Hc answers w. unfold master_server_init.
  assert (init_workers cfg answers (Z.to_nat (max_workers cfg)) 0 w = Ok (Some ([], w))) as -> by by rewrite Hw.
  rewrite bind_Ok, i32_ok, bind_Ok by (unfold INT_MIN; lia).
  destruct (Z.to_nat (max_clients cfg * 2)) as [|n] eqn:E; [lia|]. cbn [init_map].
  unfold int_rem. by rewrite decide_True.
Qed.

(** ** Witness: two workers *)

Definition ex_two_workers : config := set_max_workers 2 ex_small.
Definition ex_answers (num : Z) : os * bool := (ex_os, true).
Definition ex_world : world := World ∅ 1 [].

Lemma accept_dispatches_witness :
  ∃ m0 ls, accept_step ex_os (λ _, 0) (ex_net [] 1000) (share_fds [(21, 701); (22, 702)] m0)
      (Server (PTo ex_two_workers) ex_two_workers) (Some 7) ex_env =
      Ok (acts ([Call (SysSetsockopt 7 TCP_NODELAY (Some 1)); Call (SysSetsockopt 7 SO_SNDBUF (Some 131072));
                 Call (SysSetsockopt 7 SO_RCVBUF (Some 4046))] ++ ls ++ [AddEvent 22 7 2147491841]) ex_env) ∧
    sends 131072 ls (lit "220 dmarc.amail.io SMTP Comfirm DMARC Server" ++ crlf).
Proof.
  assert (match master_server_init ex_two_workers ex_answers ex_world with Ok (Some _) => true | _ => false end = true)
    as H by (vm_compute; reflexivity).
  destruct (master_server_init ex_two_workers ex_answers ex_world) as [[[m0 w1]|]|] eqn:E; [clear H | discriminate H | discriminate H].
  destruct (accept_dispatches ex_os (λ _, 0) (ex_net [] 1000) ex_two_workers ex_answers ex_world m0 w1 [(21, 701); (22, 702)]
    (Server (PTo ex_two_workers) ex_two_workers) 7 ex_env (lit "dmarc.amail.io") (lit "Comfirm DMARC Server")
    E ltac:(by_compute) eq_refl ltac:(by split_and!) ltac:(done) eq_refl eq_refl ltac:(by_compute)
    ltac:(by_compute) ltac:(by_compute) ltac:(by_compute)) as (wk & ep & pid & ls & _ & _ & Hep & Hstep & Hls).
  injection Hep as <- <-. exists m0, ls. split; [exact Hstep | exact Hls].
Defined.
