(* ===== verification/Main.v ===== *)
(** Main: the master process from its command line to its end,
    [src/src/master_server.c]: the options, the signals, the loop, the final
    wait and what is freed; the life of a worker process of [src/src/worker.c]
    around its loop; the log of [src/src/safe.c]. *)
From stdpp Require Import gmap.
From S2P Require Import Prelude Base Config Response Layout Socket Queue QueueSys QueueFs Request RequestData Connection Worker Server.

#[local] Open Scope Z_scope.

(** ** safe.c *)

(** [safe_warn]: the lock of the log around the output. *)
Definition safe_warn (l : Z) (msg : list byte) (e : env) : res (Z * env) :=
  l1 ← lock_lock l;
  let e1 := act (Warn msg) e in
  Ok (lock_unlock l1, e1).

(** ** The process's memory *)

(** [master_server]: [running], [config_file], and what [master_server_init]
    assigns. *)
Record master_server := MasterServer {
  mm_running : option Z;
  mm_config_file : ptr buf;
  mm_master : option master;
}.

Definition master_server_malloc : master_server := MasterServer None PUninit None.
Definition set_running (r : Z) (ms : master_server) : master_server :=
  MasterServer (Some r) (mm_config_file ms) (mm_master ms).
Definition set_config_file (p : ptr buf) (ms : master_server) : master_server :=
  MasterServer (mm_running ms) p (mm_master ms).

(** The global [master_serv], as a program starts with it; nothing assigns it. *)
Definition master_serv : ptr master_server := PNull.

(** ** Signals *)

Inductive signal := SIGHUP | SIGTERM | SIGINT | SIGQUIT | SIGCHLD.

#[global] Instance signal_eq_dec : EqDecision signal.
Proof. solve_decision. Defined.

(** [signal_handler (sig)], given and returning the global. *)
Definition signal_handler (sig : signal) (global : ptr master_server) : res (ptr master_server) :=
  if decide (sig = SIGCHLD) then Ok global
  else ms ← deref global; Ok (PTo (set_running 0 ms)).

(** ** The command line *)

(** What [getopt] with "abc:" returns: an option with [optarg], or '?'. *)
Inductive getopt_result :=
  | Opt (c : byte) (optarg : ptr buf)
  | OptUnknown.

(** The loop over the options; [None] is the [exit (1)]. *)
Fixpoint main_options (opts : list getopt_result) (ms : master_server) : res (option master_server) :=
  match opts with
  | [] => Ok (Some ms)
  | OptUnknown :: _ => Ok None
  | Opt c optarg :: opts' =>
      if decide (c = x63) then
        a ← deref optarg;
        n ← strlen a;
        file ← memcpy (malloc (n + 1)) 0 a 0 (n + 1);
        main_options opts' (set_config_file (PTo file) ms)
      else main_options opts' ms
  end.

(** [main] up to its loop: [open] is the file system, the other answers are
    those of [main_start]. *)
Definition main_open (open : list byte → option (list byte)) (opts : list getopt_result) (a : start_answers)
    (need : Z) : res (option (master_server * world * server * event_handler * list action)) :=
  o ← main_options opts master_server_malloc;
  match o with
  | None => Ok None
  | Some ms =>
      file ← deref (mm_config_file ms);
      path ← cstring file;
      r ← main_start (StartAnswers (open path) (sa_answers a) (sa_world a) (sa_setsid a) (sa_chdir a) (sa_chroot a)
            (sa_epoll_create a) (sa_ret a) (sa_epoll_ctl a) (sa_clone a)) need;
      Ok (match r with
          | None => None
          | Some (m, w, srv, eh, l) =>
              Some (MasterServer (Some 1) (mm_config_file ms) (Some m), w, srv, eh, l)
          end)
  end.

(** ** The end of the processes *)

(** [worker_free]: the result of [shmdt]. *)
Definition worker_free (shmdt : bool) : Z := if shmdt then 0 else -1.

(** The members that [master_server_init] assigned. *)
Definition initialised (ms : master_server) : res master :=
  match mm_master ms with Some m => Ok m | None => Err Uninit end.

(** The workers in the order of their numbers. *)
Definition each_worker (m : master) : res (list worker) :=
  mapM (aload (ms_workers m)) (seqZ 0 (max_workers (ms_config m))).

(** [master_server_free]: every worker is given to [worker_free], whose result
    is ignored; the arrays, the server and the semaphore go with the object. *)
Definition master_server_free (p : ptr master_server) : res (ptr master_server) :=
  ms ← deref p;
  m ← initialised ms;
  _ ← each_worker m;
  cfree p.

(** The end of [main]: the processes it waits for, the pointer to the master. *)
Definition main_end (p : ptr master_server) : res (list Z * ptr master_server) :=
  ms ← deref p;
  m ← initialised ms;
  ws ← each_worker m;
  p1 ← master_server_free p;
  ms1 ← deref p1;
  _ ← cfree (mm_config_file ms1);
  Ok (map wk_pid ws, p1).

(** A worker process: [shmget], [shmat], the number of the process, the loop on
    the file that its queue maps, the clean-up; [None] is an [exit (1)].  It
    ends with [exit (0)]. *)
Definition worker_process (o : os) (shmget shmat shmdt : bool) (pid : Z) (wk : worker) (srv : server) (cfg : config)
    (epoll_create : Z → option Z) (batches : list (option (list turn))) (w : world) (log : list action)
    : res (option (worker * world * list action * Z)) :=
  _ ← i32 (SHARED_MEM_KEY + wk_num wk);
  if negb (shmget && shmat) then Ok None
  else
    r ← worker_server o (wk_msg_queue wk) srv cfg epoll_create batches (Env (at_path (wk_file wk) w) log);
    match r with
    | None => Ok None
    | Some (eh, (_, e)) =>
        _ ← worker_shutdown eh;
        Ok (Some (worker_publish (eh_fd eh) pid wk, with_path (wk_file wk) (env_sys e) w, env_log e, worker_free shmdt))
    end.

(** ** The loop of [main] *)

(** What [epoll_wait] returns, or a signal that arrives meanwhile. *)
Inductive main_event :=
  | Ready (b : option (list (option Z * net)))
  | Signal (sig : signal).

Section main.
Context (o : os) (ret : syscall → Z) (m : master) (srv : server).

(** The loop while [running], with the master and the global, and then the end
    of [main]; [inl] is a loop that goes on. *)
Fixpoint main_events (l : list main_event) (p global : ptr master_server) (eh : event_handler) (e : env)
    : res (ptr master_server * env + list Z * ptr master_server) :=
  ms ← deref p;
  match mm_running ms with
  | None => Err Uninit
  | Some running =>
      if decide (running = 0) then r ← main_end p; Ok (inr r)
      else
        match l with
        | [] => Ok (inl (p, e))
        | Ready b :: l' =>
            r ← events_wait eh b;
            e' ← accept_batch o ret m srv r.1 e;
            main_events l' p global r.2 e'
        | Signal sig :: l' =>
            global' ← signal_handler sig global;
            main_events l' p global' eh e
        end
  end.
End main.

(** ** The log *)

(** A warning leaves the lock as it was; while another holds it the process
    waits. *)
Lemma safe_warn_ok l msg e :
  safe_warn l msg e = if decide (0 < l) then Ok (l, act (Warn msg) e) else Err Blocked.
Proof.
  unfold safe_warn, lock_lock. case_decide; [|done]. rewrite bind_Ok. unfold lock_unlock. do 2 f_equal. lia.
Qed.

(** ** The command line *)

(** The argument of the last [-c]. *)
Definition config_arg (opts : list (byte * list byte)) : option (list byte) :=
  last (filter (λ p, p.1 = x63) opts).*2.

Lemma main_options_ok opts ms :
  Forall (λ p, nonul p.2) opts →
  ∃ ms', main_options ((λ p, Opt p.1 (PTo (cstr p.2))) <$> opts) ms = Ok (Some ms') ∧
    mm_config_file ms' = match config_arg opts with Some f => PTo (cstr f) | None => mm_config_file ms end.
Proof.
  intros H. revert ms. induction H as [|[c f] opts Hf _ IH]; intros ms; [by exists ms|].
  cbn [fmap list_fmap main_options fst snd]. unfold config_arg. rewrite filter_cons. cbn [fst snd] in *.
  case_decide as Hc; [|by apply IH]. cbn [deref]. rewrite bind_Ok, strlen_cstr, bind_Ok by done.
  unfold memcpy. change (cstr f) with (bs f ++ bs [NUL]) at 1. rewrite <-bs_app.
  rewrite <-(app_nil_r (bs (f ++ [NUL]))), bread_bs, bind_Ok by zlia.
  rewrite bwrite_start, bind_Ok by zlia. rewrite drop_ge, app_nil_r, bs_app by (unfold malloc; zlia).
  destruct (IH (set_config_file (PTo (cstr f)) ms)) as (ms' & E & Hms). exists ms'. split; [exact E|].
  rewrite Hms. unfold config_arg. cbn [fmap list_fmap]. rewrite last_cons.
  by destruct (last _).
Qed.

(** Without [-c] the name of the file is indeterminate. *)
Lemma main_open_without_file open opts a need :
  Forall (λ p, nonul p.2) opts → config_arg opts = None →
  main_open open ((λ p, Opt p.1 (PTo (cstr p.2))) <$> opts) a need = Err Uninit.
Proof.
  intros Ho Hn. unfold main_open. destruct (main_options_ok opts master_server_malloc Ho) as (ms & -> & Hf).
  rewrite bind_Ok, Hf, Hn. done.
Qed.

(** With it, that file is the one that is read. *)
Lemma main_open_file open opts a need f :
  Forall (λ p, nonul p.2) opts → config_arg opts = Some f → nonul f → open f = None →
  main_open open ((λ p, Opt p.1 (PTo (cstr p.2))) <$> opts) a need = Ok None.
Proof.
  intros Ho Hn Hf Hopen. unfold main_open.
  destruct (main_options_ok opts master_server_malloc Ho) as (ms & -> & Hm).
  rewrite bind_Ok, Hm, Hn. cbn [deref]. rewrite bind_Ok, cstring_cstr, bind_Ok by done.
  unfold main_start. cbn [sa_file]. by rewrite Hopen.
Qed.

(** ** The end *)

Lemma each_worker_ok m :
  zlen (ms_workers m) = max_workers (ms_config m) → ∃ ws, each_worker m = Ok ws.
Proof.
  intros Hlen. unfold each_worker. rewrite <-Hlen.
  assert (Forall (λ i, 0 <= i < zlen (ms_workers m)) (seqZ 0 (zlen (ms_workers m)))) as H.
  { apply Forall_forall. intros i Hi%elem_of_seqZ. lia. }
  induction H as [|i l Hi _ IH]; [by eexists|]. destruct IH as [ws IH].
  destruct (lookup_lt_is_Some_2 (ms_workers m) (Z.to_nat i)) as [wk Hwk]; [unfold zlen in Hi; lia|].
  exists (wk :: ws). cbn [mapM]. rewrite (aload_lookup _ _ wk) by (done || lia). cbn. by rewrite IH.
Qed.

(** The master is freed before its member is. *)
Lemma main_end_use_after_free ms m :
  mm_master ms = Some m → zlen (ms_workers m) = max_workers (ms_config m) →
  main_end (PTo ms) = Err UseAfterFree.
Proof.
  intros Hm Hlen. destruct (each_worker_ok m Hlen) as [ws Hws].
  unfold main_end, master_server_free, initialised. cbn [deref].
  by rewrite !bind_Ok, Hm, !bind_Ok, Hws, !bind_Ok.
Qed.

(** A worker that handled an event does not come to its end either. *)
Lemma worker_process_clobbered o wk srv cfg epoll_create batches pid shmdt eh s w log :
  0 <= wk_num wk < 10 ^ 8 →
  worker_server o (wk_msg_queue wk) srv cfg epoll_create batches (Env (at_path (wk_file wk) w) log) = Ok (Some (eh, s)) → eh_clobbered eh = true →
  worker_process o true true shmdt pid wk srv cfg epoll_create batches w log = Err OutOfBounds.
Proof.
  intros Hn Hw Hc. unfold worker_process.
  rewrite i32_ok, bind_Ok by (unfold SHARED_MEM_KEY, INT_MIN, INT_MAX; lia). cbn [negb andb].
  rewrite Hw, bind_Ok. destruct s. unfold worker_shutdown, events_free. by rewrite Hc.
Qed.

Section never.
Context (o : os) (ret : syscall → Z) (m : master) (srv : server) (ms : master_server).
Hypothesis (Hrun : ∃ r, mm_running ms = Some r ∧ r ≠ 0).
Abbreviation events := (main_events o ret m srv).

(** The loop with the global as it is. *)
Lemma main_events_cases l eh e :
  match events l (PTo ms) master_serv eh e with
  | Ok (inl (p, e')) => p = PTo ms
  | Ok (inr _) => False
  | Err _ => True
  end.
Proof.
  destruct Hrun as (r & Hr & Hne). revert eh e.
  induction l as [|[b|sig] l IH]; intros eh e; cbn [main_events deref]; rewrite bind_Ok, Hr, decide_False by done.
  - done.
  - destruct (events_wait eh b) as [r1|]; [|done]. rewrite bind_Ok.
    destruct (accept_batch _ _ _ _ _ _) as [e'|]; [|done]. rewrite bind_Ok. apply IH.
  - unfold signal_handler. case_decide; [rewrite bind_Ok; apply IH | done].
Qed.

Lemma main_events_app l k eh e p e' :
  events l (PTo ms) master_serv eh e = Ok (inl (p, e')) →
  ∃ eh', events (l ++ k) (PTo ms) master_serv eh e = events k (PTo ms) master_serv eh' e'.
Proof.
  destruct Hrun as (r & Hr & Hne). revert eh e.
  induction l as [|[b|sig] l IH]; intros eh e; cbn [app]; cbn [main_events deref];
    rewrite !bind_Ok, Hr, !decide_False by done.
  - intros [= _ <-]. by exists eh.
  - destruct (events_wait eh b) as [r1|]; [|done]. rewrite !bind_Ok.
    destruct (accept_batch _ _ _ _ _ _) as [e1|]; [|done]. rewrite !bind_Ok. apply IH.
  - unfold signal_handler. case_decide; [rewrite !bind_Ok; apply IH | done].
Qed.

Lemma main_events_signal sig l eh e :
  sig ≠ SIGCHLD → events (Signal sig :: l) (PTo ms) master_serv eh e = Err NullDeref.
Proof.
  destruct Hrun as (r & Hr & Hne). intros Hs. cbn [main_events deref]. rewrite bind_Ok, Hr, decide_False by done.
  unfold signal_handler. by rewrite decide_False.
Qed.
End never.

(** C25: The server cannot be stopped in order.  While it runs, no sequence of
    new connections and signals brings the loop of [main] to its end: it goes
    on with [running] as it was, or faults; the first signal that is to stop
    the server - any but SIGCHLD - dereferences [master_serv], which is NULL
    for nothing assigns it.  And where [running] is 0, with the workers that
    [master_server_init] made, [main] frees the master and then uses a member
    of it. *)
Theorem main_never_stops o ret m srv ms r l eh e :
  mm_running ms = Some r → r ≠ 0 →
  (∀ x, main_events o ret m srv l (PTo ms) master_serv eh e ≠ Ok (inr x)) ∧
  (∀ p e' sig l', main_events o ret m srv l (PTo ms) master_serv eh e = Ok (inl (p, e')) →
     p = PTo ms ∧
     (sig ≠ SIGCHLD →
      main_events o ret m srv (l ++ Signal sig :: l') (PTo ms) master_serv eh e = Err NullDeref)) ∧
  (∀ m0 global, mm_master ms = Some m0 → zlen (ms_workers m0) = max_workers (ms_config m0) →
     main_events o ret m srv l (PTo (set_running 0 ms)) global eh e = Err UseAfterFree).
Proof.
  intros Hr Hne. assert (∃ r, mm_running ms = Some r ∧ r ≠ 0) as Hrun by by exists r.
  pose proof (main_events_cases o ret m srv ms Hrun l eh e) as Hc. split_and!.
  - intros x E. by rewrite E in Hc.
  - intros p e' sig l' E. rewrite E in Hc. split; [exact Hc|]. intros Hs.
    destruct (main_events_app o ret m srv ms Hrun l (Signal sig :: l') eh e p e' E) as (eh' & ->).
    by apply main_events_signal.
  - intros m0 global Hm Hlen.
    destruct l; cbn [main_events deref]; rewrite bind_Ok; cbn [mm_running set_running]; rewrite decide_True by done;
      by rewrite (main_end_use_after_free _ m0).
Qed.

(** ** Witness: a child ends, then the server is told to stop *)

Definition ex_master : master :=
  Master ex_small [MkWorker 0 PNull [] 9 700] (replicate 16 0) lock_init.
Definition ex_running : master_server := MasterServer (Some 1) (PTo (cstr (lit "c"))) (Some ex_master).

Lemma main_never_stops_witness :
  main_events ex_os (λ _, 0) ex_master ex_small_server ([Ready None; Signal SIGCHLD] ++ [Signal SIGTERM])
    (PTo ex_running) master_serv (EventHandler 9 64 false) ex_env = Err NullDeref ∧
  main_events ex_os (λ _, 0) ex_master ex_small_server [Ready None; Signal SIGCHLD]
    (PTo (set_running 0 ex_running)) master_serv (EventHandler 9 64 false) ex_env = Err UseAfterFree.
Proof.
  destruct (main_never_stops ex_os (λ _, 0) ex_master ex_small_server ex_running 1 [Ready None; Signal SIGCHLD]
    (EventHandler 9 64 false) ex_env eq_refl ltac:(done)) as (_ & H & Hend).
  split; [|by apply (Hend ex_master)]. exact (proj2 (H (PTo ex_running) ex_env SIGTERM [] eq_refl) ltac:(done)).
Defined.
