(* ===== verification/Canon.v ===== *)
(** Canon: the string functions of [src/firm-dkim-extended/firm-dkim.c] and the
    "relaxed" canonicalization of DKIM built from them, which work in place on
    NUL-terminated buffers; reference definitions on byte lists. *)
From S2P Require Import Prelude.

(** ** Operations *)

Definition is_wsp (c : byte) : bool := bool_decide (c ∈ [SP; TAB]).
Definition is_crlf (c : byte) : bool := bool_decide (c ∈ [CR; LF]).

(** The loop of [rtrim] and [rtrim_lines]: cut the last byte while it is in
    the class [p]. *)
Definition rtrim_step (p : byte → bool) (s : buf * Z) : res (ctl (buf * Z)) :=
  let '(b, len) := s in
  c0 ← bload b 0;
  if decide (c0 ≠ NUL ∧ len ≠ 0) then
    c ← bload b (len - 1);
    if p c then
      b' ← bstore b (len - 1) NUL; len' ← strlen b'; Ok (Next (b', len'))
    else Ok (Break s)
  else Ok (Break s).

Definition rtrim_with (p : byte → bool) (b : buf) : res buf :=
  len ← strlen b;
  s ← cloop (rtrim_step p) (S (Z.to_nat len)) (b, len); Ok (fst s).

Definition rtrim : buf → res buf := rtrim_with is_wsp.
Definition rtrim_lines : buf → res buf := rtrim_with is_crlf.

(** [ltrim]: the start moves over white space, then the rest is copied. *)
Definition ltrim_step (b : buf) (s : Z * Z) : res (ctl (Z * Z)) :=
  let '(start, len) := s in
  c ← bload b start;
  if decide (c ≠ NUL ∧ len ≠ 0) then
    if is_wsp c then
      p ← ptr_add b (start + 1); len' ← strlen p; Ok (Next (start + 1, len'))
    else Ok (Break s)
  else Ok (Break s).

Definition ltrim (b : buf) : res buf :=
  len ← strlen b;
  s ← cloop (ltrim_step b) (S (Z.to_nat len)) (0, len);
  p ← ptr_add b (fst s);
  n ← strlen p;
  memcpy (malloc (n + 1)) 0 p 0 (n + 1).

(** The in-place loops: the buffer, the reading index and the length of what
    is kept. *)
Record inplace := Inplace {
  ip_buf : buf;
  ip_e : Z;
  ip_new : Z;
}.

(** Sequences of white space become one space. *)
Definition reduce_step (len : Z) (s : inplace) : res (ctl inplace) :=
  let e := ip_e s in
  if decide (e < len) then
    c ← bload (ip_buf s) e;
    b ← (if decide (c = TAB) then bstore (ip_buf s) e SP else Ok (ip_buf s));
    drop ← (if decide (0 < e) then
              p ← bload b (e - 1);
              if decide (p = SP) then c1 ← bload b e; Ok (bool_decide (c1 = SP)) else Ok false
            else Ok false);
    if drop : bool then Ok (Next (Inplace b (e + 1) (ip_new s)))
    else
      c1 ← bload b e;
      b' ← bstore b (ip_new s) c1;
      Ok (Next (Inplace b' (e + 1) (ip_new s + 1)))
  else Ok (Break s).

Definition reduce_wsp (b : buf) : res buf :=
  len ← strlen b;
  s ← cloop (reduce_step len) (S (Z.to_nat len)) (Inplace b 0 0);
  bstore (ip_buf s) (ip_new s) NUL.

(** Line breaks disappear. *)
Definition unfold_step (len : Z) (s : inplace) : res (ctl inplace) :=
  let e := ip_e s in
  let b := ip_buf s in
  if decide (e < len) then
    c ← bload b e;
    brk ← (if decide (c = CR) then d ← bload b (e + 1); Ok (bool_decide (d = LF)) else Ok false);
    if brk : bool then Ok (Next (Inplace b (e + 1 + 1) (ip_new s)))
    else b' ← bstore b (ip_new s) c; Ok (Next (Inplace b' (e + 1) (ip_new s + 1)))
  else Ok (Break s).

Definition unfold_lines (b : buf) : res buf :=
  len ← strlen b;
  s ← cloop (unfold_step len) (S (Z.to_nat len)) (Inplace b 0 0);
  bstore (ip_buf s) (ip_new s) NUL.

(** [tolower] in the C locale. *)
Definition tolower (c : byte) : byte :=
  if decide (65 <= bval c <= 90) then byte_of (bval c + 32) else c.

Definition lower_step (src : buf) (len : Z) (s : buf * Z) : res (ctl (buf * Z)) :=
  let '(dst, e) := s in
  if decide (e < len) then
    c ← bload src e; d ← bstore dst e (tolower c); Ok (Next (d, e + 1))
  else Ok (Break s).

(** [str_to_lower]: into a new buffer. *)
Definition str_to_lower (str : buf) : res buf :=
  len ← strlen str;
  s ← cloop (lower_step str len) (S (Z.to_nat len)) (malloc (len + 1), 0);
  bstore (fst s) (snd s) NUL.

(** The same in place: the source is the buffer that is written. *)
Definition lower_step_in (len : Z) (s : buf * Z) : res (ctl (buf * Z)) :=
  let '(b, e) := s in
  if decide (e < len) then
    c ← bload b e; b' ← bstore b e (tolower c); Ok (Next (b', e + 1))
  else Ok (Break s).

Definition lower_in_place (b : buf) : res buf :=
  len ← strlen b;
  s ← cloop (lower_step_in len) (S (Z.to_nat len)) (b, 0); Ok (fst s).

(** [stringpair] *)
Record stringpair := Stringpair {
  sp_key : buf;
  sp_value : buf;
}.

Definition copy_string (b : buf) : res buf :=
  n ← strlen b; memcpy (malloc (n + 1)) 0 b 0 (n + 1).

(** [relaxed_header_canon (headers, headerc)], one pass over all headers per
    rule. *)
Definition relaxed_header_canon (headers : list stringpair) : res (list stringpair) :=
  l1 ← mapM (λ h, k ← copy_string (sp_key h); v ← copy_string (sp_value h); Ok (Stringpair k v)) headers;
  l2 ← mapM (λ h, k ← lower_in_place (sp_key h); Ok (Stringpair k (sp_value h))) l1;
  l3 ← mapM (λ h, v ← unfold_lines (sp_value h); Ok (Stringpair (sp_key h) v)) l2;
  l4 ← mapM (λ h, v ← reduce_wsp (sp_value h); Ok (Stringpair (sp_key h) v)) l3;
  mapM (λ h, v ← rtrim (sp_value h); v' ← ltrim v; Ok (Stringpair (sp_key h) v')) l4.

(** [relaxed_body_canon_line (line)] *)
Definition relaxed_body_canon_line (line : buf) : res buf :=
  b ← rtrim line; reduce_wsp b.

(** The variables of [relaxed_body_canon]. *)
Record bodies := Bodies {
  bc_i : Z;
  bc_offset : Z;
  bc_new : buf;
  bc_len : Z;
}.

Definition crlf_bytes : list byte := [CR; LF].

(** Canonicalize the [n] bytes at [offset] and add them and a line break. *)
Definition add_line (body : buf) (offset n : Z) (nb : buf) (nlen : Z) : res (buf * Z) :=
  l0 ← memcpy (malloc (n + 1)) 0 body offset n;
  l1 ← bstore l0 n NUL;
  line ← relaxed_body_canon_line l1;
  line_len ← strlen line;
  nb1 ← memcpy nb nlen line 0 line_len;
  nb2 ← memcpy nb1 (nlen + line_len) (bs crlf_bytes) 0 2;
  Ok (nb2, nlen + line_len + 2).

Definition body_step (body : buf) (body_len : Z) (s : bodies) : res (ctl bodies) :=
  let i := bc_i s in
  if decide (i < body_len) then
    c ← bload body i;
    if decide (c = LF) then
      is_r ← (if decide (0 < i) then p ← bload body (i - 1); Ok (bool_decide (p = CR)) else Ok false);
      let i1 := if is_r : bool then i - 1 else i in
      r ← add_line body (bc_offset s) (i1 - bc_offset s) (bc_new s) (bc_len s);
      let i2 := if is_r : bool then i1 + 1 else i1 in
      Ok (Next (Bodies (i2 + 1) (i2 + 1) (fst r) (snd r)))
    else Ok (Next (Bodies (i + 1) (bc_offset s) (bc_new s) (bc_len s)))
  else Ok (Break s).

Definition relaxed_body_canon (body : buf) : res buf :=
  body_len ← strlen body;
  s ← cloop (body_step body body_len) (S (Z.to_nat body_len)) (Bodies 0 0 (malloc (body_len * 2 + 3)) 0);
  r ← (if decide (bc_offset s < body_len)
       then add_line body (bc_offset s) (bc_i s - bc_offset s) (bc_new s) (bc_len s)
       else Ok (bc_new s, bc_len s));
  b1 ← bstore (fst r) (snd r) NUL;
  b2 ← rtrim_lines b1;
  n ← strlen b2;
  b3 ← bstore b2 n CR;
  b4 ← bstore b3 (n + 1) LF;
  bstore b4 (n + 2) NUL.

(** [wrap (str, len)] *)
Definition wrap_step (str : buf) (len : Z) (s : buf * Z * Z * Z) : res (ctl (buf * Z * Z * Z)) :=
  let '(tmp, tmp_len, i, lcount) := s in
  if decide (i < len) then
    c ← bload str i;
    t1 ← bstore tmp tmp_len c;
    if decide (c = SP ∨ lcount = 75) then
      t2 ← bstore t1 (tmp_len + 1) CR;
      t3 ← bstore t2 (tmp_len + 2) LF;
      t4 ← bstore t3 (tmp_len + 3) TAB;
      Ok (Next (t4, tmp_len + 4, i + 1, 0))
    else Ok (Next (t1, tmp_len + 1, i + 1, lcount + 1))
  else Ok (Break s).

Definition wrap (str : buf) (len : Z) : res buf :=
  s ← cloop (wrap_step str len) (S (Z.to_nat len)) (malloc (len * 3 + 1), 0, 0, 0);
  let '(tmp, tmp_len, _, _) := s in bstore tmp tmp_len NUL.

(** ** Reference definitions *)

(** Without the bytes of the class at the end. *)
Fixpoint rtrim_list (p : byte → bool) (s : list byte) : list byte :=
  match s with
  | [] => []
  | c :: s' =>
      match rtrim_list p s' with
      | [] => if p c then [] else [c]
      | t => c :: t
      end
  end.

Fixpoint ltrim_list (s : list byte) : list byte :=
  match s with
  | c :: s' => if is_wsp c then ltrim_list s' else s
  | [] => []
  end.

(** Every run of white space becomes one space; [prev] tells whether one
    precedes. *)
Fixpoint collapse (prev : bool) (s : list byte) : list byte :=
  match s with
  | [] => []
  | c :: s' =>
      if is_wsp c then (if prev then collapse true s' else SP :: collapse true s')
      else c :: collapse false s'
  end.

(** Without the CR LF pairs. *)
Fixpoint unfold_list (s : list byte) : list byte :=
  match s with
  | [] => []
  | c :: s' =>
      match s' with
      | d :: s'' => if decide (c = CR ∧ d = LF) then unfold_list s'' else c :: unfold_list s'
      | [] => [c]
      end
  end.

Definition relaxed_key (k : list byte) : list byte := tolower <$> k.
Definition relaxed_value (v : list byte) : list byte :=
  ltrim_list (rtrim_list is_wsp (collapse false (unfold_list v))).

(** The lines of a body: a line feed, or CR LF, ends one; the last may lack it. *)
Definition drop_cr (l : list byte) : list byte :=
  if decide (last l = Some CR) then take (length l - 1) l else l.
Fixpoint body_lines_from (cur : list byte) (s : list byte) : list (list byte) :=
  match s with
  | [] => if decide (cur = []) then [] else [cur]
  | c :: s' =>
      if decide (c = LF) then drop_cr cur :: body_lines_from [] s'
      else body_lines_from (cur ++ [c]) s'
  end.
Definition body_lines : list byte → list (list byte) := body_lines_from [].

Definition relaxed_line (l : list byte) : list byte := collapse false (rtrim_list is_wsp l).
Definition join_lines (ls : list (list byte)) : list byte := concat ((λ l, l ++ crlf_bytes) <$> ls).

Definition relaxed_body (body : list byte) : list byte :=
  rtrim_list is_crlf (join_lines (relaxed_line <$> body_lines body)) ++ crlf_bytes.

(** ** Strings in buffers *)

(** The buffer has [n] bytes and holds the string [s]. *)
Definition str_at (b : buf) (s : list byte) (n : nat) : Prop :=
  ∃ post, b = bs s ++ Some NUL :: post ∧ length b = n.

Lemma str_at_cstr s : str_at (cstr s) s (S (length s)).
Proof. exists []. split; [done|]. by rewrite length_cstr. Qed.

Lemma str_at_strlen b s n : str_at b s n → nonul s → strlen b = Ok (zlen s).
Proof. intros (post & -> & _). apply strlen_bs. Qed.

Lemma str_at_cstring b s n : str_at b s n → nonul s → cstring b = Ok s.
Proof. intros (post & -> & _). apply cstring_bs. Qed.

Lemma str_at_lt b s n : str_at b s n → (length s < n)%nat.
Proof. intros (post & -> & <-). rewrite length_app, length_bs. simpl. lia. Qed.

Lemma str_at_load b s n i c : str_at b s n → 0 <= i → s !! Z.to_nat i = Some c → bload b i = Ok c.
Proof. intros (post & -> & _). apply bload_bs. Qed.

Lemma str_at_load_end b s n i : str_at b s n → i = zlen s → bload b i = Ok NUL.
Proof. intros (post & -> & _) ->. apply bload_mid. by rewrite zlen_bs. Qed.

(** Cutting the string at [i]. *)
Lemma str_at_cut b s n i :
  str_at b s n → 0 <= i <= zlen s →
  ∃ b', bstore b i NUL = Ok b' ∧ str_at b' (take (Z.to_nat i) s) n.
Proof.
  intros (post & -> & Hn) Hi.
  assert (bs s = bs (take (Z.to_nat i) s) ++ bs (drop (Z.to_nat i) s)) as Hs
    by (by rewrite <-bs_app, take_drop).
  rewrite Hs in Hn |- *. rewrite <-app_assoc in Hn |- *.
  destruct (bs (drop (Z.to_nat i) s) ++ Some NUL :: post) as [|x r] eqn:E.
  { by apply app_eq_nil in E as [_ ?]. }
  rewrite bstore_mid by (rewrite zlen_bs; unfold zlen; rewrite length_take; zlia).
  eexists. split; [done|]. exists r. split; [done|].
  by rewrite <-Hn, !length_app.
Qed.

(** ** Trimming *)

Lemma rtrim_list_snoc p s c :
  rtrim_list p (s ++ [c]) = if p c then rtrim_list p s else s ++ [c].
Proof.
  induction s as [|d s IH]; simpl; [by destruct (p c)|]. rewrite IH.
  destruct (p c); [done|]. by destruct s.
Qed.

Lemma rtrim_list_nonul p s : nonul s → nonul (rtrim_list p s).
Proof.
  induction s as [|c s IH] using rev_ind; [done|]. intros [Hs Hc]%nonul_app.
  rewrite rtrim_list_snoc. destruct (p c); [auto | by apply nonul_app].
Qed.

Lemma rtrim_list_length p s : (length (rtrim_list p s) <= length s)%nat.
Proof.
  induction s as [|c s IH] using rev_ind; [done|]. rewrite rtrim_list_snoc, length_app. simpl.
  destruct (p c); [lia|]. rewrite length_app. simpl. lia.
Qed.

Lemma rtrim_with_ok p b s n :
  nonul s → str_at b s n → ∃ b', rtrim_with p b = Ok b' ∧ str_at b' (rtrim_list p s) n.
Proof.
  intros Hs Hb. unfold rtrim_with. rewrite (str_at_strlen _ _ _ Hb Hs), bind_Ok.
  assert (wp (cloop (rtrim_step p) (S (Z.to_nat (zlen s))) (b, zlen s))
    (λ r, str_at (fst r) (rtrim_list p s) n)) as Hl.
  { apply (wp_cloop _ (λ r, ∃ t, str_at (fst r) t n ∧ nonul t ∧ snd r = zlen t ∧
      rtrim_list p t = rtrim_list p s) (λ r, Z.to_nat (snd r))); [|by exists s|simpl; lia].
    intros [b1 len] (t & Ht & Htn & Hlen & Heq). simpl in *. subst len.
    destruct t as [|c t _] using rev_ind.
    - rewrite (str_at_load_end _ _ _ 0 Ht) by done. rewrite bind_Ok.
      rewrite decide_False by (by intros [? _]). simpl. by rewrite <-Heq.
    - destruct ((t ++ [c]) !! 0%nat) as [c0|] eqn:E0.
      2:{ apply lookup_ge_None in E0. rewrite length_app in E0. simpl in E0. lia. }
      rewrite (str_at_load _ _ _ 0 c0 Ht) by done. rewrite bind_Ok.
      assert (c0 ≠ NUL) as Hc0 by (unfold nonul in Htn; by eapply Forall_lookup_1 in Htn).
      rewrite decide_True by (split; [done|zlia]).
      rewrite (str_at_load _ _ _ _ c Ht) by (first [zlia |
        apply list_lookup_middle; zlia]). rewrite bind_Ok.
      rewrite rtrim_list_snoc in Heq. destruct (p c) eqn:Ep.
      + destruct (str_at_cut _ _ _ (zlen (t ++ [c]) - 1) Ht ltac:(zlia)) as (b2 & -> & Hb2).
        rewrite take_app_length' in Hb2 by zlia.
        apply nonul_app in Htn as [Htn _].
        rewrite bind_Ok, (str_at_strlen _ _ _ Hb2 Htn). simpl.
        split; [by exists t | zlia].
      + simpl. by rewrite <-Heq. }
  destruct (wp_inv _ _ Hl) as ([b' len'] & -> & Hb'). by exists b'.
Qed.

Lemma ltrim_list_suffix s : ltrim_list s `suffix_of` s.
Proof.
  induction s as [|c s IH]; simpl; [done|]. destruct (is_wsp c); [|done].
  by apply suffix_cons_r.
Qed.

Lemma ltrim_list_nonul s : nonul s → nonul (ltrim_list s).
Proof.
  intros Hs. destruct (ltrim_list_suffix s) as [k Hk]. rewrite Hk in Hs. by apply nonul_app in Hs as [_ ?].
Qed.

Lemma copy_string_ok b s n :
  nonul s → str_at b s n → copy_string b = Ok (cstr s).
Proof.
  intros Hs Hb. unfold copy_string. rewrite (str_at_strlen _ _ _ Hb Hs), bind_Ok.
  destruct Hb as (post & -> & _). unfold memcpy.
  assert (bs s ++ Some NUL :: post = [] ++ cstr s ++ post) as ->.
  { unfold cstr. by rewrite <-app_assoc. }
  rewrite bread_mid by zlia. rewrite bind_Ok, bwrite_start by zlia.
  rewrite drop_ge, app_nil_r by zlia. done.
Qed.

Lemma ltrim_ok b s n : nonul s → str_at b s n → ltrim b = Ok (cstr (ltrim_list s)).
Proof.
  intros Hs Hb. unfold ltrim. rewrite (str_at_strlen _ _ _ Hb Hs), bind_Ok.
  assert (wp (cloop (ltrim_step b) (S (Z.to_nat (zlen s))) (0, zlen s))
    (λ r, ∃ pre, s = pre ++ ltrim_list s ∧ fst r = zlen pre)) as Hl.
  { apply (wp_cloop _ (λ r, ∃ pre t, s = pre ++ t ∧ fst r = zlen pre ∧ snd r = zlen t ∧
      ltrim_list t = ltrim_list s) (λ r, Z.to_nat (snd r))); [|by exists [], s|simpl; lia].
    intros [start len] (pre & t & Heq & Hst & Hlen & Hlt). simpl in *. subst start len.
    destruct t as [|c t].
    - rewrite (str_at_load_end _ _ _ _ Hb) by (rewrite Heq; zlia). rewrite bind_Ok.
      rewrite decide_False by (by intros [? _]). exists pre. by rewrite <-Hlt.
    - rewrite (str_at_load _ _ _ _ c Hb) by (first [zlia | rewrite Heq; apply list_lookup_middle; zlia]).
      rewrite bind_Ok. rewrite Heq in Hs. apply nonul_app in Hs as [_ Hs]. apply nonul_cons in Hs as [Hc Hs].
      rewrite decide_True by (split; [done|zlia]).
      simpl in Hlt. destruct (is_wsp c) eqn:Ew.
      + destruct Hb as (post & -> & _). rewrite Heq.
        replace (bs (pre ++ c :: t) ++ Some NUL :: post)
          with ((bs pre ++ [Some c]) ++ bs t ++ Some NUL :: post)
          by (rewrite bs_app, <-!app_assoc; done).
        rewrite ptr_add_app by zlia. rewrite bind_Ok, strlen_bs by done. simpl.
        split; [|zlia]. exists (pre ++ [c]), t. rewrite <-app_assoc.
        split_and!; [done | zlia | done | by rewrite Hlt, Heq].
      + simpl. exists pre. by rewrite <-Hlt. }
  destruct (wp_inv _ _ Hl) as ([start len] & -> & pre & Heq & Hst). simpl in Hst. subst start.
  rewrite bind_Ok. simpl. destruct Hb as (post & -> & _).
  rewrite Heq at 1. rewrite bs_app, <-app_assoc, ptr_add_app by zlia. rewrite bind_Ok.
  pose proof (ltrim_list_nonul s Hs) as Hn.
  assert (str_at (bs (ltrim_list s) ++ Some NUL :: post) (ltrim_list s)
    (length (bs (ltrim_list s) ++ Some NUL :: post))) as Hp by by eexists.
  apply (copy_string_ok _ _ _ Hn) in Hp. unfold copy_string in Hp. done.
Qed.

(** ** The in-place loops *)

(** [out] has been kept at the front of [b], and from [e] on the buffer is as
    it was. *)
Definition kept (b0 : buf) (out : list byte) (b : buf) (e : nat) : Prop :=
  length b = length b0 ∧ (length out <= e)%nat ∧ take (length out) b = bs out ∧
  ∀ k, (e <= k)%nat → b !! k = b0 !! k.

Lemma kept_start b : kept b [] b 0.
Proof. split_and!; [done | simpl; lia | done | done]. Qed.

Lemma kept_next b0 out b e : kept b0 out b e → kept b0 out b (S e).
Proof. intros (? & ? & ? & Hk). split_and!; [done | lia | done |]. intros. apply Hk. lia. Qed.

Lemma bstore_insert b i c : 0 <= i < zlen b → bstore b i c = Ok (<[Z.to_nat i := Some c]> b).
Proof. intros Hi. unfold bstore. by rewrite decide_True. Qed.

Lemma kept_store b0 out b e c :
  kept b0 out b e → (length out < e)%nat → (e <= length b0)%nat →
  ∃ b', bstore b (zlen out) c = Ok b' ∧ kept b0 (out ++ [c]) b' e.
Proof.
  intros (Hl & Hn & Ht & Hk) Ho He. eexists. split; [apply bstore_insert; zlia|].
  rewrite zlen_to_nat. split_and!.
  - by rewrite length_insert.
  - rewrite length_app. simpl. lia.
  - rewrite length_app. simpl. rewrite Nat.add_1_r.
    rewrite (take_S_r _ _ (Some c)) by (apply list_lookup_insert_eq; lia).
    rewrite take_insert_ge, Ht by lia. by rewrite bs_app.
  - intros k Hkk. rewrite list_lookup_insert_ne by lia. apply Hk. lia.
Qed.

Lemma bload_bstore b i c b' j :
  bstore b i c = Ok b' → 0 <= j → bload b' j = if decide (j = i) then Ok c else bload b j.
Proof.
  unfold bstore. case_decide as Hi; [|done]. intros [= <-] Hj. unfold bload.
  rewrite !decide_True by done. case_decide as Hji.
  - subst. rewrite list_lookup_insert_eq; [done|]. zlia.
  - rewrite list_lookup_insert_ne by lia. by rewrite decide_True by done.
Qed.

Lemma kept_finish b0 out b e :
  kept b0 out b e → (length out < length b0)%nat →
  ∃ b', bstore b (zlen out) NUL = Ok b' ∧ str_at b' out (length b0).
Proof.
  intros (Hl & Hn & Ht & _) He.
  exists (bs out ++ Some NUL :: drop (S (length out)) b). split.
  - rewrite bstore_insert by zlia. rewrite zlen_to_nat, insert_take_drop by lia. by rewrite Ht.
  - eexists. split; [done|]. rewrite length_app, length_bs. simpl. rewrite length_drop. lia.
Qed.

Lemma bload_kept b0 out b e i c :
  kept b0 out b e → (e <= Z.to_nat i)%nat → 0 <= i → bload b0 i = Ok c → bload b i = Ok c.
Proof.
  intros (_ & _ & _ & Hk) Hi H0. unfold bload. rewrite !decide_True by done. by rewrite Hk.
Qed.

Definition prev_wsp (pre : list byte) : bool :=
  match last pre with Some c => is_wsp c | None => false end.

(** A tab counts as a space. *)
Definition norm_wsp (c : byte) : byte := if decide (c = TAB) then SP else c.

Lemma norm_wsp_sp c : norm_wsp c = SP ↔ is_wsp c = true.
Proof.
  unfold norm_wsp, is_wsp. rewrite bool_decide_eq_true. case_decide; in_list.
Qed.

Lemma norm_wsp_id c : is_wsp c = false → norm_wsp c = c.
Proof.
  unfold norm_wsp, is_wsp. rewrite bool_decide_eq_false. case_decide; [|done]. in_list.
Qed.

Lemma collapse_app prev s c :
  collapse prev (s ++ [c]) =
    collapse prev s ++ (if match last s with Some d => is_wsp d | None => prev end && is_wsp c
                        then [] else [norm_wsp c]).
Proof.
  revert prev. induction s as [|d s IH]; intros prev; simpl.
  - destruct (is_wsp c) eqn:E; simpl.
    + apply norm_wsp_sp in E. rewrite E. by destruct prev.
    + by rewrite norm_wsp_id, andb_false_r.
  - rewrite !IH. assert (last (d :: s) = Some (default d (last s))) as ->
      by (rewrite last_cons; by destruct (last s)).
    destruct (last s); simpl; destruct (is_wsp d), prev; done.
Qed.

Lemma collapse_length prev s : (length (collapse prev s) <= length s)%nat.
Proof.
  revert prev. induction s as [|c s IH]; intros prev; simpl; [done|].
  destruct (is_wsp c), prev; simpl; pose proof (IH true); pose proof (IH false); lia.
Qed.

Lemma collapse_nonul prev s : nonul s → nonul (collapse prev s).
Proof.
  revert prev. induction s as [|c s IH]; intros prev Hs; simpl; [done|].
  apply nonul_cons in Hs as [Hc Hs].
  destruct (is_wsp c); [destruct prev|]; [by apply IH|..]; apply nonul_cons; (split; [done|by apply IH]).
Qed.

(** The byte at [e] after its replacement if it is a tab. *)
Lemma tab_step b0 out b e c :
  kept b0 out b e → bload b (Z.of_nat e) = Ok c → (e < length b0)%nat →
  ∃ b', (if decide (c = TAB) then bstore b (Z.of_nat e) SP else Ok b) = Ok b' ∧
    kept b0 out b' (S e) ∧ bload b' (Z.of_nat e) = Ok (norm_wsp c) ∧
    ∀ j, 0 <= j → j ≠ Z.of_nat e → bload b' j = bload b j.
Proof.
  intros Hk Hc He. unfold norm_wsp. case_decide.
  - destruct Hk as (Hkl & Hkn & Hkt & Hkk).
    assert (bstore b (Z.of_nat e) SP = Ok (<[e := Some SP]> b)) as Hst.
    { rewrite bstore_insert by zlia. by rewrite Nat2Z.id. }
    eexists. split; [exact Hst|]. split; [|split].
    + unfold kept. split_and!; [by rewrite length_insert | lia | by rewrite take_insert_ge by lia |].
      intros k Hkk'. rewrite list_lookup_insert_ne by lia. apply Hkk. lia.
    + rewrite (bload_bstore _ _ _ _ _ Hst) by lia. by rewrite decide_True.
    + intros j Hj Hne. rewrite (bload_bstore _ _ _ _ _ Hst) by lia. by rewrite decide_False.
  - exists b. split_and!; [done | by apply kept_next | done | done].
Qed.

(** The state of the reduction after the bytes [pre] of [s]. *)
Definition reduce_inv (b0 : buf) (s : list byte) (r : inplace) : Prop :=
  ∃ pre rest, s = pre ++ rest ∧ ip_e r = zlen pre ∧
    kept b0 (collapse false pre) (ip_buf r) (length pre) ∧ ip_new r = zlen (collapse false pre) ∧
    ∀ c, last pre = Some c → bload (ip_buf r) (zlen pre - 1) = Ok (norm_wsp c).

Lemma reduce_drop b pre c :
  bload b (zlen pre) = Ok (norm_wsp c) →
  (∀ d, last pre = Some d → bload b (zlen pre - 1) = Ok (norm_wsp d)) →
  (if decide (0 < zlen pre) then p ← bload b (zlen pre - 1);
     if decide (p = SP) then c1 ← bload b (zlen pre); Ok (bool_decide (c1 = SP)) else Ok false
   else Ok false) =
  Ok (match last pre with Some d => is_wsp d | None => false end && is_wsp c).
Proof.
  intros Hc Hp. destruct (last pre) as [d|] eqn:Elast.
  - assert (0 < zlen pre) as Hpos by (destruct pre; [done|zlia]).
    rewrite decide_True, (Hp d eq_refl), bind_Ok by done.
    destruct (is_wsp d) eqn:Ed.
    + apply norm_wsp_sp in Ed. rewrite decide_True, Hc, bind_Ok by done. f_equal.
      destruct (is_wsp c) eqn:Ec.
      * apply norm_wsp_sp in Ec. by apply bool_decide_true.
      * apply bool_decide_false. intros H%norm_wsp_sp. congruence.
    + rewrite decide_False; [done|]. intros H%norm_wsp_sp. congruence.
  - apply last_None in Elast. by subst pre.
Qed.

Lemma reduce_step_ok b0 s n r :
  str_at b0 s n → reduce_inv b0 s r →
  wp (reduce_step (zlen s) r) (λ c, match c with
    | Next r' => reduce_inv b0 s r' ∧ (Z.to_nat (zlen s - ip_e r') < Z.to_nat (zlen s - ip_e r))%nat
    | Break r' => ip_new r' = zlen (collapse false s) ∧
        kept b0 (collapse false s) (ip_buf r') (length s) end).
Proof.
  intros Hb (pre & rest & Heq & He & Hk & Hnew & Hprev). destruct r as [b1 e new]. simpl in *. subst e new.
  pose proof (str_at_lt _ _ _ Hb) as Hlt. assert (length b0 = n) as Hlen by by destruct Hb as (? & _ & ?).
  unfold reduce_step. cbn [ip_buf ip_e ip_new]. destruct rest as [|c rest].
  { rewrite app_nil_r in Heq. subst pre. by rewrite decide_False by lia. }
  rewrite decide_True by (rewrite Heq; zlia).
  assert (bload b1 (zlen pre) = Ok c) as Hc.
  { eapply bload_kept; [exact Hk | zlia | zlia |].
    eapply str_at_load; [exact Hb | zlia |]. rewrite Heq. apply list_lookup_middle. zlia. }
  rewrite Hc, bind_Ok.
  destruct (tab_step _ _ _ _ _ Hk Hc) as (b2 & Hb2 & Hk2 & Hc2 & Hp2);
    [rewrite Heq in Hlt; zlia|].
  change (Z.of_nat (length pre)) with (zlen pre) in *. rewrite Hb2, bind_Ok.
  rewrite (reduce_drop b2 pre c Hc2), bind_Ok.
  2:{ intros d Hd. rewrite Hp2; [by apply Hprev | | lia]. destruct pre; [done|zlia]. }
  pose proof (collapse_app false pre c) as Hca. pose proof (collapse_length false pre) as Hcl.
  assert (s = (pre ++ [c]) ++ rest) as Heq' by by rewrite <-app_assoc.
  destruct (match last pre with Some d => is_wsp d | None => false end && is_wsp c).
  - rewrite app_nil_r in Hca. simpl. split; [|rewrite Heq; zlia].
    exists (pre ++ [c]), rest. simpl. rewrite Hca, zlen_app, length_app, Nat.add_1_r.
    split_and!; [done | done | done | done |]. intros d. rewrite last_snoc. intros [= <-].
    rewrite <-Hc2. f_equal. zlia.
  - rewrite Hc2, bind_Ok.
    destruct (kept_store _ _ _ _ (norm_wsp c) Hk2 ltac:(lia)) as (b3 & Hb3 & Hk3);
      [rewrite Heq in Hlt; zlia|].
    rewrite Hb3, bind_Ok. simpl. split; [|rewrite Heq; zlia].
    exists (pre ++ [c]), rest. simpl. rewrite Hca, !zlen_app, length_app, Nat.add_1_r.
    split_and!; [done | done | done | done |]. intros d. rewrite last_snoc. intros [= <-].
    replace (zlen pre + zlen [c] - 1) with (zlen pre) by zlia.
    rewrite (bload_bstore _ _ _ _ _ Hb3) by zlia.
    clear Hb2. case_decide; [done | exact Hc2].
Qed.

Lemma reduce_wsp_ok b s n :
  nonul s → str_at b s n →
  ∃ b', reduce_wsp b = Ok b' ∧ str_at b' (collapse false s) n.
Proof.
  intros Hs Hb. pose proof (str_at_lt _ _ _ Hb) as Hlt.
  assert (length b = n) as Hlen by by destruct Hb as (? & _ & ?).
  unfold reduce_wsp. rewrite (str_at_strlen _ _ _ Hb Hs), bind_Ok.
  destruct (wp_inv _ _ (wp_cloop (reduce_step (zlen s)) (reduce_inv b s) (λ r, Z.to_nat (zlen s - ip_e r))
    (λ r, ip_new r = zlen (collapse false s) ∧ kept b (collapse false s) (ip_buf r) (length s))
    (S (Z.to_nat (zlen s))) (Inplace b 0 0) (λ r Hr, reduce_step_ok b s n r Hb Hr)
    ltac:(exists [], s; split; [done|]; split; [done|]; split; [apply kept_start|]; split; [done|]; intros ? [=])
    ltac:(simpl; lia)))
    as (r & -> & Hnew & Hk).
  rewrite bind_Ok, Hnew. rewrite <-Hlen.
  apply (kept_finish b _ _ _ Hk). pose proof (collapse_length false s). lia.
Qed.

Lemma kept_end b0 s n e : str_at b0 s n → e = zlen s → bload b0 e = Ok NUL.
Proof. apply str_at_load_end. Qed.

(** The state of the unfolding when [rest] is still to be read. *)
Definition unfold_inv (b0 : buf) (s : list byte) (r : inplace) : Prop :=
  ∃ pre rest out, s = pre ++ rest ∧ ip_e r = zlen pre ∧ kept b0 out (ip_buf r) (length pre) ∧
    ip_new r = zlen out ∧ unfold_list s = out ++ unfold_list rest.

Lemma unfold_step_ok b0 s n r :
  str_at b0 s n → nonul s → unfold_inv b0 s r →
  wp (unfold_step (zlen s) r) (λ c, match c with
    | Next r' => unfold_inv b0 s r' ∧ (Z.to_nat (zlen s - ip_e r') < Z.to_nat (zlen s - ip_e r))%nat
    | Break r' => ip_new r' = zlen (unfold_list s) ∧
        kept b0 (unfold_list s) (ip_buf r') (length s) end).
Proof.
  intros Hb Hs (pre & rest & out & Heq & He & Hk & Hnew & Hu). destruct r as [b1 e new].
  simpl in *. subst e new. pose proof (str_at_lt _ _ _ Hb) as Hlt.
  assert (length b0 = n) as Hlen by by destruct Hb as (? & _ & ?).
  assert (Hload : ∀ i c, 0 <= i → rest !! Z.to_nat i = Some c → bload b1 (zlen pre + i) = Ok c).
  { intros i c Hi Hc. eapply bload_kept; [exact Hk | zlia | zlia |].
    eapply str_at_load; [exact Hb | zlia |]. rewrite Heq, lookup_app_r by zlia.
    rewrite <-Hc. f_equal. zlia. }
  unfold unfold_step. cbn [ip_buf ip_e ip_new]. destruct rest as [|c rest].
  { rewrite app_nil_r in Heq, Hu. subst pre. rewrite decide_False by lia. simpl. by rewrite Hu. }
  rewrite decide_True by (rewrite Heq; zlia).
  rewrite <-(Z.add_0_r (zlen pre)), (Hload 0 c), Z.add_0_r, bind_Ok by done.
  assert ((if decide (c = CR) then d ← bload b1 (zlen pre + 1); Ok (bool_decide (d = LF)) else Ok false)
    = Ok (match rest with d :: _ => bool_decide (c = CR ∧ d = LF) | [] => false end)) as ->.
  { case_decide as Hc; [|f_equal; destruct rest; [done|symmetry; apply bool_decide_false; tauto]].
    destruct rest as [|d rest].
    - rewrite (bload_kept _ _ _ _ _ NUL Hk) by (first [zlia |
        eapply str_at_load_end; [exact Hb | rewrite Heq; zlia]]). done.
    - rewrite (Hload 1 d), bind_Ok by done. f_equal. apply bool_decide_ext. tauto. }
  rewrite bind_Ok.
  assert (Hnext : ∀ b', kept b0 (out ++ [c]) b' (S (length pre)) →
    unfold_list (c :: rest) = c :: unfold_list rest →
    unfold_inv b0 s (Inplace b' (zlen pre + 1) (zlen out + 1))).
  { intros b' Hk' Hc. exists (pre ++ [c]), rest, (out ++ [c]). simpl.
    rewrite <-!app_assoc, !zlen_app, length_app, Nat.add_1_r, Hu, Hc. by split_and!. }
  destruct (kept_store _ _ _ _ c (kept_next _ _ _ _ Hk) ltac:(destruct Hk as (_ & ? & _); lia))
    as (b2 & Hb2 & Hk2); [rewrite Heq in Hlt; zlia|].
  destruct rest as [|d rest]; [|destruct (decide (c = CR ∧ d = LF)) as [Hc|Hc]].
  - rewrite Hb2, bind_Ok. simpl. split; [by apply Hnext | rewrite Heq; zlia].
  - rewrite bool_decide_true by done. simpl. split; [|rewrite Heq; zlia].
    exists (pre ++ [c; d]), rest, out. simpl. rewrite <-app_assoc, zlen_app, length_app.
    simpl in Hu. rewrite decide_True in Hu by done.
    split_and!; [done | zlia | | done | done]. rewrite Nat.add_comm. simpl. by do 2 apply kept_next.
  - rewrite bool_decide_false by done. rewrite Hb2, bind_Ok. simpl.
    split; [apply Hnext; [done|] | rewrite Heq; zlia]. simpl. by rewrite decide_False.
Qed.

Lemma unfold_list_length s : (length (unfold_list s) <= length s)%nat.
Proof.
  remember (length s) as k eqn:Hk. assert (length s <= k)%nat as Hle by lia. clear Hk.
  revert s Hle. induction k as [|k IH]; intros [|c [|d s]] Hle; simpl in *; try lia.
  case_decide; [pose proof (IH s ltac:(lia)); lia|].
  pose proof (IH (d :: s) ltac:(simpl; lia)) as H'. simpl in *. lia.
Qed.

Lemma unfold_list_nonul s : nonul s → nonul (unfold_list s).
Proof.
  remember (length s) as k eqn:Hk. assert (length s <= k)%nat as Hle by lia. clear Hk.
  revert s Hle. induction k as [|k IH]; intros [|c [|d s]] Hle Hs; simpl in *; try done; [lia|].
  apply nonul_cons in Hs as [Hc Hs]. case_decide.
  - apply nonul_cons in Hs as [_ Hs]. apply IH; [lia|done].
  - apply nonul_cons. split; [done|]. apply (IH (d :: s)); [simpl; lia | done].
Qed.

Lemma unfold_lines_ok b s n :
  nonul s → str_at b s n → ∃ b', unfold_lines b = Ok b' ∧ str_at b' (unfold_list s) n.
Proof.
  intros Hs Hb. pose proof (str_at_lt _ _ _ Hb) as Hlt.
  assert (length b = n) as Hlen by by destruct Hb as (? & _ & ?).
  unfold unfold_lines. rewrite (str_at_strlen _ _ _ Hb Hs), bind_Ok.
  destruct (wp_inv _ _ (wp_cloop (unfold_step (zlen s)) (unfold_inv b s) (λ r, Z.to_nat (zlen s - ip_e r))
    (λ r, ip_new r = zlen (unfold_list s) ∧ kept b (unfold_list s) (ip_buf r) (length s))
    (S (Z.to_nat (zlen s))) (Inplace b 0 0) (λ r Hr, unfold_step_ok b s n r Hb Hs Hr)
    ltac:(exists [], s, []; split; [done|]; split; [done|]; split; [apply kept_start|]; done)
    ltac:(simpl; lia))) as (r & -> & Hnew & Hk).
  rewrite bind_Ok, Hnew. rewrite <-Hlen.
  apply (kept_finish b _ _ _ Hk). pose proof (unfold_list_length s). lia.
Qed.

(** ** Lower case *)

Lemma tolower_nonul c : c ≠ NUL → tolower c ≠ NUL.
Proof.
  unfold tolower. case_decide as Hc; [|done]. intros _ H. apply (f_equal bval) in H.
  rewrite bval_byte_of, Z.mod_small in H by lia. change (bval NUL) with 0 in H. lia.
Qed.

Lemma lower_nonul s : nonul s → nonul (relaxed_key s).
Proof. intros Hs. apply Forall_fmap. eapply Forall_impl; [exact Hs|]. apply tolower_nonul. Qed.

(** Both loops have lowered the bytes before the index. *)
Definition lower_in_inv (s : list byte) (post : buf) (r : buf * Z) : Prop :=
  ∃ pre rest, s = pre ++ rest ∧ r = (bs (relaxed_key pre ++ rest) ++ Some NUL :: post, zlen pre).

Lemma lower_step_in_ok s post r :
  lower_in_inv s post r →
  wp (lower_step_in (zlen s) r) (λ c, match c with
    | Next r' => lower_in_inv s post r' ∧ (Z.to_nat (zlen s - snd r') < Z.to_nat (zlen s - snd r))%nat
    | Break r' => fst r' = bs (relaxed_key s) ++ Some NUL :: post end).
Proof.
  intros (pre & rest & Heq & ->). simpl. destruct rest as [|c rest].
  { rewrite app_nil_r in *. subst. by rewrite decide_False by lia. }
  rewrite decide_True by (rewrite Heq; zlia). unfold relaxed_key.
  rewrite bs_app, <-app_assoc, bs_cons. cbn [app].
  rewrite bload_mid, bind_Ok by (rewrite zlen_bs, zlen_fmap; done).
  rewrite bstore_mid, bind_Ok by (rewrite zlen_bs, zlen_fmap; done).
  simpl. split; [|rewrite Heq; zlia]. exists (pre ++ [c]), rest. unfold relaxed_key.
  by rewrite <-app_assoc, fmap_app, zlen_app, !bs_app, <-!app_assoc.
Qed.

Lemma lower_in_place_ok b s n :
  nonul s → str_at b s n → ∃ b', lower_in_place b = Ok b' ∧ str_at b' (relaxed_key s) n.
Proof.
  intros Hs (post & -> & Hn). unfold lower_in_place. rewrite strlen_bs, bind_Ok by done.
  destruct (wp_inv _ _ (wp_cloop (lower_step_in (zlen s)) (lower_in_inv s post)
    (λ r, Z.to_nat (zlen s - snd r)) (λ r, fst r = bs (relaxed_key s) ++ Some NUL :: post)
    (S (Z.to_nat (zlen s))) (bs s ++ Some NUL :: post, 0) (lower_step_in_ok s post)
    ltac:(by exists [], s) ltac:(simpl; lia))) as ([b' e] & -> & Hb').
  simpl in Hb'. subst b'. rewrite bind_Ok. eexists. split; [done|]. eexists. split; [done|].
  unfold relaxed_key. rewrite <-Hn. cbn [fst]. by autorewrite with len.
Qed.

Definition lower_inv (s : list byte) (r : buf * Z) : Prop :=
  ∃ pre rest, s = pre ++ rest ∧ r = (bs (relaxed_key pre) ++ malloc (zlen rest + 1), zlen pre).

Lemma lower_step_ok b s n r :
  str_at b s n → lower_inv s r →
  wp (lower_step b (zlen s) r) (λ c, match c with
    | Next r' => lower_inv s r' ∧ (Z.to_nat (zlen s - snd r') < Z.to_nat (zlen s - snd r))%nat
    | Break r' => r' = (bs (relaxed_key s) ++ malloc 1, zlen s) end).
Proof.
  intros Hb (pre & rest & Heq & ->). simpl. destruct rest as [|c rest].
  { rewrite app_nil_r in *. subst. by rewrite decide_False by lia. }
  rewrite decide_True by (rewrite Heq; zlia).
  rewrite (str_at_load _ _ _ _ c Hb), bind_Ok
    by (first [zlia | rewrite Heq; apply list_lookup_middle; zlia]).
  rewrite bstore_end, bind_Ok by (unfold relaxed_key; zlia).
  simpl. split; [|rewrite Heq; zlia]. exists (pre ++ [c]), rest. split; [by rewrite <-app_assoc|].
  unfold relaxed_key, malloc. rewrite drop_replicate, fmap_app, zlen_app, bs_app, <-app_assoc.
  do 4 f_equal. zlia.
Qed.

Lemma str_to_lower_ok b s n :
  nonul s → str_at b s n → str_to_lower b = Ok (cstr (relaxed_key s)).
Proof.
  intros Hs Hb. unfold str_to_lower. rewrite (str_at_strlen _ _ _ Hb Hs), bind_Ok.
  destruct (wp_inv _ _ (wp_cloop (lower_step b (zlen s)) (lower_inv s)
    (λ r, Z.to_nat (zlen s - snd r)) (λ r, r = (bs (relaxed_key s) ++ malloc 1, zlen s))
    (S (Z.to_nat (zlen s))) (malloc (zlen s + 1), 0) (λ r, lower_step_ok b s n r Hb)
    ltac:(by exists [], s) ltac:(simpl; lia))) as ([b' e] & -> & [= -> ->]).
  rewrite bind_Ok. cbn [fst snd]. by rewrite bstore_end by (unfold relaxed_key; zlia).
Qed.

(** ** Headers *)

(** The pair holds the strings [k] and [v]. *)
Definition pair_at (h : stringpair) (kv : list byte * list byte) : Prop :=
  nonul kv.1 ∧ nonul kv.2 ∧ (∃ n, str_at (sp_key h) kv.1 n) ∧ (∃ n, str_at (sp_value h) kv.2 n).

Lemma mapM_step {A B C D : Type} (f : A → res C) (R : A → B → Prop) (R' : C → D → Prop) (g : B → D) l kvs :
  (∀ a b, R a b → ∃ c, f a = Ok c ∧ R' c (g b)) → Forall2 R l kvs →
  ∃ l', mapM f l = Ok l' ∧ Forall2 R' l' (g <$> kvs).
Proof.
  intros Hf. induction 1 as [|a b l kvs Hab _ (l' & E & IH)]; simpl; [eauto|].
  destruct (Hf a b Hab) as (c & -> & Hc). rewrite bind_Ok, E. simpl. eauto.
Qed.

Lemma rtrim_ok b s n :
  nonul s → str_at b s n → ∃ b', rtrim b = Ok b' ∧ str_at b' (rtrim_list is_wsp s) n.
Proof. apply rtrim_with_ok. Qed.

Definition relaxed_header (kv : list byte * list byte) : list byte * list byte :=
  (relaxed_key kv.1, relaxed_value kv.2).

Lemma relaxed_header_canon_ok hs kvs :
  Forall2 pair_at hs kvs →
  ∃ hs', relaxed_header_canon hs = Ok hs' ∧ Forall2 pair_at hs' (relaxed_header <$> kvs).
Proof.
  intros H0. unfold relaxed_header_canon.
  eapply (mapM_step _ _ pair_at id) in H0 as (l1 & -> & H1).
  2:{ intros h [k v] (Hk & Hv & (n & Hkb) & (n' & Hvb)). simpl in *.
      rewrite (copy_string_ok _ _ _ Hk Hkb), (copy_string_ok _ _ _ Hv Hvb). eexists. split; [done|].
      split_and!; simpl; [done | done | eexists; apply str_at_cstr..]. }
  rewrite bind_Ok. eapply (mapM_step _ _ pair_at (λ kv, (relaxed_key kv.1, kv.2))) in H1 as (l2 & -> & H2).
  2:{ intros h [k v] (Hk & Hv & (n & Hkb) & Hvb). simpl in *.
      destruct (lower_in_place_ok _ _ _ Hk Hkb) as (b & -> & Hb). eexists. split; [done|].
      split_and!; simpl; [by apply lower_nonul | done | eauto..]. }
  rewrite bind_Ok. eapply (mapM_step _ _ pair_at (λ kv, (kv.1, unfold_list kv.2))) in H2 as (l3 & -> & H3).
  2:{ intros h [k v] (Hk & Hv & Hkb & (n & Hvb)). simpl in *.
      destruct (unfold_lines_ok _ _ _ Hv Hvb) as (b & -> & Hb). eexists. split; [done|].
      split_and!; simpl; [done | by apply unfold_list_nonul | eauto..]. }
  rewrite bind_Ok. eapply (mapM_step _ _ pair_at (λ kv, (kv.1, collapse false kv.2))) in H3 as (l4 & -> & H4).
  2:{ intros h [k v] (Hk & Hv & Hkb & (n & Hvb)). simpl in *.
      destruct (reduce_wsp_ok _ _ _ Hv Hvb) as (b & -> & Hb). eexists. split; [done|].
      split_and!; simpl; [done | by apply collapse_nonul | eauto..]. }
  rewrite bind_Ok.
  eapply (mapM_step _ _ pair_at (λ kv, (kv.1, ltrim_list (rtrim_list is_wsp kv.2)))) in H4 as (l5 & -> & H5).
  2:{ intros h [k v] (Hk & Hv & Hkb & (n & Hvb)). simpl in *.
      destruct (rtrim_ok _ _ _ Hv Hvb) as (b & -> & Hb). rewrite bind_Ok.
      pose proof (rtrim_list_nonul is_wsp v Hv) as Hr.
      rewrite (ltrim_ok _ _ _ Hr Hb). eexists. split; [done|].
      split_and!; simpl; [done | by apply ltrim_list_nonul | done | eexists; apply str_at_cstr]. }
  exists l5. split; [done|]. rewrite <-!list_fmap_compose in H5.
  eapply Forall2_impl; [|done]. erewrite list_fmap_ext; [exact H5|]. by intros i [k v].
Qed.

(** ** Bodies *)

Lemma relaxed_line_length l : zlen (relaxed_line l) <= zlen l.
Proof.
  unfold relaxed_line. pose proof (collapse_length false (rtrim_list is_wsp l)).
  pose proof (rtrim_list_length is_wsp l). unfold zlen. lia.
Qed.

Lemma relaxed_line_nonul l : nonul l → nonul (relaxed_line l).
Proof. intros. by apply collapse_nonul, rtrim_list_nonul. Qed.

Lemma relaxed_body_canon_line_ok b l n :
  nonul l → str_at b l n →
  ∃ b', relaxed_body_canon_line b = Ok b' ∧ str_at b' (relaxed_line l) n.
Proof.
  intros Hl Hb. unfold relaxed_body_canon_line.
  destruct (rtrim_ok _ _ _ Hl Hb) as (b1 & -> & Hb1). rewrite bind_Ok.
  exact (reduce_wsp_ok _ _ _ (rtrim_list_nonul _ _ Hl) Hb1).
Qed.

Lemma join_lines_nil : join_lines [] = [].
Proof. done. Qed.
Lemma join_lines_cons l ls : join_lines (l :: ls) = l ++ crlf_bytes ++ join_lines ls.
Proof. unfold join_lines. simpl. by rewrite <-app_assoc. Qed.
Lemma join_lines_snoc ls l : join_lines (ls ++ [l]) = join_lines ls ++ l ++ crlf_bytes.
Proof. unfold join_lines. rewrite fmap_app, concat_app. simpl. by rewrite app_nil_r. Qed.

Lemma nonul_crlf_bytes : nonul crlf_bytes.
Proof. repeat constructor; discriminate. Qed.
Lemma zlen_crlf_bytes : zlen crlf_bytes = 2.
Proof. done. Qed.
Lemma length_crlf_bytes : length crlf_bytes = 2%nat.
Proof. done. Qed.
#[export] Hint Rewrite zlen_crlf_bytes : zlen.
#[export] Hint Rewrite length_crlf_bytes : len.

Lemma add_line_ok s pre l rest post out junk :
  s = pre ++ l ++ rest → nonul l → zlen (relaxed_line l) + 2 <= zlen junk →
  ∃ junk', add_line (bs s ++ post) (zlen pre) (zlen l) (bs out ++ junk) (zlen out) =
      Ok (bs (out ++ relaxed_line l ++ crlf_bytes) ++ junk',
          zlen (out ++ relaxed_line l ++ crlf_bytes)) ∧
    zlen (out ++ relaxed_line l ++ crlf_bytes) + zlen junk' = zlen out + zlen junk.
Proof.
  intros -> Hl Hroom. unfold add_line, memcpy.
  rewrite !bs_app, <-!app_assoc, bread_mid, bind_Ok by zlia.
  rewrite bwrite_start, bind_Ok by zlia.
  rewrite bstore_end, bind_Ok by zlia.
  destruct (relaxed_body_canon_line_ok (bs l ++ Some NUL :: drop 1 (drop (length (bs l)) (malloc (zlen l + 1))))
    l _ Hl ltac:(eexists; done)) as (b & -> & Hb).
  rewrite bind_Ok, (str_at_strlen _ _ _ Hb) by by apply relaxed_line_nonul. rewrite bind_Ok.
  destruct Hb as (p & -> & _).
  rewrite bread_bs, bind_Ok by done. rewrite bwrite_end, bind_Ok by zlia.
  rewrite (bread_all (bs crlf_bytes) 2), bind_Ok by done.
  rewrite app_assoc, bwrite_end, bind_Ok by zlia.
  exists (drop (length (bs crlf_bytes)) (drop (length (bs (relaxed_line l))) junk)). split.
  - do 2 f_equal; [by rewrite <-!app_assoc|]. autorewrite with zlen. lia.
  - zlia.
Qed.

(** The state after the lines of [pre] and the bytes [cur] of the next one. *)
Definition body_inv (s : list byte) (cap : Z) (r : bodies) : Prop :=
  ∃ pre cur rest out junk, s = pre ++ cur ++ rest ∧ (pre = [] ∨ last pre = Some LF) ∧
    bc_i r = zlen (pre ++ cur) ∧ bc_offset r = zlen pre ∧ bc_new r = bs out ++ junk ∧
    bc_len r = zlen out ∧ zlen out + zlen junk = cap ∧ zlen out <= 2 * zlen pre ∧
    join_lines (relaxed_line <$> body_lines s) = out ++ join_lines (relaxed_line <$> body_lines_from cur rest).

Lemma drop_cr_take l : drop_cr l = take (if decide (last l = Some CR) then length l - 1 else length l) l.
Proof. unfold drop_cr. case_decide; [done | by rewrite take_ge by lia]. Qed.

Lemma drop_cr_split l : drop_cr l ++ drop (length (drop_cr l)) l = l.
Proof.
  rewrite drop_cr_take. case_decide.
  - rewrite length_take, Nat.min_l by lia. apply take_drop.
  - rewrite take_ge by lia. rewrite drop_ge by lia. apply app_nil_r.
Qed.

(** The byte before the line feed, as the code tests it. *)
Lemma before_lf s pre cur rest post :
  s = pre ++ cur ++ rest → (pre = [] ∨ last pre = Some LF) →
  (if decide (0 < zlen (pre ++ cur)) then
     p ← bload (bs s ++ post) (zlen (pre ++ cur) - 1); Ok (bool_decide (p = CR))
   else Ok false) = Ok (bool_decide (last cur = Some CR)).
Proof.
  intros -> Hpre. case_decide as Hpos.
  - destruct (last (pre ++ cur)) as [c|] eqn:El.
    2:{ apply last_None in El. rewrite El in Hpos. done. }
    rewrite (bload_bs _ _ _ c), bind_Ok; [|lia|].
    + f_equal. apply bool_decide_ext. rewrite last_app in El. destruct (last cur) as [d|].
      * injection El as ->. naive_solver.
      * destruct Hpre as [->|Hpre]; [done|]. rewrite Hpre in El. injection El as <-. done.
    + rewrite app_assoc. apply lookup_app_l_Some. rewrite last_lookup in El. rewrite <-El. f_equal. zlia.
  - destruct (pre ++ cur) eqn:E; [|zlia]. apply app_eq_nil in E as [_ ->]. done.
Qed.

(** The end of a line [cur] before its LF, and where the next one starts. *)
Lemma line_end pre cur :
  let is_r := bool_decide (last cur = Some CR) in
  let i := if is_r then zlen (pre ++ cur) - 1 else zlen (pre ++ cur) in
  i - zlen pre = zlen (drop_cr cur) ∧ zlen (drop_cr cur) <= zlen cur ∧
  (if is_r then i + 1 else i) + 1 = zlen (pre ++ cur ++ [LF]).
Proof.
  intros is_r i. subst i is_r. split_and!; [| |destruct (bool_decide _); zlia].
  - rewrite drop_cr_take. destruct (decide (last cur = Some CR)) as [Hl|Hl].
    + rewrite bool_decide_true by done. destruct cur; [done|]. unfold zlen.
      rewrite length_take, length_app. simpl. lia.
    + rewrite bool_decide_false by done. rewrite take_ge by lia. zlia.
  - rewrite drop_cr_take. unfold zlen. rewrite length_take. lia.
Qed.

Lemma body_step_ok s post cap r :
  nonul s → cap = 2 * zlen s + 3 → body_inv s cap r →
  wp (body_step (bs s ++ post) (zlen s) r) (λ c, match c with
    | Next r' => body_inv s cap r' ∧ (Z.to_nat (zlen s - bc_i r') < Z.to_nat (zlen s - bc_i r))%nat
    | Break r' => body_inv s cap r' ∧ bc_i r' = zlen s end).
Proof.
  intros Hs Hcap (pre & cur & rest & out & junk & Heq & Hpre & Hi & Hoff & Hnew & Hlen & Hroom & Hout & Hj).
  unfold body_step. rewrite Hi. destruct rest as [|c rest].
  { rewrite app_nil_r in Heq. rewrite <-Heq, decide_False by lia. simpl. split; [|by rewrite Hi, Heq].
    exists pre, cur, [], out, junk. rewrite app_nil_r. by split_and!. }
  assert (zlen s = zlen pre + zlen cur + 1 + zlen rest) as Hzs by (rewrite Heq; zlia).
  rewrite decide_True by zlia.
  rewrite (bload_bs s post (zlen (pre ++ cur)) c), bind_Ok; [|zlia|].
  2:{ rewrite Heq, app_assoc. apply list_lookup_middle. zlia. }
  assert (nonul cur) as Hcur by (rewrite Heq in Hs; apply nonul_app in Hs as [_ Hs];
    by apply nonul_app in Hs as [? _]).
  destruct (decide (c = LF)) as [->|Hc].
  - rewrite (before_lf s pre cur (LF :: rest)), bind_Ok by done. rewrite Hoff, Hnew, Hlen.
    set (is_r := bool_decide (last cur = Some CR)).
    pose proof (drop_cr_split cur) as Hcut. pose proof (zlen_nonneg cur). pose proof (zlen_nonneg rest).
    destruct (line_end pre cur) as (Hend & Hdl & Hnext). fold is_r in Hend, Hnext. rewrite Hend.
    assert (s = pre ++ drop_cr cur ++ (drop (length (drop_cr cur)) cur ++ LF :: rest)) as Heq'.
    { by rewrite (app_assoc (drop_cr cur)), Hcut. }
    pose proof (relaxed_line_length (drop_cr cur)) as Hrl.
    destruct (add_line_ok s pre (drop_cr cur) _ post out junk Heq')
      as (junk' & -> & Hj'); [by apply (nonul_app _ (drop (length (drop_cr cur)) cur)); rewrite Hcut | lia |].
    rewrite bind_Ok. simpl.
    rewrite Hnext.
    split; [|zlia].
    exists (pre ++ cur ++ [LF]), [], rest, (out ++ relaxed_line (drop_cr cur) ++ crlf_bytes), junk'.
    split_and!; simpl; try done.
    + rewrite Heq. by rewrite <-!app_assoc.
    + right. by rewrite !last_app.
    + by rewrite app_nil_r.
    + lia.
    + rewrite !zlen_app, zlen_crlf_bytes. zlia.
    + rewrite Hj. simpl. rewrite join_lines_cons. by rewrite <-!app_assoc.
  - simpl. split; [|zlia]. exists pre, (cur ++ [c]), rest, out, junk. simpl.
    split_and!; try done.
    + rewrite Heq. by rewrite <-!app_assoc.
    + zlia.
    + rewrite Hj. simpl. by rewrite decide_False.
Qed.

(** The lines found so far and the last one, canonicalized. *)
Lemma body_loop_ok s post :
  nonul s →
  ∃ r junk, cloop (body_step (bs s ++ post) (zlen s)) (S (Z.to_nat (zlen s)))
      (Bodies 0 0 (malloc (zlen s * 2 + 3)) 0) = Ok r ∧
    (if decide (bc_offset r < zlen s)
     then add_line (bs s ++ post) (bc_offset r) (bc_i r - bc_offset r) (bc_new r) (bc_len r)
     else Ok (bc_new r, bc_len r)) =
      Ok (bs (join_lines (relaxed_line <$> body_lines s)) ++ junk,
          zlen (join_lines (relaxed_line <$> body_lines s))) ∧
    zlen (join_lines (relaxed_line <$> body_lines s)) + zlen junk = 2 * zlen s + 3 ∧ 2 <= zlen junk.
Proof.
  intros Hs. set (cap := 2 * zlen s + 3).
  destruct (wp_inv _ _ (wp_cloop (body_step (bs s ++ post) (zlen s)) (body_inv s cap)
    (λ r, Z.to_nat (zlen s - bc_i r)) (λ r, body_inv s cap r ∧ bc_i r = zlen s) (S (Z.to_nat (zlen s)))
    (Bodies 0 0 (malloc (zlen s * 2 + 3)) 0) (λ r Hr, body_step_ok s post cap r Hs eq_refl Hr)
    ltac:(exists [], [], s, [], (malloc (zlen s * 2 + 3)); split_and!; try done; [by left|subst cap; zlia])
    ltac:(simpl; lia))) as (r & -> & (pre & cur & rest & out & junk & Heq & Hpre & Hi & Hoff & Hnew & Hlen &
      Hroom & Hout & Hj) & Hend).
  assert (rest = []) as ->.
  { destruct rest; [done|]. rewrite Hi, Heq in Hend. exfalso. zlia. }
  exists r. rewrite Hend, Hoff, Hnew, Hlen. rewrite app_nil_r in Heq. simpl in Hj.
  assert (zlen s = zlen pre + zlen cur) as Hz by (rewrite Heq; zlia).
  clear Hpre. destruct (decide (cur = [])) as [->|Hne].
  2:{ rewrite decide_True by (destruct cur; [done|zlia]).
    simpl in Hj.
    rewrite join_lines_cons, join_lines_nil, app_nil_r in Hj.
    pose proof (relaxed_line_length cur). pose proof (zlen_nonneg (relaxed_line cur)).
    destruct (add_line_ok s pre cur [] post out junk) as (junk' & Hadd & Hj');
      [by rewrite app_nil_r | by rewrite Heq in Hs; apply nonul_app in Hs as [_ ?] | lia |].
    exists junk'. replace (zlen s - zlen pre) with (zlen cur) by lia.
    rewrite Hadd, Hj. split_and!; [done | done | lia |].
    assert (1 <= zlen cur) by (destruct cur; [done|zlia]).
    rewrite !zlen_app, zlen_crlf_bytes in Hj'. lia. }
  - assert (zlen s = zlen pre) as Hz' by (rewrite Hz; zlia). clear Hz.
    rewrite decide_False by lia. simpl in Hj.
    rewrite join_lines_nil, app_nil_r in Hj by done. rewrite app_nil_r in Heq. subst pre.
    exists junk. rewrite Hj. split_and!; [done | done | lia | lia].
Qed.

Lemma join_lines_nonul ls : Forall nonul ls → nonul (join_lines ls).
Proof.
  induction 1 as [|l ls Hl _ IH]; [by rewrite join_lines_nil; constructor|]. rewrite join_lines_cons.
  apply nonul_app. split; [done|]. apply nonul_app. split; [apply nonul_crlf_bytes | done].
Qed.

Lemma body_lines_nonul cur s :
  nonul cur → nonul s → Forall nonul (body_lines_from cur s).
Proof.
  revert cur. induction s as [|c s IH]; intros cur Hcur Hs; simpl.
  - case_decide; repeat constructor; done.
  - apply nonul_cons in Hs as [Hc Hs]. case_decide.
    + constructor; [|apply IH; [constructor|done]]. rewrite <-(drop_cr_split cur) in Hcur.
      by apply nonul_app in Hcur as [? _].
    + apply IH; [|done]. apply nonul_app. split; [done|]. apply nonul_cons. split; [done|constructor].
Qed.

Lemma relaxed_lines_nonul s : nonul s → nonul (join_lines (relaxed_line <$> body_lines s)).
Proof.
  intros Hs. apply join_lines_nonul, Forall_fmap. eapply Forall_impl;
    [apply body_lines_nonul; [constructor|done]|]. apply relaxed_line_nonul.
Qed.

Lemma rtrim_join_length ls :
  ls = [] ∨ zlen (rtrim_list is_crlf (join_lines ls)) + 2 <= zlen (join_lines ls).
Proof.
  destruct ls as [|l0 ls0 _] using rev_ind; [by left|right]. rewrite join_lines_snoc, app_assoc.
  change crlf_bytes with ([CR] ++ [LF]). rewrite app_assoc, !rtrim_list_snoc. simpl.
  pose proof (rtrim_list_length is_crlf (join_lines ls0 ++ l0)). zlia.
Qed.

Lemma relaxed_body_nonul s : nonul s → nonul (relaxed_body s).
Proof.
  intros Hs. unfold relaxed_body. apply nonul_app. split; [|apply nonul_crlf_bytes].
  by apply rtrim_list_nonul, relaxed_lines_nonul.
Qed.

Lemma relaxed_body_canon_ok b s n :
  nonul s → str_at b s n →
  ∃ b', relaxed_body_canon b = Ok b' ∧ str_at b' (relaxed_body s) (Z.to_nat (2 * zlen s + 3)).
Proof.
  intros Hs (post & -> & _). unfold relaxed_body_canon. rewrite strlen_bs, bind_Ok by done.
  destruct (body_loop_ok s (Some NUL :: post) Hs) as (r & junk & -> & Hadd & Hcap & Hj).
  rewrite bind_Ok, Hadd, bind_Ok. cbn [fst snd]. set (out := join_lines _) in *.
  rewrite bstore_end, bind_Ok by zlia.
  assert (str_at (bs out ++ Some NUL :: drop 1 junk) out (Z.to_nat (2 * zlen s + 3))) as Hb.
  { eexists. split; [done|]. autorewrite with len. zlia. }
  destruct (rtrim_with_ok is_crlf _ _ _ (relaxed_lines_nonul s Hs) Hb) as (b2 & Hb2 & Hs2).
  unfold rtrim_lines. rewrite Hb2, bind_Ok.
  rewrite (str_at_strlen _ _ _ Hs2) by (by apply rtrim_list_nonul, relaxed_lines_nonul).
  fold out in Hs2 |- *. rewrite bind_Ok. destruct Hs2 as (post2 & -> & Hl2).
  assert (zlen (rtrim_list is_crlf out) + 3 <= 2 * zlen s + 3) as Hfit.
  { subst out. destruct (rtrim_join_length (relaxed_line <$> body_lines s)) as [E|E].
    - rewrite E. pose proof (zlen_nonneg s). unfold zlen at 1. simpl. lia.
    - lia. }
  unfold relaxed_body. fold out. set (t := rtrim_list is_crlf out) in *.
  rewrite length_app, length_bs in Hl2. simpl in Hl2.
  destruct post2 as [|x [|y post2]]; [simpl in Hl2; zlia..|].
  rewrite bstore_mid, bind_Ok by zlia.
  replace (bs t ++ Some CR :: x :: y :: post2) with ((bs t ++ [Some CR]) ++ x :: y :: post2)
    by by rewrite <-app_assoc.
  rewrite bstore_mid, bind_Ok by zlia.
  replace ((bs t ++ [Some CR]) ++ Some LF :: y :: post2) with ((bs t ++ [Some CR; Some LF]) ++ y :: post2)
    by by rewrite <-!app_assoc.
  rewrite bstore_mid by zlia. eexists. split; [done|]. exists post2. split.
  - rewrite bs_app, <-!app_assoc. done.
  - rewrite !length_app, length_bs. simpl. simpl in Hl2. lia.
Qed.

(** ** Bodies without bare carriage returns *)

(** The definition of RFC 6376 (3.4.4) on lines: white space at the end of a
    line goes, runs of white space become one space, empty lines at the end of
    the body go; a body with nothing left is one line break (RFC 4871). *)
Fixpoint strip_empty (ls : list (list byte)) : list (list byte) :=
  match ls with
  | [] => []
  | l :: ls' =>
      match strip_empty ls' with
      | [] => if decide (l = []) then [] else [l]
      | t => l :: t
      end
  end.

Definition rfc_relaxed_body (s : list byte) : list byte :=
  match strip_empty (relaxed_line <$> body_lines s) with
  | [] => crlf_bytes
  | ls => join_lines ls
  end.

Definition no_break (l : list byte) : Prop := Forall (λ c, c ≠ CR ∧ c ≠ LF) l.

Lemma strip_empty_snoc ls l :
  strip_empty (ls ++ [l]) = if decide (l = []) then strip_empty ls else ls ++ [l].
Proof.
  induction ls as [|l0 ls IH]; simpl; [by case_decide|]. rewrite IH.
  case_decide; [done|]. by destruct ls.
Qed.

Lemma rtrim_no_break l : no_break l → rtrim_list is_crlf l = l.
Proof.
  induction l as [|c l _] using rev_ind; [done|]. intros [_ [Hc _]%Forall_cons]%Forall_app.
  rewrite rtrim_list_snoc. unfold is_crlf. rewrite bool_decide_false; [done|]. in_list.
Qed.

Lemma rtrim_list_app_keep p s t :
  rtrim_list p t ≠ [] → rtrim_list p (s ++ t) = s ++ rtrim_list p t.
Proof.
  intros Ht. induction s as [|c s IH]; [done|]. simpl. rewrite IH.
  destruct (s ++ rtrim_list p t) eqn:E; [|done]. by apply app_eq_nil in E as [_ ?].
Qed.

Lemma rtrim_join_lines ls :
  Forall no_break ls →
  rtrim_list is_crlf (join_lines ls) ++ crlf_bytes =
    match strip_empty ls with [] => crlf_bytes | t => join_lines t end.
Proof.
  induction ls as [|l ls IH] using rev_ind; [done|]. intros [Hls [Hl _]%Forall_cons]%Forall_app.
  rewrite strip_empty_snoc, join_lines_snoc, app_assoc.
  change crlf_bytes with ([CR] ++ [LF]) at 1. rewrite app_assoc, !rtrim_list_snoc. simpl.
  case_decide as Hlne.
  - subst l. rewrite app_nil_r. by apply IH.
  - pose proof (rtrim_no_break l Hl) as Hr.
    rewrite rtrim_list_app_keep, Hr by (by rewrite Hr).
    destruct (ls ++ [l]) eqn:E; [by destruct ls|]. rewrite <-E, join_lines_snoc. by rewrite <-app_assoc.
Qed.

Lemma collapse_forall (P : byte → Prop) prev s : P SP → Forall P s → Forall P (collapse prev s).
Proof.
  intros HP Hs. revert prev. induction Hs as [|c s Hc Hs IH]; intros prev; simpl; [constructor|].
  destruct (is_wsp c); [destruct prev|]; auto.
Qed.

Lemma rtrim_forall (P : byte → Prop) p s : Forall P s → Forall P (rtrim_list p s).
Proof.
  induction s as [|c s IH] using rev_ind; [done|]. intros [Hs Hc]%Forall_app.
  rewrite rtrim_list_snoc. destruct (p c); [auto | by apply Forall_app].
Qed.

Lemma relaxed_line_no_break l : no_break l → no_break (relaxed_line l).
Proof. intros. apply collapse_forall; [done|]. by apply rtrim_forall. Qed.

Lemma relaxed_body_rfc s :
  Forall no_break (body_lines s) → relaxed_body s = rfc_relaxed_body s.
Proof.
  intros Hs. apply rtrim_join_lines, Forall_fmap. eapply Forall_impl; [exact Hs|].
  apply relaxed_line_no_break.
Qed.

(** Lines that are already canonical. *)
Lemma body_lines_join ls : Forall no_break ls → body_lines (join_lines ls) = ls.
Proof.
  assert (Hcur : ∀ l cur rest, no_break l →
    body_lines_from cur (l ++ crlf_bytes ++ rest) = (cur ++ l) :: body_lines rest).
  { induction l as [|c l IH]; intros cur rest Hl; simpl.
    - unfold drop_cr. rewrite decide_True by apply last_snoc.
      rewrite length_app, app_nil_r. simpl. f_equal. apply take_app_length'. lia.
    - apply Forall_cons in Hl as [[_ Hc] Hl]. rewrite decide_False by done.
      change (CR :: LF :: rest) with (crlf_bytes ++ rest).
      rewrite IH by done. by rewrite <-app_assoc. }
  induction 1 as [|l ls Hl _ IH]; [done|]. rewrite join_lines_cons. unfold body_lines at 1.
  rewrite Hcur by done. by rewrite IH.
Qed.

Lemma collapse_idem prev s :
  collapse prev (collapse prev s) = collapse prev s ∧
  collapse true (collapse true s) = collapse true s.
Proof.
  revert prev. induction s as [|c s IH]; intros prev; [done|]. simpl.
  destruct (IH false) as [IHf IHt].
  destruct (is_wsp c) eqn:Ec.
  - split; [|done]. destruct prev; [done|]. simpl. by rewrite IHt.
  - simpl. rewrite Ec, IHf. done.
Qed.

Lemma rtrim_list_fix p s : (∀ c, last s = Some c → p c = false) → rtrim_list p s = s.
Proof.
  destruct s as [|c s _] using rev_ind; [done|]. intros H.
  rewrite rtrim_list_snoc, H; [done | apply last_snoc].
Qed.

Lemma rtrim_list_last p s c : last (rtrim_list p s) = Some c → p c = false.
Proof.
  induction s as [|d s IH] using rev_ind; [done|]. rewrite rtrim_list_snoc.
  destruct (p d) eqn:E; [done|]. rewrite last_snoc. by intros [= <-].
Qed.

Lemma collapse_last prev s c :
  is_wsp c = false → last s = Some c → last (collapse prev s) = Some c.
Proof.
  intros Hc. revert prev. induction s as [|d s IH]; intros prev H; [done|].
  destruct s as [|d' s]; simpl in H.
  - injection H as ->. simpl. by rewrite Hc.
  - assert (∀ x q, last (x :: collapse q (d' :: s)) = Some c) as Hx.
    { intros x q. specialize (IH q H). destruct (collapse q (d' :: s)) eqn:E; [done|]. exact IH. }
    change (last (if is_wsp d then (if prev then collapse true (d' :: s) else SP :: collapse true (d' :: s))
      else d :: collapse false (d' :: s)) = Some c).
    destruct (is_wsp d); [destruct prev; [by apply IH|]|]; by apply Hx.
Qed.

Lemma relaxed_line_idem l : relaxed_line (relaxed_line l) = relaxed_line l.
Proof.
  unfold relaxed_line at 1. rewrite rtrim_list_fix; [apply collapse_idem|].
  intros c Hc. unfold relaxed_line in Hc.
  destruct (last (rtrim_list is_wsp l)) as [d|] eqn:E.
  - pose proof (rtrim_list_last _ _ _ E) as Hd. rewrite (collapse_last _ _ _ Hd E) in Hc.
    by injection Hc as <-.
  - apply last_None in E. by rewrite E in Hc.
Qed.

Lemma strip_empty_idem ls : strip_empty (strip_empty ls) = strip_empty ls.
Proof.
  induction ls as [|l ls IH]; [done|]. simpl.
  destruct (strip_empty ls) eqn:E; [case_decide as Hl; [done|]; simpl; by rewrite decide_False|].
  cbn [strip_empty] in IH |- *. by rewrite IH.
Qed.

Lemma strip_empty_forall P ls : Forall P ls → Forall P (strip_empty ls).
Proof.
  induction 1 as [|l ls Hl _ IH]; [constructor|]. simpl.
  destruct (strip_empty ls); [case_decide; by repeat constructor | by constructor].
Qed.

Lemma rfc_relaxed_body_idem s :
  Forall no_break (body_lines s) →
  Forall no_break (body_lines (rfc_relaxed_body s)) ∧
  rfc_relaxed_body (rfc_relaxed_body s) = rfc_relaxed_body s.
Proof.
  intros Hs. assert (Forall no_break (relaxed_line <$> body_lines s)) as Hr
    by (apply Forall_fmap; eapply Forall_impl; [exact Hs | apply relaxed_line_no_break]).
  assert (Forall (λ l, relaxed_line l = l) (relaxed_line <$> body_lines s)) as Hi
    by (apply Forall_fmap, Forall_true; intros; apply relaxed_line_idem).
  pose proof (strip_empty_forall _ _ Hr) as Hr'. pose proof (strip_empty_forall _ _ Hi) as Hi'.
  unfold rfc_relaxed_body at 1 3 4. pose proof (strip_empty_idem (relaxed_line <$> body_lines s)) as Hse.
  destruct (strip_empty _) as [|l ls] eqn:E;
    [split; [apply Forall_cons_2; [apply Forall_nil_2 | apply Forall_nil_2] | reflexivity]|].
  unfold rfc_relaxed_body. rewrite body_lines_join by done. split; [done|].
  replace (relaxed_line <$> l :: ls) with (l :: ls); [by rewrite Hse|].
  clear -Hi'. induction Hi' as [|x xs Hx _ IH]; [done|]. rewrite fmap_cons, Hx. by f_equal.
Qed.

(** ** Wrapping *)

(** The wrapped string, without regard to the space for it. *)
Fixpoint wrap_list (lcount : Z) (s : list byte) : list byte :=
  match s with
  | [] => []
  | c :: s' =>
      if decide (c = SP ∨ lcount = 75) then [c; CR; LF; TAB] ++ wrap_list 0 s'
      else c :: wrap_list (lcount + 1) s'
  end.

Lemma wrap_loop s post out junk pre rest lcount fuel :
  s = pre ++ rest → (length rest < fuel)%nat →
  (r ← cloop (wrap_step (bs s ++ post) (zlen s)) fuel (bs out ++ junk, zlen out, zlen pre, lcount);
   let '(tmp, tmp_len, _, _) := r in bstore tmp tmp_len NUL) =
  if decide (zlen (wrap_list lcount rest) < zlen junk)
  then Ok (bs (out ++ wrap_list lcount rest) ++ Some NUL ::
           drop (S (length (wrap_list lcount rest))) junk)
  else Err OutOfBounds.
Proof.
  revert out junk pre lcount fuel.
  induction rest as [|c rest IH]; intros out junk pre lcount [|fuel] Heq Hf; simpl in Hf; try lia.
  { rewrite app_nil_r in Heq. subst pre. erewrite cloop_break by
      (unfold wrap_step; rewrite decide_False by lia; done).
    rewrite bind_Ok. cbn [wrap_list]. rewrite app_nil_r. case_decide as Hj.
    - by rewrite bstore_end by zlia.
    - apply bstore_oob. rewrite !zlen_app, zlen_bs. zlia. }
  assert (Hc : bload (bs s ++ post) (zlen pre) = Ok c).
  { apply bload_bs; [zlia|]. rewrite Heq. apply list_lookup_middle. zlia. }
  assert (Hlt : zlen pre < zlen s) by (rewrite Heq; zlia).
  assert (Heq' : s = (pre ++ [c]) ++ rest) by by rewrite <-app_assoc.
  assert (Hi : zlen pre + 1 = zlen (pre ++ [c])) by zlia.
  assert (Hoob : ∀ o j i d, i = zlen o → (length j = 0)%nat → bstore (bs o ++ j) i d = Err OutOfBounds).
  { intros o j i d -> Hj. apply bstore_oob. rewrite zlen_app, zlen_bs. unfold zlen. lia. }
  assert (Hput : ∀ o x j i d, i = zlen o →
    bstore (bs o ++ x :: j) i d = Ok (bs (o ++ [d]) ++ j)).
  { intros o x j i d ->. rewrite bstore_mid by (by rewrite zlen_bs). by rewrite bs_app, <-app_assoc. }
  destruct junk as [|x1 junk].
  { rewrite decide_False by (unfold zlen; simpl; lia). erewrite cloop_err; [done|].
    unfold wrap_step. rewrite decide_True, Hc, bind_Ok by lia. by rewrite Hoob. }
  cbn [wrap_list]. destruct (decide (c = SP ∨ lcount = 75)) as [Hb|Hb].
  - destruct junk as [|x2 [|x3 [|x4 junk]]].
    1-3: rewrite decide_False by (unfold zlen; simpl; lia); erewrite cloop_err; [done|];
      unfold wrap_step; rewrite decide_True, Hc, bind_Ok by lia; rewrite Hput, bind_Ok by done;
      rewrite decide_True by done; rewrite ?Hput, ?bind_Ok by zlia;
      rewrite ?Hput, ?bind_Ok by zlia; by rewrite Hoob by zlia.
    erewrite cloop_next.
    2:{ unfold wrap_step. rewrite decide_True, Hc, bind_Ok by lia. rewrite Hput, bind_Ok by done.
        rewrite decide_True by done. rewrite Hput, bind_Ok by zlia. rewrite Hput, bind_Ok by zlia.
        rewrite Hput, bind_Ok by zlia. rewrite <-!app_assoc. done. }
    cbn [app]. rewrite Hi. replace (zlen out + 4) with (zlen (out ++ [c; CR; LF; TAB])) by zlia.
    rewrite IH by (done || lia). rewrite <-app_assoc. cbn [app].
    case_decide; [rewrite decide_True by (unfold zlen in *; simpl; lia); done
      | rewrite decide_False by (unfold zlen in *; simpl; lia); done].
  - erewrite cloop_next.
    2:{ unfold wrap_step. rewrite decide_True, Hc, bind_Ok by lia. rewrite Hput, bind_Ok by done.
        rewrite decide_False by done. done. }
    rewrite Hi. replace (zlen out + 1) with (zlen (out ++ [c])) by zlia.
    rewrite IH by (done || lia). rewrite <-app_assoc. cbn [app].
    case_decide; [rewrite decide_True by (unfold zlen in *; simpl; lia); done
      | rewrite decide_False by (unfold zlen in *; simpl; lia); done].
Qed.

Lemma wrap_eq b s n :
  str_at b s n →
  wrap b (zlen s) =
    if decide (zlen (wrap_list 0 s) < 3 * zlen s + 1)
    then Ok (bs (wrap_list 0 s) ++ Some NUL :: drop (S (length (wrap_list 0 s))) (malloc (zlen s * 3 + 1)))
    else Err OutOfBounds.
Proof.
  intros (post & -> & _). unfold wrap.
  rewrite (wrap_loop s _ [] (malloc (zlen s * 3 + 1)) [] s 0) by (done || zlia). simpl.
  assert (zlen (malloc (zlen s * 3 + 1)) = 3 * zlen s + 1) as -> by zlia. done.
Qed.

Lemma wrap_list_nonul l s : nonul s → nonul (wrap_list l s).
Proof.
  intros Hs. revert l. induction Hs as [|c s' Hc Hs' IH]; intros l; simpl; [constructor|].
  case_decide; cbn [app]; repeat (apply nonul_cons; split; [done|]); apply IH.
Qed.

(** ** Properties *)

(** C13: body canonicalization.  On every NUL-terminated body
    [relaxed_body_canon] accesses no byte outside its buffers, ends, and
    returns the string [relaxed_body]: the body's lines without white space at
    their ends, white space collapsed, the line breaks at the end replaced by
    one.  When no line contains a bare carriage return that is the relaxed
    canonicalization of the RFC, stated line by line. *)
Theorem relaxed_body_canon_correct b s n :
  str_at b s n → nonul s →
  ∃ b', relaxed_body_canon b = Ok b' ∧ cstring b' = Ok (relaxed_body s) ∧
    (Forall no_break (body_lines s) → relaxed_body s = rfc_relaxed_body s).
Proof.
  intros Hb Hs. destruct (relaxed_body_canon_ok b s n Hs Hb) as (b' & Hc & Hb').
  exists b'. split; [done|]. split; [|apply relaxed_body_rfc].
  eapply str_at_cstring; [exact Hb' | by apply relaxed_body_nonul].
Qed.

Definition ex_body : list byte :=
  lit "Hello  world " ++ [CR; LF; TAB] ++ lit "x" ++ [LF; CR; LF] ++ lit " " ++ [CR; LF].

Lemma relaxed_body_canon_correct_witness :
  ∃ b', relaxed_body_canon (cstr ex_body) = Ok b' ∧
    cstring b' = Ok (lit "Hello world" ++ [CR; LF; SP] ++ lit "x" ++ [CR; LF]).
Proof.
  destruct (relaxed_body_canon_correct (cstr ex_body) ex_body _ (str_at_cstr _) ltac:(by_compute))
    as (b' & Hb & Hc & _).
  exists b'. split; [exact Hb|]. rewrite Hc. reflexivity.
Defined.

(** C14: header canonicalization.  For headers whose names and values are
    NUL-terminated strings, [relaxed_header_canon] accesses no byte outside
    its buffers, ends, and returns for every header, in order, the lower-case
    name and the value with the line breaks of folding removed, white space
    collapsed and white space at both ends removed. *)
Theorem relaxed_header_canon_correct hs kvs :
  Forall2 pair_at hs kvs →
  ∃ hs', relaxed_header_canon hs = Ok hs' ∧
    Forall2 (λ h kv, cstring (sp_key h) = Ok (relaxed_key kv.1) ∧
                     cstring (sp_value h) = Ok (relaxed_value kv.2)) hs' kvs.
Proof.
  intros H. destruct (relaxed_header_canon_ok hs kvs H) as (hs' & Hc & Hs).
  exists hs'. split; [done|]. rewrite <-(list_fmap_id hs') in Hs. apply Forall2_fmap_1 in Hs. eapply Forall2_impl; [exact Hs|].
  intros h [k v] (Hk & Hv & (n & Hkb) & (n' & Hvb)). simpl in *.
  split; by eapply str_at_cstring.
Qed.

Definition ex_pair (k v : list byte) : stringpair := Stringpair (cstr k) (cstr v).
Definition ex_subject : list byte := lit " a" ++ [CR; LF; TAB] ++ lit "b  ".

Lemma relaxed_header_canon_correct_witness :
  ∃ h, relaxed_header_canon [ex_pair (lit "Subject") ex_subject] = Ok [h] ∧
    cstring (sp_key h) = Ok (lit "subject") ∧ cstring (sp_value h) = Ok (lit "a b").
Proof.
  destruct (relaxed_header_canon_correct [ex_pair (lit "Subject") ex_subject]
    [(lit "Subject", ex_subject)]) as (hs' & Hc & Hs).
  { constructor; [|constructor]. split; [by_compute|]. split; [by_compute|].
    split; eexists; apply str_at_cstr. }
  inversion Hs as [|h ? l ? [Hk Hv] Hn]; subst. inversion Hn; subst.
  exists h. split; [exact Hc|]. split; [rewrite Hk; reflexivity | rewrite Hv; reflexivity].
Defined.

(** C30: canonicalization is idempotent.  Canonicalizing a canonicalized body
    changes nothing, for bodies whose lines contain no bare carriage
    return: relays that canonicalize again leave the body hash as it is. *)
Theorem relaxed_body_canon_idempotent b s n :
  str_at b s n → nonul s → Forall no_break (body_lines s) →
  ∃ b1 b2, relaxed_body_canon b = Ok b1 ∧ relaxed_body_canon b1 = Ok b2 ∧
    cstring b2 = cstring b1 ∧ cstring b1 = Ok (rfc_relaxed_body s).
Proof.
  intros Hb Hs Hl. destruct (relaxed_body_canon_ok b s n Hs Hb) as (b1 & H1 & Hb1).
  pose proof (relaxed_body_nonul s Hs) as Hn1.
  destruct (relaxed_body_canon_ok b1 _ _ Hn1 Hb1) as (b2 & H2 & Hb2).
  exists b1, b2. rewrite (str_at_cstring _ _ _ Hb1 Hn1).
  rewrite (str_at_cstring _ _ _ Hb2 (relaxed_body_nonul _ Hn1)).
  rewrite (relaxed_body_rfc s Hl) in *.
  destruct (rfc_relaxed_body_idem s Hl) as [Hl' Hi]. by rewrite (relaxed_body_rfc _ Hl'), Hi.
Qed.

Lemma relaxed_body_canon_idempotent_witness :
  ∃ b1 b2, relaxed_body_canon (cstr ex_body) = Ok b1 ∧ relaxed_body_canon b1 = Ok b2 ∧
    cstring b2 = cstring b1 ∧ cstring b1 = Ok (rfc_relaxed_body ex_body).
Proof.
  apply (relaxed_body_canon_idempotent (cstr ex_body) ex_body _ (str_at_cstr _));
    [by_compute|].
  apply (bool_decide_unpack _). vm_compute. exact I.
Defined.

(** The wrapping of a header.  [wrap] reserves three bytes per byte of the
    string but writes four for every space: it returns the wrapped string
    when that fits, and writes past the end of its buffer when it does not,
    as for any string of spaces. *)
Theorem wrap_fits_or_overflows b s n :
  str_at b s n → nonul s →
  (zlen (wrap_list 0 s) <= 3 * zlen s →
     ∃ b', wrap b (zlen s) = Ok b' ∧ cstring b' = Ok (wrap_list 0 s)) ∧
  (3 * zlen s < zlen (wrap_list 0 s) → wrap b (zlen s) = Err OutOfBounds) ∧
  (Forall (λ c, c = SP) s → s ≠ [] → wrap b (zlen s) = Err OutOfBounds).
Proof.
  intros Hb Hs. rewrite (wrap_eq b s n Hb).
  pose proof (wrap_list_nonul 0 s Hs) as Hw.
  split_and!.
  - intros Hfit. rewrite decide_True by lia. eexists. split; [done|]. by apply cstring_bs.
  - intros Hbig. by rewrite decide_False by lia.
  - intros Hsp Hne. rewrite decide_False; [done|].
    assert (zlen (wrap_list 0 s) = 4 * zlen s) as ->; [|destruct s; [done|zlia]].
    clear -Hsp. induction Hsp as [|c s -> _ IH]; [done|].
    cbn [wrap_list]. rewrite decide_True by (by left). rewrite zlen_app, IH. zlia.
Qed.

Lemma wrap_fits_or_overflows_witness :
  (∃ b', wrap (cstr (lit "ab cd")) 5 = Ok b' ∧
     cstring b' = Ok (lit "ab " ++ [CR; LF; TAB] ++ lit "cd")) ∧
  wrap (cstr (lit "  ")) 2 = Err OutOfBounds.
Proof.
  split.
  - apply (wrap_fits_or_overflows (cstr (lit "ab cd")) (lit "ab cd") _ (str_at_cstr _));
      [by_compute | by_compute].
  - apply (wrap_fits_or_overflows (cstr (lit "  ")) (lit "  ") _ (str_at_cstr _));
      [by_compute | repeat constructor | discriminate].
Defined.
