(* ===== verification/Base64.v ===== *)
(** Base64: the decoder of [src/src/base64.c], and the wrappers around
    OpenSSL's base64 filter of [src/firm-dkim-extended/base64.c] (and its copy
    in [src/src/mailhandler]).  The filter itself is a parameter. *)
From S2P Require Import Prelude.

#[local] Ltac Zify.zify_post_hook ::= Z.to_euclidean_division_equations.

(** ** The decoder *)

Definition base64_table : list byte :=
  lit "ABCDEFGHIJKLMNOPQRSTUVWXYZabcdefghijklmnopqrstuvwxyz0123456789+/".

Fixpoint index_of (c : byte) (l : list byte) (i : Z) : option Z :=
  match l with
  | [] => None
  | d :: l' => if decide (c = d) then Some i else index_of c l' (i + 1)
  end.

(** [strchr (base64_table, c)], which also finds the terminating NUL. *)
Definition strchr_table (c : byte) : option Z :=
  if decide (c = NUL) then Some (zlen base64_table) else index_of c base64_table 0.

Definition isbase64 (c : byte) : bool :=
  bool_decide (c ≠ NUL) && match strchr_table c with Some _ => true | None => false end.

Definition base64_value (c : byte) : Z := default 0 (strchr_table c).

(** The pointers [p] and [src] as offsets, [dest] and [srclen]. *)
Record decoding := Decoding {
  de_dest : buf;
  de_p : Z;
  de_src : Z;
  de_srclen : Z;
}.

(** [while ( *src && ( *src == 13 || *src == 10)) src++] *)
Definition skip_step (src : buf) (i : Z) : res (ctl Z) :=
  c ← bload src i;
  Ok (if decide (c ≠ NUL ∧ (c = CR ∨ c = LF)) then Next (i + 1) else Break i).

Definition decode_step (src : buf) (s : decoding) : res (ctl decoding) :=
  let p := de_p s in
  let i := de_src s in
  c0 ← bload src i; c1 ← bload src (i + 1); c2 ← bload src (i + 2); c3 ← bload src (i + 3);
  let a := base64_value c0 in
  let b := base64_value c1 in
  let c := base64_value c2 in
  let d := base64_value c3 in
  d1 ← bstore (de_dest s) p (byte_of (Z.lor (Z.shiftl a 2) (Z.shiftr b 4)));
  d2 ← bstore d1 (p + 1) (byte_of (Z.lor (Z.shiftl b 4) (Z.shiftr c 2)));
  d3 ← bstore d2 (p + 2) (byte_of (Z.lor (Z.shiftl c 6) d));
  if negb (isbase64 c1) then Ok (Break (Decoding d3 (p + 1) i (de_srclen s)))
  else if negb (isbase64 c2) then Ok (Break (Decoding d3 (p + 1) i (de_srclen s)))
  else if negb (isbase64 c3) then Ok (Break (Decoding d3 (p + 2) i (de_srclen s)))
  else
    i' ← cloop (skip_step src) (S (length src)) (i + 4);
    n ← i32 (de_srclen s - 4);
    let s' := Decoding d3 (p + 3) i' n in
    Ok (if decide (n = 0) then Break s' else Next s').

Definition base64_decode (dest src : buf) (srclen : Z) : res (Z * buf) :=
  c ← bload src 0;
  if decide (c = NUL ∨ srclen = 0) then Ok (0, dest)
  else
    s ← cloop (decode_step src) (S (length src)) (Decoding dest 0 0 srclen);
    d ← bstore (de_dest s) (de_p s) NUL;
    Ok (de_p s, d).

(** ** The wrappers *)

(** [base64_wrap (str, len)]: a line break after every space and 75 others. *)
Definition base64_wrap_step (str : buf) (len : Z) (s : buf * Z * Z * Z) : res (ctl (buf * Z * Z * Z)) :=
  let '(tmp, tmp_len, i, lcount) := s in
  if decide (i < len) then
    c ← bload str i;
    t1 ← bstore tmp tmp_len c;
    if decide (c = SP ∨ lcount = 75) then
      t2 ← bstore t1 (tmp_len + 1) CR;
      t3 ← bstore t2 (tmp_len + 2) LF;
      Ok (Next (t3, tmp_len + 3, i + 1, 0))
    else Ok (Next (t1, tmp_len + 1, i + 1, lcount + 1))
  else Ok (Break s).

Definition base64_wrap (str : buf) (len : Z) : res buf :=
  s ← cloop (base64_wrap_step str len) (S (Z.to_nat len)) (malloc (len * 3 + 1), 0, 0, 0);
  let '(tmp, tmp_len, _, _) := s in bstore tmp tmp_len NUL.

(** The loop of [base64_encode] that removes the line breaks in place. *)
Definition strip_step (len : Z) (s : buf * Z * Z) : res (ctl (buf * Z * Z)) :=
  let '(buff, i, cur) := s in
  if decide (i < len) then
    c ← bload buff i;
    if decide (c ≠ CR ∧ c ≠ LF) then
      b ← bstore buff cur c; Ok (Next (b, i + 1, cur + 1))
    else Ok (Next (buff, i + 1, cur))
  else Ok (Break s).

Section openssl.
(** What [BIO_f_base64] writes for some bytes, and what a read of a text
    through it, with room for so many bytes, returns and stores. *)
Context (bio_write : list byte → list byte) (bio_read : list byte → Z → Z * list byte).

Definition base64_encode (input : list byte) : res buf :=
  let data := bio_write input in
  let n := zlen data in
  b0 ← memcpy (malloc n) 0 (bs data) 0 (n - 1);
  b1 ← bstore b0 (n - 1) NUL;
  len ← strlen b1;
  s ← cloop (strip_step len) (S (Z.to_nat len)) (b1, 0, 0);
  let '(buff, _, cur) := s in bstore buff cur NUL.

(** [base64_decode (input, &output, length)] of the wrappers. *)
Definition base64_decode_bio (input : buf) (length : Z) : res (Z * buf) :=
  wrapped ← base64_wrap input length;
  w ← cstring wrapped;
  let '(len, bytes) := bio_read w (zlen w) in
  output ← bwrite (replicate (Z.to_nat (zlen w)) (Some NUL)) 0 (bs bytes);
  Ok (len, output).
End openssl.

(** ** Reference definitions *)

(** The encoding of RFC 4648 (4), with padding. *)
Definition sextet (k : Z) : byte := default NUL (base64_table !! Z.to_nat k).
Definition pad : byte := x3d.

Fixpoint b64 (l : list byte) : list byte :=
  match l with
  | [] => []
  | [x] => [sextet (bval x / 4); sextet (bval x mod 4 * 16); pad; pad]
  | [x; y] =>
      [sextet (bval x / 4); sextet (bval x mod 4 * 16 + bval y / 16); sextet (bval y mod 16 * 4); pad]
  | x :: y :: z :: l' =>
      [sextet (bval x / 4); sextet (bval x mod 4 * 16 + bval y / 16);
       sextet (bval y mod 16 * 4 + bval z / 64); sextet (bval z mod 64)] ++ b64 l'
  end.

Definition no_crlf (l : list byte) : list byte := filter (λ c, c ≠ CR ∧ c ≠ LF) l.

(** The wrapped string. *)
Fixpoint base64_wrap_list (lcount : Z) (s : list byte) : list byte :=
  match s with
  | [] => []
  | c :: s' =>
      if decide (c = SP ∨ lcount = 75) then [c; CR; LF] ++ base64_wrap_list 0 s'
      else c :: base64_wrap_list (lcount + 1) s'
  end.

(** ** Bits *)

Definition upto (n : nat) : list Z := Z.of_nat <$> seq 0 n.

Lemma elem_upto n k : 0 <= k < Z.of_nat n → k ∈ upto n.
Proof. intros H. apply list_elem_of_fmap. exists (Z.to_nat k). split; [lia|]. apply elem_of_seq. lia. Qed.

Lemma all_upto n (f : Z → bool) :
  forallb f (upto n) = true → ∀ k, 0 <= k < Z.of_nat n → f k = true.
Proof. intros H k Hk. eapply forallb_forall in H; [exact H|]. by apply list_elem_of_In, elem_upto. Qed.

Definition sextet_ok (k : Z) : bool :=
  bool_decide (base64_value (sextet k) = k) && isbase64 (sextet k) &&
  bool_decide (sextet k ≠ NUL ∧ sextet k ≠ CR ∧ sextet k ≠ LF).

Lemma sextet_spec k : 0 <= k < 64 →
  base64_value (sextet k) = k ∧ isbase64 (sextet k) = true ∧
  sextet k ≠ NUL ∧ sextet k ≠ CR ∧ sextet k ≠ LF.
Proof.
  intros Hk. assert (forallb sextet_ok (upto 64) = true) as H by by vm_compute.
  pose proof (all_upto 64 _ H k Hk) as H'. unfold sextet_ok in H'.
  apply andb_prop in H' as [H' Hn]. apply andb_prop in H' as [Hv Hb].
  apply bool_decide_eq_true in Hv. apply bool_decide_eq_true in Hn. tauto.
Qed.

(** The three output bytes from the sextets. *)
Definition join_1_ok (x : Z) : bool :=
  bool_decide (bval (byte_of (Z.lor (Z.shiftl (x / 4) 2) (x mod 4))) = x).
Definition join_2_ok (b m : Z) : bool :=
  bool_decide (bval (byte_of (Z.lor (Z.shiftl b 4) m)) = b mod 16 * 16 + m).
Definition join_3_ok (c m : Z) : bool :=
  bool_decide (bval (byte_of (Z.lor (Z.shiftl c 6) m)) = c mod 4 * 64 + m).

Lemma join_1 x b : b / 16 = bval x mod 4 → byte_of (Z.lor (Z.shiftl (bval x / 4) 2) (Z.shiftr b 4)) = x.
Proof.
  intros Hb. apply bval_inj. rewrite Z.shiftr_div_pow2 by lia. change (2 ^ 4) with 16. rewrite Hb.
  assert (forallb join_1_ok (upto 256) = true) as H by by vm_compute.
  pose proof (all_upto 256 _ H (bval x) (bval_range x)) as H'. by apply bool_decide_eq_true in H'.
Qed.

Lemma join_2 b y c :
  0 <= b < 64 → b mod 16 = bval y / 16 → c / 4 = bval y mod 16 →
  byte_of (Z.lor (Z.shiftl b 4) (Z.shiftr c 2)) = y.
Proof.
  intros Hb Hby Hc. apply bval_inj. rewrite Z.shiftr_div_pow2 by lia. change (2 ^ 2) with 4. rewrite Hc.
  assert (forallb (λ b, forallb (join_2_ok b) (upto 16)) (upto 64) = true) as H by by vm_compute.
  pose proof (all_upto 16 _ (all_upto 64 _ H b Hb) (bval y mod 16)
    ltac:(apply Z.mod_pos_bound; done)) as H'.
  apply bool_decide_eq_true in H'. rewrite H', Hby. clear. lia.
Qed.

Lemma join_3 c d z :
  0 <= c < 64 → c mod 4 = bval z / 64 → d = bval z mod 64 →
  byte_of (Z.lor (Z.shiftl c 6) d) = z.
Proof.
  intros Hc Hcz ->. apply bval_inj.
  assert (forallb (λ c, forallb (join_3_ok c) (upto 64)) (upto 64) = true) as H by by vm_compute.
  pose proof (all_upto 64 _ (all_upto 64 _ H c Hc) (bval z mod 64)
    ltac:(apply Z.mod_pos_bound; done)) as H'.
  apply bool_decide_eq_true in H'. rewrite H', Hcz. clear. lia.
Qed.

(** ** The decoder on encoded bytes *)

Lemma b64_first l : l ≠ [] → ∃ c s, b64 l = c :: s ∧ c ≠ NUL ∧ c ≠ CR ∧ c ≠ LF.
Proof.
  assert (H : ∀ x, sextet (bval x / 4) ≠ NUL ∧ sextet (bval x / 4) ≠ CR ∧ sextet (bval x / 4) ≠ LF)
    by (intros x; pose proof (bval_range x); destruct (sextet_spec (bval x / 4)); [lia|tauto]).
  destruct l as [|x [|y [|z l]]]; [done|..]; intros _; simpl; eauto 10.
Qed.

Lemma sextet_nn k : 0 <= k < 64 → sextet k ≠ NUL.
Proof. intros H. apply (sextet_spec k H). Qed.

Lemma b64_nonul l : nonul (b64 l).
Proof.
  remember (length l) as k eqn:Hk. assert (length l <= k)%nat as Hle by lia. clear Hk.
  revert l Hle. induction k as [|k IH]; intros [|x [|y [|z l]]] Hle; simpl in Hle; try apply nonul_nil;
    try lia; simpl; pose proof (bval_range x); try pose proof (bval_range y); try pose proof (bval_range z);
    repeat (apply nonul_cons; split; [first [apply sextet_nn; lia | discriminate]|]);
    first [apply nonul_nil | apply IH; lia].
Qed.

Lemma b64_length l : zlen (b64 l) = (zlen l + 2) / 3 * 4.
Proof.
  remember (length l) as k eqn:Hk. assert (length l <= k)%nat as Hle by lia. clear Hk.
  revert l Hle. induction k as [|k IH]; intros [|x [|y [|z l]]] Hle; simpl in *; try done; [lia|].
  rewrite !zlen_cons, IH by lia. pose proof (zlen_nonneg l). lia.
Qed.

Lemma store3 out junk p d1 d2 d3 :
  p = zlen out → 3 <= zlen junk →
  ∃ junk', (b1 ← bstore (bs out ++ junk) p d1; b2 ← bstore b1 (p + 1) d2; bstore b2 (p + 2) d3) =
    Ok (bs (out ++ [d1; d2; d3]) ++ junk') ∧ zlen junk' = zlen junk - 3.
Proof.
  intros -> Hj. destruct junk as [|x1 [|x2 [|x3 junk]]]; try (unfold zlen in Hj; simpl in Hj; lia).
  exists junk. split; [|zlia]. rewrite bstore_mid, bind_Ok by zlia.
  rewrite bs_app, <-app_assoc. cbn [bs fmap list_fmap app].
  replace (bs out ++ Some d1 :: x2 :: x3 :: junk) with ((bs out ++ [Some d1]) ++ x2 :: x3 :: junk)
    by by rewrite <-app_assoc.
  rewrite bstore_mid, bind_Ok by zlia.
  replace ((bs out ++ [Some d1]) ++ Some d2 :: x3 :: junk)
    with ((bs out ++ [Some d1; Some d2]) ++ x3 :: junk) by by rewrite <-!app_assoc.
  rewrite bstore_mid by zlia. by rewrite <-!app_assoc.
Qed.

(** One group: four bytes of the text, three bytes stored. *)
Lemma decode_group src pre c0 c1 c2 c3 post out junk n :
  src = bs (pre ++ [c0; c1; c2; c3]) ++ post → 3 <= zlen junk →
  ∃ junk', zlen junk' = zlen junk - 3 ∧
    decode_step src (Decoding (bs out ++ junk) (zlen out) (zlen pre) n) =
    let a := base64_value c0 in let b := base64_value c1 in
    let c := base64_value c2 in let d := base64_value c3 in
    let d3 := bs (out ++ [byte_of (Z.lor (Z.shiftl a 2) (Z.shiftr b 4));
      byte_of (Z.lor (Z.shiftl b 4) (Z.shiftr c 2)); byte_of (Z.lor (Z.shiftl c 6) d)]) ++ junk' in
    let p := zlen out in
    if negb (isbase64 c1) then Ok (Break (Decoding d3 (p + 1) (zlen pre) n))
    else if negb (isbase64 c2) then Ok (Break (Decoding d3 (p + 1) (zlen pre) n))
    else if negb (isbase64 c3) then Ok (Break (Decoding d3 (p + 2) (zlen pre) n))
    else
      i' ← cloop (skip_step src) (S (length src)) (zlen pre + 4);
      n' ← i32 (n - 4);
      let s' := Decoding d3 (p + 3) i' n' in
      Ok (if decide (n' = 0) then Break s' else Next s').
Proof.
  intros -> Hj.
  destruct (store3 out junk (zlen out)
    (byte_of (Z.lor (Z.shiftl (base64_value c0) 2) (Z.shiftr (base64_value c1) 4)))
    (byte_of (Z.lor (Z.shiftl (base64_value c1) 4) (Z.shiftr (base64_value c2) 2)))
    (byte_of (Z.lor (Z.shiftl (base64_value c2) 6) (base64_value c3))) eq_refl Hj)
    as (junk' & Hst & Hjl).
  apply bind_Ok_inv in Hst as (b1 & Hb1 & Hst). apply bind_Ok_inv in Hst as (b2 & Hb2 & Hst).
  exists junk'. split; [done|]. unfold decode_step. cbn [de_p de_src de_dest de_srclen].
  rewrite (bload_bs _ post (zlen pre) c0), bind_Ok
    by (first [zlia | by apply list_lookup_middle; zlia]).
  rewrite (bload_bs _ post (zlen pre + 1) c1), bind_Ok
    by (first [zlia | rewrite lookup_app_r by zlia; by replace (_ - _)%nat with 1%nat by zlia]).
  rewrite (bload_bs _ post (zlen pre + 2) c2), bind_Ok
    by (first [zlia | rewrite lookup_app_r by zlia; by replace (_ - _)%nat with 2%nat by zlia]).
  rewrite (bload_bs _ post (zlen pre + 3) c3), bind_Ok
    by (first [zlia | rewrite lookup_app_r by zlia; by replace (_ - _)%nat with 3%nat by zlia]).
  by rewrite Hb1, bind_Ok, Hb2, bind_Ok, Hst, bind_Ok.
Qed.

(** The padding ends the loop. *)
Lemma isbase64_pad : isbase64 pad = false ∧ base64_value pad = 0.
Proof. done. Qed.

Lemma skip_none src pre c post i :
  src = pre ++ Some c :: post → i = zlen pre → c ≠ CR → c ≠ LF →
  cloop (skip_step src) (S (length src)) i = Ok i.
Proof.
  intros -> -> Hr Hl. apply cloop_break. unfold skip_step.
  rewrite bload_mid, bind_Ok by done. by rewrite decide_False by tauto.
Qed.

Lemma sextets x y z :
  let a := bval x / 4 in let b := bval x mod 4 * 16 + bval y / 16 in
  let c := bval y mod 16 * 4 + bval z / 64 in let d := bval z mod 64 in
  0 <= a < 64 ∧ 0 <= b < 64 ∧ 0 <= c < 64 ∧ 0 <= d < 64 ∧
  b / 16 = bval x mod 4 ∧ b mod 16 = bval y / 16 ∧ c / 4 = bval y mod 16 ∧ c mod 4 = bval z / 64.
Proof.
  pose proof (bval_range x). pose proof (bval_range y). pose proof (bval_range z).
  repeat split; lia.
Qed.

(** The last group, of one byte. *)
Lemma decode_one src pre x post out junk n :
  src = bs (pre ++ b64 [x]) ++ Some NUL :: post → 3 <= zlen junk →
  ∃ s junk', decode_step src (Decoding (bs out ++ junk) (zlen out) (zlen pre) n) = Ok (Break s) ∧
    de_dest s = bs (out ++ [x]) ++ junk' ∧ de_p s = zlen (out ++ [x]) ∧
    zlen (out ++ [x]) + zlen junk' = zlen out + zlen junk.
Proof.
  intros Hsrc Hj. cbn [b64] in Hsrc. destruct isbase64_pad as [Hpad Hpad0].
  destruct (sextets x NUL NUL) as (Ha & Hb & _ & _ & Hb1 & _). change (bval NUL) with 0 in *.
  change (0 / 16) with 0 in *. rewrite Z.add_0_r in *.
  destruct (decode_group src pre _ _ _ _ _ out junk n Hsrc Hj) as (j & Hjl & Hstep).
  destruct (sextet_spec _ Ha) as (Va & _). destruct (sextet_spec _ Hb) as (Vb & Ib & _).
  cbv zeta in Hstep. rewrite Va, Vb, Ib, Hpad in Hstep. cbn [negb] in Hstep.
  rewrite (join_1 x _ Hb1) in Hstep. eexists _, _. split; [exact Hstep|]. cbn [de_dest de_p].
  rewrite !bs_app, <-!app_assoc. split; [by cbn [bs fmap list_fmap app]|]. split; zlia.
Qed.

(** The last group, of two bytes. *)
Lemma decode_two src pre x y post out junk n :
  src = bs (pre ++ b64 [x; y]) ++ Some NUL :: post → 3 <= zlen junk →
  ∃ s junk', decode_step src (Decoding (bs out ++ junk) (zlen out) (zlen pre) n) = Ok (Break s) ∧
    de_dest s = bs (out ++ [x; y]) ++ junk' ∧ de_p s = zlen (out ++ [x; y]) ∧
    zlen (out ++ [x; y]) + zlen junk' = zlen out + zlen junk.
Proof.
  intros Hsrc Hj. cbn [b64] in Hsrc. destruct isbase64_pad as [Hpad Hpad0].
  destruct (sextets x y NUL) as (Ha & Hb & Hc & _ & Hb1 & Hb2 & Hc2 & _). change (bval NUL) with 0 in *.
  change (0 / 64) with 0 in *. rewrite Z.add_0_r in *.
  destruct (decode_group src pre _ _ _ _ _ out junk n Hsrc Hj) as (j & Hjl & Hstep).
  destruct (sextet_spec _ Ha) as (Va & _). destruct (sextet_spec _ Hb) as (Vb & Ib & _).
  destruct (sextet_spec _ Hc) as (Vc & Ic & _).
  cbv zeta in Hstep. rewrite Va, Vb, Vc, Ib, Ic, Hpad in Hstep. cbn [negb] in Hstep.
  rewrite (join_1 x _ Hb1), (join_2 _ y _ Hb Hb2 Hc2) in Hstep.
  eexists _, _. split; [exact Hstep|]. cbn [de_dest de_p].
  rewrite !bs_app, <-!app_assoc. split; [by cbn [bs fmap list_fmap app]|]. split; zlia.
Qed.

(** The characters of three bytes. *)
Definition group3 (x y z : byte) : list byte :=
  [sextet (bval x / 4); sextet (bval x mod 4 * 16 + bval y / 16);
   sextet (bval y mod 16 * 4 + bval z / 64); sextet (bval z mod 64)].

(** Nothing is skipped between groups. *)
Lemma skip_group src pre l post i :
  src = bs (pre ++ b64 l) ++ Some NUL :: post → i = zlen pre →
  cloop (skip_step src) (S (length src)) i = Ok i.
Proof.
  intros Hsrc ->.
  assert (∃ c t, bs (b64 l) ++ Some NUL :: post = Some c :: t ∧ c ≠ CR ∧ c ≠ LF) as (c & t & Ht & Hcr & Hlf).
  { destruct (decide (l = [])) as [->|Hl]; [by exists NUL, post|].
    destruct (b64_first l Hl) as (c & s & -> & _ & ? & ?). by eexists c, _. }
  apply (skip_none _ (bs pre) c t); [|by rewrite zlen_bs | done | done].
  by rewrite Hsrc, !bs_app, <-!app_assoc, Ht.
Qed.

(** A group of three bytes, which goes on with the rest of the text. *)
Lemma decode_three src pre x y z l post out junk :
  src = bs (pre ++ group3 x y z ++ b64 l) ++ Some NUL :: post → 3 <= zlen junk → zlen (b64 l) + 4 <= INT_MAX →
  ∃ junk', zlen junk' = zlen junk - 3 ∧
    decode_step src (Decoding (bs out ++ junk) (zlen out) (zlen pre) (zlen (b64 l) + 4)) =
    let s := Decoding (bs (out ++ [x; y; z]) ++ junk') (zlen (out ++ [x; y; z]))
      (zlen (pre ++ group3 x y z)) (zlen (b64 l)) in
    Ok (if decide (zlen (b64 l) = 0) then Break s else Next s).
Proof.
  intros Hsrc Hj Hn. pose proof (zlen_nonneg (b64 l)) as Hb0.
  destruct (sextets x y z) as (Ha & Hb & Hc & Hd & Hb1 & Hb2 & Hc2 & Hc3).
  assert (src = bs (pre ++ group3 x y z) ++ bs (b64 l) ++ Some NUL :: post) as Hsrc'
    by by rewrite Hsrc, !bs_app, <-!app_assoc.
  destruct (decode_group src pre _ _ _ _ _ out junk (zlen (b64 l) + 4) Hsrc' Hj) as (j & Hjl & Hstep).
  exists j. split; [done|].
  destruct (sextet_spec _ Ha) as (Va & _). destruct (sextet_spec _ Hb) as (Vb & Ib & _).
  destruct (sextet_spec _ Hc) as (Vc & Ic & _). destruct (sextet_spec _ Hd) as (Vd & Id & _).
  cbv zeta in Hstep. rewrite Va, Vb, Vc, Vd, Ib, Ic, Id in Hstep. cbn [negb] in Hstep.
  rewrite (join_1 x _ Hb1), (join_2 _ y _ Hb Hb2 Hc2), (join_3 _ _ z Hc Hc3 eq_refl) in Hstep.
  assert (zlen (pre ++ group3 x y z) = zlen pre + 4) as Hz by by rewrite zlen_app.
  rewrite <-Hz, (skip_group src (pre ++ group3 x y z) l post), bind_Ok in Hstep by (done || by rewrite <-app_assoc).
  rewrite i32_ok, bind_Ok in Hstep by (unfold INT_MIN; lia).
  replace (zlen (b64 l) + 4 - 4) with (zlen (b64 l)) in Hstep by lia.
  replace (zlen (out ++ [x; y; z])) with (zlen out + 3) by zlia. exact Hstep.
Qed.

Lemma decode_loop src post k l pre out junk n fuel :
  (length l <= k)%nat → (length l <= fuel)%nat → l ≠ [] →
  src = bs (pre ++ b64 l) ++ Some NUL :: post → n = zlen (b64 l) → n <= INT_MAX →
  (zlen l + 2) / 3 * 3 <= zlen junk →
  ∃ s junk', cloop (decode_step src) fuel (Decoding (bs out ++ junk) (zlen out) (zlen pre) n) = Ok s ∧
    de_dest s = bs (out ++ l) ++ junk' ∧ de_p s = zlen (out ++ l) ∧
    zlen (out ++ l) + zlen junk' = zlen out + zlen junk.
Proof.
  revert l pre out junk n fuel. induction k as [|k IH]; intros l pre out junk n fuel Hk Hf Hne Hsrc -> Hn Hj.
  { destruct l; [done | simpl in Hk; lia]. }
  destruct fuel as [|fuel]; [destruct l; [done | simpl in Hf; lia]|].
  destruct l as [|x [|y [|z l]]]; [done|..].
  - destruct (decode_one src pre x post out junk (zlen (b64 [x])) Hsrc Hj) as (s & j & Hstep & Hs).
    exists s, j. by rewrite (cloop_break _ _ _ _ Hstep).
  - destruct (decode_two src pre x y post out junk (zlen (b64 [x; y])) Hsrc Hj) as (s & j & Hstep & Hs).
    exists s, j. by rewrite (cloop_break _ _ _ _ Hstep).
  - change (b64 (x :: y :: z :: l)) with (group3 x y z ++ b64 l) in *.
    assert (zlen (group3 x y z ++ b64 l) = zlen (b64 l) + 4) as Hlen by by rewrite zlen_app, Z.add_comm.
    rewrite !zlen_cons in Hj. pose proof (zlen_nonneg l). rewrite Hlen in Hn |- *.
    destruct (decode_three src pre x y z l post out junk Hsrc ltac:(lia) Hn) as (j & Hjl & Hstep).
    assert (out ++ x :: y :: z :: l = (out ++ [x; y; z]) ++ l) as -> by by rewrite <-app_assoc.
    destruct (decide (l = [])) as [->|Hl].
    + eexists _, j. rewrite (cloop_break _ _ _ _ Hstep). rewrite app_nil_r. split_and!; [done..|]. zlia.
    + cbv zeta in Hstep. rewrite decide_False in Hstep
        by (rewrite b64_length; destruct l; [done | rewrite zlen_cons; pose proof (zlen_nonneg l); lia]).
      rewrite (cloop_next _ _ _ _ Hstep).
      destruct (IH l (pre ++ group3 x y z) (out ++ [x; y; z]) j (zlen (b64 l)) fuel) as (s & j' & -> & Hd' & Hp' & Hr');
        [simpl in Hk; lia | simpl in Hf; lia | done | by rewrite Hsrc, <-!app_assoc | done | lia | lia |].
      exists s, j'. split_and!; [done..|]. rewrite Hr'. zlia.
Qed.

(** C32: decoding undoes encoding.  [base64_decode] applied to the encoding of
    any bytes, in a destination with room for the decoded groups and the
    terminator, accesses nothing outside the two buffers, returns the number
    of bytes and stores exactly these bytes and a NUL. *)
Theorem base64_decode_b64 l dest post :
  l ≠ [] → zlen (b64 l) <= INT_MAX → (zlen l + 2) / 3 * 3 <= zlen dest → zlen l < zlen dest →
  ∃ junk, base64_decode dest (bs (b64 l) ++ Some NUL :: post) (zlen (b64 l)) =
    Ok (zlen l, bs l ++ Some NUL :: junk) ∧ zlen l + 1 + zlen junk = zlen dest.
Proof.
  intros Hne Hn Hd Hd'. destruct (b64_first l Hne) as (c & s & Hb & Hc & _).
  assert (bload (bs (b64 l) ++ Some NUL :: post) 0 = Ok c) as H0 by by rewrite Hb.
  unfold base64_decode. rewrite H0, bind_Ok.
  rewrite decide_False by (rewrite b64_length; destruct l; [done|]; rewrite zlen_cons;
    pose proof (zlen_nonneg l); intros [?|?]; [done|lia]).
  destruct (decode_loop (bs (b64 l) ++ Some NUL :: post) post (length l) l [] [] dest (zlen (b64 l))
    (S (length (bs (b64 l) ++ Some NUL :: post)))) as (st & junk & Hloop & Hds & Hp & Hr);
    [done | | done | done | done | done | done |].
  { pose proof (b64_length l). rewrite length_app, length_bs. unfold zlen in *. lia. }
  change (bs [] ++ dest) with dest in Hloop. change (zlen []) with 0 in *.
  rewrite Hloop, bind_Ok, Hds, Hp. cbn [app] in *. rewrite bstore_end by (rewrite ?zlen_bs; lia).
  exists (drop 1 junk). split; [done|]. zlia.
Qed.

Lemma base64_decode_b64_witness :
  ∃ junk, base64_decode (malloc 12) (cstr (lit "UmVwb3J0")) 8 = Ok (6, bs (lit "Report") ++ Some NUL :: junk).
Proof.
  destruct (base64_decode_b64 (lit "Report") (malloc 12) []) as (junk & H & _);
    [discriminate | by_compute | by_compute | by_compute |].
  exists junk. exact H.
Defined.

(** ** The wrappers *)

Lemma triple_eq {A B C} (a a' : A) (b b' : B) (c c' : C) :
  a = a' → b = b' → c = c' → (a, b, c) = (a', b', c').
Proof. by intros -> -> ->. Qed.
Lemma quad_eq {A B C D} (a a' : A) (b b' : B) (c c' : C) (d d' : D) :
  a = a' → b = b' → c = c' → d = d' → (a, b, c, d) = (a', b', c', d').
Proof. by intros -> -> -> ->. Qed.

Definition wrap64_inv (s : list byte) (r : buf * Z * Z * Z) : Prop :=
  ∃ pre rest out junk lc, s = pre ++ rest ∧ r = (bs out ++ junk, zlen out, zlen pre, lc) ∧
    zlen out <= 3 * zlen pre ∧ zlen out + zlen junk = 3 * zlen s + 1 ∧
    base64_wrap_list 0 s = out ++ base64_wrap_list lc rest.

Lemma base64_wrap_step_ok s post r :
  wrap64_inv s r →
  wp (base64_wrap_step (bs s ++ post) (zlen s) r) (λ c, match c with
    | Next r' => wrap64_inv s r' ∧ (Z.to_nat (zlen s - snd (fst r')) < Z.to_nat (zlen s - snd (fst r)))%nat
    | Break r' => ∃ i lc junk, r' = (bs (base64_wrap_list 0 s) ++ junk, zlen (base64_wrap_list 0 s), i, lc) ∧
        zlen (base64_wrap_list 0 s) + zlen junk = 3 * zlen s + 1 ∧ 1 <= zlen junk end).
Proof.
  intros (pre & rest & out & junk & lc & Heq & -> & Hle & Hsum & Hw). unfold base64_wrap_step.
  destruct rest as [|c rest].
  { rewrite app_nil_r in Heq. simpl in Hw. rewrite app_nil_r in Hw. subst pre.
    rewrite decide_False by lia. simpl. exists (zlen s), lc, junk. rewrite Hw. split; [done|]. lia. }
  assert (zlen s = zlen pre + 1 + zlen rest) as Hs by (rewrite Heq; zlia). pose proof (zlen_nonneg rest).
  rewrite decide_True by lia.
  rewrite (bload_bs s post _ c), bind_Ok by (first [zlia | rewrite Heq; apply list_lookup_middle; zlia]).
  assert (Heq' : s = (pre ++ [c]) ++ rest) by by rewrite <-app_assoc.
  simpl in Hw. destruct junk as [|x1 [|x2 [|x3 junk]]]; try (unfold zlen in Hsum, Hle, Hs; simpl in *; lia).
  rewrite !zlen_cons in Hsum. rewrite bstore_mid, bind_Ok by by rewrite zlen_bs.
  destruct (decide (c = SP ∨ lc = 75)) as [Hc|Hc].
  - replace (bs out ++ Some c :: x2 :: x3 :: junk) with (bs (out ++ [c]) ++ x2 :: x3 :: junk)
      by by rewrite bs_app, <-app_assoc.
    rewrite bstore_mid, bind_Ok by zlia.
    replace (bs (out ++ [c]) ++ Some CR :: x3 :: junk) with (bs (out ++ [c; CR]) ++ x3 :: junk)
      by by rewrite !bs_app, <-!app_assoc.
    rewrite bstore_mid, bind_Ok by zlia. simpl. split; [|zlia].
    exists (pre ++ [c]), rest, (out ++ [c; CR; LF]), junk, 0. split; [done|].
    split; [apply quad_eq; [by rewrite !bs_app, <-!app_assoc | zlia | zlia | done]|].
    split; [zlia|]. split; [zlia|]. by rewrite Hw, <-app_assoc.
  - simpl. split; [|zlia]. exists (pre ++ [c]), rest, (out ++ [c]), (x2 :: x3 :: junk), (lc + 1).
    split; [done|]. split; [apply quad_eq; [by rewrite !bs_app, <-!app_assoc | zlia | zlia | done]|].
    split; [zlia|]. split; [zlia|]. by rewrite Hw, <-app_assoc.
Qed.

Lemma base64_wrap_eq s post :
  ∃ junk, base64_wrap (bs s ++ post) (zlen s) = Ok (bs (base64_wrap_list 0 s) ++ Some NUL :: junk).
Proof.
  unfold base64_wrap.
  destruct (wp_inv _ _ (wp_cloop (base64_wrap_step (bs s ++ post) (zlen s)) (wrap64_inv s)
    (λ r, Z.to_nat (zlen s - snd (fst r))) _ (S (Z.to_nat (zlen s))) (malloc (zlen s * 3 + 1), 0, 0, 0)
    (base64_wrap_step_ok s post)
    ltac:(exists [], s, [], (malloc (zlen s * 3 + 1)), 0; repeat split; zlia) ltac:(simpl; lia)))
    as (r & -> & i & lc & junk & -> & Hsum & Hj).
  rewrite bind_Ok, bstore_end by zlia. by eexists.
Qed.

Lemma no_crlf_app s t : no_crlf (s ++ t) = no_crlf s ++ no_crlf t.
Proof. apply filter_app. Qed.

Lemma no_crlf_wrap lc s : no_crlf (base64_wrap_list lc s) = no_crlf s.
Proof.
  revert lc. induction s as [|c s IH]; intros lc; [done|]. cbn [base64_wrap_list].
  change (c :: s) with ([c] ++ s). rewrite (no_crlf_app [c] s).
  case_decide; [|change (c :: ?l) with ([c] ++ l)].
  - change [c; CR; LF] with ([c] ++ [CR; LF]). by rewrite !no_crlf_app, IH, app_nil_r.
  - by rewrite no_crlf_app, IH.
Qed.

Lemma wrap64_nonul lc s : nonul s → nonul (base64_wrap_list lc s).
Proof.
  intros Hs. revert lc. induction Hs as [|c s Hc Hs IH]; intros lc; [constructor|].
  cbn [base64_wrap_list]. case_decide; cbn [app]; repeat (apply nonul_cons; split; [done|]); apply IH.
Qed.

Definition strip_inv (d : list byte) (n : Z) (r : buf * Z * Z) : Prop :=
  ∃ pre rest junk, d = pre ++ rest ∧
    r = (bs (no_crlf pre) ++ junk ++ bs rest ++ [Some NUL], zlen pre, zlen (no_crlf pre)) ∧
    zlen (no_crlf pre) + zlen junk = zlen pre.

Lemma strip_step_ok d n r :
  strip_inv d n r →
  wp (strip_step (zlen d) r) (λ c, match c with
    | Next r' => strip_inv d n r' ∧ (Z.to_nat (zlen d - snd (fst r')) < Z.to_nat (zlen d - snd (fst r)))%nat
    | Break r' => ∃ i junk, r' = (bs (no_crlf d) ++ junk ++ [Some NUL], i, zlen (no_crlf d)) end).
Proof.
  intros (pre & rest & junk & Heq & -> & Hj). unfold strip_step. destruct rest as [|c rest].
  { rewrite app_nil_r in Heq. subst pre. rewrite decide_False by lia. simpl. by exists (zlen d), junk. }
  assert (zlen d = zlen pre + 1 + zlen rest) as Hd by (rewrite Heq; zlia). pose proof (zlen_nonneg rest).
  rewrite decide_True by lia. rewrite bs_cons. cbn [app]. rewrite app_assoc.
  rewrite bload_mid, bind_Ok by (rewrite zlen_app, zlen_bs; lia).
  assert (Heq' : d = (pre ++ [c]) ++ rest) by by rewrite <-app_assoc.
  assert (no_crlf [c] = if decide (c ≠ CR ∧ c ≠ LF) then [c] else []) as Hc
    by (unfold no_crlf; by rewrite filter_cons).
  destruct (decide (c ≠ CR ∧ c ≠ LF)).
  - assert (∃ x j, junk ++ [Some c] = x :: j ∧ zlen j = zlen junk) as (x & j & Hx & Hxl)
      by (destruct junk as [|x j]; eexists _, _; (split; [done|]); zlia).
    rewrite <-app_assoc. change (Some c :: bs rest ++ [Some NUL]) with ([Some c] ++ bs rest ++ [Some NUL]).
    rewrite (app_assoc junk), Hx. cbn [app]. rewrite bstore_mid, bind_Ok by by rewrite zlen_bs.
    simpl. split; [|zlia]. exists (pre ++ [c]), rest, j. split; [done|]. rewrite no_crlf_app, Hc.
    split; [|zlia]. apply triple_eq; [by rewrite bs_app, <-app_assoc | zlia | zlia].
  - simpl. split; [|zlia]. exists (pre ++ [c]), rest, (junk ++ [Some c]). split; [done|].
    rewrite no_crlf_app, Hc, app_nil_r. split; [|zlia].
    apply triple_eq; [by rewrite <-!app_assoc | zlia | zlia].
Qed.

Lemma base64_encode_eq bio_write input d c :
  bio_write input = d ++ [c] → nonul d →
  ∃ junk, base64_encode bio_write input = Ok (bs (no_crlf d) ++ Some NUL :: junk).
Proof.
  intros Hw Hd. unfold base64_encode. rewrite Hw.
  replace (zlen (d ++ [c]) - 1) with (zlen d) by zlia.
  unfold memcpy. rewrite bs_app, bread_bs, bind_Ok by done. rewrite bwrite_start, bind_Ok by zlia.
  rewrite bstore_end, bind_Ok by zlia.
  replace (drop 1 (drop (length (bs d)) (malloc (zlen (d ++ [c]))))) with ([] : buf)
    by (symmetry; apply nil_length_inv; zlia).
  rewrite strlen_bs, bind_Ok by done.
  destruct (wp_inv _ _ (wp_cloop (strip_step (zlen d)) (strip_inv d (zlen d))
    (λ r, Z.to_nat (zlen d - snd (fst r))) _ (S (Z.to_nat (zlen d))) (bs d ++ [Some NUL], 0, 0)
    (strip_step_ok d (zlen d)) ltac:(exists [], d, []; done) ltac:(simpl; lia)))
    as (r & -> & i & junk & ->).
  rewrite bind_Ok. rewrite bstore_end by zlia. by eexists.
Qed.

(** Wrapping for OpenSSL.  [base64_wrap] never writes outside the buffer
    of three bytes per byte it allocates, and what it inserts are line breaks
    only: without line breaks the result is the text itself. *)
Theorem base64_wrap_lossless s post :
  nonul s →
  ∃ b w, base64_wrap (bs s ++ post) (zlen s) = Ok b ∧ cstring b = Ok w ∧ no_crlf w = no_crlf s.
Proof.
  intros Hs. destruct (base64_wrap_eq s post) as (junk & H).
  exists (bs (base64_wrap_list 0 s) ++ Some NUL :: junk), (base64_wrap_list 0 s).
  split; [exact H|]. split; [by apply cstring_bs, wrap64_nonul | apply no_crlf_wrap].
Qed.

Lemma base64_wrap_lossless_witness :
  ∃ b w, base64_wrap (cstr (lit "UmVw b3J0")) 9 = Ok b ∧ cstring b = Ok w ∧ no_crlf w = lit "UmVw b3J0".
Proof. exact (base64_wrap_lossless (lit "UmVw b3J0") [Some NUL] ltac:(by_compute)). Defined.
