(* ===== verification/Dkim.v ===== *)
(** Dkim: the signature code of [src/firm-dkim-extended/firm-dkim.c]: the
    tag-value parser of the DKIM-Signature header and of the DNS record, the
    selection of the signed headers, the checks and the verification.  OpenSSL
    (SHA-256, RSA, PEM, the base64 filter) is a parameter. *)
From S2P Require Import Prelude Canon Base64.

Definition DKIM_VALUE_MAX_LEN : Z := 1024.
Definition DKIM_RECORD_MAX_LEN : Z := 2046.

(** ** The structs *)

Record dkim_header := DkimHeader {
  dh_v : buf; dh_a : buf; dh_c : buf; dh_d : buf;
  dh_s : buf; dh_h : buf; dh_bh : buf; dh_b : buf;
}.

Record dkim_record := DkimRecord { dr_k : buf; dr_p : buf }.

(** The parameters the parsers look for. *)
Inductive tag := TagV | TagA | TagC | TagD | TagS | TagBh | TagB | TagH.
Inductive record_tag := TagK | TagP.

#[global] Instance tag_eq_dec : EqDecision tag.
Proof. solve_decision. Defined.
#[global] Instance record_tag_eq_dec : EqDecision record_tag.
Proof. solve_decision. Defined.

(** [param_ptr = &dh->...] *)
Definition dh_get (t : tag) (h : dkim_header) : buf :=
  match t with
  | TagV => dh_v h | TagA => dh_a h | TagC => dh_c h | TagD => dh_d h
  | TagS => dh_s h | TagBh => dh_bh h | TagB => dh_b h | TagH => dh_h h
  end.

Definition dh_set (t : tag) (x : buf) (r : dkim_header) : dkim_header :=
  let '(DkimHeader v a c d s h bh b) := r in
  match t with
  | TagV => DkimHeader x a c d s h bh b | TagA => DkimHeader v x c d s h bh b
  | TagC => DkimHeader v a x d s h bh b | TagD => DkimHeader v a c x s h bh b
  | TagS => DkimHeader v a c d x h bh b | TagH => DkimHeader v a c d s x bh b
  | TagBh => DkimHeader v a c d s h x b | TagB => DkimHeader v a c d s h bh x
  end.

Definition dr_get (t : record_tag) (r : dkim_record) : buf :=
  match t with TagK => dr_k r | TagP => dr_p r end.
Definition dr_set (t : record_tag) (x : buf) (r : dkim_record) : dkim_record :=
  match t with TagK => DkimRecord x (dr_p r) | TagP => DkimRecord (dr_k r) x end.

(** [malloc (sizeof (...))] *)
Definition dkim_header_malloc : dkim_header :=
  let b := malloc DKIM_VALUE_MAX_LEN in DkimHeader b b b b b b b b.
Definition dkim_record_malloc : dkim_record :=
  DkimRecord (malloc DKIM_RECORD_MAX_LEN) (malloc DKIM_RECORD_MAX_LEN).

(** The [strncmp] cascades, in the order of the code. *)
Definition tag_names : list (list byte * tag) := [
  (lit "v=", TagV); (lit "a=", TagA); (lit "c=", TagC); (lit "d=", TagD);
  (lit "s=", TagS); (lit "bh=", TagBh); (lit "b=", TagB); (lit "h=", TagH)].
Definition record_tag_names : list (list byte * record_tag) := [
  (lit "k=", TagK); (lit "p=", TagP)].

(** ** The tag-value parser *)

(** Both parsers are the same loop over a string; they differ in the struct,
    the names and the size of the arrays. *)
Section tags.
Context {T S : Type} (get : T → S → buf) (set : T → buf → S → S)
  (names : list (list byte * T)) (max : Z).

Record tagging := Tagging {
  tg_struct : S;
  tg_i : Z;
  tg_in_val : bool;
  tg_val_len : Z;
  tg_param : option T;   (** [param_ptr]; [None] is NULL *)
}.

Fixpoint find_tag (l : list (list byte * T)) (b : buf) : res (option (T * Z)) :=
  match l with
  | [] => Ok None
  | (k, t) :: l' =>
      m ← strncmp_eq b (cstr k) (length k);
      if m : bool then Ok (Some (t, zlen k)) else find_tag l' b
  end.

Definition param_store (t : T) (i : Z) (c : byte) (s : S) : res S :=
  x ← bstore (get t s) i c; Ok (set t x s).

Definition tag_step (txt : buf) (txt_len : Z) (s : tagging) : res (ctl tagging) :=
  let i := tg_i s in
  if decide (i < txt_len) then
    if tg_in_val s then
      c ← bload txt i;
      if decide (c = x3b) then
        st ← match tg_param s with
             | Some t => param_store t (tg_val_len s) NUL (tg_struct s)
             | None => Ok (tg_struct s)
             end;
        Ok (Next (Tagging st (i + 1) false 0 None))
      else if decide (c = TAB ∨ c = SP) then
        Ok (Next (Tagging (tg_struct s) (i + 1) true (tg_val_len s) (tg_param s)))
      else
        match tg_param s with
        | Some t =>
            if decide (tg_val_len s < max - 1) then
              st ← param_store t (tg_val_len s) c (tg_struct s);
              Ok (Next (Tagging st (i + 1) true (tg_val_len s + 1) (tg_param s)))
            else Ok (Next (Tagging (tg_struct s) (i + 1) true (tg_val_len s) (tg_param s)))
        | None => Ok (Next (Tagging (tg_struct s) (i + 1) true (tg_val_len s) None))
        end
    else
      p ← ptr_add txt i;
      f ← find_tag names p;
      match f with
      | Some (t, n) => Ok (Next (Tagging (tg_struct s) (i + n) true (tg_val_len s) (Some t)))
      | None => Ok (Next (Tagging (tg_struct s) (i + 1) false (tg_val_len s) (tg_param s)))
      end
  else Ok (Break s).

Definition parse_tags (st0 : S) (txt : buf) : res S :=
  txt_len ← strlen txt;
  s ← cloop (tag_step txt txt_len) (Datatypes.S (Z.to_nat txt_len)) (Tagging st0 0 false 0 None);
  match tg_param s with
  | Some t => param_store t (tg_val_len s) NUL (tg_struct s)
  | None => Ok (tg_struct s)
  end.
End tags.

(** [dkim_parse_header (sig)] and [dkim_parse_dns (txt)] *)
Definition dkim_parse_header (sig : buf) : res dkim_header :=
  parse_tags dh_get dh_set tag_names DKIM_VALUE_MAX_LEN dkim_header_malloc sig.
Definition dkim_parse_dns (txt : buf) : res dkim_record :=
  parse_tags dr_get dr_set record_tag_names DKIM_RECORD_MAX_LEN dkim_record_malloc txt.

(** ** Finding the signature *)

Definition sig_name : list byte := lit "DKIM-Signature".

(** The loop over the headers: the first with the name. *)
Fixpoint dkim_index (headers : list stringpair) (i : Z) : res Z :=
  match headers with
  | [] => Ok (-1)
  | h :: hs =>
      m ← strcmp_eq (sp_key h) (cstr sig_name);
      if m : bool then Ok i else dkim_index hs (i + 1)
  end.

Definition dkim_get_header (headers : list stringpair) : res (option dkim_header) :=
  i ← dkim_index headers 0;
  if decide (i ≠ -1) then
    h ← aload headers i; dh ← dkim_parse_header (sp_value h); Ok (Some dh)
  else Ok None.

(** ** The signed headers *)

(** [inc_headers = malloc (sizeof (stringpair* ) * 50)] and its length. *)
Record included := Included {
  inc_headers : list (option stringpair);
  inc_headerc : Z;
}.

Definition inc_malloc : included := Included (replicate 50 None) 0.

Definition inc_add (h : stringpair) (s : included) : res included :=
  l ← astore (inc_headers s) (inc_headerc s) (Some h);
  Ok (Included l (inc_headerc s + 1)).

(** The loop over the mail's headers for one name of [h=]. *)
Fixpoint include_all (headers : list stringpair) (header : buf) (head_len : Z) (s : included)
  : res included :=
  match headers with
  | [] => Ok s
  | h :: hs =>
      low_hdr ← str_to_lower (sp_key h);
      m ← strncmp_eq low_hdr header (Z.to_nat head_len);
      s' ← (if m : bool then inc_add h s else Ok s);
      include_all hs header head_len s'
  end.

Definition include_step (headers : list stringpair) (h : buf) (h_len : Z) (s : Z * Z * included)
  : res (ctl (Z * Z * included)) :=
  let '(i, offset, inc) := s in
  if decide (i < h_len) then
    c ← bload h i;
    if decide (c = x3a ∨ i = h_len - 1) then
      let head_len := i - offset + (if decide (i = h_len - 1) then 1 else 0) in
      b0 ← memcpy (malloc (head_len + 1)) 0 h offset head_len;
      header ← bstore b0 head_len NUL;
      inc' ← include_all headers header head_len inc;
      Ok (Next (i + 1, i + 1, inc'))
    else Ok (Next (i + 1, offset, inc))
  else Ok (Break s).

Definition included_headers (headers : list stringpair) (h : buf) : res included :=
  h_len ← strlen h;
  s ← cloop (include_step headers h h_len) (S (Z.to_nat h_len)) (0, 0, inc_malloc);
  Ok (snd s).

(** ** The checks *)

(** Testing an array member against NULL is always false; 0 is success. *)
Definition dkim_check_compability (dh : dkim_header) : res Z :=
  a ← strncmp_eq (dh_a dh) (cstr (lit "rsa-sha256")) 10;
  if negb a then Ok 1
  else
    c ← strncmp_eq (dh_c dh) (cstr (lit "relaxed/relaxed")) 15;
    if negb c then Ok 1 else Ok 0.

(** The text that is hashed: "key:value" lines. *)
Definition header_line (last : bool) (h : stringpair) (s : buf * Z) : res (buf * Z) :=
  let '(str, n) := s in
  key_len ← strlen (sp_key h);
  value_len ← strlen (sp_value h);
  b1 ← memcpy str n (sp_key h) 0 key_len;
  b2 ← memcpy b1 (n + key_len) (cstr (lit ":")) 0 1;
  b3 ← memcpy b2 (n + key_len + 1) (sp_value h) 0 value_len;
  let n' := n + key_len + 1 + value_len in
  if last then Ok (b3, n')
  else b4 ← memcpy b3 n' (cstr crlf_bytes) 0 3; Ok (b4, n' + 2).

Fixpoint header_lines (hs : list stringpair) (s : buf * Z) : res (buf * Z) :=
  match hs with
  | [] => Ok s
  | h :: hs' =>
      s' ← header_line (bool_decide (hs' = [])) h s; header_lines hs' s'
  end.

(** Cut the text after the last "b=" that leaves room for the signature. *)
Definition cut_step (s : buf * Z * Z) : res (ctl (buf * Z * Z)) :=
  let '(str, n, i) := s in
  if decide (i > 1) then
    c ← bload str i;
    eq ← (if decide (c = x3d) then d ← bload str (i - 1); Ok (bool_decide (d = x62)) else Ok false);
    if eq : bool then str' ← bstore str (i + 1) NUL; Ok (Break (str', i + 1, i))
    else Ok (Next (str, n, i - 1))
  else Ok (Break s).

Section openssl.
(** [SHA256]; the base64 filter; a public key from PEM text; [RSA_verify]
    with SHA-256 of a digest and a signature under a key. *)
Context {key : Type} (SHA256 : list byte → list byte)
  (bio_write : list byte → list byte) (bio_read : list byte → Z → Z * list byte)
  (rsa_read_public_pem : list byte → option key)
  (RSA_verify : list byte → buf → Z → key → Z).

Definition dkim_validate_body_hash (dh : dkim_header) (body : buf) : res Z :=
  new_body ← relaxed_body_canon body;
  s ← cstring new_body;
  bh ← base64_encode bio_write (SHA256 s);
  n ← strlen bh;
  m ← strncmp_eq bh (dh_bh dh) (Z.to_nat n);
  Ok (if m : bool then 0 else 1).

(** The text under the signature, from the included headers. *)
Definition signed_text (dh : dkim_header) (inc : list stringpair) : res (list byte) :=
  new_headers ← relaxed_header_canon inc;
  s ← header_lines new_headers (malloc (1500 * zlen inc), 0);
  b_len ← strlen (dh_b dh);
  let '(str, n) := s in
  r ← cloop cut_step (S (Z.to_nat n)) (str, n, n - b_len);
  let '(str', n', _) := r in
  t ← bread str' 0 n';
  mapM (λ o, match o with Some c => Ok c | None => Err Uninit end) t.

(** The verification itself. *)
Definition verify_signature (dh : dkim_header) (text : list byte) (public_key : buf) : res Z :=
  b_len ← strlen (dh_b dh);
  d ← base64_decode_bio bio_read (dh_b dh) b_len;
  let '(signature_len, signature) := d in
  if decide (signature_len > 0) then
    k ← cstring public_key;
    match rsa_read_public_pem k with
    | Some rsa => Ok (RSA_verify (SHA256 text) signature signature_len rsa)
    | None => Ok 0
    end
  else Ok 0.

Definition dkim_validate (headers : list stringpair) (body : buf) (dh : dkim_header)
  (public_key : buf) : res Z :=
  i ← dkim_index headers 0;
  inc ← included_headers headers (dh_h dh);
  compatible ← dkim_check_compability dh;
  if decide (compatible = 0) then
    bh ← dkim_validate_body_hash dh body;
    if decide (bh = 0) then
      sig ← aload headers i;
      inc' ← inc_add (Stringpair (cstr (lit "dkim-signature")) (sp_value sig)) inc;
      text ← signed_text dh (omap id (take (Z.to_nat (inc_headerc inc')) (inc_headers inc')));
      verify_signature dh text public_key
    else Ok 0
  else Ok 0.
End openssl.

(** ** Reference definition of the parser *)

Definition is_blank (c : byte) : bool := bool_decide (c = TAB ∨ c = SP).

Section tag_list.
Context {T : Type} `{EqDecision T} (names : list (list byte * T)).

(** The first name at the start of [s], and what follows it is a value. *)
Fixpoint find_name (l : list (list byte * T)) (s : list byte) : option (T * nat) :=
  match l with
  | [] => None
  | (k, t) :: l' => if decide (k `prefix_of` s) then Some (t, length k) else find_name l' s
  end.

(** The assignments of a tag list, in order; [cur] is the value being read,
    [skip] bytes of a name are still to be passed. *)
Fixpoint tag_run (cur : option (T * list byte)) (skip : nat) (s : list byte) : list (T * list byte) :=
  match s with
  | [] => match cur with Some a => [a] | None => [] end
  | c :: s' =>
      match skip with
      | S n => tag_run cur n s'
      | O =>
          match cur with
          | Some (t, v) =>
              if decide (c = x3b) then (t, v) :: tag_run None 0 s'
              else if is_blank c then tag_run cur 0 s' else tag_run (Some (t, v ++ [c])) 0 s'
          | None =>
              match find_name names s with
              | Some (t, n) => tag_run (Some (t, [])) (n - 1) s'
              | None => tag_run None 0 s'
              end
          end
      end
  end.

Definition tag_list (s : list byte) : list (T * list byte) := tag_run None 0 s.

(** The last value assigned to a tag. *)
Definition last_value (t : T) (l : list (T * list byte)) : option (list byte) :=
  last (filter (λ a, a.1 = t) l).*2.

Lemma last_value_snoc t t' v l :
  last_value t (l ++ [(t', v)]) = if decide (t' = t) then Some v else last_value t l.
Proof.
  unfold last_value. rewrite filter_app, fmap_app, filter_cons, filter_nil. simpl.
  case_decide; simpl; [by rewrite last_snoc | by rewrite app_nil_r].
Qed.

Lemma tag_run_skip cur n s : tag_run cur n s = tag_run cur 0 (drop n s).
Proof. revert n. induction s as [|c s IH]; intros [|n]; simpl; done || apply IH. Qed.

Lemma find_name_prefix l s t n :
  find_name l s = Some (t, n) → ∃ k, (k, t) ∈ l ∧ n = length k ∧ k `prefix_of` s.
Proof.
  induction l as [|[k t'] l IH]; simpl; [done|]. case_decide as Hk.
  - intros [= -> <-]. exists k. split; [by left|done].
  - intros H. destruct (IH H) as (k' & ? & ? & ?). exists k'. split; [by right|done].
Qed.
End tag_list.

(** ** The parser computes it *)

Section tags_ok.
Context {T S : Type} `{EqDecision T} (get : T → S → buf) (set : T → buf → S → S)
  (names : list (list byte * T)) (max : Z).
Context (get_set : ∀ t x s, get t (set t x s) = x)
  (get_set_ne : ∀ t t' x s, t ≠ t' → get t (set t' x s) = get t s)
  (names_ok : Forall (λ kt, nonul kt.1 ∧ kt.1 ≠ []) names) (max_pos : 0 < max)
  (st0 : S) (st0_len : ∀ t, zlen (get t st0) = max).

Definition fits_in (v : list byte) : list byte := take (Z.to_nat (max - 1)) v.

Definition tag_holds (t : T) (l : list (T * list byte)) (st : S) : Prop :=
  match last_value t l with
  | Some v => ∃ junk, get t st = bs (fits_in v) ++ Some NUL :: junk
  | None => get t st = get t st0
  end.

Definition tags_rep (l : list (T * list byte)) (cur : option (T * list byte)) (st : S) : Prop :=
  ∀ t, zlen (get t st) = max ∧
    match cur with
    | Some (t', v) =>
        if decide (t = t') then ∃ junk, get t st = bs (fits_in v) ++ junk else tag_holds t l st
    | None => tag_holds t l st
    end.

Definition tags_inv (s : list byte) (r : @tagging T S) : Prop :=
  ∃ pre rest l cur, s = pre ++ rest ∧ tg_i r = zlen pre ∧
    tg_in_val r = (match cur with Some _ => true | None => false end) ∧
    tg_param r = fst <$> cur ∧
    tg_val_len r = (match cur with Some (_, v) => zlen (fits_in v) | None => 0 end) ∧
    tags_rep l cur (tg_struct r) ∧ tag_list names s = l ++ tag_run names cur 0 rest.

Lemma find_tag_ok s post :
  find_tag names (bs s ++ Some NUL :: post) =
    Ok (match find_name names s with Some (t, n) => Some (t, Z.of_nat n) | None => None end).
Proof.
  clear - names_ok. induction names_ok as [|[k t] l [Hk _] _ IH]; [done|]. simpl in *.
  rewrite strncmp_lit_nul, bind_Ok by done. destruct (decide (k `prefix_of` s)) as [Hp|Hp].
  - rewrite (bool_decide_eq_true_2 _ Hp). done.
  - rewrite (bool_decide_eq_false_2 _ Hp). apply IH. by inversion names_ok.
Qed.

(** Ending a value. *)
Lemma param_end l t v st :
  tags_rep l (Some (t, v)) st →
  ∃ st', param_store get set t (zlen (fits_in v)) NUL st = Ok st' ∧ tags_rep (l ++ [(t, v)]) None st'.
Proof.
  intros H. destruct (H t) as [Hlen Ht]. rewrite decide_True in Ht by done. destruct Ht as [junk Ht].
  unfold param_store. rewrite Ht in Hlen |- *.
  assert (zlen (fits_in v) < max) by (unfold fits_in, zlen; rewrite length_take; lia).
  rewrite bstore_end, bind_Ok by zlia. eexists. split; [done|]. intros t'.
  unfold tag_holds. rewrite last_value_snoc. destruct (decide (t' = t)) as [->|Hne].
  - rewrite get_set, decide_True by done. split; [zlia|eauto].
  - rewrite get_set_ne by done. rewrite decide_False by congruence.
    destruct (H t') as [Hl' Ht']. by rewrite decide_False in Ht' by done.
Qed.

(** Adding a byte to a value. *)
Lemma param_add l t v c st :
  tags_rep l (Some (t, v)) st →
  ∃ st' n, (if decide (zlen (fits_in v) < max - 1)
            then st1 ← param_store get set t (zlen (fits_in v)) c st; Ok (st1, zlen (fits_in v) + 1)
            else Ok (st, zlen (fits_in v))) = Ok (st', n) ∧
    n = zlen (fits_in (v ++ [c])) ∧ tags_rep l (Some (t, v ++ [c])) st'.
Proof.
  intros H. destruct (H t) as [Hlen Ht]. rewrite decide_True in Ht by done. destruct Ht as [junk Ht].
  case_decide as Hfit.
  - assert (length v < Z.to_nat (max - 1))%nat as Hv by (unfold fits_in, zlen in Hfit; rewrite length_take in Hfit; lia).
    assert (fits_in v = v ∧ fits_in (v ++ [c]) = v ++ [c]) as [E1 E2]
      by (unfold fits_in; rewrite !take_ge by zlia; done).
    unfold param_store. rewrite E1 in Ht, Hfit. rewrite E1, E2, Ht. rewrite Ht in Hlen.
    rewrite bstore_end, bind_Ok by zlia.
    eexists _, _. split; [done|]. split; [zlia|]. intros t'. destruct (decide (t' = t)) as [->|Hne].
    + rewrite get_set. split; [zlia|].
      exists (drop 1 junk). by rewrite E2, bs_app, <-app_assoc.
    + unfold tag_holds. rewrite get_set_ne by done. destruct (H t') as [? Ht'].
      by rewrite decide_False in Ht' by done.
  - assert (fits_in (v ++ [c]) = fits_in v) as E.
    { unfold fits_in, zlen in *. rewrite length_take in Hfit. apply take_app_le. lia. }
    eexists _, _. split; [done|]. rewrite E. split; [done|]. intros t'. destruct (H t') as [? Ht'].
    split; [done|]. by rewrite E.
Qed.

Lemma tag_step_ok s post r :
  nonul s → tags_inv s r →
  wp (tag_step get set names max (bs s ++ Some NUL :: post) (zlen s) r) (λ c, match c with
    | Next r' => tags_inv s r' ∧ (Z.to_nat (zlen s - tg_i r') < Z.to_nat (zlen s - tg_i r))%nat
    | Break r' => ∃ l cur, tg_param r' = fst <$> cur ∧
        tg_val_len r' = (match cur with Some (_, v) => zlen (fits_in v) | None => 0 end) ∧
        tags_rep l cur (tg_struct r') ∧
        tag_list names s = l ++ (match cur with Some a => [a] | None => [] end) end).
Proof.
  intros Hs (pre & rest & l & cur & Heq & Hi & Hin & Hp & Hv & Hrep & Hrun).
  unfold tag_step. rewrite Hi, Hin, Hp, Hv. destruct rest as [|c rest].
  { rewrite app_nil_r in Heq. subst pre. rewrite decide_False by lia. simpl. exists l, cur.
    split; [done|]. split; [done|]. split; [done|]. by destruct cur. }
  assert (zlen s = zlen pre + 1 + zlen rest) as Hz by (rewrite Heq; zlia). pose proof (zlen_nonneg rest).
  assert (s = (pre ++ [c]) ++ rest) as Heq' by by rewrite <-app_assoc.
  assert (zlen pre + 1 = zlen (pre ++ [c])) as Hi1 by zlia.
  rewrite decide_True by lia. destruct cur as [[t v]|].
  - rewrite (bload_bs s _ _ c), bind_Ok by (first [zlia | rewrite Heq; apply list_lookup_middle; zlia]).
    cbn [fst fmap option_fmap option_map]. simpl in Hrun.
    destruct (decide (c = x3b)) as [->|Hc].
    + destruct (param_end l t v _ Hrep) as (st' & -> & Hrep'). rewrite bind_Ok. simpl. split; [|lia].
      exists (pre ++ [x3b]), rest, (l ++ [(t, v)]), None. rewrite Hrun, <-!app_assoc. by split_and!.
    + unfold is_blank in Hrun. destruct (decide (c = TAB ∨ c = SP)) as [Hb|Hb].
      * rewrite bool_decide_true in Hrun by done. simpl. split; [|lia].
        exists (pre ++ [c]), rest, l, (Some (t, v)). by split_and!.
      * rewrite bool_decide_false in Hrun by done.
        destruct (param_add l t v c _ Hrep) as (st' & n & Hadd & Hn & Hrep').
        assert (Hinv : tags_inv s (Tagging st' (zlen pre + 1) true n (Some t))).
        { exists (pre ++ [c]), rest, l, (Some (t, v ++ [c])). by split_and!. }
        case_decide.
        -- apply bind_Ok_inv in Hadd as (st1 & -> & [= -> ->]). rewrite bind_Ok. simpl.
           split; [done|lia].
        -- injection Hadd as <- <-. simpl. split; [done|lia].
  - rewrite Heq at 1. rewrite bs_app, <-app_assoc, ptr_add_app, bind_Ok by by rewrite zlen_bs.
    rewrite find_tag_ok, bind_Ok. cbn [tag_run] in Hrun.
    destruct (find_name names (c :: rest)) as [[t n]|] eqn:Ef.
    + destruct (find_name_prefix _ _ _ _ Ef) as (k & Hk & -> & [rest' Hpre]).
      destruct (proj1 (Forall_forall _ _) names_ok _ Hk) as [_ Hkne]. simpl in Hkne.
      destruct k as [|d k]; [done|]. injection Hpre as <- ->.
      simpl. split; [|zlia]. exists (pre ++ c :: k), rest', l, (Some (t, [])).
      assert (fits_in [] = []) as Hnil by (unfold fits_in; apply take_nil).
      split_and!; simpl; try done.
      * by rewrite Heq, <-app_assoc.
      * zlia.
      * rewrite Hnil. done.
      * intros t'. destruct (Hrep t') as [? Ht']. split; [done|]. case_decide; [|done].
        rewrite Hnil. by exists (get t' (tg_struct r)).
      * rewrite Hrun, tag_run_skip. simpl. rewrite Nat.sub_0_r. by rewrite drop_app_length.
    + simpl. split; [|lia]. exists (pre ++ [c]), rest, l, None. by split_and!.
Qed.

Lemma parse_tags_ok txt s n :
  nonul s → str_at txt s n →
  ∃ st, parse_tags get set names max st0 txt = Ok st ∧ tags_rep (tag_list names s) None st.
Proof.
  intros Hs (post & -> & _). unfold parse_tags. rewrite strlen_bs, bind_Ok by done.
  destruct (wp_inv _ _ (wp_cloop (tag_step get set names max (bs s ++ Some NUL :: post) (zlen s))
    (tags_inv s) (λ r, Z.to_nat (zlen s - tg_i r)) _ (Datatypes.S (Z.to_nat (zlen s)))
    (Tagging st0 0 false 0 None) (λ r Hr, tag_step_ok s post r Hs Hr)
    ltac:(exists [], s, [], None; by split_and!) ltac:(simpl; lia)))
    as (r & -> & l & cur & Hp & Hv & Hrep & Hl).
  rewrite bind_Ok, Hp, Hv, Hl. destruct cur as [[t v]|]; simpl.
  - apply param_end. done.
  - exists (tg_struct r). by rewrite app_nil_r.
Qed.
End tags_ok.

(** ** Well-formed tag lists *)

Lemma prefix_no_byte (k s t : list byte) c : c ∉ k → k `prefix_of` s ++ c :: t → k `prefix_of` s.
Proof.
  revert k. induction s as [|d s IH]; intros [|e k] Hc H; try apply prefix_nil.
  - apply prefix_cons_inv_1 in H as ->. exfalso. apply Hc. by left.
  - pose proof (prefix_cons_inv_1 _ _ _ _ H) as ->. apply prefix_cons_inv_2 in H.
    apply prefix_cons, IH; [|done]. intros ?. apply Hc. by right.
Qed.

Section written.
Context {T : Type} `{EqDecision T} (names : list (list byte * T)).
Context (names_ok : Forall (λ kt, nonul kt.1 ∧ kt.1 ≠ []) names)
  (names_semi : Forall (λ kt, x3b ∉ kt.1) names).

(** One parameter of a tag list as it is written: a known one with its name
    and value, or any other text in which no name occurs. *)
Inductive param :=
  | Known (k : list byte) (t : T) (v : list byte)
  | Other (u : list byte).

Definition quiet (u : list byte) : Prop :=
  ∀ i, Forall (λ kt, ¬ kt.1 `prefix_of` drop i u) names.

Definition param_ok (p : param) : Prop :=
  match p with
  | Known k t v => (∀ s, find_name names (k ++ s) = Some (t, length k)) ∧ k ≠ [] ∧ x3b ∉ v
  | Other u => quiet u
  end.

Definition write_param (p : param) : list byte :=
  match p with Known k _ v => k ++ v | Other u => u end ++ [x3b].
Definition write_params (l : list param) : list byte := concat (write_param <$> l).

Definition param_value (p : param) : option (T * list byte) :=
  match p with Known _ t v => Some (t, filter (λ c, is_blank c = false) v) | Other _ => None end.

Lemma find_name_none s : Forall (λ kt, ¬ kt.1 `prefix_of` s) names → find_name names s = None.
Proof.
  clear. intros H. induction H as [|[k t] l Hk _ IH]; [done|]. simpl in *. by rewrite decide_False.
Qed.

Lemma tag_run_value t w v rest :
  x3b ∉ v →
  tag_run names (Some (t, w)) 0 (v ++ x3b :: rest) =
    (t, w ++ filter (λ c, is_blank c = false) v) :: tag_run names None 0 rest.
Proof.
  revert w. induction v as [|c v IH]; intros w Hv.
  - simpl. by rewrite app_nil_r.
  - apply not_elem_of_cons in Hv as [Hc Hv]. simpl. rewrite decide_False by congruence.
    rewrite filter_cons. destruct (is_blank c).
    + rewrite decide_False by done. by apply IH.
    + rewrite decide_True, IH by done. by rewrite <-app_assoc.
Qed.

Lemma tag_run_quiet u rest :
  quiet u → tag_run names None 0 (u ++ x3b :: rest) = tag_run names None 0 rest.
Proof.
  assert (Hstep : ∀ c s s', Forall (λ kt, ¬ kt.1 `prefix_of` s) names →
    c :: s' = s ++ x3b :: rest → tag_run names None 0 (c :: s') = tag_run names None 0 s').
  { intros c s s' Hq E. cbn [tag_run]. rewrite E, find_name_none; [done|].
    rewrite Forall_forall in Hq, names_semi |- *. intros kt Hkt Hp. apply (Hq kt Hkt).
    by apply (prefix_no_byte _ _ rest x3b (names_semi kt Hkt)). }
  induction u as [|c u IH]; intros Hq.
  - apply (Hstep x3b []); [apply (Hq O) | done].
  - rewrite <-app_comm_cons. rewrite (Hstep c (c :: u)); [|apply (Hq O) | done].
    apply IH. intros i. apply (Hq (S i)).
Qed.

(** Parsing what was written. *)
Lemma tag_list_written l :
  Forall param_ok l → tag_list names (write_params l) = omap param_value l.
Proof.
  unfold tag_list, write_params. induction 1 as [|p l Hp _ IH]; [done|].
  rewrite fmap_cons. simpl concat. unfold write_param at 1. rewrite <-app_assoc.
  destruct p as [k t v|u]; simpl in Hp |- *.
  - destruct Hp as (Hk & Hne & Hv). destruct k as [|c k]; [done|].
    rewrite <-app_assoc. cbn [app tag_run].
    pose proof (Hk (v ++ [x3b] ++ concat (write_param <$> l))) as Hf. cbn [app] in Hf. rewrite Hf.
    simpl. rewrite Nat.sub_0_r, tag_run_skip, drop_app_length. cbn [app].
    rewrite tag_run_value by done. cbn [app]. by rewrite IH.
  - rewrite tag_run_quiet by done. exact IH.
Qed.
End written.

Arguments Known {_} _ _ _.
Arguments Other {_} _.

(** ** The parsed structs *)

Lemma tag_run_nonul {T} `{EqDecision T} (names : list (list byte * T)) cur n s :
  nonul s → (match cur with Some (_, v) => nonul v | None => True end) →
  Forall (λ a, nonul a.2) (tag_run names cur n s).
Proof.
  revert cur n. induction s as [|c s IH]; intros cur n Hs Hc; simpl.
  { destruct cur as [[t v]|]; [by constructor | constructor]. }
  apply nonul_cons in Hs as [Hcn Hs]. destruct n; [|by apply IH].
  destruct cur as [[t v]|].
  - case_decide; [constructor; [done | by apply IH]|].
    destruct (is_blank c); [by apply IH|]. apply IH; [done|]. apply nonul_app. split; [done|].
    apply nonul_cons. split; [done | apply nonul_nil].
  - destruct (find_name names (c :: s)) as [[t n]|]; apply IH; (done || apply nonul_nil || exact I).
Qed.

Lemma last_value_elem {T} `{EqDecision T} (t : T) l v : last_value t l = Some v → (t, v) ∈ l.
Proof.
  unfold last_value. intros H%last_Some_elem_of. apply list_elem_of_fmap in H as ([t' v'] & -> & H).
  apply list_elem_of_filter in H as [Ht H]. simpl in *. by subst.
Qed.

Definition holds_value (max : Z) (b : buf) (v : option (list byte)) : Prop :=
  match v with
  | Some v => cstring b = Ok (take (Z.to_nat (max - 1)) v)
  | None => b = malloc max
  end.

Lemma nonul_take n s : nonul s → nonul (take n s).
Proof. apply Forall_take. Qed.

Lemma tags_rep_value {T S} `{EqDecision T} (get : T → S → buf) max st0 (st : S) (names : list (list byte * T)) s t :
  nonul s → get t st0 = malloc max → tags_rep get max st0 (tag_list names s) None st →
  holds_value max (get t st) (last_value t (tag_list names s)).
Proof.
  intros Hs H0 H. destruct (H t) as [_ Ht]. unfold tag_holds in Ht. unfold holds_value.
  destruct (last_value t (tag_list names s)) as [v|] eqn:E; [|by rewrite Ht].
  destruct Ht as [junk ->]. apply cstring_bs, nonul_take. apply last_value_elem in E.
  assert (Forall (λ a, nonul a.2) (tag_list names s)) as Hall by (by apply tag_run_nonul).
  rewrite Forall_forall in Hall. exact (Hall _ E).
Qed.

Lemma tag_names_ok :
  Forall (λ kt, nonul kt.1 ∧ kt.1 ≠ []) tag_names ∧ Forall (λ kt, x3b ∉ kt.1) tag_names.
Proof. by_compute. Qed.
Lemma record_tag_names_ok :
  Forall (λ kt, nonul kt.1 ∧ kt.1 ≠ []) record_tag_names ∧ Forall (λ kt, x3b ∉ kt.1) record_tag_names.
Proof. by_compute. Qed.

Lemma dh_get_set t x h : dh_get t (dh_set t x h) = x.
Proof. by destruct t, h. Qed.
Lemma dh_get_set_ne t t' x h : t ≠ t' → dh_get t (dh_set t' x h) = dh_get t h.
Proof. by destruct t, t', h. Qed.
Lemma dr_get_set t x r : dr_get t (dr_set t x r) = x.
Proof. by destruct t. Qed.
Lemma dr_get_set_ne t t' x r : t ≠ t' → dr_get t (dr_set t' x r) = dr_get t r.
Proof. by destruct t, t'. Qed.

(** What the parsers store, for any text. *)
Lemma dkim_parse_header_ok sig s n :
  nonul s → str_at sig s n →
  ∃ dh, dkim_parse_header sig = Ok dh ∧
    ∀ t, holds_value DKIM_VALUE_MAX_LEN (dh_get t dh) (last_value t (tag_list tag_names s)).
Proof.
  intros Hs Hsig.
  destruct (parse_tags_ok dh_get dh_set tag_names DKIM_VALUE_MAX_LEN dh_get_set dh_get_set_ne
    (proj1 tag_names_ok) eq_refl dkim_header_malloc ltac:(by intros []) sig s n Hs Hsig) as (dh & H & Hrep).
  exists dh. split; [exact H|]. intros t. eapply (tags_rep_value dh_get); [done | | exact Hrep]. by destruct t.
Qed.

Lemma dkim_parse_dns_ok txt s n :
  nonul s → str_at txt s n →
  ∃ dr, dkim_parse_dns txt = Ok dr ∧
    ∀ t, holds_value DKIM_RECORD_MAX_LEN (dr_get t dr) (last_value t (tag_list record_tag_names s)).
Proof.
  intros Hs Htxt.
  destruct (parse_tags_ok dr_get dr_set record_tag_names DKIM_RECORD_MAX_LEN dr_get_set dr_get_set_ne
    (proj1 record_tag_names_ok) eq_refl dkim_record_malloc ltac:(by intros []) txt s n Hs Htxt) as (dr & H & Hrep).
  exists dr. split; [exact H|]. intros t. eapply (tags_rep_value dr_get); [done | | exact Hrep]. by destruct t.
Qed.

Lemma strlen_malloc n : 0 < n → strlen (malloc n) = Err Uninit.
Proof.
  intros Hn. unfold strlen, malloc. destruct (Z.to_nat n) as [|k] eqn:E; [lia|]. done.
Qed.

Lemma strncmp_malloc n k m : 0 < n → (0 < m)%nat → strncmp_eq (malloc n) k m = Err Uninit.
Proof.
  intros Hn Hm. unfold malloc. destruct (Z.to_nat n) as [|j] eqn:E; [lia|]. destruct m; [lia|]. done.
Qed.

(** ** The signed headers *)

(** The names of [h=]: split at colons, the last byte always belonging to the
    last name. *)
Fixpoint h_names (cur : list byte) (s : list byte) : list (list byte) :=
  match s with
  | [] => []
  | c :: s' =>
      match s' with
      | [] => [cur ++ [c]]
      | _ => if decide (c = x3a) then cur :: h_names [] s' else h_names (cur ++ [c]) s'
      end
  end.

(** A name selects all headers whose lower-case name starts with it. *)
Definition key_matches (name : list byte) (kv : stringpair * (list byte * list byte)) : Prop :=
  name `prefix_of` relaxed_key kv.2.1.
#[global] Instance key_matches_dec name kv : Decision (key_matches name kv).
Proof. unfold key_matches. apply _. Defined.

(** The selected headers, name by name, each time in the order of the mail. *)
Definition selection (hs : list (stringpair * (list byte * list byte))) (names : list (list byte))
  : list (stringpair * (list byte * list byte)) :=
  concat ((λ name, filter (key_matches name) hs) <$> names).

Definition inc_of (l : list stringpair) : included :=
  Included ((Some <$> l) ++ replicate (50 - length l) None) (zlen l).

Definition inc_result (l : list stringpair) : res included :=
  if decide (length l <= 50)%nat then Ok (inc_of l) else Err OutOfBounds.

Lemma inc_add_ok l h : (length l <= 50)%nat → inc_add h (inc_of l) = inc_result (l ++ [h]).
Proof.
  intros Hl. unfold inc_add, inc_result, inc_of. cbn [inc_headers inc_headerc].
  rewrite length_app. simpl. destruct (50 - length l)%nat as [|k] eqn:E.
  - rewrite app_nil_r. unfold astore. rewrite decide_False by zlia. by rewrite decide_False by lia.
  - cbn [replicate]. rewrite astore_mid, bind_Ok by zlia. rewrite decide_True by lia.
    f_equal. rewrite fmap_app, <-app_assoc. cbn [app fmap list_fmap].
    replace (50 - (length l + 1))%nat with k by lia. f_equal. zlia.
Qed.

Lemma strncmp_eq_S c d (a b : buf) n :
  strncmp_eq (Some c :: a) (Some d :: b) (S n) =
    if decide (c = d) then if decide (c = NUL) then Ok true else strncmp_eq a b n else Ok false.
Proof. done. Qed.

Lemma strncmp_string low post name post' :
  nonul low → nonul name →
  strncmp_eq (bs low ++ Some NUL :: post) (bs name ++ Some NUL :: post') (length name) =
    Ok (bool_decide (name `prefix_of` low)).
Proof.
  revert low. induction name as [|d name IH]; intros low Hlow Hname.
  { rewrite bool_decide_eq_true_2 by apply prefix_nil. done. }
  apply nonul_cons in Hname as [Hd Hname]. destruct low as [|c low]; rewrite !bs_cons, ?bs_nil; cbn [length app].
  - rewrite strncmp_eq_S, decide_False by congruence.
    rewrite bool_decide_eq_false_2; [done|]. by intros ?%prefix_nil_inv.
  - apply nonul_cons in Hlow as [Hc Hlow].
    rewrite strncmp_eq_S. destruct (decide (c = d)) as [<-|Hcd].
    + rewrite decide_False, IH by done. f_equal. apply bool_decide_ext.
      split; [apply prefix_cons | apply prefix_cons_inv_2].
    + rewrite bool_decide_eq_false_2; [done|]. intros ?%prefix_cons_inv_1. congruence.
Qed.

(** One pass over the mail's headers. *)
Lemma include_all_ok hs kvs name post l :
  Forall2 pair_at hs kvs → nonul name → (length l <= 50)%nat →
  include_all hs (bs name ++ Some NUL :: post) (zlen name) (inc_of l) =
    inc_result (l ++ (filter (key_matches name) (zip hs kvs)).*1).
Proof.
  intros H Hname. revert l. induction H as [|h [k v] hs kvs Hh _ IH]; intros l Hl.
  { cbn. rewrite app_nil_r. unfold inc_result. by rewrite decide_True. }
  destruct Hh as (Hk & _ & (n & Hkb) & _). cbn [fst] in Hk, Hkb. cbn [include_all].
  rewrite (str_to_lower_ok _ _ _ Hk Hkb), bind_Ok, zlen_to_nat.
  unfold cstr. rewrite strncmp_string by (done || by apply lower_nonul).
  rewrite bind_Ok. cbn [zip zip_with].
  destruct (decide (name `prefix_of` relaxed_key k)) as [Hp|Hp].
  - rewrite (bool_decide_eq_true_2 _ Hp), inc_add_ok, filter_cons_True, fmap_cons by done.
    destruct (decide (length (l ++ [h]) <= 50)%nat) as [Hfit|Hfit].
    + unfold inc_result at 1. rewrite decide_True, bind_Ok by done.
      rewrite IH by done. by rewrite <-app_assoc.
    + unfold inc_result. rewrite decide_False by done. rewrite decide_False; [done|].
      rewrite !length_app in *. simpl in *. lia.
  - rewrite (bool_decide_eq_false_2 _ Hp), bind_Ok, filter_cons_False by done. by apply IH.
Qed.

(** Cutting a name out of [h=]. *)
Lemma cut_name pre name rest post :
  ∃ junk, (b0 ← memcpy (malloc (zlen name + 1)) 0 (bs (pre ++ name ++ rest) ++ post) (zlen pre) (zlen name);
           bstore b0 (zlen name) NUL) = Ok (bs name ++ Some NUL :: junk).
Proof.
  unfold memcpy. rewrite !bs_app, <-!app_assoc, bread_mid, bind_Ok by zlia.
  rewrite bwrite_start, bind_Ok by zlia. rewrite bstore_end by zlia. by eexists.
Qed.

Lemma inc_result_stop l k : ¬ (length l <= 50)%nat → inc_result (l ++ k) = Err OutOfBounds.
Proof. intros Hl. unfold inc_result. rewrite decide_False; [done|]. rewrite length_app. lia. Qed.

Section include_loop.
Context (hs : list stringpair) (kvs : list (list byte * list byte)) (s : list byte) (post : buf).
Context (H : Forall2 pair_at hs kvs) (Hs : nonul s).

Abbreviation step := (include_step hs (bs s ++ post) (zlen s)).
Abbreviation chosen name := ((filter (key_matches name) (zip hs kvs)).*1).

Lemma last_index pre cur c rest :
  s = pre ++ cur ++ c :: rest → (zlen (pre ++ cur) = zlen s - 1 ↔ rest = []).
Proof.
  intros ->. destruct rest; [split; [done|intros _; zlia]|]. split; [|done].
  intros E. exfalso. zlia.
Qed.

Lemma bload_cur pre cur c rest :
  s = pre ++ cur ++ c :: rest → bload (bs s ++ post) (zlen (pre ++ cur)) = Ok c.
Proof. intros ->. apply bload_bs; [zlia|]. rewrite app_assoc. apply list_lookup_middle. zlia. Qed.

Lemma include_step_name pre cur c rest name rest' l :
  s = pre ++ cur ++ c :: rest → c = x3a ∨ rest = [] →
  name = (if decide (rest = []) then cur ++ [c] else cur) → s = pre ++ name ++ rest' →
  (length l <= 50)%nat →
  step (zlen (pre ++ cur), zlen pre, inc_of l) =
    (inc' ← inc_result (l ++ chosen name);
     Ok (Next (zlen (pre ++ cur ++ [c]), zlen (pre ++ cur ++ [c]), inc'))).
Proof.
  intros Heq Hc Hnm Hn Hl. pose proof (last_index _ _ _ _ Heq) as Hlast.
  unfold include_step. rewrite decide_True by (rewrite Heq; zlia).
  rewrite (bload_cur _ _ _ _ Heq), bind_Ok, decide_True by tauto.
  assert (zlen (pre ++ cur) - zlen pre + (if decide (zlen (pre ++ cur) = zlen s - 1) then 1 else 0)
    = zlen name) as ->.
  { rewrite Hnm. destruct (decide (rest = [])); [rewrite decide_True by tauto | rewrite decide_False by tauto]; zlia. }
  destruct (cut_name pre name rest' post) as (junk & Hcut). rewrite <-Hn in Hcut.
  apply bind_Ok_inv in Hcut as (b0 & -> & Hcut). rewrite bind_Ok, Hcut, bind_Ok.
  assert (nonul name) as Hname by (rewrite Hn in Hs; apply nonul_app in Hs as [_ Hs'];
    by apply nonul_app in Hs' as [? _]).
  rewrite (include_all_ok hs kvs) by done.
  by replace (zlen (pre ++ cur) + 1) with (zlen (pre ++ cur ++ [c])) by zlia.
Qed.

Lemma include_step_skip pre cur c rest l :
  s = pre ++ cur ++ c :: rest → c ≠ x3a → rest ≠ [] →
  step (zlen (pre ++ cur), zlen pre, inc_of l) = Ok (Next (zlen (pre ++ cur ++ [c]), zlen pre, inc_of l)).
Proof.
  intros Heq Hc Hr. pose proof (last_index _ _ _ _ Heq) as Hlast.
  unfold include_step. rewrite decide_True by (rewrite Heq; zlia).
  rewrite (bload_cur _ _ _ _ Heq), bind_Ok, decide_False by tauto.
  by replace (zlen (pre ++ cur) + 1) with (zlen (pre ++ cur ++ [c])) by zlia.
Qed.

Lemma include_loop rest pre cur l fuel :
  s = pre ++ cur ++ rest → (rest = [] → cur = []) → (length l <= 50)%nat → (length rest < fuel)%nat →
  (r ← cloop step fuel (zlen (pre ++ cur), zlen pre, inc_of l); Ok (snd r)) =
    inc_result (l ++ (selection (zip hs kvs) (h_names cur rest)).*1).
Proof.
  revert pre cur l fuel.
  induction rest as [|c rest IH]; intros pre cur l [|fuel] Heq Hcur Hl Hf; simpl in Hf; try lia.
  { rewrite (Hcur eq_refl), !app_nil_r in Heq. rewrite (Hcur eq_refl), app_nil_r. subst pre.
    rewrite (cloop_break _ _ _ (zlen s, zlen s, inc_of l))
      by (unfold include_step; by rewrite decide_False by lia).
    unfold selection. simpl. rewrite app_nil_r. unfold inc_result. by rewrite decide_True. }
  assert (Hgo : ∀ name rest' l', s = pre ++ name ++ rest' → c = x3a ∨ rest = [] →
    name = (if decide (rest = []) then cur ++ [c] else cur) → l' = l ++ chosen name →
    (r ← cloop step (S fuel) (zlen (pre ++ cur), zlen pre, inc_of l); Ok (snd r)) =
      inc_result (l' ++ (selection (zip hs kvs) (h_names [] rest)).*1)).
  { intros name rest' l' Hn Hc Hnm ->.
    pose proof (include_step_name _ _ _ _ _ _ _ Heq Hc Hnm Hn Hl) as Hstep.
    unfold inc_result at 1 in Hstep. destruct (decide (length (l ++ chosen name) <= 50)%nat) as [Hfit|Hfit].
    - rewrite (cloop_next _ _ _ _ Hstep).
      specialize (IH (pre ++ cur ++ [c]) [] (l ++ chosen name) fuel). rewrite app_nil_r in IH.
      apply IH; [by rewrite Heq, <-!app_assoc | done | done | lia].
    - rewrite (cloop_err _ _ _ _ Hstep). symmetry. by apply inc_result_stop. }
  cbn [h_names]. destruct rest as [|d rest'].
  - rewrite (Hgo (cur ++ [c]) [] _ ltac:(by rewrite app_nil_r) ltac:(tauto) eq_refl eq_refl).
    unfold selection. cbn [h_names fmap list_fmap concat]. by rewrite !app_nil_r.
  - destruct (decide (c = x3a)) as [Hcol|Hcol].
    + rewrite (Hgo cur (c :: d :: rest') _ Heq ltac:(by left) eq_refl eq_refl).
      unfold selection. cbn [fmap list_fmap concat]. by rewrite fmap_app, <-app_assoc.
    + rewrite (cloop_next _ _ _ _ (include_step_skip _ _ _ _ l Heq Hcol ltac:(done))).
      apply (IH pre (cur ++ [c])); [by rewrite Heq, <-!app_assoc | done | done | simpl in *; lia].
Qed.
End include_loop.

Lemma included_headers_ok hs kvs h s n :
  Forall2 pair_at hs kvs → nonul s → str_at h s n →
  included_headers hs h = inc_result (selection (zip hs kvs) (h_names [] s)).*1.
Proof.
  intros H Hs (post & -> & _). unfold included_headers. rewrite strlen_bs, bind_Ok by done.
  apply (include_loop hs kvs s (Some NUL :: post) H Hs s [] [] []); [done | done | simpl; lia | zlia].
Qed.

(** ** The text under the signature *)

Definition header_text (kv : list byte * list byte) : list byte := kv.1 ++ lit ":" ++ kv.2.

(** The lines, with line breaks between them. *)
Fixpoint text_lines (kvs : list (list byte * list byte)) : list byte :=
  match kvs with
  | [] => []
  | kv :: kvs' =>
      match kvs' with
      | [] => header_text kv
      | _ => header_text kv ++ crlf_bytes ++ text_lines kvs'
      end
  end.

Lemma text_lines_cons kv kvs :
  kvs ≠ [] → text_lines (kv :: kvs) = header_text kv ++ crlf_bytes ++ text_lines kvs.
Proof. by destruct kvs. Qed.

Lemma text_lines_snoc kvs k v w :
  text_lines (kvs ++ [(k, v ++ w)]) = text_lines (kvs ++ [(k, v)]) ++ w.
Proof.
  induction kvs as [|kv kvs IH].
  - simpl. unfold header_text. simpl. by rewrite <-!app_assoc.
  - cbn [app]. rewrite !text_lines_cons by (by destruct kvs). by rewrite IH, <-!app_assoc.
Qed.

Lemma text_lines_pos kvs : kvs ≠ [] → 1 <= zlen (text_lines kvs).
Proof.
  intros H. destruct kvs as [|kv [|kv' kvs]]; [done|..]; simpl; unfold header_text;
    change (lit ":") with [x3a]; zlia.
Qed.

(** One line; the line break is copied with its terminator. *)
Lemma header_line_ok last h k v out junk :
  pair_at h (k, v) →
  zlen (header_text (k, v)) + (if last : bool then 0 else 3) <= zlen junk →
  ∃ junk', header_line last h (bs out ++ junk, zlen out) =
      Ok (bs (out ++ header_text (k, v) ++ (if last then [] else crlf_bytes)) ++ junk',
          zlen (out ++ header_text (k, v) ++ (if last then [] else crlf_bytes))) ∧
    zlen (out ++ header_text (k, v) ++ (if last then [] else crlf_bytes)) + zlen junk' = zlen out + zlen junk.
Proof.
  intros (Hk & Hv & (n & Hkb) & (n' & Hvb)) Hroom. cbn [fst snd] in *. unfold header_text in *. cbn [fst snd] in *.
  change (lit ":") with [x3a] in *. rewrite !zlen_app in Hroom. change (zlen [x3a]) with 1 in Hroom.
  assert (zlen k + 1 + zlen v <= zlen junk) as Hfit by (destruct last; lia).
  unfold header_line. rewrite (str_at_strlen _ _ _ Hkb Hk), bind_Ok, (str_at_strlen _ _ _ Hvb Hv), bind_Ok.
  destruct Hkb as (pk & -> & _), Hvb as (pv & -> & _). unfold memcpy.
  rewrite (bread_bs k (Some NUL :: pk)), bind_Ok by done. rewrite bwrite_end, bind_Ok by zlia.
  change (cstr (lit ":")) with (bs [x3a] ++ [Some NUL]).
  rewrite (bread_bs [x3a] [Some NUL] 1), bind_Ok by done.
  rewrite (app_assoc (bs out)), <-bs_app, bwrite_end, bind_Ok by zlia.
  rewrite (bread_bs v (Some NUL :: pv)), bind_Ok by done.
  rewrite (app_assoc (bs (out ++ k))), <-bs_app, bwrite_end, bind_Ok by zlia.
  set (j := drop _ (drop _ (drop _ junk))).
  assert (zlen j = zlen junk - zlen k - 1 - zlen v) as Hj by (subst j; zlia).
  destruct last.
  - exists j. split; [|zlia]. rewrite (app_assoc (bs _) (bs v)), <-bs_app, app_nil_r, <-!app_assoc.
    do 2 f_equal. zlia.
  - rewrite (bread_all (cstr crlf_bytes) 3), bind_Ok by done.
    rewrite (app_assoc (bs _) (bs v)), <-bs_app, bwrite_end, bind_Ok by zlia.
    exists (Some NUL :: drop (length (cstr crlf_bytes)) j). unfold cstr at 1.
    rewrite (app_assoc (bs _)), (app_assoc (bs _) (bs crlf_bytes)), <-bs_app, <-!app_assoc. cbn [app].
    split; [do 2 f_equal; zlia | zlia].
Qed.

Lemma header_lines_ok hs kvs out junk :
  Forall2 pair_at hs kvs → zlen (text_lines kvs) <= zlen junk →
  ∃ junk', header_lines hs (bs out ++ junk, zlen out) =
      Ok (bs (out ++ text_lines kvs) ++ junk', zlen (out ++ text_lines kvs)) ∧
    zlen (out ++ text_lines kvs) + zlen junk' = zlen out + zlen junk.
Proof.
  intros H. revert out junk. induction H as [|h [k v] hs kvs Hh H IH]; intros out junk Hroom.
  { exists junk. simpl. by rewrite app_nil_r. }
  cbn [header_lines]. destruct H as [|h' kv' hs kvs Hh' H].
  - rewrite bool_decide_eq_true_2 by done.
    destruct (header_line_ok true h k v out junk Hh) as (j & -> & Hj); [simpl in Hroom; lia|].
    rewrite bind_Ok. simpl. rewrite app_nil_r in *. by exists j.
  - rewrite bool_decide_eq_false_2 by done. rewrite text_lines_cons, !zlen_app, zlen_crlf_bytes in Hroom by done.
    pose proof (text_lines_pos (kv' :: kvs) ltac:(done)) as Hpos.
    destruct (header_line_ok false h k v out junk Hh) as (j & -> & Hj); [lia|]. rewrite bind_Ok.
    rewrite !zlen_app, zlen_crlf_bytes in Hj.
    destruct (IH (out ++ header_text (k, v) ++ crlf_bytes) j) as (j' & -> & Hj'); [lia|].
    exists j'. rewrite (text_lines_cons (k, v)) by done. rewrite <-!app_assoc in *. split; [done|].
    rewrite !zlen_app, zlen_crlf_bytes in *. lia.
Qed.

(** ** Cutting the signature off *)

(** No "b=" in the text. *)
Fixpoint no_b_eq (w : list byte) : bool :=
  match w with
  | c :: w' =>
      match w' with
      | d :: _ => negb (bool_decide (c = x62 ∧ d = x3d)) && no_b_eq w'
      | [] => true
      end
  | [] => true
  end.

Lemma no_b_eq_lookup w j : no_b_eq w = true → w !! j = Some x62 → w !! S j = Some x3d → False.
Proof.
  revert j. induction w as [|c w IH]; intros j Hw Hj Hj'; [done|].
  destruct w as [|d w]; [by destruct j|].
  change (negb (bool_decide (c = x62 ∧ d = x3d)) && no_b_eq (d :: w) = true) in Hw.
  apply andb_prop in Hw as [Hc Hw]. destruct j as [|j]; [|by apply (IH j)].
  injection Hj as ->. injection Hj' as ->. by rewrite bool_decide_eq_true_2 in Hc.
Qed.

Definition b_eq : list byte := lit "b=".

Lemma cut_loop p w junk n m fuel :
  p ≠ [] → no_b_eq w = true → (m <= length w)%nat → (0 < length w)%nat → (m < fuel)%nat →
  ∃ post, cloop cut_step fuel (bs (p ++ b_eq ++ w) ++ junk, n, zlen p + 1 + Z.of_nat m) =
    Ok (bs (p ++ b_eq) ++ post, zlen (p ++ b_eq), zlen p + 1).
Proof.
  intros Hp Hw Hm Hlen Hf. revert fuel Hf Hm.
  assert (1 <= zlen p) as Hp1 by (destruct p; [done|zlia]).
  assert (Hin : ∀ i c, 0 <= i → (b_eq ++ w) !! Z.to_nat i = Some c →
    bload (bs (p ++ b_eq ++ w) ++ junk) (zlen p + i) = Ok c).
  { intros i c Hi Hc. apply bload_bs; [lia|]. rewrite lookup_app_r by zlia. rewrite <-Hc. f_equal. zlia. }
  induction m as [|m IH]; intros [|fuel] Hf Hm; try lia.
  - rewrite Z.add_0_r. destruct w as [|c w]; [simpl in Hlen; lia|].
    assert (bstore (bs (p ++ b_eq ++ c :: w) ++ junk) (zlen p + 1 + 1) NUL =
      Ok (bs (p ++ b_eq) ++ Some NUL :: bs w ++ junk)) as Hst.
    { rewrite app_assoc, bs_app, bs_cons, <-app_assoc. cbn [app].
      apply bstore_mid. rewrite zlen_bs, zlen_app. change (zlen b_eq) with 2. lia. }
    eexists. erewrite cloop_break; [|unfold cut_step; rewrite decide_True by lia;
      rewrite (Hin 1 x3d), bind_Ok by done; rewrite decide_True by done;
      replace (zlen p + 1 - 1) with (zlen p + 0) by lia; rewrite (Hin 0 x62), bind_Ok by done;
      rewrite bind_Ok; change (bool_decide (x62 = x62)) with true; cbn iota; rewrite Hst, bind_Ok; reflexivity].
    rewrite zlen_app. change (zlen b_eq) with 2. do 2 f_equal. f_equal. lia.
  - destruct (lookup_lt_is_Some_2 w m ltac:(lia)) as [c Hc].
    assert (bload (bs (p ++ b_eq ++ w) ++ junk) (zlen p + 1 + Z.of_nat (S m)) = Ok c) as Hl.
    { rewrite <-Z.add_assoc. apply Hin; [lia|]. replace (Z.to_nat _) with (2 + m)%nat by lia. exact Hc. }
    assert (∃ d, bload (bs (p ++ b_eq ++ w) ++ junk) (zlen p + 1 + Z.of_nat (S m) - 1) = Ok d ∧
      (c = x3d → d ≠ x62)) as (d & Hd & Hcd).
    { destruct m as [|m].
      - exists x3d. split; [|done]. rewrite <-(Hin 1 x3d) by done. f_equal. lia.
      - destruct (lookup_lt_is_Some_2 w m ltac:(lia)) as [d Hd]. exists d. split.
        + replace (zlen p + 1 + Z.of_nat (S (S m)) - 1) with (zlen p + (2 + Z.of_nat m)) by lia.
          apply Hin; [lia|]. replace (Z.to_nat _) with (2 + m)%nat by lia. exact Hd.
        + intros -> ->. by apply (no_b_eq_lookup w m). }
    erewrite cloop_next; [|unfold cut_step; rewrite decide_True by lia; rewrite Hl, bind_Ok;
      destruct (decide (c = x3d)) as [Hc'|Hc'];
      [rewrite Hd, bind_Ok, (bool_decide_eq_false_2 (d = x62)) by (by apply Hcd)|];
      rewrite bind_Ok; reflexivity].
    replace (zlen p + 1 + Z.of_nat (S m) - 1) with (zlen p + 1 + Z.of_nat m) by lia. apply IH; lia.
Qed.

Lemma mapM_bs s : mapM (λ o : option byte, match o with Some c => Ok c | None => Err Uninit end) (bs s) = Ok s.
Proof. induction s as [|c s IH]; [done|]. rewrite bs_cons. simpl. by rewrite IH. Qed.

(** The text that is hashed: the canonical headers, the value of "b=" in the
    last of them deleted. *)
Lemma signed_text_ok dh inc kvs kvs0 k q w b :
  Forall2 pair_at inc kvs → relaxed_header <$> kvs = kvs0 ++ [(k, q ++ b_eq ++ w)] →
  no_b_eq w = true → cstring (dh_b dh) = Ok b → 1 <= zlen b <= zlen w →
  zlen (text_lines (relaxed_header <$> kvs)) <= 1500 * zlen inc →
  signed_text dh inc = Ok (text_lines (kvs0 ++ [(k, q ++ b_eq)])).
Proof.
  intros H Hkvs Hw Hb Hlen Hroom. unfold signed_text.
  destruct (relaxed_header_canon_ok inc kvs H) as (hs & -> & Hhs). rewrite bind_Ok.
  destruct (header_lines_ok hs (relaxed_header <$> kvs) [] (malloc (1500 * zlen inc)) Hhs) as (junk & Hl & _);
    [zlia|]. change (bs [] ++ malloc (1500 * zlen inc)) with (malloc (1500 * zlen inc)) in Hl.
  change (zlen []) with 0 in Hl. rewrite Hl, bind_Ok. unfold strlen. rewrite Hb, !bind_Ok. cbn [app].
  set (p := text_lines (kvs0 ++ [(k, q)])).
  assert (text_lines (relaxed_header <$> kvs) = p ++ b_eq ++ w) as ->
    by by rewrite Hkvs, text_lines_snoc.
  assert (text_lines (kvs0 ++ [(k, q ++ b_eq)]) = p ++ b_eq) as -> by apply text_lines_snoc.
  assert (p ≠ []) as Hp.
  { intros E. pose proof (text_lines_pos (kvs0 ++ [(k, q)]) ltac:(by destruct kvs0)) as H1.
    fold p in H1. rewrite E in H1. change (zlen []) with 0 in H1. lia. }
  pose proof (zlen_nonneg p) as Hp0.
  destruct (cut_loop p w junk (zlen (p ++ b_eq ++ w)) (Z.to_nat (1 + zlen w - zlen b))
    (S (Z.to_nat (zlen (p ++ b_eq ++ w)))) Hp Hw) as (post & Hcut);
    [zlia | zlia | rewrite !zlen_app; change (zlen b_eq) with 2; zlia |].
  replace (zlen (p ++ b_eq ++ w) - zlen b) with (zlen p + 1 + Z.of_nat (Z.to_nat (1 + zlen w - zlen b)))
    by (rewrite !zlen_app; change (zlen b_eq) with 2; lia).
  rewrite Hcut, bind_Ok. rewrite bread_bs, bind_Ok by done. apply mapM_bs.
Qed.

(** ** Validation *)

Lemma cstring_shape b s : cstring b = Ok s → ∃ post, b = bs s ++ Some NUL :: post.
Proof.
  revert s. induction b as [|[c|] b IH]; intros s; [done| |done].
  change (cstring (Some c :: b)) with (if decide (c = NUL) then Ok [] else t ← cstring b; Ok (c :: t)).
  case_decide as Hc; [intros [= <-]; subst c; by exists b|].
  intros (t & Ht & [= <-])%bind_Ok_inv. destruct (IH t Ht) as (post & ->). by exists post.
Qed.

Lemma strncmp_string_l name post low post' :
  nonul low → nonul name →
  strncmp_eq (bs name ++ Some NUL :: post') (bs low ++ Some NUL :: post) (length name) =
    Ok (bool_decide (name `prefix_of` low)).
Proof.
  revert low. induction name as [|d name IH]; intros low Hlow Hname.
  { rewrite bool_decide_eq_true_2 by apply prefix_nil. done. }
  apply nonul_cons in Hname as [Hd Hname].
  destruct low as [|c low]; rewrite !bs_cons, ?bs_nil; cbn [length app].
  - rewrite strncmp_eq_S, decide_False by congruence.
    rewrite bool_decide_eq_false_2; [done|]. by intros ?%prefix_nil_inv.
  - apply nonul_cons in Hlow as [Hc Hlow]. rewrite strncmp_eq_S. destruct (decide (d = c)) as [<-|Hcd].
    + rewrite decide_False, IH by done. f_equal. apply bool_decide_ext.
      split; [apply prefix_cons | apply prefix_cons_inv_2].
    + rewrite bool_decide_eq_false_2; [done|]. intros ?%prefix_cons_inv_1. congruence.
Qed.

Definition is_signature (kv : list byte * list byte) : Prop := kv.1 = sig_name.
#[global] Instance is_signature_dec kv : Decision (is_signature kv).
Proof. unfold is_signature. apply _. Defined.

Lemma dkim_index_ok hs kvs j :
  Forall2 pair_at hs kvs →
  dkim_index hs j = Ok (match list_find is_signature kvs with Some (i, _) => j + Z.of_nat i | None => -1 end).
Proof.
  intros H. revert j. induction H as [|h [k v] hs kvs Hh _ IH]; intros j; [done|].
  destruct Hh as (Hk & _ & (n & post & Hkb & _) & _). cbn [fst] in Hk, Hkb.
  change (list_find is_signature ((k, v) :: kvs)) with
    (if decide (is_signature (k, v)) then Some (0%nat, (k, v)) else prod_map S id <$> list_find is_signature kvs).
  cbn [dkim_index]. rewrite Hkb. unfold cstr. rewrite strcmp_cstr, bind_Ok by (done || by_compute).
  destruct (decide (is_signature (k, v))) as [E|E]; unfold is_signature in E; cbn [fst] in E.
  - rewrite (bool_decide_eq_true_2 _ E). f_equal. lia.
  - rewrite (bool_decide_eq_false_2 _ E), IH.
    destruct (list_find is_signature kvs) as [[i kv]|]; simpl; [f_equal; lia | done].
Qed.

(** The strings of the fields the validation reads. *)
Record fields := Fields { f_a : list byte; f_c : list byte; f_h : list byte; f_bh : list byte; f_b : list byte }.

Definition fields_at (dh : dkim_header) (f : fields) : Prop :=
  cstring (dh_a dh) = Ok (f_a f) ∧ cstring (dh_c dh) = Ok (f_c f) ∧ cstring (dh_h dh) = Ok (f_h f) ∧
  cstring (dh_bh dh) = Ok (f_bh f) ∧ cstring (dh_b dh) = Ok (f_b f).

Definition compatible (f : fields) : Prop :=
  lit "rsa-sha256" `prefix_of` f_a f ∧ lit "relaxed/relaxed" `prefix_of` f_c f.
#[global] Instance compatible_dec f : Decision (compatible f).
Proof. unfold compatible. apply _. Defined.

Lemma dkim_check_compability_ok dh f :
  fields_at dh f → dkim_check_compability dh = Ok (if decide (compatible f) then 0 else 1).
Proof.
  intros (Ha & Hc & _). destruct (cstring_shape _ _ Ha) as (pa & Ea), (cstring_shape _ _ Hc) as (pc & Ec).
  unfold dkim_check_compability. rewrite Ea, Ec.
  rewrite (strncmp_lit_nul (lit "rsa-sha256")), bind_Ok by by_compute.
  rewrite (strncmp_lit_nul (lit "relaxed/relaxed")) by by_compute. unfold compatible.
  destruct (decide (lit "rsa-sha256" `prefix_of` f_a f)) as [Hpa|Hpa];
    [rewrite (bool_decide_eq_true_2 _ Hpa) | rewrite (bool_decide_eq_false_2 _ Hpa), decide_False by tauto; done].
  cbn [negb]. rewrite bind_Ok.
  destruct (decide (lit "relaxed/relaxed" `prefix_of` f_c f)) as [Hpc|Hpc].
  - by rewrite (bool_decide_eq_true_2 _ Hpc), decide_True by tauto.
  - by rewrite (bool_decide_eq_false_2 _ Hpc), decide_False by tauto.
Qed.

Lemma relaxed_value_length v : zlen (relaxed_value v) <= zlen v.
Proof.
  unfold relaxed_value. pose proof (unfold_list_length v). pose proof (collapse_length false (unfold_list v)).
  pose proof (rtrim_list_length is_wsp (collapse false (unfold_list v))).
  assert (∀ s, (length (ltrim_list s) <= length s)%nat) as Hl.
  { induction s as [|c s IH]; simpl; [done|]. destruct (is_wsp c); simpl; lia. }
  specialize (Hl (rtrim_list is_wsp (collapse false (unfold_list v)))). unfold zlen. lia.
Qed.

(** Headers that fit their share of the text buffer. *)
Definition small (kv : list byte * list byte) : Prop := zlen kv.1 + zlen kv.2 <= 1497.

Lemma text_lines_bound kvs :
  Forall small kvs → zlen (text_lines (relaxed_header <$> kvs)) <= 1500 * zlen kvs.
Proof.
  induction 1 as [|[k v] kvs Hkv _ IH]; [done|]. rewrite fmap_cons. unfold small in Hkv. cbn [fst snd] in Hkv.
  pose proof (relaxed_value_length v) as Hv.
  assert (zlen (header_text (relaxed_header (k, v))) <= 1498) as Hline.
  { unfold header_text, relaxed_header, relaxed_key. cbn [fst snd]. rewrite !zlen_app, zlen_fmap.
    change (zlen (lit ":")) with 1. lia. }
  destruct kvs as [|kv' kvs].
  - change (zlen (header_text (relaxed_header (k, v))) <= 1500 * 1). lia.
  - rewrite text_lines_cons, !zlen_app, zlen_crlf_bytes, (zlen_cons (k, v)) by done. lia.
Qed.

Lemma forall2_zip {A B} (P : A → B → Prop) l k :
  Forall2 P l k → Forall (λ p, P p.1 p.2) (zip l k).
Proof. induction 1; simpl; by constructor. Qed.

Lemma selection_forall (P : stringpair * (list byte * list byte) → Prop) zs names :
  Forall P zs → Forall P (selection zs names).
Proof.
  intros H. unfold selection. apply Forall_concat, Forall_fmap, Forall_true. intros name. simpl.
  rewrite Forall_forall in H |- *. intros x [_ Hx]%list_elem_of_filter. by apply H.
Qed.

Lemma forall_fst_snd {A B} (P : A → B → Prop) (l : list (A * B)) :
  Forall (λ p, P p.1 p.2) l → Forall2 P l.*1 l.*2.
Proof. induction 1; simpl; by constructor. Qed.

Section validate.
Context {key : Type} (SHA256 : list byte → list byte)
  (bio_write : list byte → list byte) (bio_read : list byte → Z → Z * list byte)
  (rsa_read_public_pem : list byte → option key)
  (RSA_verify : list byte → buf → Z → key → Z).
(** The base64 filter writes text and a final line feed, and reads no more
    than there is room for. *)
Context (bio_write_text : ∀ x, ∃ d, bio_write x = d ++ [LF] ∧ nonul d)
  (bio_read_fits : ∀ w n, 0 <= n → zlen (bio_read w n).2 <= n).

(** The base64 text of some bytes, on one line. *)
Definition bh_text (x : list byte) : list byte :=
  no_crlf (take (length (bio_write x) - 1) (bio_write x)).

(** What the verification of a text yields. *)
Definition verdict (text b pk : list byte) : Z :=
  let w := base64_wrap_list 0 b in
  let '(n, sig) := bio_read w (zlen w) in
  if decide (n > 0) then
    match rsa_read_public_pem pk with
    | Some rsa => RSA_verify (SHA256 text)
        (bs sig ++ drop (length sig) (replicate (length w) (Some NUL))) n rsa
    | None => 0
    end
  else 0.

Lemma no_crlf_nonul s : nonul s → nonul (no_crlf s).
Proof.
  unfold nonul, no_crlf. rewrite !Forall_forall. intros H c [_ Hc]%list_elem_of_filter. by apply H.
Qed.

Lemma base64_encode_text x :
  nonul (bh_text x) ∧ ∃ junk, base64_encode bio_write x = Ok (bs (bh_text x) ++ Some NUL :: junk).
Proof.
  destruct (bio_write_text x) as (d & Hd & Hn). unfold bh_text. rewrite Hd, length_app.
  replace (length d + length [LF] - 1)%nat with (length d) by (simpl; lia). rewrite take_app_length.
  split; [by apply no_crlf_nonul|]. by apply (base64_encode_eq bio_write x d LF).
Qed.

Lemma validate_body_hash_ok dh body s n f :
  str_at body s n → nonul s → fields_at dh f →
  dkim_validate_body_hash SHA256 bio_write dh body =
    Ok (if decide (bh_text (SHA256 (relaxed_body s)) `prefix_of` f_bh f) then 0 else 1).
Proof.
  intros Hb Hs (_ & _ & _ & Hbh & _). unfold dkim_validate_body_hash.
  destruct (relaxed_body_canon_ok body s n Hs Hb) as (b' & -> & Hb'). rewrite bind_Ok.
  rewrite (str_at_cstring _ _ _ Hb') by by apply relaxed_body_nonul. rewrite bind_Ok.
  destruct (base64_encode_text (SHA256 (relaxed_body s))) as (Hn & junk & ->).
  rewrite bind_Ok, strlen_bs, bind_Ok, zlen_to_nat by done.
  pose proof (cstring_nonul _ _ Hbh) as Hnb. destruct (cstring_shape _ _ Hbh) as (post & ->).
  rewrite strncmp_string_l, bind_Ok by done. f_equal.
  destruct (decide (_ `prefix_of` _)) as [Hp|Hp];
    [by rewrite (bool_decide_eq_true_2 _ Hp) | by rewrite (bool_decide_eq_false_2 _ Hp)].
Qed.

Lemma verify_signature_ok dh f text pkb pk :
  fields_at dh f → cstring pkb = Ok pk →
  verify_signature SHA256 bio_read rsa_read_public_pem RSA_verify dh text pkb = Ok (verdict text (f_b f) pk).
Proof.
  intros (_ & _ & _ & _ & Hb) Hpk. pose proof (cstring_nonul _ _ Hb) as Hnb.
  destruct (cstring_shape _ _ Hb) as (post & Eb). unfold verify_signature, verdict, base64_decode_bio.
  rewrite Eb, strlen_bs, bind_Ok by done.
  destruct (base64_wrap_eq (f_b f) (Some NUL :: post)) as (junk & ->). rewrite bind_Ok.
  rewrite cstring_bs, bind_Ok by by apply wrap64_nonul.
  set (w := base64_wrap_list 0 (f_b f)). pose proof (bio_read_fits w (zlen w) (zlen_nonneg w)) as Hfit.
  destruct (bio_read w (zlen w)) as [n sig]. cbn [snd] in Hfit.
  rewrite bwrite_start, !bind_Ok by zlia. rewrite zlen_to_nat, length_bs.
  destruct (decide (n > 0)) as [Hn|Hn]; [|done]. rewrite Hpk, bind_Ok. by destruct (rsa_read_public_pem pk).
Qed.

(** A message whose signature header has the form the program handles: "b="
    last, its parsed value no longer than its text. *)
Record signed (hs : list stringpair) (kvs : list (list byte * list byte)) (dh : dkim_header)
  (f : fields) (i : nat) (sv q w : list byte) : Prop := Signed {
  sg_headers : Forall2 pair_at hs kvs;
  sg_small : Forall small kvs;
  sg_fields : fields_at dh f;
  sg_find : list_find is_signature kvs = Some (i, (sig_name, sv));
  sg_count : (length (selection (zip hs kvs) (h_names [] (f_h f))) <= 49)%nat;
  sg_value : relaxed_value sv = q ++ b_eq ++ w;
  sg_no_b : no_b_eq w = true;
  sg_b : 1 <= zlen (f_b f) <= zlen w;
}.

(** The text a signature covers: the selected headers in canonical form, and
    the signature header with the value of "b=" deleted. *)
Definition covered (hs : list stringpair) (kvs : list (list byte * list byte)) (h q : list byte) : list byte :=
  text_lines ((relaxed_header <$> (selection (zip hs kvs) (h_names [] h)).*2)
                ++ [(lit "dkim-signature", q ++ b_eq)]).

Lemma omap_inc l : omap id (take (Z.to_nat (inc_headerc (inc_of l))) (inc_headers (inc_of l))) = l.
Proof.
  cbn [inc_of inc_headerc inc_headers]. rewrite zlen_to_nat.
  rewrite take_app_length' by by rewrite length_fmap.
  induction l as [|h l IH]; [done|]. simpl. f_equal. exact IH.
Qed.

Lemma validate_text_ok hs kvs dh f i sv q w :
  signed hs kvs dh f i sv q w →
  ∃ sig, aload hs (Z.of_nat i) = Ok sig ∧
    signed_text dh ((selection (zip hs kvs) (h_names [] (f_h f))).*1
        ++ [Stringpair (cstr (lit "dkim-signature")) (sp_value sig)])
      = Ok (covered hs kvs (f_h f) q).
Proof.
  intros [Hh Hsm Hf Hfind Hc Hv Hw Hb]. apply list_find_Some in Hfind as (Hi & _ & _).
  destruct (Forall2_lookup_r _ _ _ _ _ Hh Hi) as (sig & Hsig & Hpair).
  exists sig. split; [apply aload_lookup; [lia|]; by rewrite Nat2Z.id|].
  set (sel := selection (zip hs kvs) (h_names [] (f_h f))) in *.
  assert (Forall (λ p, pair_at p.1 p.2) sel) as Hsel by (by apply selection_forall, forall2_zip).
  assert (Forall (λ p, small p.2) sel) as Hselsm.
  { apply selection_forall. rewrite Forall_forall in Hsm. rewrite Forall_forall. intros p Hp. apply Hsm.
    destruct p as [h kv]. apply elem_of_zip_r in Hp. exact Hp. }
  destruct Hf as (_ & _ & _ & _ & Hfb).
  apply (signed_text_ok dh _ (sel.*2 ++ [(lit "dkim-signature", sv)]) _ _ q w (f_b f)).
  - apply Forall2_app; [by apply forall_fst_snd|]. constructor; [|constructor].
    destruct Hpair as (_ & Hvn & _ & Hvb). split; [by_compute|]. split; [done|].
    split; [eexists; apply str_at_cstr | done].
  - rewrite fmap_app. f_equal. simpl. unfold relaxed_header. cbn [fst snd]. by rewrite Hv.
  - done.
  - done.
  - done.
  - etrans; [apply text_lines_bound|].
    + apply Forall_app. split; [by apply Forall_fmap|]. constructor; [|constructor].
      apply list_elem_of_lookup_2 in Hi. rewrite Forall_forall in Hsm. exact (Hsm _ Hi).
    + rewrite !zlen_app, !zlen_fmap. done.
Qed.
End validate.

(** The result of [dkim_validate]. *)
Lemma dkim_validate_eq {key : Type} SHA256 bio_write bio_read pem (RSA_verify : _ → _ → _ → key → Z)
    hs kvs dh f i sv q w body s n pkb pk :
  (∀ x, ∃ d, bio_write x = d ++ [LF] ∧ nonul d) →
  (∀ t m, 0 <= m → zlen (bio_read t m).2 <= m) →
  signed hs kvs dh f i sv q w → str_at body s n → nonul s → cstring pkb = Ok pk →
  dkim_validate SHA256 bio_write bio_read pem RSA_verify hs body dh pkb =
    Ok (if decide (compatible f ∧ bh_text bio_write (SHA256 (relaxed_body s)) `prefix_of` f_bh f)
        then verdict SHA256 bio_read pem RSA_verify (covered hs kvs (f_h f) q) (f_b f) pk
        else 0).
Proof.
  intros Hbw Hbr Hsg Hbody Hs Hpk. pose proof (validate_text_ok _ _ _ _ _ _ _ _ Hsg) as (sig & Hsig & Htext).
  pose proof (sg_fields _ _ _ _ _ _ _ _ Hsg) as Hf. pose proof (sg_count _ _ _ _ _ _ _ _ Hsg) as Hc.
  pose proof (sg_headers _ _ _ _ _ _ _ _ Hsg) as Hh.
  unfold dkim_validate. rewrite (dkim_index_ok hs kvs), (sg_find _ _ _ _ _ _ _ _ Hsg), bind_Ok by done.
  rewrite Z.add_0_l. destruct Hf as (Ha & Hcc & Hfh & Hbh & Hb). pose proof (cstring_nonul _ _ Hfh) as Hhn.
  destruct (cstring_shape _ _ Hfh) as (post & Eh).
  rewrite (included_headers_ok hs kvs _ (f_h f) (length (dh_h dh))) by (done || (exists post; split; [exact Eh | reflexivity])).
  unfold inc_result. rewrite decide_True, bind_Ok by (rewrite length_fmap; lia).
  rewrite (dkim_check_compability_ok dh f), bind_Ok by by repeat split.
  destruct (decide (compatible f)) as [Hcomp|Hcomp].
  2:{ rewrite decide_False by done. by rewrite decide_False by tauto. }
  rewrite decide_True by done.
  rewrite (validate_body_hash_ok SHA256 bio_write Hbw dh body s n f), bind_Ok by (done || by repeat split).
  destruct (decide (_ `prefix_of` f_bh f)) as [Hp|Hp].
  2:{ rewrite decide_False by done. by rewrite decide_False by tauto. }
  rewrite decide_True by done. rewrite Hsig, bind_Ok. rewrite inc_add_ok by (rewrite length_fmap; lia).
  unfold inc_result. rewrite decide_True, bind_Ok by (rewrite length_app, length_fmap; simpl; lia).
  rewrite omap_inc, Htext, bind_Ok.
  rewrite (verify_signature_ok SHA256 bio_read pem RSA_verify Hbr dh f _ pkb pk) by (done || by repeat split).
  by rewrite decide_True by tauto.
Qed.

(** ** Properties *)

(** C1: validation of a DKIM signature.  For a message whose headers are
    strings that fit the queue's arrays, whose [DKIM-Signature] ends with the
    value of "b=" and selects at most 49 headers, [dkim_validate] accesses
    nothing it must not, ends, and returns the verdict of RSA on exactly the
    right text and key - the selected headers in canonical form and the
    signature header with the value of "b=" deleted - provided the algorithm
    and the canonicalization are supported and the hash of the canonical body
    is the one in "bh="; in every other case it returns 0. *)
Theorem dkim_validate_correct {key : Type} SHA256 bio_write bio_read pem (RSA_verify : _ → _ → _ → key → Z)
    hs kvs dh f i sv q w body s n pkb pk :
  (∀ x, ∃ d, bio_write x = d ++ [LF] ∧ nonul d) →
  (∀ t m, 0 <= m → zlen (bio_read t m).2 <= m) →
  signed hs kvs dh f i sv q w → str_at body s n → nonul s → cstring pkb = Ok pk →
  dkim_validate SHA256 bio_write bio_read pem RSA_verify hs body dh pkb =
    Ok (if decide (compatible f ∧ bh_text bio_write (SHA256 (relaxed_body s)) `prefix_of` f_bh f)
        then verdict SHA256 bio_read pem RSA_verify (covered hs kvs (f_h f) q) (f_b f) pk
        else 0).
Proof. apply dkim_validate_eq. Qed.

(** An instance: a toy filter, hash and signature scheme. *)
Definition toy_write (x : list byte) : list byte := b64 x ++ [LF].
Definition toy_read (t : list byte) (m : Z) : Z * list byte :=
  let r := take (Z.to_nat m) t in (zlen r, r).
Definition toy_hash (x : list byte) : list byte := take 3 x.
Definition toy_pem (t : list byte) : option byte := head t.
Definition toy_verify (digest : list byte) (sig : buf) (n : Z) (k : byte) : Z :=
  if decide (take (Z.to_nat n) sig = bs digest) then 1 else 0.

Definition ex_sig_value : list byte :=
  lit " v=1; a=rsa-sha256; c=relaxed/relaxed; h=from:subject; bh=SGkN; b=fro".
Definition ex_mail_headers : list (list byte * list byte) := [
  (lit "Subject", lit " Hi   there"); (sig_name, ex_sig_value); (lit "From", lit " a@b ")].
Definition ex_pairs : list stringpair := (λ kv, ex_pair kv.1 kv.2) <$> ex_mail_headers.
Definition ex_fields : fields :=
  Fields (lit "rsa-sha256") (lit "relaxed/relaxed") (lit "from:subject") (lit "SGkN") (lit "fro").
Definition ex_dh : dkim_header :=
  match dkim_parse_header (cstr ex_sig_value) with Ok dh => dh | Err _ => dkim_header_malloc end.

Lemma ex_pairs_ok : Forall2 pair_at ex_pairs ex_mail_headers.
Proof.
  assert (Forall (λ kv, nonul kv.1 ∧ nonul kv.2) ex_mail_headers) as H by by_compute.
  unfold ex_pairs. induction H as [|kv l [Hk Hv] _ IH]; [constructor|]. constructor; [|exact IH].
  split; [done|]. split; [done|]. split; eexists; apply str_at_cstr.
Qed.

Lemma ex_fields_at : fields_at ex_dh ex_fields.
Proof. repeat split; vm_compute; reflexivity. Qed.

Lemma ex_signed :
  signed ex_pairs ex_mail_headers ex_dh ex_fields 1 ex_sig_value
    (lit "v=1; a=rsa-sha256; c=relaxed/relaxed; h=from:subject; bh=SGkN; ") (lit "fro").
Proof.
  split; [exact ex_pairs_ok | by_compute | exact ex_fields_at | reflexivity | by_compute | reflexivity
    | reflexivity | by_compute].
Qed.

Lemma dkim_validate_correct_witness :
  dkim_validate toy_hash toy_write toy_read toy_pem toy_verify ex_pairs (cstr (lit "Hi")) ex_dh (cstr (lit "k"))
    = Ok 1.
Proof.
  rewrite (dkim_validate_correct toy_hash toy_write toy_read toy_pem toy_verify ex_pairs ex_mail_headers ex_dh
    ex_fields 1 ex_sig_value _ _ (cstr (lit "Hi")) (lit "Hi") _ (cstr (lit "k")) (lit "k")
    ltac:(intros x; exists (b64 x); split; [reflexivity | apply b64_nonul])
    ltac:(intros t m Hm; unfold toy_read, zlen; cbn [snd]; rewrite length_take; lia)
    ex_signed (str_at_cstr _) ltac:(by_compute) eq_refl).
  vm_compute. reflexivity.
Defined.

(** C22: reading a DKIM-Signature.  For a header value written as a list of
    parameters - known tags with a value without ";", and other parameters in
    which no known tag appears - [dkim_parse_header] stays inside the value and
    the arrays, ends, and stores for each tag the last value written for it,
    without blanks and cut to the array; the array of a tag that is not
    written stays as [malloc] left it. *)
Theorem dkim_parse_header_written l sig n :
  Forall (param_ok tag_names) l → nonul (write_params l) → str_at sig (write_params l) n →
  ∃ dh, dkim_parse_header sig = Ok dh ∧
    ∀ t, match last_value t (omap param_value l) with
         | Some v => cstring (dh_get t dh) = Ok (take 1023 v)
         | None => dh_get t dh = malloc DKIM_VALUE_MAX_LEN
         end.
Proof.
  intros Hl Hn Hsig. destruct (dkim_parse_header_ok sig _ n Hn Hsig) as (dh & H & Hv).
  exists dh. split; [exact H|]. intros t. specialize (Hv t).
  rewrite (tag_list_written tag_names (proj2 tag_names_ok) l Hl) in Hv.
  unfold holds_value in Hv. by destruct (last_value t _).
Qed.

Definition ex_params : list (param (T := tag)) := [
  Known (lit "v=") TagV (lit "1"); Other (lit " q"); Known (lit "bh=") TagBh (lit "SG kN");
  Known (lit "h=") TagH (lit "from:subject")].

Lemma ex_params_ok : Forall (param_ok tag_names) ex_params.
Proof.
  assert (Hq : quiet tag_names (lit " q")).
  { intros i. do 3 (destruct i as [|i]; [by_compute|]). by_compute. }
  assert (Hk : ∀ k t v, x3b ∉ v → k ≠ [] → (∀ s, find_name tag_names (k ++ s) = Some (t, length k)) →
    param_ok tag_names (Known k t v)) by (intros; by repeat split).
  do 4 (apply Forall_cons_2; [first [exact Hq | apply Hk; [by_compute | discriminate | intros s; reflexivity]]|]).
  apply Forall_nil_2.
Qed.

Lemma dkim_parse_header_written_witness :
  ∃ dh, dkim_parse_header (cstr (lit "v=1; q;bh=SG kN;h=from:subject;")) = Ok dh ∧
    cstring (dh_bh dh) = Ok (lit "SGkN") ∧ dh_a dh = malloc 1024.
Proof.
  destruct (dkim_parse_header_written ex_params (cstr (write_params ex_params)) _ ex_params_ok
    ltac:(by_compute) (str_at_cstr _)) as (dh & H & Hv).
  exists dh. split; [exact H|]. split; [exact (Hv TagBh) | exact (Hv TagA)].
Defined.

(** A missing parameter.  The members of [dkim_header] are arrays, so the
    tests against NULL in [dkim_check_compability] never fail and the struct is
    not cleared: when a DKIM-Signature has no "h=", validation uses the
    indeterminate contents of [dh->h] before any check, and without "a=" the
    check itself does. *)
Theorem dkim_missing_parameter {key : Type} SHA256 bio_write bio_read pem (RSA_verify : _ → _ → _ → key → Z)
    hs kvs body pkb sig s n dh :
  Forall2 pair_at hs kvs → str_at sig s n → nonul s → dkim_parse_header sig = Ok dh →
  (last_value TagH (tag_list tag_names s) = None →
     dkim_validate SHA256 bio_write bio_read pem RSA_verify hs body dh pkb = Err Uninit) ∧
  (last_value TagA (tag_list tag_names s) = None → dkim_check_compability dh = Err Uninit).
Proof.
  intros Hh Hsig Hs Hp. destruct (dkim_parse_header_ok sig s n Hs Hsig) as (dh' & Hp' & Hv).
  rewrite Hp in Hp'. injection Hp' as <-. split; intros Hnone.
  - specialize (Hv TagH). rewrite Hnone in Hv. cbn [holds_value dh_get] in Hv.
    unfold dkim_validate. rewrite (dkim_index_ok hs kvs), bind_Ok by done.
    unfold included_headers. rewrite Hv. by rewrite strlen_malloc by done.
  - specialize (Hv TagA). rewrite Hnone in Hv. cbn [holds_value dh_get] in Hv.
    unfold dkim_check_compability. rewrite Hv. rewrite strncmp_malloc; [done | done | lia].
Qed.

Lemma dkim_missing_parameter_witness :
  match dkim_parse_header (cstr (lit "v=1; a=rsa-sha256; bh=SGkN; b=fro")) with
  | Ok dh => dkim_validate toy_hash toy_write toy_read toy_pem toy_verify ex_pairs (cstr (lit "Hi")) dh
               (cstr (lit "k")) = Err Uninit
  | Err _ => False
  end.
Proof.
  destruct (dkim_parse_header (cstr (lit "v=1; a=rsa-sha256; bh=SGkN; b=fro"))) as [dh|] eqn:E.
  - destruct (dkim_missing_parameter toy_hash toy_write toy_read toy_pem toy_verify ex_pairs ex_mail_headers
      (cstr (lit "Hi")) (cstr (lit "k")) _ (lit "v=1; a=rsa-sha256; bh=SGkN; b=fro") _ dh ex_pairs_ok
      (str_at_cstr _) ltac:(by_compute) E) as [H _].
    apply H. reflexivity.
  - assert (match dkim_parse_header (cstr (lit "v=1; a=rsa-sha256; bh=SGkN; b=fro")) with
      | Ok _ => true | Err _ => false end = true) as H by by vm_compute.
    rewrite E in H. discriminate H.
Defined.

(** C35: the selection of the signed headers.  For every name of "h=", in
    order, [included_headers] collects all headers of the message whose
    lower-case name has that name as a prefix (every header, for an empty
    name).  It has room for fifty: with fifty or less it returns exactly this
    selection, with more it writes outside its array. *)
Theorem included_headers_exact hs kvs h s n :
  Forall2 pair_at hs kvs → nonul s → str_at h s n →
  let sel := (selection (zip hs kvs) (h_names [] s)).*1 in
  ((length sel <= 50)%nat → included_headers hs h = Ok (inc_of sel)) ∧
  ((50 < length sel)%nat → included_headers hs h = Err OutOfBounds).
Proof.
  intros H Hs Hh sel. rewrite (included_headers_ok hs kvs h s n) by done. unfold inc_result.
  split; intros Hl; [by rewrite decide_True | rewrite decide_False; [done | fold sel; lia]].
Qed.

Lemma included_headers_exact_witness :
  included_headers ex_pairs (cstr (lit "from:subject")) =
    Ok (inc_of [ex_pair (lit "From") (lit " a@b "); ex_pair (lit "Subject") (lit " Hi   there")]) ∧
  included_headers ex_pairs (cstr (replicate 18 x3a)) = Err OutOfBounds.
Proof.
  split.
  - destruct (included_headers_exact ex_pairs ex_mail_headers (cstr (lit "from:subject"))
      (lit "from:subject") _ ex_pairs_ok ltac:(by_compute) (str_at_cstr _)) as [H _].
    rewrite H; [reflexivity | vm_compute; lia].
  - destruct (included_headers_exact ex_pairs ex_mail_headers (cstr (replicate 18 x3a))
      (replicate 18 x3a) _ ex_pairs_ok ltac:(by_compute) (str_at_cstr _)) as [_ H].
    apply H. apply Nat.ltb_lt. vm_compute. reflexivity.
Defined.
