(* ===== verification/Pem.v ===== *)
(** Pem: [rsa_read_private_pem] and [rsa_read_public_pem] of
    [src/firm-dkim-extended/firm-dkim.c], which read a key from a string; they
    are what [Dkim] and [DkimCreate] take as the function from a text to a key.
    OpenSSL's memory BIO and its PEM readers are parameters. *)
From S2P Require Import Prelude Base Layout Canon Base64 Dkim.

Section pem.
Context {bio key : Type} (BIO_new_mem_buf : list byte → option bio) (PEM_read : bio → option key).

(** Either function: the return value, and [*rsa], which was NULL. *)
Definition rsa_read_pem (buff : buf) (len : Z) : res (Z * option key) :=
  text ← bread buff 0 len;
  l ← buf_bytes text;
  match BIO_new_mem_buf l with
  | None => Ok (-1, None)
  | Some mem =>
      match PEM_read mem with
      | None => Ok (-1, None)
      | Some rsa => Ok (0, Some rsa)
      end
  end.

(** The function that the validation and the creation are given. *)
Definition pem_key (text : list byte) : option key := BIO_new_mem_buf text ≫= PEM_read.

(** The calls of the validation and of the creation, with [strlen] as the
    length, on any memory. *)
Lemma rsa_read_pem_string (pk : buf) :
  (n ← strlen pk; r ← rsa_read_pem pk n; Ok r.2) = (k ← cstring pk; Ok (pem_key k)).
Proof.
  unfold strlen. destruct (cstring pk) as [s|f] eqn:E; [|done]. rewrite !bind_Ok.
  destruct (cstring_shape _ _ E) as (post & ->). unfold rsa_read_pem.
  rewrite bread_bs, bind_Ok, buf_bytes_bs, bind_Ok by done. unfold pem_key.
  destruct (BIO_new_mem_buf s) as [mem|]; [|done]. cbn [mbind option_bind]. by destruct (PEM_read mem).
Qed.

(** A failure is reported exactly when there is no key. *)
Lemma rsa_read_pem_code buff len c k :
  rsa_read_pem buff len = Ok (c, k) → (c = 0 ∧ is_Some k) ∨ (c = -1 ∧ k = None).
Proof.
  unfold rsa_read_pem. intros (t & _ & (l & _ & H)%bind_Ok_inv)%bind_Ok_inv.
  destruct (BIO_new_mem_buf l) as [mem|]; [|injection H as <- <-; by right].
  destruct (PEM_read mem) as [rsa|]; injection H as <- <-; [left | by right]. split; [done | by eexists].
Qed.
End pem.
