(* ===== verification/DkimCreate.v ===== *)
(** DkimCreate: the creation of a signature, [dkim_create] of
    [src/firm-dkim-extended/firm-dkim.c].  OpenSSL (SHA-1, RSA, PEM, the base64
    filter) and the clock are parameters. *)
From S2P Require Import Prelude Canon Base64 Dkim.

(** ** Operations *)

(** [sprintf (b + i, "%s", text)]: the buffer and the position after it. *)
Definition sprintf_at (s : buf * Z) (text : list byte) : res (buf * Z) :=
  b ← bwrite s.1 s.2 (cstr text); Ok (b, s.2 + zlen text).

(** The list of header names. *)
Definition list_name (h : stringpair) (s : buf * Z) : res (buf * Z) :=
  s1 ← (if decide (s.2 ≠ 0) then sprintf_at s (lit ":") else Ok s);
  k ← cstring (sp_key h);
  sprintf_at s1 k.

Fixpoint list_names (hs : list stringpair) (s : buf * Z) : res (buf * Z) :=
  match hs with
  | [] => Ok s
  | h :: hs' => s' ← list_name h s; list_names hs' s'
  end.

(** The format, and what it prints. *)
Definition dkim_string : list byte :=
  lit "v=1; a=rsa-sha1; s=%s; d=%s; l=%d; t=%d; c=relaxed/relaxed; h=%s; bh=%s; b=".

Definition dkim_text (selector domain : list byte) (l t : Z) (h bh : list byte) : list byte :=
  lit "v=1; a=rsa-sha1; s=" ++ selector ++ lit "; d=" ++ domain ++ lit "; l=" ++ decimal l ++
  lit "; t=" ++ decimal t ++ lit "; c=relaxed/relaxed; h=" ++ h ++ lit "; bh=" ++ bh ++ lit "; b=".

Section openssl.
Context {skey : Type} (SHA1 : list byte → list byte) (bio_write : list byte → list byte)
  (rsa_read_private_pem : list byte → option skey)
  (RSA_sign : list byte → skey → option (list byte)).

(** The header value before the signature, [new_headers] being canonical. *)
Definition dkim_value (new_headers : list stringpair) (body domain selector : buf) (ts : Z)
    : res (list byte * buf) :=
  new_body ← relaxed_body_canon body;
  new_body_len ← strlen new_body;
  nb ← cstring new_body;
  bh ← base64_encode bio_write (SHA1 nb);
  n200 ← i32 (zlen new_headers * 200);
  hl ← list_names new_headers (malloc n200, 0);
  sel ← cstring selector;
  dom ← cstring domain;
  h ← cstring hl.1;
  bht ← cstring bh;
  let text := dkim_text sel dom (to_int new_body_len) (to_int ts) h bht in
  dkim ← bwrite (malloc (zlen dkim_string + zlen sel + zlen dom + 16 + 16 + zlen h + zlen bht + 1)) 0
           (cstr text);
  Ok (text, dkim).

(** [dkim_create (headers, headerc, body, pkey, domain, selector, v)] at the
    time [ts]; null pointers are [None]. *)
Definition dkim_create (headers : list stringpair) (body pkey domain selector : option buf) (ts : Z)
    : res (option buf) :=
  match body, pkey, domain, selector with
  | Some body, Some pkey, Some domain, Some selector =>
      pem ← cstring pkey;
      match rsa_read_private_pem pem with
      | None => Ok None
      | Some rsa =>
          new_headers ← relaxed_header_canon headers;
          d ← dkim_value new_headers body domain selector ts;
          let '(text, dkim) := d in
          let all := new_headers ++ [Stringpair (cstr (lit "dkim-signature")) dkim] in
          n1500 ← i32 (1500 * zlen all);
          s ← header_lines all (malloc n1500, 0);
          b ← bread s.1 0 s.2;
          header_str ← mapM (λ o, match o with Some c => Ok c | None => Err Uninit end) b;
          match RSA_sign (SHA1 header_str) rsa with
          | None => Ok None
          | Some sig =>
              sig_b64 ← base64_encode bio_write sig;
              n ← strlen sig_b64;
              t ← bread dkim 0 (zlen text);
              d' ← memcpy (t ++ malloc (n + 1)) (zlen text) sig_b64 0 (n + 1);
              w ← wrap d' (zlen text + n);
              Ok (Some w)
          end
      end
  | _, _, _, _ => Ok None
  end.
End openssl.

(** ** The list of names *)

Fixpoint join_names (ks : list (list byte)) : list byte :=
  match ks with
  | [] => []
  | k :: ks' => match ks' with [] => k | _ => k ++ lit ":" ++ join_names ks' end
  end.

(** The names still to come, after some. *)
Definition more_names (ks : list (list byte)) : list byte := concat ((λ k, lit ":" ++ k) <$> ks).

Lemma join_names_cons k ks : join_names (k :: ks) = k ++ more_names ks.
Proof.
  revert k. induction ks as [|k' ks IH]; intros k; [by rewrite app_nil_r|].
  change (k ++ lit ":" ++ join_names (k' :: ks) = k ++ (lit ":" ++ k') ++ more_names ks).
  by rewrite IH, <-app_assoc.
Qed.

Lemma sprintf_at_ok out junk text :
  zlen text < zlen junk →
  sprintf_at (bs out ++ junk, zlen out) text =
    Ok (bs (out ++ text) ++ Some NUL :: drop (S (length text)) junk, zlen (out ++ text)).
Proof.
  intros H. unfold sprintf_at. cbn [fst snd]. rewrite bwrite_end, bind_Ok by zlia.
  rewrite zlen_app, length_cstr. unfold cstr. by rewrite bs_app, <-!app_assoc.
Qed.

Lemma list_names_more hs ks out junk :
  Forall2 (λ h k, cstring (sp_key h) = Ok k) hs ks → out ≠ [] →
  zlen (more_names ks) <= zlen junk →
  ∃ junk', list_names hs (bs out ++ Some NUL :: junk, zlen out) =
      Ok (bs (out ++ more_names ks) ++ Some NUL :: junk', zlen (out ++ more_names ks)).
Proof.
  intros H. revert out junk. induction H as [|h k hs ks Hk _ IH]; intros out junk Hne Hroom.
  { exists junk. by rewrite app_nil_r. }
  unfold more_names in *. cbn [fmap list_fmap concat list_names] in *.
  change (lit ":") with [x3a] in *. rewrite !zlen_app in Hroom. change (zlen [x3a]) with 1 in Hroom.
  set (rest := concat ((λ k, [x3a] ++ k) <$> ks)) in *. pose proof (zlen_nonneg rest).
  unfold list_name. cbn [snd]. rewrite decide_True by (destruct out; [done | zlia]).
  rewrite sprintf_at_ok, bind_Ok by (change (zlen (lit ":")) with 1; zlia). rewrite Hk, bind_Ok.
  change (lit ":") with [x3a]. set (j := drop _ _).
  assert (zlen j = zlen junk - 1) as Hj by (subst j; zlia).
  rewrite sprintf_at_ok, bind_Ok by zlia.
  edestruct (IH ((out ++ [x3a]) ++ k)) as (junk' & E); [by destruct out | |].
  2:{ exists junk'. rewrite E. by rewrite <-!app_assoc. }
  zlia.
Qed.

Lemma list_names_ok hs k ks n :
  Forall2 (λ h k, cstring (sp_key h) = Ok k) hs (k :: ks) → k ≠ [] →
  zlen (join_names (k :: ks)) < n →
  ∃ junk, list_names hs (malloc n, 0) =
    Ok (bs (join_names (k :: ks)) ++ Some NUL :: junk, zlen (join_names (k :: ks))).
Proof.
  intros H Hne. rewrite join_names_cons. intros Hroom. rewrite zlen_app in Hroom. pose proof (zlen_nonneg (more_names ks)).
  inversion H as [|h ? hs' ? Hk H']; subst. cbn [list_names]. unfold list_name. cbn [snd].
  rewrite decide_False, bind_Ok, Hk, bind_Ok by tauto.
  pose proof (sprintf_at_ok [] (malloc n) k ltac:(zlia)) as E.
  change (bs [] ++ malloc n) with (malloc n) in E. change (zlen []) with 0 in E. cbn [app] in E.
  rewrite E, bind_Ok. apply list_names_more; [done | done | zlia].
Qed.

(** ** The whole signature *)

Lemma zlen_dkim_text sel dom l t h bh :
  zlen (dkim_text sel dom l t h bh) < zlen dkim_string + zlen sel + zlen dom + 16 + 16 + zlen h + zlen bh + 1.
Proof.
  pose proof (zlen_decimal l). pose proof (zlen_decimal t).
  unfold dkim_text. autorewrite with zlen. 
  change (zlen (lit "v=1; a=rsa-sha1; s=")) with 19. change (zlen (lit "; d=")) with 4.
  change (zlen (lit "; l=")) with 4. change (zlen (lit "; t=")) with 4.
  change (zlen (lit "; c=relaxed/relaxed; h=")) with 23. change (zlen (lit "; bh=")) with 5.
  change (zlen (lit "; b=")) with 4. change (zlen dkim_string) with 75. lia.
Qed.

Section create.
Context {skey : Type} (SHA1 bio_write : list byte → list byte)
  (rsa_read_private_pem : list byte → option skey)
  (RSA_sign : list byte → skey → option (list byte)).
Hypothesis (Hbio : ∀ x, ∃ d, bio_write x = d ++ [LF] ∧ nonul d).

(** The text before the signature, from the canonical headers and the body. *)
Definition unsigned_text (kvs : list (list byte * list byte)) (s sel dom : list byte) (ts : Z) : list byte :=
  dkim_text sel dom (to_int (zlen (relaxed_body s))) (to_int ts) (join_names (relaxed_header <$> kvs).*1)
    (bh_text bio_write (SHA1 (relaxed_body s))).

Lemma dkim_value_ok hs kvs body s n selb sel domb dom ts :
  Forall2 pair_at hs (relaxed_header <$> kvs) → kvs ≠ [] → head (relaxed_header <$> kvs).*1 ≠ Some [] →
  str_at body s n → nonul s → cstring selb = Ok sel → cstring domb = Ok dom →
  zlen hs * 200 <= INT_MAX → zlen (join_names (relaxed_header <$> kvs).*1) < zlen hs * 200 →
  ∃ junk, dkim_value SHA1 bio_write hs body domb selb ts =
    Ok (unsigned_text kvs s sel dom ts, bs (unsigned_text kvs s sel dom ts) ++ Some NUL :: junk).
Proof.
  intros H Hne Hhead Hb Hs Hsel Hdom Hmax Hroom. unfold dkim_value.
  destruct (relaxed_body_canon_ok body s n Hs Hb) as (b' & -> & Hb'). rewrite bind_Ok.
  pose proof (relaxed_body_nonul s Hs) as Hrs.
  rewrite (str_at_strlen _ _ _ Hb' Hrs), bind_Ok, (str_at_cstring _ _ _ Hb' Hrs), bind_Ok.
  destruct (base64_encode_text bio_write Hbio (SHA1 (relaxed_body s))) as (Hnb & j & ->). rewrite bind_Ok.
  rewrite i32_ok, bind_Ok by (unfold INT_MIN; zlia).
  assert (Forall2 (λ h k, cstring (sp_key h) = Ok k) hs (relaxed_header <$> kvs).*1) as Hks.
  { apply Forall2_fmap_r. eapply Forall2_impl; [exact H|]. intros h kv (Hk & _ & (m & Hkb) & _).
    by eapply str_at_cstring. }
  assert (nonul (join_names (relaxed_header <$> kvs).*1)) as Hnj.
  { assert (Forall nonul (relaxed_header <$> kvs).*1) as Hn.
    { clear -H. revert H. generalize (relaxed_header <$> kvs). intros l H.
      induction H as [|h kv hs l (Hk & _) _ IH]; constructor; [exact Hk | exact IH]. }
    clear -Hn. induction Hn as [|k ks Hk _ IH]; [apply nonul_nil|]. destruct ks as [|k' ks]; [exact Hk|].
    change (nonul (k ++ lit ":" ++ join_names (k' :: ks))). rewrite !nonul_app.
    split; [exact Hk|]. split; [by_compute | exact IH]. }
  unfold unsigned_text. set (bh := bh_text bio_write (SHA1 (relaxed_body s))) in *.
  destruct kvs as [|kv kvs]; [done|]. cbn [fmap list_fmap head] in *.
  destruct (list_names_ok hs (relaxed_header kv).1 (relaxed_header <$> kvs).*1 (zlen hs * 200) Hks)
    as (j2 & ->); [by intros E; apply Hhead; f_equal | exact Hroom |].
  rewrite bind_Ok, Hsel, bind_Ok, Hdom, bind_Ok. cbn [fst].
  rewrite (cstring_bs _ _ Hnj), bind_Ok, (cstring_bs _ _ Hnb), bind_Ok.
  set (h := join_names _) in *. set (text := dkim_text _ _ _ _ _ _).
  assert (zlen text < zlen dkim_string + zlen sel + zlen dom + 16 + 16 + zlen h + zlen bh + 1) as Hlen
    by apply zlen_dkim_text.
  rewrite bwrite_start, bind_Ok by (rewrite zlen_cstr, zlen_malloc; pose proof (zlen_nonneg text); lia).
  eexists. unfold cstr. by rewrite <-app_assoc.
Qed.

Lemma unsigned_text_nonul kvs s sel dom ts :
  Forall (λ kv, nonul kv.1) kvs → nonul sel → nonul dom → nonul (unsigned_text kvs s sel dom ts).
Proof.
  intros Hk Hsel Hdom. unfold unsigned_text, dkim_text. rewrite !nonul_app.
  pose proof (nonul_decimal (to_int (zlen (relaxed_body s)))). pose proof (nonul_decimal (to_int ts)).
  pose proof (proj1 (base64_encode_text bio_write Hbio (SHA1 (relaxed_body s)))).
  assert (nonul (join_names (relaxed_header <$> kvs).*1)).
  { induction Hk as [|kv kvs Hkv _ IH]; [apply nonul_nil|]. cbn [fmap list_fmap].
    rewrite join_names_cons, nonul_app. split; [by apply lower_nonul|].
    destruct kvs as [|kv' kvs]; [apply nonul_nil|]. cbn [fmap list_fmap] in IH |- *.
    rewrite join_names_cons, nonul_app in IH. unfold more_names. cbn [fmap list_fmap concat].
    rewrite !nonul_app. split; [split; [by_compute | apply IH] | apply IH]. }
  split_and!; done || by_compute.
Qed.

(** The signature is appended to the text, and both are wrapped. *)
Lemma append_signature t junk sig junk' :
  nonul t → nonul sig →
  ∃ d, (x ← bread (bs t ++ junk) 0 (zlen t);
        memcpy (x ++ malloc (zlen sig + 1)) (zlen t) (bs sig ++ Some NUL :: junk') 0 (zlen sig + 1)) = Ok d ∧
    str_at d (t ++ sig) (length d).
Proof.
  intros Ht Hs. rewrite bread_bs, bind_Ok by done. unfold memcpy.
  change (Some NUL :: junk') with (bs [NUL] ++ junk'). rewrite app_assoc, <-bs_app.
  rewrite bread_bs, bind_Ok by by rewrite zlen_app.
  rewrite bwrite_end by zlia. eexists. split; [done|].
  rewrite (drop_ge (malloc _)), app_nil_r by zlia. rewrite (bs_app sig), app_assoc, <-bs_app.
  exists []. done.
Qed.
End create.

(** ** Reading a created signature back *)

(** A parameter after the blank that follows a semicolon, the last parameter,
    and a parameter that is not read. *)
Lemma tag_run_blank s : tag_run tag_names None 0 (SP :: s) = tag_run tag_names None 0 s.
Proof. done. Qed.

Lemma tag_run_known k t s :
  k ≠ [] → (∀ s, find_name tag_names (k ++ s) = Some (t, length k)) →
  tag_run tag_names None 0 (k ++ s) = tag_run tag_names (Some (t, [])) 0 s.
Proof.
  intros Hne Hk. specialize (Hk s). destruct k as [|c k]; [done|]. cbn [app tag_run] in *. rewrite Hk.
  cbn [length Nat.sub]. rewrite ?Nat.sub_0_r, tag_run_skip. by rewrite drop_app_length.
Qed.

Lemma tag_run_known_value k t v s :
  k ≠ [] → (∀ s, find_name tag_names (k ++ s) = Some (t, length k)) → x3b ∉ v →
  tag_run tag_names None 0 (k ++ v ++ lit "; " ++ s) =
    (t, filter (λ c, is_blank c = false) v) :: tag_run tag_names None 0 s.
Proof.
  intros Hne Hk Hv. rewrite (tag_run_known k t) by done.
  change (lit "; " ++ s) with (x3b :: SP :: s). rewrite (tag_run_value tag_names) by done. by rewrite tag_run_blank.
Qed.

Lemma tag_run_last t w v :
  x3b ∉ v → tag_run tag_names (Some (t, w)) 0 v = [(t, w ++ filter (λ c, is_blank c = false) v)].
Proof.
  revert w. induction v as [|c v IH]; intros w Hv; [by rewrite app_nil_r|].
  apply not_elem_of_cons in Hv as [Hc Hv]. simpl. rewrite decide_False by congruence.
  rewrite filter_cons. destruct (is_blank c).
  - rewrite decide_False by done. by apply IH.
  - rewrite decide_True, IH by done. by rewrite <-app_assoc.
Qed.

(** A text none of whose bytes begins a name. *)
Definition no_initial (u : list byte) : Prop := Forall (λ c, c ∉ lit "vacdsbh") u.

Lemma tag_run_unread u s :
  no_initial u → tag_run tag_names None 0 (u ++ lit "; " ++ s) = tag_run tag_names None 0 s.
Proof.
  induction 1 as [|c u Hc _ IH]; [done|]. cbn [app tag_run].
  rewrite find_name_none; [exact IH|]. change (lit "vacdsbh") with [x76; x61; x63; x64; x73; x62; x68] in Hc.
  repeat apply not_elem_of_cons in Hc as [? Hc].
  repeat constructor; intros [? [=]]; congruence.
Qed.

(** Signs and digits. *)
Lemma Forall_decimal (P : byte → Prop) z :
  P x2d → (∀ k, 0 <= k < 10 → P (digit k)) → Forall P (decimal z).
Proof.
  intros Hm Hd.
  assert (∀ fuel n acc, Forall P acc → Forall P (decimal_digits fuel n acc)) as H.
  { induction fuel as [|fuel IH]; intros n acc Hacc; [done|]. cbn [decimal_digits].
    assert (Forall P (digit (n mod 10) :: acc)) by (constructor; [apply Hd, Z.mod_pos_bound; lia | done]).
    case_decide; [done | by apply IH]. }
  unfold decimal. case_decide; [constructor; [done|]|]; by apply H.
Qed.

Lemma decimal_no_initial z : no_initial (decimal z).
Proof.
  apply Forall_decimal; [by_compute|]. intros k Hk.
  assert (k ∈ seqZ 0 10) as Hin by (apply elem_of_seqZ; lia).
  assert (Forall (λ k, digit k ∉ lit "vacdsbh") (seqZ 0 10)) as H by by_compute.
  rewrite Forall_forall in H. by apply H.
Qed.

(** The values of the parameters of a created signature. *)
Section created.
Context (SHA1 bio_write : list byte → list byte) (kvs : list (list byte * list byte))
  (s sel dom : list byte) (ts : Z) (sig : list byte).

Definition created_value (t : tag) : list byte :=
  match t with
  | TagV => lit "1" | TagA => lit "rsa-sha1" | TagC => lit "relaxed/relaxed"
  | TagD => dom | TagS => sel | TagH => join_names (relaxed_header <$> kvs).*1
  | TagBh => bh_text bio_write (SHA1 (relaxed_body s)) | TagB => bh_text bio_write sig
  end.

Definition created : list byte := unsigned_text SHA1 bio_write kvs s sel dom ts ++ bh_text bio_write sig.

(** The tags in the order they are written. *)
Lemma created_tags :
  (∀ t, x3b ∉ created_value t) →
  tag_list tag_names created =
    (λ t, (t, filter (λ c, is_blank c = false) (created_value t))) <$>
      [TagV; TagA; TagS; TagD; TagC; TagH; TagBh; TagB].
Proof.
  intros Hv. unfold created, unsigned_text, dkim_text, tag_list.
  set (l := to_int _). set (t := to_int ts).
  change (lit "v=1; a=rsa-sha1; s=") with (lit "v=" ++ lit "1" ++ lit "; " ++ lit "a=" ++ lit "rsa-sha1" ++ lit "; " ++ lit "s=").
  change (lit "; d=") with (lit "; " ++ lit "d="). change (lit "; l=") with (lit "; " ++ lit "l=").
  change (lit "; t=") with (lit "; " ++ lit "t=").
  change (lit "; c=relaxed/relaxed; h=") with (lit "; " ++ lit "c=" ++ lit "relaxed/relaxed" ++ lit "; " ++ lit "h=").
  change (lit "; bh=") with (lit "; " ++ lit "bh="). change (lit "; b=") with (lit "; " ++ lit "b=").
  pose proof (Hv TagS) as Hs. pose proof (Hv TagD) as Hd. pose proof (Hv TagH) as Hh.
  pose proof (Hv TagBh) as Hbh. pose proof (Hv TagB) as Hb. cbn [created_value] in *.
  rewrite <-!(app_assoc (A := byte)).
  rewrite (tag_run_known_value (lit "v=") TagV (lit "1")) by (done || by_compute).
  rewrite (tag_run_known_value (lit "a=") TagA (lit "rsa-sha1")) by (done || by_compute).
  rewrite (tag_run_known_value (lit "s=") TagS sel) by done.
  rewrite (tag_run_known_value (lit "d=") TagD dom) by done.
  rewrite (app_assoc (lit "l=")), tag_run_unread by (apply Forall_app; split; [by_compute | apply decimal_no_initial]).
  rewrite (app_assoc (lit "t=")), tag_run_unread by (apply Forall_app; split; [by_compute | apply decimal_no_initial]).
  rewrite (tag_run_known_value (lit "c=") TagC (lit "relaxed/relaxed")) by (done || by_compute).
  rewrite (tag_run_known_value (lit "h=") TagH) by done.
  rewrite (tag_run_known_value (lit "bh=") TagBh) by done.
  rewrite (tag_run_known (lit "b=") TagB) by done. by rewrite tag_run_last by done.
Qed.
End created.

(** C26: creating a signature.  For headers and a body that are strings, with a
    private key that loads, [dkim_create] stays inside its buffers, ends, and
    returns the header value "v=1; a=rsa-sha1; ...; b=" with selector, domain,
    length of the canonical body, time, the names of the canonical headers and
    the hash of the canonical body, followed by the base64 text of RSA's
    signature of the canonical headers and of this value, folded - provided the
    names, the lines and the folded value fit the room the code guesses for
    them; when RSA fails it returns NULL. *)
Theorem dkim_create_correct {skey} SHA1 bio_write pem (RSA_sign : _ → skey → _)
    hs kvs body s n pkb pk selb sel domb dom ts rsa :
  (∀ x, ∃ d, bio_write x = d ++ [LF] ∧ nonul d) →
  Forall2 pair_at hs kvs → kvs ≠ [] → head kvs.*1 ≠ Some [] → str_at body s n → nonul s →
  cstring pkb = Ok pk → cstring selb = Ok sel → cstring domb = Ok dom → pem pk = Some rsa →
  zlen hs * 1500 + 1500 <= INT_MAX → zlen (join_names (relaxed_header <$> kvs).*1) < zlen hs * 200 →
  let t := unsigned_text SHA1 bio_write kvs s sel dom ts in
  let lines := text_lines ((relaxed_header <$> kvs) ++ [(lit "dkim-signature", t)]) in
  zlen lines <= 1500 * (zlen hs + 1) →
  match RSA_sign (SHA1 lines) rsa with
  | None => dkim_create SHA1 bio_write pem RSA_sign hs (Some body) (Some pkb) (Some domb) (Some selb) ts = Ok None
  | Some sig =>
      let v := t ++ bh_text bio_write sig in
      zlen (wrap_list 0 v) <= 3 * zlen v →
      ∃ b, dkim_create SHA1 bio_write pem RSA_sign hs (Some body) (Some pkb) (Some domb) (Some selb) ts =
          Ok (Some b) ∧ cstring b = Ok (wrap_list 0 v)
  end.
Proof.
  intros Hbio H Hne Hhead Hb Hs Hpk Hsel Hdom Hrsa Hmax Hroom t lines Hlines.
  destruct (relaxed_header_canon_ok hs kvs H) as (hs' & Hcanon & H').
  assert (zlen hs' = zlen hs) as Hlen.
  { apply Forall2_length in H, H'. rewrite length_fmap in H'. unfold zlen. lia. }
  assert (head (relaxed_header <$> kvs).*1 ≠ Some []) as Hhead'.
  { destruct kvs as [|[[|c k] v] kvs]; cbn in *; congruence. }
  destruct (dkim_value_ok SHA1 bio_write Hbio hs' kvs body s n selb sel domb dom ts H' Hne Hhead' Hb Hs
    Hsel Hdom) as (junk & Hval); [rewrite Hlen; zlia | by rewrite Hlen |].
  fold t in Hval.
  assert (nonul t) as Ht.
  { apply unsigned_text_nonul; [exact Hbio | | by eapply cstring_nonul | by eapply cstring_nonul].
    clear -H. induction H as [|h kv hs kvs (Hk & _) _ IH]; constructor; [exact Hk | exact IH]. }
  set (all := hs' ++ [Stringpair (cstr (lit "dkim-signature")) (bs t ++ Some NUL :: junk)]).
  assert (Forall2 pair_at all ((relaxed_header <$> kvs) ++ [(lit "dkim-signature", t)])) as Hall.
  { apply Forall2_app; [done|]. constructor; [|constructor]. split_and!; [by_compute | exact Ht | |].
    - eexists. apply str_at_cstr.
    - eexists. by exists junk. }
  assert (zlen all = zlen hs + 1) as Hal by (subst all; rewrite zlen_app, Hlen; done).
  destruct (header_lines_ok all _ [] (malloc (1500 * zlen all)) Hall) as (j & Hl & _); [fold lines; rewrite Hal; zlia|].
  change (bs [] ++ malloc (1500 * zlen all)) with (malloc (1500 * zlen all)) in Hl.
  change (zlen []) with 0 in Hl. cbn [app] in Hl. fold lines in Hl.
  unfold dkim_create. rewrite Hpk, bind_Ok, Hrsa, Hcanon, bind_Ok, Hval, bind_Ok. cbv beta iota. fold all.
  rewrite i32_ok, bind_Ok by (unfold INT_MIN; rewrite Hal; pose proof (zlen_nonneg hs); lia).
  rewrite Hl, bind_Ok. cbn [fst snd]. rewrite (bread_bs lines), bind_Ok, mapM_bs, bind_Ok by done.
  destruct (RSA_sign (SHA1 lines) rsa) as [sig|]; [|done]. intros Hwrap. set (v := t ++ bh_text bio_write sig) in *.
  destruct (base64_encode_text bio_write Hbio sig) as (Hnb & j' & ->). rewrite bind_Ok.
  rewrite strlen_bs, bind_Ok by done.
  destruct (append_signature t (Some NUL :: junk) (bh_text bio_write sig) j' Ht Hnb) as (d & Hd & Hdat).
  fold v in Hdat. apply bind_Ok_inv in Hd as (x & -> & Hd). rewrite bind_Ok, Hd, bind_Ok.
  rewrite <-zlen_app. fold v. rewrite (wrap_eq d v _ Hdat), decide_True, bind_Ok by lia.
  eexists. split; [done|]. apply cstring_bs, wrap_list_nonul. subst v. by apply nonul_app.
Qed.

(** ** Witness *)

Definition ex_sign_headers : list (list byte * list byte) :=
  [(lit "From", lit "a@b.c"); (lit "Subject", lit "Report  1")].

Definition ex_sign_pairs : list stringpair :=
  (λ kv, Stringpair (cstr kv.1) (cstr kv.2)) <$> ex_sign_headers.

Lemma ex_sign_pairs_ok : Forall2 pair_at ex_sign_pairs ex_sign_headers.
Proof.
  repeat constructor; cbn; try by_compute; eexists; apply str_at_cstr.
Qed.

Lemma dkim_create_correct_witness :
  ∃ b, dkim_create toy_hash toy_write toy_pem (λ x (_ : byte), Some x) ex_sign_pairs
      (Some (cstr (lit "text"))) (Some (cstr (lit "k"))) (Some (cstr (lit "b.c"))) (Some (cstr (lit "sel"))) 12 =
      Ok (Some b) ∧
    cstring b = Ok (wrap_list 0
      (lit "v=1; a=rsa-sha1; s=sel; d=b.c; l=6; t=12; c=relaxed/relaxed; h=from:subject; bh=dGV4; b=ZnJv")).
Proof.
  pose proof (dkim_create_correct toy_hash toy_write toy_pem (λ x (_ : byte), Some x) ex_sign_pairs
    ex_sign_headers (cstr (lit "text")) (lit "text") _ (cstr (lit "k")) (lit "k") (cstr (lit "sel")) (lit "sel")
    (cstr (lit "b.c")) (lit "b.c") 12 x6b
    ltac:(intros x; exists (b64 x); split; [reflexivity | apply b64_nonul])
    ex_sign_pairs_ok ltac:(discriminate) ltac:(discriminate) (str_at_cstr _) ltac:(by_compute)
    eq_refl eq_refl eq_refl eq_refl ltac:(by_compute) ltac:(by_compute) ltac:(by_compute)) as H.
  cbv beta iota zeta in H. destruct (H ltac:(by_compute)) as (b & Hb & Hc).
  exists b. split; [exact Hb|]. rewrite Hc. vm_compute. reflexivity.
Defined.

(** ** Reading back *)

(** What of a value fits the arrays of the parser. *)
Definition kept_value (v : list byte) : list byte :=
  take (Z.to_nat (DKIM_VALUE_MAX_LEN - 1)) (filter (λ c, is_blank c = false) v).

(** C27: A signature is read back as it was created, and refused.  From the
    header value that [dkim_create] builds - any headers, body, selector, domain
    and time, without a semicolon in them -, unfolded, [dkim_parse_header]
    reads back each of the eight parameters it knows, without blanks and cut to
    its array, passing over "l=" and "t="; the algorithm is "rsa-sha1" though,
    which [dkim_check_compability] refuses: the library does not validate the
    signatures that it creates. *)
Theorem created_signature_read_back SHA1 bio_write kvs s sel dom ts sig b n :
  (∀ x, ∃ d, bio_write x = d ++ [LF] ∧ nonul d) →
  Forall (λ kv, nonul kv.1) kvs → nonul sel → nonul dom →
  (∀ t, x3b ∉ created_value SHA1 bio_write kvs s sel dom sig t) →
  str_at b (created SHA1 bio_write kvs s sel dom ts sig) n →
  ∃ dh, dkim_parse_header b = Ok dh ∧
    (∀ t, cstring (dh_get t dh) = Ok (kept_value (created_value SHA1 bio_write kvs s sel dom sig t))) ∧
    dkim_check_compability dh = Ok 1.
Proof.
  intros Hbio Hk Hsel Hdom Hsemi Hb.
  assert (nonul (created SHA1 bio_write kvs s sel dom ts sig)) as Hn.
  { unfold created. rewrite nonul_app. split; [by apply unsigned_text_nonul|].
    apply (base64_encode_text bio_write Hbio sig). }
  destruct (dkim_parse_header_ok b _ n Hn Hb) as (dh & Hp & Hv). exists dh. split; [exact Hp|].
  rewrite (created_tags _ _ _ _ _ _ _ _ Hsemi) in Hv.
  assert (∀ t, cstring (dh_get t dh) = Ok (kept_value (created_value SHA1 bio_write kvs s sel dom sig t))) as Hc
    by (intros t; specialize (Hv t); by destruct t).
  split; [exact Hc|]. unfold dkim_check_compability. pose proof (Hc TagA) as Ha.
  destruct (cstring_shape _ _ Ha) as (post & E). cbn [dh_get] in E. rewrite E.
  rewrite (strncmp_lit_nul (lit "rsa-sha256")), bind_Ok by by_compute.
  by rewrite bool_decide_false by (vm_compute; intros [? [=]]).
Qed.

Definition ex_created : list byte :=
  created toy_hash toy_write ex_sign_headers (lit "text") (lit "sel") (lit "b.c") 12 (lit "fro").

Lemma created_signature_read_back_witness :
  ∃ dh, dkim_parse_header (cstr ex_created) = Ok dh ∧ cstring (dh_h dh) = Ok (lit "from:subject") ∧
    cstring (dh_bh dh) = Ok (lit "dGV4") ∧ cstring (dh_b dh) = Ok (lit "ZnJv") ∧ dkim_check_compability dh = Ok 1.
Proof.
  destruct (created_signature_read_back toy_hash toy_write ex_sign_headers (lit "text") (lit "sel") (lit "b.c") 12
    (lit "fro") (cstr ex_created) _
    ltac:(intros x; exists (b64 x); split; [reflexivity | apply b64_nonul])
    ltac:(by_compute) ltac:(by_compute) ltac:(by_compute) ltac:(intros []; by_compute) (str_at_cstr _))
    as (dh & Hp & Hv & Hc).
  exists dh. split; [exact Hp|]. split; [exact (Hv TagH)|]. split; [exact (Hv TagBh)|].
  split; [exact (Hv TagB) | exact Hc].
Defined.
