(* ===== verification/StringBuffer.v ===== *)
(** StringBuffer: [src/src/mailhandler/string_buffer.c], the buffer the JSON
    text is built in. *)
From S2P Require Import Prelude.

Definition STRING_BUFFER_CHUNK_SIZE : Z := 512.

(** [string_buffer]; [str] is [None] for NULL. *)
Record string_buffer := StringBuffer {
  sb_str : option buf;
  sb_alloc_size : Z;
  sb_size : Z;
}.

Definition string_buffer_init : string_buffer := StringBuffer None 0 0.

(** Grow by one chunk, whatever the length of the value. *)
Definition string_buffer_grow (sb : string_buffer) : res string_buffer :=
  n ← i32 (sb_alloc_size sb + STRING_BUFFER_CHUNK_SIZE + 1);
  new ← match sb_str sb with
        | Some str => memcpy (malloc n) 0 str 0 (sb_size sb)
        | None => Ok (malloc n)
        end;
  Ok (StringBuffer (Some new) (sb_alloc_size sb + STRING_BUFFER_CHUNK_SIZE) (sb_size sb)).

Definition string_buffer_append (sb : string_buffer) (value : buf) : res string_buffer :=
  val_len ← strlen value;
  if decide (val_len > 0) then
    sb1 ← (if decide (val_len >= sb_alloc_size sb - sb_size sb) then string_buffer_grow sb else Ok sb);
    match sb_str sb1 with
    | Some str =>
        str1 ← memcpy str (sb_size sb1) value 0 val_len;
        size ← i32 (sb_size sb1 + val_len);
        str2 ← bstore str1 size NUL;
        Ok (StringBuffer (Some str2) (sb_alloc_size sb1) size)
    | None => Err NullDeref
    end
  else Ok sb.

Definition string_buffer_free (p : ptr string_buffer) : res (ptr string_buffer) :=
  _ ← deref p; cfree p.

(** ** The string in the buffer *)

Definition sb_rep (sb : string_buffer) (s : list byte) : Prop :=
  sb_size sb = zlen s ∧ 0 <= sb_alloc_size sb <= zlen s + 512 ∧
  match sb_str sb with
  | None => s = [] ∧ sb_alloc_size sb = 0
  | Some b => s ≠ [] ∧ ∃ junk, b = bs s ++ Some NUL :: junk ∧ zlen b = sb_alloc_size sb + 1
  end.

Lemma sb_rep_null sb s : sb_rep sb s → (sb_str sb = None ↔ s = []).
Proof. intros (_ & _ & H). destruct (sb_str sb); [|tauto]. split; [done|]. by intros ->; destruct H. Qed.

Lemma string_buffer_init_rep : sb_rep string_buffer_init [].
Proof. by repeat split. Qed.

(** The free space, and what it is when the value calls for more. *)
Definition sb_room (sb : string_buffer) (n : Z) : Z :=
  let slack := sb_alloc_size sb - sb_size sb in
  if decide (n >= slack) then slack + STRING_BUFFER_CHUNK_SIZE else slack.

Lemma sb_slack sb s : sb_rep sb s → 0 <= sb_alloc_size sb - sb_size sb.
Proof.
  intros (Hsz & Ha & H). rewrite Hsz. destruct (sb_str sb) as [b|].
  - destruct H as (_ & junk & -> & Hb). zlia.
  - destruct H as [-> ->]. unfold zlen. simpl. lia.
Qed.

(** A buffer that may be written to from the end of its string. *)
Definition sb_open (sb : string_buffer) (s : list byte) : Prop :=
  sb_size sb = zlen s ∧ ∃ b junk, sb_str sb = Some b ∧ b = bs s ++ junk ∧ zlen b = sb_alloc_size sb + 1.

Lemma string_buffer_grow_ok sb s :
  sb_rep sb s → zlen s + 1025 <= INT_MAX →
  ∃ sb', string_buffer_grow sb = Ok sb' ∧ sb_open sb' s ∧ sb_alloc_size sb' = sb_alloc_size sb + 512.
Proof.
  intros (Hsz & Ha & H) Hmax. unfold string_buffer_grow. unfold STRING_BUFFER_CHUNK_SIZE.
  rewrite i32_ok, bind_Ok by (unfold INT_MIN; lia). rewrite Hsz.
  destruct (sb_str sb) as [b|].
  - destruct H as (_ & junk & -> & Hb). unfold memcpy. rewrite bread_bs, bind_Ok by done.
    rewrite bwrite_start, bind_Ok by zlia. eexists. split; [done|]. split; [|done].
    split; [done|]. eexists _, _. split; [done|]. split; [done|]. cbn [sb_alloc_size]. zlia.
  - destruct H as [-> H0]. rewrite bind_Ok. eexists. split; [done|]. split; [|done].
    split; [done|]. eexists _, _. split; [done|]. split; [done|]. cbn [sb_alloc_size]. zlia.
Qed.

(** What an append does, on every branch. *)
Lemma string_buffer_append_eq sb s v post :
  sb_rep sb s → nonul v → zlen s + zlen v + 1025 <= INT_MAX →
  (zlen v <= sb_room sb (zlen v) →
     ∃ sb', string_buffer_append sb (bs v ++ Some NUL :: post) = Ok sb' ∧ sb_rep sb' (s ++ v)) ∧
  (sb_room sb (zlen v) < zlen v →
     string_buffer_append sb (bs v ++ Some NUL :: post) = Err OutOfBounds).
Proof.
  intros Hrep Hv Hmax. pose proof (sb_slack sb s Hrep) as Hsl. pose proof (zlen_nonneg v) as Hv0.
  unfold string_buffer_append. rewrite strlen_bs, bind_Ok by done. unfold sb_room, STRING_BUFFER_CHUNK_SIZE.
  destruct (decide (zlen v > 0)) as [Hpos|Hpos].
  2:{ assert (v = []) as -> by (destruct v; [done | exfalso; zlia]). change (zlen []) with 0. split.
      - intros _. exists sb. by rewrite app_nil_r.
      - destruct (decide _); lia. }
  assert (∃ sb1, (if decide (zlen v >= sb_alloc_size sb - sb_size sb) then string_buffer_grow sb else Ok sb) = Ok sb1 ∧
    sb_open sb1 s ∧ sb_alloc_size sb1 - sb_size sb1 = sb_room sb (zlen v) ∧
    0 <= sb_alloc_size sb1) as (sb1 & -> & (Hsz & b & junk & Hb & -> & Hlen) & Hroom & Hal).
  { unfold sb_room, STRING_BUFFER_CHUNK_SIZE. case_decide as Hd.
    - destruct (string_buffer_grow_ok sb s Hrep ltac:(lia)) as (sb1 & -> & Ho & Ha). exists sb1.
      split; [done|]. split; [done|]. destruct Ho as [Hs1 _], Hrep as (Hs2 & Ha2 & _). lia.
    - exists sb. destruct Hrep as (Hs2 & Ha & H). split; [done|]. split; [|lia]. split; [done|].
      destruct (sb_str sb) as [b|]; [|destruct H as [-> H0]; rewrite H0, Hs2 in Hd; change (zlen []) with 0 in Hd; lia].
      destruct H as (_ & junk & -> & Hl). eexists _, _. by split_and!. }
  rewrite bind_Ok, Hb, Hsz. unfold sb_room, STRING_BUFFER_CHUNK_SIZE in Hroom. rewrite <-Hroom.
  rewrite zlen_app, zlen_bs in Hlen. unfold memcpy. rewrite bread_bs, bind_Ok by done. split; intros Hfit.
  - rewrite bwrite_end, bind_Ok by zlia. rewrite i32_ok, bind_Ok by (unfold INT_MIN; zlia).
    rewrite (app_assoc (bs s)), <-bs_app, bstore_end, bind_Ok by zlia.
    eexists. split; [done|]. unfold sb_rep. cbn [sb_alloc_size sb_str sb_size]. split; [zlia|].
    destruct Hrep as (Hs2 & Ha & _). split.
    { unfold sb_room, STRING_BUFFER_CHUNK_SIZE in Hfit. revert Hroom Hfit. case_decide; zlia. }
    split; [destruct v; [done|by destruct s]|]. eexists. split; [done|]. zlia.
  - unfold bwrite.
    destruct (decide (0 <= zlen s ∧ zlen s + zlen (bs v) <= zlen (bs s ++ junk))) as [Hd|Hd].
    + rewrite bind_Ok, i32_ok, bind_Ok by (unfold INT_MIN; zlia). rewrite bstore_oob; [done|]. revert Hd. zlia.
    + done.
Qed.

(** ** Properties *)

(** C36: appending.  The buffer grows by one chunk of 512 bytes however long
    the value is.  When the value fits the free space, or the free space and
    one chunk, [string_buffer_append] yields the concatenated string; any
    value of at most 512 bytes does.  A longer value that does not fit is
    copied past the end of the buffer. *)
Theorem string_buffer_append_exact sb s v post :
  sb_rep sb s → nonul v → zlen s + zlen v + 1025 <= INT_MAX →
  (zlen v <= sb_room sb (zlen v) ∨ zlen v <= 512 →
     ∃ sb', string_buffer_append sb (bs v ++ Some NUL :: post) = Ok sb' ∧ sb_rep sb' (s ++ v)) ∧
  (sb_room sb (zlen v) < zlen v →
     string_buffer_append sb (bs v ++ Some NUL :: post) = Err OutOfBounds).
Proof.
  intros Hrep Hv Hmax. pose proof (sb_slack sb s Hrep) as Hsl.
  destruct (string_buffer_append_eq sb s v post Hrep Hv Hmax) as [Hok Hbad]. split; [|done].
  intros Hfit. apply Hok.
  destruct Hfit as [Hfit|Hfit]; [done|]. unfold sb_room, STRING_BUFFER_CHUNK_SIZE. case_decide; lia.
Qed.

Lemma string_buffer_append_exact_witness :
  (∃ sb, string_buffer_append string_buffer_init (cstr (lit "{}")) = Ok sb ∧ sb_rep sb (lit "{}")) ∧
  string_buffer_append string_buffer_init (cstr (replicate 513 SP)) = Err OutOfBounds.
Proof.
  split.
  - apply (string_buffer_append_exact string_buffer_init [] (lit "{}") [] string_buffer_init_rep);
      [by_compute | by_compute | by right].
  - apply (string_buffer_append_exact string_buffer_init [] (replicate 513 SP) [] string_buffer_init_rep);
      [apply Forall_replicate; discriminate | by_compute | by_compute].
Defined.
