(* ===== verification/Json.v ===== *)
(** Json: the conversion of a report to JSON in
    [src/src/mailhandler/mailhandler.c].  The XML tree is what libxml2 parsed;
    [xmlReadMemory] and [xmlNodeGetContent] are parameters. *)
From S2P Require Import Prelude StringBuffer.

(** ** Escaping *)

Definition backslash : byte := x5c.
Definition quote : byte := x22.

(** The two bytes a byte becomes, if any. *)
Definition escape_of (c : byte) : option byte :=
  if decide (c = TAB) then Some x74
  else if decide (c = LF) then Some x6e
  else if decide (c = backslash) then Some backslash
  else if decide (c = CR) then Some x72
  else None.

Definition escape_step (str : buf) (len : Z) (s : buf * Z * Z) : res (ctl (buf * Z * Z)) :=
  let '(new, i, c) := s in
  if decide (i < len) then
    ch ← bload str i;
    match escape_of ch with
    | Some e =>
        b1 ← bstore new c backslash; b2 ← bstore b1 (c + 1) e; Ok (Next (b2, i + 1, c + 2))
    | None => b1 ← bstore new c ch; Ok (Next (b1, i + 1, c + 1))
    end
  else Ok (Break s).

Definition json_escape (str : buf) : res buf :=
  len ← strlen str;
  n ← i32 (len * 2 + 1);
  s ← cloop (escape_step str len) (S (Z.to_nat len)) (malloc n, 0, 0);
  let '(new, _, c) := s in bstore new c NUL.

(** ** The tree *)

(** [xmlNode]: an element with its name and children, a text node, or a node
    of another type. *)
Inductive xnode :=
  | XElement (name : list byte) (children : list xnode)
  | XText (content : list byte)
  | XOther.

Definition put (sb : string_buffer) (s : list byte) : res string_buffer := string_buffer_append sb (cstr s).

(** The loop over siblings: a comma before every element but the first. *)
Section siblings.
Context (f : xnode → string_buffer → res string_buffer).

Fixpoint json_loop (first : bool) (l : list xnode) (sb : string_buffer) : res string_buffer :=
  match l with
  | [] => Ok sb
  | n :: l' =>
      match n with
      | XElement _ _ =>
          sb1 ← (if first then Ok sb else put sb (lit ","));
          sb2 ← f n sb1;
          json_loop false l' sb2
      | _ => json_loop first l' sb
      end
  end.
End siblings.

(** The literals of [to_json]. *)
Definition q1 : list byte := [quote].
Definition q_open : list byte := quote :: lit ": {".
Definition q_text : list byte := quote :: lit ": " ++ [quote].
Definition q_empty : list byte := quote :: lit ": " ++ [quote; quote].

Section json.
(** [xmlNodeGetContent]: the text of a node. *)
Context (get_content : xnode → list byte).

(** The body of the loop of [to_json], for an element. *)
Fixpoint json_node (n : xnode) (sb : string_buffer) : res string_buffer :=
  match n with
  | XElement name children =>
      match children with
      | [] => sb1 ← put sb q1; sb2 ← put sb1 name; put sb2 q_empty
      | [c] =>
          value ← json_escape (cstr (get_content c));
          sb1 ← put sb q1; sb2 ← put sb1 name; sb3 ← put sb2 q_text;
          sb4 ← string_buffer_append sb3 value;
          put sb4 q1
      | _ =>
          sb1 ← put sb q1; sb2 ← put sb1 name; sb3 ← put sb2 q_open;
          sb4 ← json_loop json_node true children sb3;
          put sb4 (lit "}")
      end
  | _ => Ok sb
  end.

(** [to_json (name, a_node, sb)], [a_node] being a list of siblings. *)
Definition to_json (name : option (list byte)) (nodes : list xnode) (sb : string_buffer)
  : res string_buffer :=
  sb1 ← match name with
        | Some nm => s1 ← put sb q1; s2 ← put s1 nm; put s2 q_open
        | None => put sb (lit "{")
        end;
  sb2 ← json_loop json_node true nodes sb1;
  put sb2 (lit "}").

Fixpoint records_loop (first : bool) (l : list xnode) (sb : string_buffer) : res string_buffer :=
  match l with
  | [] => Ok sb
  | n :: l' =>
      match n with
      | XElement name children =>
          m ← strcmp_eq (cstr name) (cstr (lit "record"));
          if m : bool then
            sb1 ← (if first then Ok sb else put sb (lit ","));
            sb2 ← to_json None children sb1;
            records_loop false l' sb2
          else records_loop first l' sb
      | _ => records_loop first l' sb
      end
  end.

Definition records_to_json (nodes : list xnode) (sb : string_buffer) : res string_buffer :=
  sb1 ← put sb (q1 ++ lit "records" ++ quote :: lit ": [");
  sb2 ← records_loop true nodes sb1;
  put sb2 (lit "]").

(** The loop of [parse_xml] over the children of the root. *)
Fixpoint sections_loop (l : list xnode) (sb : string_buffer) : res string_buffer :=
  match l with
  | [] => Ok sb
  | n :: l' =>
      match n with
      | XElement name children =>
          m ← strcmp_eq (cstr name) (cstr (lit "report_metadata"));
          if m : bool then
            sb1 ← to_json (Some (lit "metadata")) children sb; sections_loop l' sb1
          else
            p ← strcmp_eq (cstr name) (cstr (lit "policy_published"));
            if p : bool then
              sb1 ← match sb_str sb with Some _ => put sb (lit ",") | None => Ok sb end;
              sb2 ← to_json (Some (lit "policy")) children sb1; sections_loop l' sb2
            else sections_loop l' sb
      | _ => sections_loop l' sb
      end
  end.

(** [parse_xml (document, sb)]: [xml_read] gives the children of the root
    element of the parsed document, if it could be parsed. *)
Context (xml_read : list byte → option (list xnode)).

Definition parse_xml (document : buf) (sb : string_buffer) : res (Z * string_buffer) :=
  text ← cstring document;
  match xml_read text with
  | None => Ok (1, sb)
  | Some children =>
      sb1 ← sections_loop children sb;
      sb2 ← match sb_str sb1 with Some _ => put sb1 (lit ",") | None => Ok sb1 end;
      sb3 ← records_to_json children sb2;
      Ok (0, sb3)
  end.
End json.

(** ** Reference definitions *)

Definition escape_byte (c : byte) : list byte :=
  match escape_of c with Some e => [backslash; e] | None => [c] end.
Definition escape (s : list byte) : list byte := concat (escape_byte <$> s).

(** Reading an escaped string back. *)
Definition unescape_of (e : byte) : byte :=
  if decide (e = x74) then TAB else if decide (e = x6e) then LF else if decide (e = x72) then CR else e.

Fixpoint unescape (s : list byte) : list byte :=
  match s with
  | [] => []
  | c :: s' =>
      match s' with
      | e :: s'' => if decide (c = backslash) then unescape_of e :: unescape s'' else c :: unescape s'
      | [] => [c]
      end
  end.

(** The texts that are built. *)
Section siblings_text.
Context (f : xnode → list byte).

Fixpoint json_siblings (first : bool) (l : list xnode) : list byte :=
  match l with
  | [] => []
  | n :: l' =>
      match n with
      | XElement _ _ => (if first then [] else lit ",") ++ f n ++ json_siblings false l'
      | _ => json_siblings first l'
      end
  end.
End siblings_text.

Section text.
Context (get_content : xnode → list byte).

Fixpoint json_text (n : xnode) : list byte :=
  match n with
  | XElement name children =>
      match children with
      | [] => q1 ++ name ++ q_empty
      | [c] => q1 ++ name ++ q_text ++ escape (get_content c) ++ q1
      | _ => q1 ++ name ++ q_open ++ json_siblings json_text true children ++ lit "}"
      end
  | _ => []
  end.

Definition object_text (name : option (list byte)) (nodes : list xnode) : list byte :=
  (match name with Some nm => q1 ++ nm ++ q_open | None => lit "{" end)
    ++ json_siblings json_text true nodes ++ lit "}".

Definition is_element (name : list byte) (n : xnode) : bool :=
  match n with XElement nm _ => bool_decide (nm = name) | _ => false end.
Definition xchildren (n : xnode) : list xnode :=
  match n with XElement _ children => children | _ => [] end.

Fixpoint records_text (first : bool) (l : list xnode) : list byte :=
  match l with
  | [] => []
  | n :: l' =>
      if is_element (lit "record") n
      then (if first then [] else lit ",") ++ object_text None (xchildren n) ++ records_text false l'
      else records_text first l'
  end.

(** The sections, given what stands in the buffer before them. *)
Fixpoint sections_text (before : list byte) (l : list xnode) : list byte :=
  match l with
  | [] => before
  | n :: l' =>
      if is_element (lit "report_metadata") n
      then sections_text (before ++ object_text (Some (lit "metadata")) (xchildren n)) l'
      else if is_element (lit "policy_published") n
      then sections_text ((if decide (before = []) then [] else before ++ lit ",")
             ++ object_text (Some (lit "policy")) (xchildren n)) l'
      else sections_text before l'
  end.

Definition report_text (l : list xnode) : list byte :=
  let s := sections_text [] l in
  (if decide (s = []) then [] else s ++ lit ",")
    ++ (q1 ++ lit "records" ++ quote :: lit ": [") ++ records_text true l ++ lit "]".

(** Every name and every escaped text is a string that fits one chunk. *)
Definition fits_chunk (s : list byte) : bool := bool_decide (nonul s ∧ zlen s <= 512).

Fixpoint node_ok (n : xnode) : bool :=
  match n with
  | XElement name children =>
      fits_chunk name &&
      match children with
      | [c] => bool_decide (nonul (get_content c)) && fits_chunk (escape (get_content c))
      | _ => forallb node_ok children
      end
  | _ => true
  end.
End text.

(** ** Escaping *)

Lemma escape_byte_length c : 1 <= zlen (escape_byte c) <= 2.
Proof. unfold escape_byte. destruct (escape_of c); simpl; unfold zlen; simpl; lia. Qed.

Lemma escape_snoc s c : escape (s ++ [c]) = escape s ++ escape_byte c.
Proof. unfold escape. rewrite fmap_app, concat_app. simpl. by rewrite app_nil_r. Qed.

Lemma escape_length s : zlen (escape s) <= 2 * zlen s.
Proof.
  induction s as [|c s IH] using rev_ind; [done|]. rewrite escape_snoc, !zlen_app.
  pose proof (escape_byte_length c). change (zlen [c]) with 1. lia.
Qed.

Lemma escape_nonul s : nonul s → nonul (escape s).
Proof.
  induction s as [|c s IH] using rev_ind; [done|]. intros [Hs Hc]%nonul_app. rewrite escape_snoc.
  apply nonul_app. split; [auto|]. unfold escape_byte, escape_of.
  repeat case_decide; repeat (apply nonul_cons; split; [done|]); apply nonul_nil || done.
Qed.

Definition escape_inv (s : list byte) (r : buf * Z * Z) : Prop :=
  ∃ pre rest junk, s = pre ++ rest ∧ r = (bs (escape pre) ++ junk, zlen pre, zlen (escape pre)) ∧
    zlen (escape pre) + zlen junk = 2 * zlen s + 1.

Lemma escape_step_ok s post r :
  escape_inv s r →
  wp (escape_step (bs s ++ post) (zlen s) r) (λ c, match c with
    | Next r' => escape_inv s r' ∧ (Z.to_nat (zlen s - snd (fst r')) < Z.to_nat (zlen s - snd (fst r)))%nat
    | Break r' => ∃ i junk, r' = (bs (escape s) ++ junk, i, zlen (escape s)) ∧ 1 <= zlen junk end).
Proof.
  intros (pre & rest & junk & Heq & -> & Hsum). unfold escape_step. destruct rest as [|c rest].
  { rewrite app_nil_r in Heq. subst pre. rewrite decide_False by lia. simpl. exists (zlen s), junk.
    split; [done|]. pose proof (escape_length s). lia. }
  assert (zlen s = zlen pre + 1 + zlen rest) as Hz by (rewrite Heq; zlia). pose proof (zlen_nonneg rest).
  pose proof (escape_length pre) as Hel.
  rewrite decide_True by lia.
  rewrite (bload_bs s post _ c), bind_Ok by (first [zlia | rewrite Heq; apply list_lookup_middle; zlia]).
  pose proof (escape_snoc pre c) as Hsn. unfold escape_byte in Hsn.
  assert (Hinv : ∀ junk', zlen (escape (pre ++ [c])) + zlen junk' = 2 * zlen s + 1 →
    escape_inv s (bs (escape (pre ++ [c])) ++ junk', zlen pre + 1, zlen (escape (pre ++ [c])))).
  { intros junk' Hs'. exists (pre ++ [c]), rest, junk'. rewrite <-app_assoc. split; [done|].
    split; [|done]. by rewrite (zlen_app pre [c]). }
  destruct junk as [|x1 [|x2 junk]]; try (unfold zlen in *; simpl in *; lia).
  rewrite !zlen_cons in Hsum. destruct (escape_of c) as [e|].
  - rewrite bstore_mid, bind_Ok by by rewrite zlen_bs.
    replace (bs (escape pre) ++ Some backslash :: x2 :: junk)
      with (bs (escape pre ++ [backslash]) ++ x2 :: junk) by by rewrite bs_app, <-app_assoc.
    rewrite bstore_mid, bind_Ok by zlia.
    replace (bs (escape pre ++ [backslash]) ++ Some e :: junk) with (bs (escape (pre ++ [c])) ++ junk)
      by by rewrite Hsn, !bs_app, <-!app_assoc.
    replace (zlen (escape pre) + 2) with (zlen (escape (pre ++ [c]))) by (rewrite Hsn; zlia).
    simpl. split; [|lia]. apply Hinv. rewrite Hsn. zlia.
  - rewrite bstore_mid, bind_Ok by by rewrite zlen_bs.
    replace (bs (escape pre) ++ Some c :: x2 :: junk) with (bs (escape (pre ++ [c])) ++ x2 :: junk)
      by by rewrite Hsn, !bs_app, <-!app_assoc.
    replace (zlen (escape pre) + 1) with (zlen (escape (pre ++ [c]))) by (rewrite Hsn; zlia).
    simpl. split; [|lia]. apply Hinv. rewrite Hsn. zlia.
Qed.

Lemma json_escape_eq s post :
  nonul s → 2 * zlen s + 1 <= INT_MAX →
  ∃ junk, json_escape (bs s ++ Some NUL :: post) = Ok (bs (escape s) ++ Some NUL :: junk).
Proof.
  intros Hs Hmax. unfold json_escape. rewrite strlen_bs, bind_Ok by done.
  rewrite i32_ok, bind_Ok by (unfold INT_MIN; zlia).
  destruct (wp_inv _ _ (wp_cloop (escape_step (bs s ++ Some NUL :: post) (zlen s)) (escape_inv s)
    (λ r, Z.to_nat (zlen s - snd (fst r))) _ (S (Z.to_nat (zlen s))) (malloc (zlen s * 2 + 1), 0, 0)
    (escape_step_ok s (Some NUL :: post))
    ltac:(exists [], s, (malloc (zlen s * 2 + 1)); repeat split; zlia) ltac:(simpl; lia)))
    as (r & -> & i & junk & -> & Hj).
  rewrite bind_Ok, bstore_end by zlia. by eexists.
Qed.

Lemma unescape_escape s : unescape (escape s) = s.
Proof.
  induction s as [|c s IH]; [done|]. unfold escape. rewrite fmap_cons. simpl concat. fold (escape s).
  unfold escape_byte, escape_of.
  destruct (decide (c = TAB)) as [->|]; [simpl; by rewrite IH|].
  destruct (decide (c = LF)) as [->|]; [simpl; by rewrite IH|].
  destruct (decide (c = backslash)) as [->|Hb]; [simpl; by rewrite IH|].
  destruct (decide (c = CR)) as [->|]; [simpl; by rewrite IH|].
  destruct (escape s) as [|d t] eqn:E; [by rewrite <-IH|].
  change (unescape ([c] ++ d :: t)) with
    (if decide (c = backslash) then unescape_of d :: unescape t else c :: unescape (d :: t)).
  rewrite decide_False by done. by rewrite IH.
Qed.

(** ** Computations that append a text *)

(** [m] appends exactly [t] to any buffer, up to the range of [int]. *)
Definition writes (m : string_buffer → res string_buffer) (t : list byte) : Prop :=
  ∀ sb s, sb_rep sb s → zlen s + zlen t + 1025 <= INT_MAX →
    ∃ sb', m sb = Ok sb' ∧ sb_rep sb' (s ++ t).

Lemma writes_ret : writes Ok [].
Proof. intros sb s H _. exists sb. by rewrite app_nil_r. Qed.

Lemma writes_bind m1 m2 t1 t2 :
  writes m1 t1 → writes m2 t2 → writes (λ sb, sb1 ← m1 sb; m2 sb1) (t1 ++ t2).
Proof.
  intros H1 H2 sb s Hsb Hmax. rewrite zlen_app in Hmax. pose proof (zlen_nonneg t1).
  pose proof (zlen_nonneg t2).
  destruct (H1 sb s Hsb ltac:(lia)) as (sb1 & -> & Hsb1).
  destruct (H2 sb1 _ Hsb1) as (sb2 & E & Hsb2); [rewrite zlen_app; lia|].
  exists sb2. rewrite bind_Ok, app_assoc. done.
Qed.

Lemma writes_ext m m' t : (∀ sb, m sb = m' sb) → writes m t → writes m' t.
Proof. intros E H sb s Hsb Hmax. rewrite <-E. by apply H. Qed.

Lemma writes_append v post :
  nonul v → zlen v <= 512 → writes (λ sb, string_buffer_append sb (bs v ++ Some NUL :: post)) v.
Proof.
  intros Hv Hl sb s Hsb Hmax. destruct (string_buffer_append_eq sb s v post Hsb Hv Hmax) as [H _].
  apply H. pose proof (sb_slack sb s Hsb). unfold sb_room, STRING_BUFFER_CHUNK_SIZE. case_decide; lia.
Qed.

Lemma writes_put v : fits_chunk v = true → writes (λ sb, put sb v) v.
Proof. intros [Hv Hl]%bool_decide_eq_true. by apply writes_append. Qed.

Lemma writes_if (b : bool) v :
  fits_chunk v = true → writes (λ sb, if b then Ok sb else put sb v) (if b then [] else v).
Proof. intros Hv. destruct b; [apply writes_ret | by apply writes_put]. Qed.

(** Three and more steps, in the shape the code has them. *)
Lemma writes_bind3 m1 m2 m3 t1 t2 t3 :
  writes m1 t1 → writes m2 t2 → writes m3 t3 →
  writes (λ sb, sb1 ← m1 sb; sb2 ← m2 sb1; m3 sb2) (t1 ++ t2 ++ t3).
Proof. intros H1 H2 H3. apply (writes_bind m1 (λ sb, sb2 ← m2 sb; m3 sb2)); [done|]. by apply writes_bind. Qed.

Lemma writes_bind5 m1 m2 m3 m4 m5 t1 t2 t3 t4 t5 :
  writes m1 t1 → writes m2 t2 → writes m3 t3 → writes m4 t4 → writes m5 t5 →
  writes (λ sb, sb1 ← m1 sb; sb2 ← m2 sb1; sb3 ← m3 sb2; sb4 ← m4 sb3; m5 sb4) (t1 ++ t2 ++ t3 ++ t4 ++ t5).
Proof.
  intros H1 H2 H3 H4 H5.
  apply (writes_bind m1 (λ sb, sb2 ← m2 sb; sb3 ← m3 sb2; sb4 ← m4 sb3; m5 sb4)); [done|].
  apply (writes_bind m2 (λ sb, sb3 ← m3 sb; sb4 ← m4 sb3; m5 sb4)); [done|]. by apply writes_bind3.
Qed.

(** Induction on trees. *)
Section xnode_ind.
Context (P : xnode → Prop)
  (P_element : ∀ name children, Forall P children → P (XElement name children))
  (P_text : ∀ s, P (XText s)) (P_other : P XOther).

Fixpoint xnode_rect' (n : xnode) : P n :=
  match n with
  | XElement name children =>
      P_element name children
        ((fix go l := match l return Forall P l with
          | [] => Forall_nil_2 _
          | c :: l' => Forall_cons_2 _ _ _ (xnode_rect' c) (go l')
          end) children)
  | XText s => P_text s
  | XOther => P_other
  end.
End xnode_ind.

Section json_ok.
Context (get_content : xnode → list byte).
Abbreviation text := (json_text get_content).
Abbreviation node := (json_node get_content).
Abbreviation ok := (node_ok get_content).

Lemma writes_siblings l first :
  Forall (λ n, writes (node n) (text n)) l →
  writes (json_loop node first l) (json_siblings text first l).
Proof.
  intros H. revert first. induction H as [|n l Hn _ IH]; intros first; [apply writes_ret|].
  destruct n as [name children| |]; [|apply IH..].
  apply writes_bind3; [by apply writes_if | exact Hn | apply IH].
Qed.

Lemma chunk_puts : fits_chunk q1 = true ∧ fits_chunk q_open = true ∧ fits_chunk q_text = true ∧
  fits_chunk q_empty = true ∧ fits_chunk (lit "}") = true ∧ fits_chunk (lit "{") = true ∧
  fits_chunk (lit ",") = true ∧ fits_chunk (lit "]") = true ∧
  fits_chunk (lit "metadata") = true ∧ fits_chunk (lit "policy") = true ∧
  fits_chunk (q1 ++ lit "records" ++ quote :: lit ": [") = true.
Proof. repeat split; vm_compute; reflexivity. Qed.

Lemma writes_node n : ok n = true → writes (node n) (text n).
Proof.
  destruct chunk_puts as (Hq1 & Hqo & Hqt & Hqe & Hcl & _).
  induction n as [name children IH| |] using xnode_rect'; [|intros; apply writes_ret..].
  intros Hok. cbn [node_ok] in Hok. apply andb_prop in Hok as [Hname Hok].
  destruct children as [|c [|c' children]].
  - apply (writes_bind3 _ _ _ q1 name q_empty); by apply writes_put.
  - apply andb_prop in Hok as [Hc Hfit]. apply bool_decide_eq_true in Hc.
    pose proof Hfit as [Hen Hel]%bool_decide_eq_true.
    intros sb s Hsb Hmax. cbn [json_node json_text] in *.
    assert (zlen (get_content c) <= zlen (escape (get_content c))) as Hle.
    { generalize (get_content c). intros l. induction l as [|d l IHl] using rev_ind; [done|].
      rewrite escape_snoc, !zlen_app. pose proof (escape_byte_length d). change (zlen [d]) with 1. lia. }
    destruct (json_escape_eq (get_content c) [] Hc) as (junk & E); [unfold INT_MAX in *; lia|].
    unfold cstr at 1. rewrite E, bind_Ok. revert sb s Hsb Hmax.
    apply (writes_bind5 (λ sb, put sb q1) (λ sb, put sb name) (λ sb, put sb q_text)
      (λ sb, string_buffer_append sb (bs (escape (get_content c)) ++ Some NUL :: junk)) (λ sb, put sb q1));
      try (by apply writes_put). by apply writes_append.
  - apply (writes_bind5 (λ sb, put sb q1) (λ sb, put sb name) (λ sb, put sb q_open)
      (json_loop node true (c :: c' :: children)) (λ sb, put sb (lit "}")));
      try (by apply writes_put). apply writes_siblings.
    apply Forall_forall. intros n Hn. rewrite Forall_forall in IH. apply IH; [done|].
    eapply forallb_forall in Hok; [exact Hok | by apply list_elem_of_In].
Qed.

Lemma writes_to_json name nodes :
  (match name with Some nm => fits_chunk nm = true | None => True end) → forallb ok nodes = true →
  writes (to_json get_content name nodes) (object_text get_content name nodes).
Proof.
  intros Hname Hok. destruct chunk_puts as (Hq1 & Hqo & _ & _ & Hcl & Hop & _).
  assert (Hsib : writes (json_loop node true nodes) (json_siblings text true nodes)).
  { apply writes_siblings, Forall_forall. intros n Hn. apply writes_node.
    eapply forallb_forall in Hok; [exact Hok | by apply list_elem_of_In]. }
  unfold to_json, object_text. destruct name as [nm|].
  - apply (writes_bind3 (λ sb, s1 ← put sb q1; s2 ← put s1 nm; put s2 q_open)); [|done|by apply writes_put].
    apply writes_bind3; by apply writes_put.
  - apply (writes_bind3 (λ sb, put sb (lit "{"))); [by apply writes_put | done | by apply writes_put].
Qed.
End json_ok.

(** ** The report *)

Section report_ok.
Context (get_content : xnode → list byte).

(** A child of the root whose name is a string and whose children fit. *)
Definition section_ok (n : xnode) : bool :=
  match n with
  | XElement name children => bool_decide (nonul name) && forallb (node_ok get_content) children
  | _ => true
  end.

Lemma strcmp_name name k :
  nonul name → nonul k → strcmp_eq (cstr name) (cstr k) = Ok (bool_decide (name = k)).
Proof. apply strcmp_cstr. Qed.

Lemma writes_records first l :
  forallb section_ok l = true →
  writes (records_loop get_content first l) (records_text get_content first l).
Proof.
  revert first. induction l as [|n l IH]; intros first Hok; [apply writes_ret|].
  cbn [forallb] in Hok. apply andb_prop in Hok as [Hn Hl].
  destruct n as [name children| |]; [|by apply IH..].
  cbn [section_ok] in Hn. apply andb_prop in Hn as [Hname Hch]. apply bool_decide_eq_true in Hname.
  intros sb s. cbn [records_loop records_text is_element xchildren].
  rewrite strcmp_name, bind_Ok by (done || by_compute). revert sb s.
  destruct (bool_decide (name = lit "record")); [|by apply IH].
  apply writes_bind3; [by apply writes_if | by apply writes_to_json | by apply IH].
Qed.

Lemma writes_records_to_json l :
  forallb section_ok l = true →
  writes (records_to_json get_content l)
    ((q1 ++ lit "records" ++ quote :: lit ": [") ++ records_text get_content true l ++ lit "]").
Proof.
  intros Hok. destruct chunk_puts as (_ & _ & _ & _ & _ & _ & _ & Hcl & _ & _ & Hrec).
  apply (writes_bind3 (λ sb, put sb _) (records_loop get_content true l) (λ sb, put sb (lit "]")));
    [by apply writes_put | by apply writes_records | by apply writes_put].
Qed.

(** The comma after what stands in the buffer. *)
Lemma put_comma sb s :
  sb_rep sb s → zlen s + 1026 <= INT_MAX →
  ∃ sb', (match sb_str sb with Some _ => put sb (lit ",") | None => Ok sb end) = Ok sb' ∧
    sb_rep sb' (if decide (s = []) then [] else s ++ lit ",").
Proof.
  intros Hsb Hmax. pose proof (sb_rep_null sb s Hsb) as Hnull. destruct (sb_str sb) as [b|].
  - rewrite decide_False by (intros E; pose proof (proj2 Hnull E); congruence).
    apply writes_put; [reflexivity | done | change (zlen (lit ",")) with 1; lia].
  - exists sb. split; [done|]. pose proof (proj1 Hnull eq_refl) as ->. by rewrite decide_True.
Qed.

Lemma object_text_nonempty name l : object_text get_content name l ≠ [].
Proof. unfold object_text. by destruct name. Qed.

Lemma sections_text_length before l : zlen before <= zlen (sections_text get_content before l).
Proof.
  revert before. induction l as [|n l IH]; intros before; [done|]. cbn [sections_text].
  destruct (is_element _ n); [|destruct (is_element _ n); [|apply IH]].
  - etrans; [|apply IH]. rewrite zlen_app. pose proof (zlen_nonneg (object_text get_content (Some (lit "metadata")) (xchildren n))). lia.
  - etrans; [|apply IH]. case_decide as E; [subst; zlia|]. rewrite !zlen_app.
    pose proof (zlen_nonneg (object_text get_content (Some (lit "policy")) (xchildren n))).
    change (zlen (lit ",")) with 1. lia.
Qed.

Lemma sections_loop_ok l sb s :
  forallb section_ok l = true → sb_rep sb s → zlen (sections_text get_content s l) + 1026 <= INT_MAX →
  ∃ sb', sections_loop get_content l sb = Ok sb' ∧ sb_rep sb' (sections_text get_content s l).
Proof.
  destruct chunk_puts as (_ & _ & _ & _ & _ & _ & _ & _ & Hmeta & Hpol & _).
  revert sb s. induction l as [|n l IH]; intros sb s Hok Hsb Hmax; [by exists sb|].
  cbn [forallb] in Hok. apply andb_prop in Hok as [Hn Hl].
  destruct n as [name children| |]; [|by apply IH..].
  cbn [section_ok] in Hn. apply andb_prop in Hn as [Hname Hch]. apply bool_decide_eq_true in Hname.
  cbn [sections_loop sections_text is_element xchildren] in *.
  rewrite (strcmp_name name (lit "report_metadata")), bind_Ok by (done || by_compute).
  destruct (bool_decide (name = lit "report_metadata")).
  { pose proof (sections_text_length (s ++ object_text get_content (Some (lit "metadata")) children) l) as Hlen.
    rewrite zlen_app in Hlen.
    destruct (writes_to_json get_content (Some (lit "metadata")) children Hmeta Hch sb s Hsb) as (sb1 & -> & Hsb1);
      [lia|]. rewrite bind_Ok. by apply IH. }
  rewrite (strcmp_name name (lit "policy_published")), bind_Ok by (done || by_compute).
  destruct (bool_decide (name = lit "policy_published")); [|by apply IH].
  set (s1 := if decide (s = []) then [] else s ++ lit ",") in *.
  pose proof (sections_text_length (s1 ++ object_text get_content (Some (lit "policy")) children) l) as Hlen.
  rewrite zlen_app in Hlen.
  pose proof (zlen_nonneg (object_text get_content (Some (lit "policy")) children)).
  assert (zlen s <= zlen s1) as Hs1 by (subst s1; case_decide; [subst; done | rewrite zlen_app; change (zlen (lit ",")) with 1; lia]).
  destruct (put_comma sb s Hsb ltac:(lia)) as (sb1 & -> & Hsb1). rewrite bind_Ok. fold s1 in Hsb1.
  destruct (writes_to_json get_content (Some (lit "policy")) children Hpol Hch sb1 s1 Hsb1) as (sb2 & -> & Hsb2);
    [lia|]. rewrite bind_Ok. by apply IH.
Qed.
End report_ok.

(** ** Properties *)

(** C23: the JSON text of a report.  When every name and every escaped text of
    the parsed tree fits one chunk of the string buffer, [parse_xml] accesses
    nothing outside its buffers, ends, and leaves in an empty buffer exactly
    the text [report_text] of the children of the root: the sections in the
    order of the document, then the records, elements separated by commas. *)
Theorem parse_xml_report get_content xml_read document doc children :
  cstring document = Ok doc → xml_read doc = Some children →
  forallb (section_ok get_content) children = true →
  zlen (report_text get_content children) + 1025 <= INT_MAX →
  ∃ sb, parse_xml get_content xml_read document string_buffer_init = Ok (0, sb) ∧
    sb_rep sb (report_text get_content children).
Proof.
  intros Hdoc Hread Hok Hmax. unfold parse_xml. rewrite Hdoc, bind_Ok, Hread. unfold report_text in *.
  set (s := sections_text get_content [] children) in *. set (s1 := if decide (s = []) then [] else s ++ lit ",") in *.
  set (t := (q1 ++ lit "records" ++ quote :: lit ": [") ++ records_text get_content true children ++ lit "]") in *.
  rewrite zlen_app in Hmax. assert (1 <= zlen t) as Ht by (subst t; unfold q1; rewrite !zlen_app; change (zlen [quote]) with 1;
    pose proof (zlen_nonneg (records_text get_content true children)); zlia).
  assert (zlen s <= zlen s1) as Hs1 by (subst s1; case_decide as E; [rewrite E; done | rewrite zlen_app; change (zlen (lit ",")) with 1; lia]).
  destruct (sections_loop_ok get_content children string_buffer_init [] Hok string_buffer_init_rep) as (sb1 & -> & Hsb1).
  { fold s. lia. }
  rewrite bind_Ok. fold s in Hsb1. destruct (put_comma sb1 s Hsb1 ltac:(lia)) as (sb2 & -> & Hsb2). rewrite bind_Ok.
  destruct (writes_records_to_json get_content children Hok sb2 s1 Hsb2) as (sb3 & -> & Hsb3); [fold t; lia|].
  rewrite bind_Ok. by exists sb3.
Qed.

(** The text of the nodes of the examples. *)
Definition ex_content (n : xnode) : list byte := match n with XText s => s | _ => [] end.
Definition xelem (name : String.string) (l : list xnode) : xnode := XElement (lit name) l.
Arguments xelem name%_string_scope l.
Definition ex_report : list xnode := [
  XText [LF];
  xelem "report_metadata" [xelem "org_name" [XText (lit "a" ++ [TAB] ++ lit "b")]; XText [LF]];
  xelem "policy_published" [xelem "domain" []];
  xelem "record" [xelem "row" [xelem "ip" [XText (lit "::1")]; xelem "n" [XText (lit "2")]]]].

Lemma parse_xml_report_witness :
  ∃ sb, parse_xml ex_content (λ _, Some ex_report) (cstr (lit "<feedback/>")) string_buffer_init = Ok (0, sb) ∧
    sb_rep sb (q1 ++ lit "metadata" ++ q_open ++ q1 ++ lit "org_name" ++ q_text ++ lit "a\tb" ++ q1 ++ lit "},"
      ++ q1 ++ lit "policy" ++ q_open ++ q1 ++ lit "domain" ++ q_empty ++ lit "},"
      ++ q1 ++ lit "records" ++ q1 ++ lit ": [{" ++ q1 ++ lit "row" ++ q_open
      ++ q1 ++ lit "ip" ++ q_text ++ lit "::1" ++ q1 ++ lit "," ++ q1 ++ lit "n" ++ q_text ++ lit "2" ++ q1 ++ lit "}}]").
Proof.
  destruct (parse_xml_report ex_content (λ _, Some ex_report) (cstr (lit "<feedback/>")) (lit "<feedback/>") ex_report
    eq_refl eq_refl ltac:(vm_compute; reflexivity) ltac:(by_compute)) as (sb & H & Hsb).
  exists sb. split; [exact H|]. replace (report_text _ _) with
    (report_text ex_content ex_report) in Hsb by done. exact Hsb.
Defined.

(** C34: escaping loses nothing.  [json_escape] of any string fits the buffer it
    allocates and yields a string from which the original is read back; it
    contains no tab and no line break.  A quotation mark stays as it is, so
    the text of a report that contains one ends the JSON string it is put in. *)
Theorem json_escape_invertible s post :
  nonul s → 2 * zlen s + 1 <= INT_MAX →
  ∃ b e, json_escape (bs s ++ Some NUL :: post) = Ok b ∧ cstring b = Ok e ∧ unescape e = s ∧
    Forall (λ c, c ≠ TAB ∧ c ≠ LF ∧ c ≠ CR) e ∧
    (quote ∈ s → quote ∈ e).
Proof.
  intros Hs Hmax. destruct (json_escape_eq s post Hs Hmax) as (junk & H).
  exists (bs (escape s) ++ Some NUL :: junk), (escape s). split; [exact H|].
  split; [by apply cstring_bs, escape_nonul|]. split; [apply unescape_escape|]. clear. split.
  - induction s as [|c s IH] using rev_ind; [apply Forall_nil_2|]. rewrite escape_snoc. apply Forall_app.
    split; [done|]. unfold escape_byte, escape_of. repeat case_decide; repeat constructor; done.
  - intros (a & t & ->)%list_elem_of_split. unfold escape. rewrite fmap_app, concat_app.
    apply elem_of_app. right. by left.
Qed.

Lemma json_escape_invertible_witness :
  ∃ b e, json_escape (cstr (lit "a" ++ [TAB; quote])) = Ok b ∧ cstring b = Ok e ∧
    unescape e = lit "a" ++ [TAB; quote].
Proof.
  destruct (json_escape_invertible (lit "a" ++ [TAB; quote]) [] ltac:(by_compute) ltac:(by_compute))
    as (b & e & H & He & Hu & _).
  exists b, e. split; [exact H|]. split; [exact He | exact Hu].
Defined.
