(* ===== verification/Mailhandler.v ===== *)
(** Mailhandler: the dequeueing process, [src/src/mailhandler/mailhandler.c] and
    [src/src/mailhandler/dns.c]: validation of a queued message with the key
    from DNS, decoding and unzipping of its body, conversion to JSON and
    posting.  The resolver, zlib, libxml2, libcurl and OpenSSL are
    parameters. *)
From S2P Require Import Prelude Base Config Layout Queue QueueFs Canon Base64 Dkim StringBuffer Json.

(** ** DNS *)

Definition ns_c_in : Z := 1.
Definition ns_t_txt : Z := 16.

(** The loop of [dns_gettxt] over the record data. *)
Definition gettxt_step (rdata : list byte) (s : buf * Z * Z) : res (ctl (buf * Z * Z)) :=
  let '(new, new_len, i) := s in
  if decide (i < zlen rdata) then
    c ← aload rdata i;
    if decide (bval c ≠ 183 ∧ bval c ≠ 218) then
      b ← bstore new new_len c; Ok (Next (b, new_len + 1, i + 1))
    else Ok (Next (new, new_len, i + 1))
  else Ok (Break s).

Section dns.
(** The first answer to a TXT query: class, type and data of the record, if
    the query and its parsing succeed. *)
Context (res_query : list byte → option (Z * Z * list byte)).

Definition dns_gettxt (name : buf) : res (option buf) :=
  q ← cstring name;
  match res_query q with
  | None => Ok None
  | Some (cls, typ, rdata) =>
      if decide (cls = ns_c_in ∧ typ = ns_t_txt) then
        s ← cloop (gettxt_step rdata) (S (length rdata)) (malloc (zlen rdata + 1), 0, 0);
        let '(new, new_len, _) := s in
        b ← bstore new new_len NUL; Ok (Some b)
      else Ok None
  end.
End dns.

(** ** Validation *)

(** [sprintf] of a text into a fresh buffer of [n] bytes. *)
Definition sprintf_new (n : Z) (text : list byte) : res buf := bwrite (malloc n) 0 (cstr text).

Definition domain_text (s d : list byte) : list byte := s ++ lit "._domainkey." ++ d.
Definition pem_text (k : list byte) : list byte :=
  lit "-----BEGIN PUBLIC KEY-----" ++ [LF] ++ k ++ [LF] ++ lit "-----END PUBLIC KEY-----" ++ [LF].

(** The pointers into the message, for the first [n] headers. *)
Fixpoint convert_headers (n : nat) (hs : list hdr) : res (list stringpair) :=
  match n with
  | O => Ok []
  | S n' =>
      match hs with
      | [] => Err OutOfBounds
      | h :: hs' => l ← convert_headers n' hs'; Ok (Stringpair (hdr_key h) (hdr_value h) :: l)
      end
  end.

Section handler.
Context {key : Type} (SHA256 : list byte → list byte)
  (bio_write : list byte → list byte) (bio_read : list byte → Z → Z * list byte)
  (rsa_read_public_pem : list byte → option key)
  (RSA_verify : list byte → buf → Z → key → Z)
  (res_query : list byte → option (Z * Z * list byte)).

Definition validate_dkim (message : mail) : res Z :=
  headers ← convert_headers (Z.to_nat (mail_header_count message)) (mail_headers message);
  dho ← dkim_get_header headers;
  match dho with
  | None => Ok 0
  | Some dh =>
      s ← cstring (dh_s dh);
      d ← cstring (dh_d dh);
      domain ← sprintf_new (zlen s + zlen d + 16) (domain_text s d);
      resp ← dns_gettxt res_query domain;
      match resp with
      | None => Ok 0
      | Some txt =>
          dr ← dkim_parse_dns txt;
          m ← strncmp_eq (dr_k dr) (cstr (lit "rsa")) 3;
          if m : bool then
            key_len ← strlen (dr_p dr);
            wrapped_key ← base64_wrap (dr_p dr) key_len;
            w ← cstring wrapped_key;
            public_key ← sprintf_new (zlen w + 100) (pem_text w);
            dkim_validate SHA256 bio_write bio_read rsa_read_public_pem RSA_verify
              headers (mail_body message) dh public_key
          else Ok 0
      end
  end.

(** ** Decoding *)

Definition encoding_name : list byte := lit "Content-Transfer-Encoding".

(** The value of the first header with the name, NULL when there is none. *)
Fixpoint find_encoding (n : nat) (hs : list hdr) : res (option buf) :=
  match n with
  | O => Ok None
  | S n' =>
      match hs with
      | [] => Err OutOfBounds
      | h :: hs' =>
          m ← strcmp_eq (hdr_key h) (cstr encoding_name);
          if m : bool then Ok (Some (hdr_value h)) else find_encoding n' hs'
      end
  end.

Definition decode_content (message : mail) : res (option buf * Z) :=
  e ← find_encoding (Z.to_nat (mail_header_count message)) (mail_headers message);
  match e with
  | None => Err NullDeref
  | Some v =>
      m ← strcmp_eq v (cstr (lit "base64"));
      if m : bool then
        n ← strlen (mail_body message);
        r ← base64_decode_bio bio_read (mail_body message) n;
        Ok (Some (snd r), fst r)
      else Ok (None, 0)
  end.

(** ** Unzipping *)

(** A little-endian number of the header, and [n] of its bytes compared. *)
Definition le_field (zip : buf) (i n : Z) : res Z :=
  b ← bread zip i n; l ← buf_bytes b; Ok (le_value l).
Definition field_is (zip : buf) (i : Z) (k : list byte) : res bool :=
  b ← bread zip i (zlen k); l ← buf_bytes b; Ok (bool_decide (l = k)).

(** An array of variable length: none of a size that is not positive. *)
Definition vla (n : Z) : res buf := if decide (0 < n) then Ok (malloc n) else Err OutOfBounds.

(** What [inflate] produces from a stream, at most so many bytes; [None] when
    [inflateInit] returns [Z_STREAM_ERROR]. *)
Context (inflate : list byte → Z → option (list byte)).

Definition unzip (zipdata : buf) : res (option buf) :=
  zip ← memcpy (malloc 30) 0 zipdata 0 30;
  sig ← field_is zip 0 [x50; x4b; x03; x04];
  if negb sig then Ok None
  else
    cm ← field_is zip 8 [x08; x00];
    if negb cm then Ok None
    else
      filename_len ← le_field zip 26 2;
      f ← memcpy (malloc (filename_len + 1)) 0 zipdata 30 filename_len;
      _ ← bstore f filename_len NUL;
      extra_field_len ← le_field zip 28 2;
      c ← le_field zip 18 4;
      u ← le_field zip 22 4;
      let compr_len := to_int c in
      let uncompr_len := to_int u in
      zlib_stream_len ← i32 (compr_len + 2);
      z0 ← vla zlib_stream_len;
      z1 ← bstore z0 0 x78;
      z2 ← bstore z1 1 x9c;
      z3 ← memcpy z2 2 zipdata (30 + filename_len + extra_field_len) compr_len;
      _ ← vla uncompr_len;
      stream ← buf_bytes z3;
      match inflate stream uncompr_len with
      | None => Ok None
      | Some out =>
          result ← bwrite (malloc (zlen out + 1)) 0 (bs out);
          Ok (Some result)
      end.

(** ** The main loop *)

(** The curl handle, and what was posted to the web service. *)
Record service := Service {
  sv_curl : ptr unit;
  sv_posts : list (list byte);
}.

Definition post_data (data : string_buffer) (sv : service) : res service :=
  _ ← deref (sv_curl sv);
  match sb_str data with
  | None => Err NullDeref
  | Some b =>
      t ← cstring b;
      c ← cfree (sv_curl sv);
      Ok (Service c (sv_posts sv ++ [t]))
  end.

Context (get_content : xnode → list byte) (xml_read : list byte → option (list xnode)).

(** One message taken from the queue. *)
Definition handle_message (message : mail) (sv : service) : res service :=
  ok ← validate_dkim message;
  if decide (ok = 0) then Ok sv
  else
    d ← decode_content message;
    match fst d with
    | None => Ok sv
    | Some zipdata =>
        xml ← unzip zipdata;
        match xml with
        | None => Ok sv
        | Some x =>
            r ← parse_xml get_content xml_read x string_buffer_init;
            match sb_str (snd r) with
            | Some _ => post_data (snd r) sv
            | None => Ok sv
            end
        end
    end.

(** One iteration of the loop of [main]: an empty queue is waited for. *)
Definition main_step (o : os) (queue : ptr pq_ref) (s : sys * service) : res (sys * service) :=
  r ← pq_dequeue o queue (malloc sizeof_mail) (fst s);
  let '(code, dest, sy) := r in
  if decide (code = PQ_MESSAGE_QUEUE_EMPTY_ERROR) then Ok (sy, snd s)
  else
    message ← mail_of_bytes dest;
    sv ← handle_message message (snd s);
    Ok (sy, sv).

(** The first [n] iterations of the loop. *)
Fixpoint main_loop (o : os) (queue : ptr pq_ref) (n : nat) (s : sys * service) : res (sys * service) :=
  match n with
  | O => Ok s
  | S n' => s' ← main_step o queue s; main_loop o queue n' s'
  end.
End handler.

(** [main] up to its loop, with the arguments of its process and whether
    [curl_easy_init] succeeds; [None] is a [return 1].  With the queue comes
    the file that its memory maps. *)
Definition main_init (o : os) (curl_ok : bool) (argv : list buf) (w : world)
    : res (option (ptr pq_ref * list byte * service) * world) :=
  filepath ← aload argv 1;
  count ← aload argv 2;
  message_count ← atoi count;
  _ ← aload argv 3;
  r ← pq_init_path o filepath message_count w;
  let '(code, ref, file, w1) := r in
  if decide (code < 0) then Ok (None, w1)
  else if curl_ok
  then Ok (Some (match ref with Some q => PTo q | None => PNull end, file, Service (PTo tt) []), w1)
  else Ok (None, w1).

(** ** DNS *)

Definition txt_of (rdata : list byte) : list byte := filter (λ c, bval c ≠ 183 ∧ bval c ≠ 218) rdata.

Definition gettxt_inv (rdata : list byte) (r : buf * Z * Z) : Prop :=
  ∃ pre rest junk, rdata = pre ++ rest ∧ r = (bs (txt_of pre) ++ junk, zlen (txt_of pre), zlen pre) ∧
    zlen (txt_of pre) + zlen junk = zlen rdata + 1 ∧ zlen (txt_of pre) <= zlen pre.

Lemma gettxt_step_ok rdata r :
  gettxt_inv rdata r →
  wp (gettxt_step rdata r) (λ c, match c with
    | Next r' => gettxt_inv rdata r' ∧ (Z.to_nat (zlen rdata - snd r') < Z.to_nat (zlen rdata - snd r))%nat
    | Break r' => ∃ i junk, r' = (bs (txt_of rdata) ++ junk, zlen (txt_of rdata), i) ∧ 1 <= zlen junk end).
Proof.
  intros (pre & rest & junk & Heq & -> & Hsum & Hle). unfold gettxt_step. destruct rest as [|c rest].
  { rewrite app_nil_r in Heq. subst pre. rewrite decide_False by lia. simpl. exists (zlen rdata), junk.
    split; [done|lia]. }
  assert (zlen rdata = zlen pre + 1 + zlen rest) as Hz by (rewrite Heq; zlia). pose proof (zlen_nonneg rest).
  rewrite decide_True by lia. rewrite Heq, aload_mid, bind_Ok by done. rewrite <-Heq.
  assert (txt_of (pre ++ [c]) = txt_of pre ++ txt_of [c]) as Happ by apply filter_app.
  assert (rdata = (pre ++ [c]) ++ rest) as Heq' by by rewrite <-app_assoc.
  assert (txt_of [c] = if decide (bval c ≠ 183 ∧ bval c ≠ 218) then [c] else []) as Hc
    by (unfold txt_of; by rewrite filter_cons).
  destruct (decide (bval c ≠ 183 ∧ bval c ≠ 218)).
  - rewrite bstore_end, bind_Ok by zlia. simpl. split; [|lia].
    exists (pre ++ [c]), rest, (drop 1 junk). split; [done|]. rewrite Happ, Hc.
    split; [apply triple_eq; [by rewrite bs_app, <-app_assoc | zlia | zlia]|]. split; zlia.
  - simpl. split; [|lia]. exists (pre ++ [c]), rest, junk. rewrite Happ, Hc, app_nil_r.
    split; [done|]. split; [apply triple_eq; [done | done | zlia]|]. split; zlia.
Qed.

Lemma dns_gettxt_ok res_query name q rdata :
  cstring name = Ok q → res_query q = Some (ns_c_in, ns_t_txt, rdata) →
  ∃ junk, dns_gettxt res_query name = Ok (Some (bs (txt_of rdata) ++ Some NUL :: junk)).
Proof.
  intros Hq Hr. unfold dns_gettxt. rewrite Hq, bind_Ok, Hr, decide_True by done.
  destruct (wp_inv _ _ (wp_cloop (gettxt_step rdata) (gettxt_inv rdata) (λ r, Z.to_nat (zlen rdata - snd r)) _
    (S (length rdata)) (malloc (zlen rdata + 1), 0, 0) (gettxt_step_ok rdata)
    ltac:(exists [], rdata, (malloc (zlen rdata + 1)); repeat split; zlia) ltac:(simpl; zlia)))
    as (r & -> & i & junk & -> & Hj).
  rewrite bind_Ok, bstore_end, bind_Ok by zlia. by eexists.
Qed.

(** ** Texts in fresh buffers *)

Lemma sprintf_new_ok n text :
  zlen text < n → ∃ junk, sprintf_new n text = Ok (bs text ++ Some NUL :: junk).
Proof.
  intros Hn. unfold sprintf_new. rewrite bwrite_start by zlia. unfold cstr at 1.
  rewrite <-app_assoc. by eexists.
Qed.

Lemma nonul_lit_app s t : nonul s → nonul t → nonul (s ++ t).
Proof. intros. by apply nonul_app. Qed.

Lemma domain_text_nonul s d : nonul s → nonul d → nonul (domain_text s d).
Proof. intros. unfold domain_text. repeat apply nonul_lit_app; [done | by_compute | done]. Qed.

Lemma pem_text_nonul k : nonul k → nonul (pem_text k).
Proof.
  intros. unfold pem_text.
  repeat (apply nonul_lit_app; [first [done | by_compute]|]). by_compute.
Qed.

(** ** The headers of a message *)

(** The first [n] headers of the message are the strings [kvs]. *)
Definition message_headers (m : mail) (kvs : list (list byte * list byte)) : Prop :=
  mail_header_count m = zlen kvs ∧ (length kvs <= length (mail_headers m))%nat ∧
  Forall2 (λ h kv, pair_at (Stringpair (hdr_key h) (hdr_value h)) kv) (take (length kvs) (mail_headers m)) kvs.

Definition pairs_of (m : mail) (n : nat) : list stringpair :=
  (λ h, Stringpair (hdr_key h) (hdr_value h)) <$> take n (mail_headers m).

Lemma convert_headers_ok n hs :
  (n <= length hs)%nat →
  convert_headers n hs = Ok ((λ h, Stringpair (hdr_key h) (hdr_value h)) <$> take n hs).
Proof.
  revert hs. induction n as [|n IH]; intros [|h hs] Hn; simpl in *; try done; [lia|].
  by rewrite IH by lia.
Qed.

Lemma message_pairs m kvs : message_headers m kvs → Forall2 pair_at (pairs_of m (length kvs)) kvs.
Proof. intros (_ & _ & H). unfold pairs_of. by apply Forall2_fmap_l. Qed.

Lemma dkim_get_header_ok hs kvs i sv dh :
  Forall2 pair_at hs kvs → list_find is_signature kvs = Some (i, (sig_name, sv)) →
  (∃ h, hs !! i = Some h ∧ dkim_parse_header (sp_value h) = Ok dh) →
  dkim_get_header hs = Ok (Some dh).
Proof.
  intros Hh Hf (h & Hi & Hp). unfold dkim_get_header. rewrite (dkim_index_ok hs kvs), Hf, bind_Ok by done.
  rewrite Z.add_0_l, decide_True by lia.
  rewrite (aload_lookup hs (Z.of_nat i) h), bind_Ok by (lia || by rewrite Nat2Z.id). by rewrite Hp.
Qed.

(** What of a value fits the record's arrays. *)
Definition record_cut (s : list byte) : list byte := take (Z.to_nat (DKIM_RECORD_MAX_LEN - 1)) s.

Section validate.
Context {key : Type} (SHA256 : list byte → list byte)
  (bio_write : list byte → list byte) (bio_read : list byte → Z → Z * list byte)
  (rsa_read_public_pem : list byte → option key)
  (RSA_verify : list byte → buf → Z → key → Z)
  (res_query : list byte → option (Z * Z * list byte)).
Context (bio_write_text : ∀ x, ∃ d, bio_write x = d ++ [LF] ∧ nonul d)
  (bio_read_fits : ∀ w n, 0 <= n → zlen (bio_read w n).2 <= n).

(** A message with a usable signature, and the key record DNS has for it. *)
Record authenticated (m : mail) (kvs : list (list byte * list byte)) (dh : dkim_header) (f : fields)
  (i : nat) (sv q w s d rdata k p : list byte) : Prop := Authenticated {
  au_headers : message_headers m kvs;
  au_parse : ∃ h, pairs_of m (length kvs) !! i = Some h ∧ dkim_parse_header (sp_value h) = Ok dh;
  au_signed : signed (pairs_of m (length kvs)) kvs dh f i sv q w;
  au_s : cstring (dh_s dh) = Ok s;
  au_d : cstring (dh_d dh) = Ok d;
  au_dns : res_query (domain_text s d) = Some (ns_c_in, ns_t_txt, rdata);
  au_rdata : nonul rdata;
  au_k : last_value TagK (tag_list record_tag_names (txt_of rdata)) = Some k;
  au_p : last_value TagP (tag_list record_tag_names (txt_of rdata)) = Some p;
}.

Lemma validate_dkim_eq m kvs dh f i sv q w s d rdata k p body nb :
  authenticated m kvs dh f i sv q w s d rdata k p → str_at (mail_body m) body nb → nonul body →
  validate_dkim SHA256 bio_write bio_read rsa_read_public_pem RSA_verify res_query m =
    Ok (if decide (lit "rsa" `prefix_of` record_cut k ∧ compatible f ∧
            bh_text bio_write (SHA256 (relaxed_body body)) `prefix_of` f_bh f)
        then verdict SHA256 bio_read rsa_read_public_pem RSA_verify
          (covered (pairs_of m (length kvs)) kvs (f_h f) q) (f_b f)
          (pem_text (base64_wrap_list 0 (record_cut p)))
        else 0).
Proof.
  intros [Hm Hp Hs Hfs Hfd Hdns Hrd Hk Hpv] Hb Hbn. unfold validate_dkim.
  pose proof (message_pairs m kvs Hm) as Hpairs. destruct Hm as (Hc & Hlen & _).
  rewrite Hc, zlen_to_nat, convert_headers_ok, bind_Ok by done. fold (pairs_of m (length kvs)).
  rewrite (dkim_get_header_ok _ kvs i sv dh Hpairs (sg_find _ _ _ _ _ _ _ _ Hs) Hp), bind_Ok.
  rewrite Hfs, bind_Ok, Hfd, bind_Ok.
  destruct (sprintf_new_ok (zlen s + zlen d + 16) (domain_text s d)) as (j1 & ->).
  { unfold domain_text. rewrite !zlen_app. change (zlen (lit "._domainkey.")) with 12. lia. }
  rewrite bind_Ok.
  assert (nonul (domain_text s d)) as Hdn by (apply domain_text_nonul; by eapply cstring_nonul).
  destruct (dns_gettxt_ok res_query (bs (domain_text s d) ++ Some NUL :: j1) (domain_text s d) rdata)
    as (j2 & ->); [by apply cstring_bs | done|].
  rewrite bind_Ok.
  assert (nonul (txt_of rdata)) as Htn.
  { unfold nonul, txt_of. rewrite Forall_forall. intros c [_ Hin]%list_elem_of_filter.
    exact (proj1 (Forall_forall _ _) Hrd _ Hin). }
  destruct (dkim_parse_dns_ok (bs (txt_of rdata) ++ Some NUL :: j2) (txt_of rdata)
    (length (bs (txt_of rdata) ++ Some NUL :: j2)) Htn ltac:(by eexists)) as (dr & -> & Hdr).
  rewrite bind_Ok. pose proof (Hdr TagK) as Hdk. pose proof (Hdr TagP) as Hdp.
  rewrite Hk in Hdk. rewrite Hpv in Hdp. cbn [holds_value dr_get] in Hdk, Hdp.
  change (take _ k) with (record_cut k) in Hdk. change (take _ p) with (record_cut p) in Hdp.
  destruct (cstring_shape _ _ Hdk) as (pk & ->).
  rewrite (strncmp_lit_nul (lit "rsa")), bind_Ok by by_compute.
  destruct (decide (lit "rsa" `prefix_of` record_cut k)) as [Hr|Hr].
  2:{ rewrite (bool_decide_eq_false_2 _ Hr). by rewrite decide_False by tauto. }
  rewrite (bool_decide_eq_true_2 _ Hr).
  pose proof (cstring_nonul _ _ Hdp) as Hpn. destruct (cstring_shape _ _ Hdp) as (pp & ->).
  rewrite strlen_bs, bind_Ok by done.
  destruct (base64_wrap_eq (record_cut p) (Some NUL :: pp)) as (j3 & ->). rewrite bind_Ok.
  pose proof (wrap64_nonul 0 _ Hpn) as Hwn. rewrite cstring_bs, bind_Ok by done.
  destruct (sprintf_new_ok (zlen (base64_wrap_list 0 (record_cut p)) + 100)
    (pem_text (base64_wrap_list 0 (record_cut p)))) as (j4 & ->).
  { unfold pem_text. rewrite !zlen_app. change (zlen (lit "-----BEGIN PUBLIC KEY-----")) with 26.
    change (zlen (lit "-----END PUBLIC KEY-----")) with 24. change (zlen [LF]) with 1. lia. }
  rewrite bind_Ok.
  rewrite (dkim_validate_eq SHA256 bio_write bio_read rsa_read_public_pem RSA_verify _ kvs dh f i sv q w
    (mail_body m) body nb _ (pem_text (base64_wrap_list 0 (record_cut p))) bio_write_text bio_read_fits Hs Hb Hbn
    ltac:(by apply cstring_bs, pem_text_nonul)).
  f_equal. destruct (decide (compatible f ∧ _)) as [Hd|Hd]; [by rewrite decide_True | by rewrite decide_False by tauto].
Qed.
End validate.

(** ** Zip archives *)

(** The local file header of a deflated entry, and an archive that starts
    with one. *)
Definition zip_head (v t4 : list byte) (n e d u : Z) : list byte :=
  [x50; x4b; x03; x04] ++ v ++ [x08; x00] ++ t4 ++ le_bytes 4 d ++ le_bytes 4 u ++ le_bytes 2 n ++ le_bytes 2 e.

Definition zip_entry (v t4 : list byte) (u : Z) (name extra data rest : list byte) : list byte :=
  zip_head v t4 (zlen name) (zlen extra) (zlen data) u ++ name ++ extra ++ data ++ rest.

Lemma zlen_le_bytes n z : zlen (le_bytes n z) = Z.of_nat n.
Proof. unfold zlen. by rewrite length_le_bytes. Qed.

(** Reading a field of an initialised object. *)
Lemma bread_field b (pre k post : list byte) (junk : buf) i n :
  b = bs (pre ++ k ++ post) ++ junk → i = zlen pre → n = zlen k → bread b i n = Ok (bs k).
Proof. intros -> -> ->. rewrite !bs_app, <-!app_assoc. apply bread_mid; by rewrite zlen_bs. Qed.

Lemma le_field_ok b pre n z post i m :
  b = bs (pre ++ le_bytes n z ++ post) → i = zlen pre → m = Z.of_nat n → 0 <= z < 256 ^ Z.of_nat n →
  le_field b i m = Ok z.
Proof.
  intros -> -> -> Hz. unfold le_field.
  rewrite (bread_field _ pre (le_bytes n z) post []), bind_Ok
    by (by rewrite ?app_nil_r, ?zlen_le_bytes).
  rewrite buf_bytes_bs, bind_Ok, le_value_bytes. by rewrite Z.mod_small.
Qed.

Lemma field_is_ok b pre k post i :
  b = bs (pre ++ k ++ post) → i = zlen pre → field_is b i k = Ok true.
Proof.
  intros -> ->. unfold field_is. rewrite (bread_field _ pre k post []), bind_Ok by (by rewrite ?app_nil_r).
  rewrite buf_bytes_bs, bind_Ok. by rewrite bool_decide_eq_true_2.
Qed.

Section zip.
Context (v t4 : list byte) (n e d u : Z).
Context (Hv : zlen v = 4) (Ht : zlen t4 = 8) (Hn : 0 <= n < 65536) (He : 0 <= e < 65536)
  (Hd : 0 <= d < 4294967296) (Hu : 0 <= u < 4294967296).
Abbreviation head := (bs (zip_head v t4 n e d u)).

Lemma zlen_zip_head : zlen (zip_head v t4 n e d u) = 30.
Proof. unfold zip_head. by rewrite !zlen_app, !zlen_le_bytes, Hv, Ht. Qed.

Lemma zip_head_signature : field_is head 0 [x50; x4b; x03; x04] = Ok true.
Proof. by apply (field_is_ok _ [] _ (v ++ [x08; x00] ++ t4 ++ le_bytes 4 d ++ le_bytes 4 u ++ le_bytes 2 n ++ le_bytes 2 e)). Qed.

Lemma zip_head_method : field_is head 8 [x08; x00] = Ok true.
Proof.
  apply (field_is_ok _ ([x50; x4b; x03; x04] ++ v) _ (t4 ++ le_bytes 4 d ++ le_bytes 4 u ++ le_bytes 2 n ++ le_bytes 2 e)).
  - unfold zip_head. by rewrite <-!app_assoc.
  - by rewrite zlen_app, Hv.
Qed.

Definition head18 : list byte := [x50; x4b; x03; x04] ++ v ++ [x08; x00] ++ t4.
Lemma zlen_head18 : zlen head18 = 18.
Proof. unfold head18. by rewrite !zlen_app, Hv, Ht. Qed.

(** A number of the header, given what precedes it. *)
Lemma zip_head_number pre m z post i :
  zip_head v t4 n e d u = head18 ++ pre ++ le_bytes m z ++ post → i = 18 + zlen pre →
  0 <= z < 256 ^ Z.of_nat m → le_field head i (Z.of_nat m) = Ok z.
Proof.
  intros E -> Hz. apply (le_field_ok _ (head18 ++ pre) m z post); [by rewrite E, <-app_assoc | | done | done].
  by rewrite zlen_app, zlen_head18.
Qed.

Lemma zip_head_numbers :
  le_field head 18 4 = Ok d ∧ le_field head 22 4 = Ok u ∧ le_field head 26 2 = Ok n ∧ le_field head 28 2 = Ok e.
Proof.
  repeat split.
  - apply (zip_head_number [] 4 d (le_bytes 4 u ++ le_bytes 2 n ++ le_bytes 2 e));
      [unfold zip_head, head18; by rewrite <-!app_assoc | done | done].
  - apply (zip_head_number (le_bytes 4 d) 4 u (le_bytes 2 n ++ le_bytes 2 e));
      [unfold zip_head, head18; by rewrite <-!app_assoc | by rewrite zlen_le_bytes | done].
  - apply (zip_head_number (le_bytes 4 d ++ le_bytes 4 u) 2 n (le_bytes 2 e));
      [unfold zip_head, head18; by rewrite <-!app_assoc | by rewrite zlen_app, !zlen_le_bytes | done].
  - apply (zip_head_number (le_bytes 4 d ++ le_bytes 4 u ++ le_bytes 2 n) 2 e []);
      [unfold zip_head, head18; by rewrite <-!app_assoc, app_nil_r | by rewrite !zlen_app, !zlen_le_bytes | done].
Qed.
End zip.

(** The stream for zlib: two bytes and the compressed data. *)
Lemma zlib_stream data :
  (z0 ← vla (zlen data + 2); z1 ← bstore z0 0 x78; z2 ← bstore z1 1 x9c; bwrite z2 2 (bs data)) =
    Ok (bs (x78 :: x9c :: data)).
Proof.
  pose proof (zlen_nonneg data). unfold vla. rewrite decide_True, bind_Ok by lia.
  assert (malloc (zlen data + 2) = None :: None :: malloc (zlen data)) as ->.
  { unfold malloc. by replace (Z.to_nat (zlen data + 2)) with (S (S (Z.to_nat (zlen data)))) by lia. }
  pose proof (bstore_mid [] None x78 (None :: malloc (zlen data)) 0 eq_refl) as E1. cbn [app] in E1.
  pose proof (bstore_mid [Some x78] None x9c (malloc (zlen data)) 1 eq_refl) as E2. cbn [app] in E2.
  rewrite E1, bind_Ok, E2, bind_Ok.
  change (Some x78 :: Some x9c :: malloc (zlen data)) with (bs [x78; x9c] ++ malloc (zlen data)).
  rewrite bwrite_end by (done || zlia).
  replace (drop (length (bs data)) (malloc (zlen data))) with ([] : buf)
    by (symmetry; apply nil_length_inv; zlia).
  by rewrite app_nil_r, <-bs_app.
Qed.

Lemma unzip_ok inflate v t4 u name extra data rest junk :
  zlen v = 4 → zlen t4 = 8 → zlen name < 65536 → zlen extra < 65536 →
  zlen data + 2 <= INT_MAX → 0 < u <= INT_MAX → 
  unzip inflate (bs (zip_entry v t4 u name extra data rest) ++ junk) =
    Ok (match inflate (x78 :: x9c :: data) u with Some out => Some (bs out ++ malloc 1) | None => None end).
Proof.
  intros Hv Ht Hn He Hd Hu. unfold unzip, zip_entry, INT_MAX in *.
  pose proof (zlen_nonneg name). pose proof (zlen_nonneg extra). pose proof (zlen_nonneg data).
  set (hd := zip_head v t4 (zlen name) (zlen extra) (zlen data) u).
  assert (zlen hd = 30) as Hhd by by apply zlen_zip_head.
  unfold memcpy. rewrite (bread_field _ [] hd (name ++ extra ++ data ++ rest) junk 0 30), bind_Ok by (done || by rewrite Hhd).
  rewrite bwrite_start, bind_Ok by (rewrite zlen_bs, zlen_malloc; lia).
  replace (drop (length (bs hd)) (malloc 30)) with ([] : buf) by (symmetry; apply nil_length_inv; zlia).
  rewrite app_nil_r. subst hd. rewrite zip_head_signature, bind_Ok. cbn [negb].
  rewrite zip_head_method, bind_Ok by done. cbn [negb].
  destruct (zip_head_numbers v t4 (zlen name) (zlen extra) (zlen data) u) as (-> & -> & -> & ->); try done; try lia.
  set (hd := zip_head v t4 (zlen name) (zlen extra) (zlen data) u) in *. rewrite !bind_Ok.
  rewrite (bread_field _ hd name (extra ++ data ++ rest) junk 30 (zlen name)), bind_Ok by (done || by rewrite Hhd).
  rewrite bwrite_start, bind_Ok by zlia. rewrite bstore_end, bind_Ok by zlia.
  rewrite !to_int_small by (unfold INT_MIN, INT_MAX; lia). rewrite i32_ok, bind_Ok by (unfold INT_MIN, INT_MAX; lia).
  pose proof (zlib_stream data) as Hz. apply bind_Ok_inv in Hz as (z0 & -> & Hz). rewrite bind_Ok.
  apply bind_Ok_inv in Hz as (z1 & -> & Hz). rewrite bind_Ok. apply bind_Ok_inv in Hz as (z2 & -> & Hz).
  rewrite bind_Ok.
  rewrite (bread_field _ (hd ++ name ++ extra) data rest junk (30 + zlen name + zlen extra) (zlen data)), bind_Ok
    by (by rewrite <-?app_assoc, ?zlen_app, ?Hhd, ?Z.add_assoc).
  rewrite Hz, bind_Ok. unfold vla. rewrite decide_True, bind_Ok by lia. rewrite buf_bytes_bs, bind_Ok.
  destruct (inflate (x78 :: x9c :: data) u) as [out|]; [|done]. pose proof (zlen_nonneg out).
  rewrite bwrite_start, bind_Ok by (rewrite zlen_bs, zlen_malloc; lia).
  do 3 f_equal. unfold malloc. rewrite drop_replicate. f_equal. rewrite length_bs. unfold zlen in *. lia.
Qed.

(** ** The service *)

Section service.
Context {key : Type} (SHA256 : list byte → list byte)
  (bio_write : list byte → list byte) (bio_read : list byte → Z → Z * list byte)
  (rsa_read_public_pem : list byte → option key)
  (RSA_verify : list byte → buf → Z → key → Z)
  (res_query : list byte → option (Z * Z * list byte))
  (inflate : list byte → Z → option (list byte))
  (get_content : xnode → list byte) (xml_read : list byte → option (list xnode)).

Abbreviation validate := (validate_dkim SHA256 bio_write bio_read rsa_read_public_pem RSA_verify res_query).
Abbreviation handle := (handle_message SHA256 bio_write bio_read rsa_read_public_pem RSA_verify res_query
  inflate get_content xml_read).

(** What handling one message can do to the service. *)
Lemma handle_message_cases m sv sv' :
  handle m sv = Ok sv' →
  sv' = sv ∨
  (∃ code t, validate m = Ok code ∧ code ≠ 0 ∧ sv_curl sv = PTo tt ∧ sv' = Service PFreed (sv_posts sv ++ [t])).
Proof.
  unfold handle_message. intros (code & Hcode & H)%bind_Ok_inv.
  case_decide as Hc; [injection H as <-; by left|].
  apply bind_Ok_inv in H as ([[z|] n] & _ & H); [|injection H as <-; by left]. cbn [fst] in H.
  apply bind_Ok_inv in H as ([x|] & _ & H); [|injection H as <-; by left].
  apply bind_Ok_inv in H as ([c sb] & _ & H). cbn [snd] in H.
  destruct (sb_str sb) as [b|] eqn:Eb; [|injection H as <-; by left].
  unfold post_data in H. rewrite Eb in H. apply bind_Ok_inv in H as ([] & Hd & H).
  apply bind_Ok_inv in H as (t & _ & H). apply bind_Ok_inv in H as (c' & Hf & [= <-]).
  right. exists code, t. destruct (sv_curl sv) as [| | |[]]; try discriminate Hd.
  injection Hf as <-. done.
Qed.

(** Handling messages one after the other. *)
Fixpoint handle_all (ms : list mail) (sv : service) : res service :=
  match ms with
  | [] => Ok sv
  | m :: ms' => sv' ← handle m sv; handle_all ms' sv'
  end.

(** The loop of [main] takes the mails from the queue in their order. *)
Lemma main_step_dequeues o r n m q s sv :
  covers r n → holds n (m :: q) s →
  ∃ s', holds n q s' ∧
    main_step SHA256 bio_write bio_read rsa_read_public_pem RSA_verify res_query inflate get_content xml_read
      o (PTo r) (s, sv) = (sv' ← handle m sv; Ok (s', sv')).
Proof.
  intros Hc Hh. destruct (pq_step_refines o r n Hc Dequeue (m :: q) s Hh I) as (s' & Hd & Hh').
  exists s'. split; [exact Hh'|]. unfold main_step. cbn [fst snd]. cbn [pq_step fifo_step fst snd] in Hd.
  apply bind_Ok_inv in Hd as ([[code d] s1] & -> & Hd). rewrite bind_Ok.
  case_decide as Hcode; [|by injection Hd].
  apply bind_Ok_inv in Hd as (m' & Hm & [= -> -> Hs]). rewrite decide_False by done.
  by rewrite Hm, bind_Ok; subst.
Qed.

(** An empty queue is waited for. *)
Lemma main_step_waits o r n s sv :
  covers r n → holds n [] s →
  ∃ s', holds n [] s' ∧
    main_step SHA256 bio_write bio_read rsa_read_public_pem RSA_verify res_query inflate get_content xml_read
      o (PTo r) (s, sv) = Ok (s', sv).
Proof.
  intros Hc Hh. destruct (pq_step_refines o r n Hc Dequeue [] s Hh I) as (s' & Hd & Hh').
  exists s'. split; [exact Hh'|]. unfold main_step. cbn [fst snd]. cbn [pq_step fifo_step fst snd] in Hd.
  apply bind_Ok_inv in Hd as ([[code d] s1] & -> & Hd). rewrite bind_Ok.
  case_decide as Hcode; [by apply bind_Ok_inv in Hd as (? & _ & [=])|].
  injection Hd as -> <-. by rewrite decide_True.
Qed.

Lemma main_loop_handles o r n ms q s sv :
  covers r n → holds n (ms ++ q) s →
  ∃ s', holds n q s' ∧
    main_loop SHA256 bio_write bio_read rsa_read_public_pem RSA_verify res_query inflate get_content xml_read
      o (PTo r) (length ms) (s, sv) = (sv' ← handle_all ms sv; Ok (s', sv')).
Proof.
  intros Hc. revert s sv. induction ms as [|m ms IH]; intros s sv Hh; [by exists s|].
  destruct (main_step_dequeues o r n m (ms ++ q) s sv Hc Hh) as (s1 & Hh1 & E).
  destruct (handle m sv) as [sv'|f] eqn:Em.
  - destruct (IH s1 sv' Hh1) as (s2 & Hh2 & E2). exists s2. split; [exact Hh2|].
    cbn [length main_loop handle_all]. by rewrite E, Em.
  - destruct (IH s1 sv Hh1) as (s2 & Hh2 & _). exists s2. split; [exact Hh2|].
    cbn [length main_loop handle_all]. by rewrite E, Em.
Qed.

(** A freed handle means one post; a live one none. *)
Definition service_inv (sv : service) : Prop :=
  match sv_curl sv with
  | PTo _ => sv_posts sv = []
  | PFreed => length (sv_posts sv) = 1%nat
  | _ => False
  end.

Lemma handle_inv m sv sv' : service_inv sv → handle m sv = Ok sv' → service_inv sv'.
Proof.
  intros Hinv [->|(code & t & _ & _ & Hc & ->)]%handle_message_cases; [done|].
  unfold service_inv in *. rewrite Hc in Hinv. cbn [sv_curl sv_posts]. by rewrite Hinv.
Qed.

Lemma handle_all_inv ms sv sv' :
  service_inv sv → handle_all ms sv = Ok sv' →
  service_inv sv' ∧ ∃ l, sv_posts sv' = sv_posts sv ++ l ∧
    (l ≠ [] → ∃ m code, m ∈ ms ∧ validate m = Ok code ∧ code ≠ 0).
Proof.
  revert sv. induction ms as [|m ms IH]; intros sv Hinv H.
  { injection H as <-. split; [done|]. exists []. by rewrite app_nil_r. }
  cbn [handle_all] in H. apply bind_Ok_inv in H as (sv1 & H1 & H).
  destruct (IH sv1 (handle_inv _ _ _ Hinv H1) H) as (Hinv' & l & Hl & Hval). split; [done|].
  destruct (handle_message_cases _ _ _ H1) as [->|(code & t & Hv & Hne & _ & ->)].
  - exists l. split; [done|]. intros Hn. destruct (Hval Hn) as (m' & c & Hin & ?). exists m', c.
    split; [by right | done].
  - exists (t :: l). split; [rewrite Hl; cbn [sv_posts]; by rewrite <-app_assoc|]. intros _. exists m, code. split; [by left | done].
Qed.
End service.

(** ** Properties *)

(** C2: validation of a queued message.  For a message with a usable signature
    whose selector and domain name a TXT record with the tags "k" and "p",
    [validate_dkim] faults nowhere and returns the verdict of RSA under the
    PEM form of the record's key on the text the signature covers, if the key
    type begins with "rsa", algorithm and canonicalization are supported and
    the body hash matches; otherwise 0. *)
Theorem validate_dkim_authentic {key : Type} SHA256 bio_write bio_read pem (RSA_verify : _ → _ → _ → key → Z) res_query
    m kvs dh f i sv q w s d rdata k p body nb :
  (∀ x, ∃ y, bio_write x = y ++ [LF] ∧ nonul y) →
  (∀ t n, 0 <= n → zlen (bio_read t n).2 <= n) →
  authenticated res_query m kvs dh f i sv q w s d rdata k p →
  str_at (mail_body m) body nb → nonul body →
  validate_dkim SHA256 bio_write bio_read pem RSA_verify res_query m =
    Ok (if decide (lit "rsa" `prefix_of` record_cut k ∧ compatible f ∧
            bh_text bio_write (SHA256 (relaxed_body body)) `prefix_of` f_bh f)
        then verdict SHA256 bio_read pem RSA_verify
          (covered (pairs_of m (length kvs)) kvs (f_h f) q) (f_b f) (pem_text (base64_wrap_list 0 (record_cut p)))
        else 0).
Proof. intros Hw Hr Ha Hb Hn. by apply (validate_dkim_eq _ _ _ _ _ _ Hw Hr) with (1 := Ha) (2 := Hb). Qed.

Definition pad_to (n : Z) (b : buf) : buf := b ++ malloc (n - zlen b).
Definition ex_hdr_of (kv : list byte * list byte) : hdr :=
  Hdr (pad_to KEY_MAX_LEN (cstr kv.1)) (pad_to VALUE_MAX_LEN (cstr kv.2)).
Definition ex_signature : list byte :=
  lit "v=1; a=rsa-sha256; c=relaxed/relaxed; s=sel; d=x.se; h=from:subject; bh=SGkN; b=fro".
Definition ex_headers : list (list byte * list byte) := [
  (lit "Subject", lit "Hi"); (sig_name, ex_signature); (lit "From", lit "a@b")].
Definition ex_message (hs : list (list byte * list byte)) (body : list byte) : mail :=
  Mail ((ex_hdr_of <$> hs) ++ replicate (20 - length hs) hdr_malloc) (zlen hs) (pad_to BODY_MAX_LEN (cstr body)).
Definition ex_signed_mail : mail := ex_message ex_headers (lit "Hi").
Definition ex_parsed : dkim_header :=
  match dkim_parse_header (pad_to VALUE_MAX_LEN (cstr ex_signature)) with
  | Ok dh => dh | Err _ => dkim_header_malloc end.
Definition ex_fields' : fields :=
  Fields (lit "rsa-sha256") (lit "relaxed/relaxed") (lit "from:subject") (lit "SGkN") (lit "fro").
Definition ex_dns (q : list byte) : option (Z * Z * list byte) :=
  if decide (q = lit "sel._domainkey.x.se") then Some (1, 16, x1f :: lit "k=rsa; p=QUJD") else None.

Lemma str_at_pad n s : str_at (pad_to n (cstr s)) s (length (pad_to n (cstr s))).
Proof.
  exists (malloc (n - zlen (cstr s))). split; [|done]. unfold pad_to, cstr. by rewrite <-app_assoc.
Qed.

Lemma ex_message_headers : message_headers ex_signed_mail ex_headers.
Proof.
  split; [done|]. split; [by_compute|].
  assert (Forall (λ kv, nonul kv.1 ∧ nonul kv.2) ex_headers) as H by by_compute.
  change (take (length ex_headers) (mail_headers ex_signed_mail)) with (ex_hdr_of <$> ex_headers).
  induction H as [|kv l [Hk Hv] _ IH]; [constructor|]. constructor; [|exact IH].
  split; [done|]. split; [done|]. split; eexists; apply str_at_pad.
Qed.

Lemma ex_authenticated :
  authenticated ex_dns ex_signed_mail ex_headers ex_parsed ex_fields' 1 ex_signature
    (lit "v=1; a=rsa-sha256; c=relaxed/relaxed; s=sel; d=x.se; h=from:subject; bh=SGkN; ") (lit "fro")
    (lit "sel") (lit "x.se") (x1f :: lit "k=rsa; p=QUJD") (lit "rsa") (lit "QUJD").
Proof.
  assert (fields_at ex_parsed ex_fields') as Hf by (repeat split; vm_compute; reflexivity).
  split; [exact ex_message_headers | | | vm_compute; reflexivity | vm_compute; reflexivity | reflexivity
    | by_compute | reflexivity | reflexivity].
  - exists (Stringpair (pad_to KEY_MAX_LEN (cstr sig_name)) (pad_to VALUE_MAX_LEN (cstr ex_signature))).
    split; [reflexivity|]. cbn [sp_value]. unfold ex_parsed.
    assert (match dkim_parse_header (pad_to VALUE_MAX_LEN (cstr ex_signature)) with
      | Ok _ => true | Err _ => false end = true) as H by by vm_compute.
    by destruct (dkim_parse_header _).
  - split; [apply message_pairs, ex_message_headers | by_compute | exact Hf | reflexivity | by_compute
      | reflexivity | reflexivity | by_compute].
Qed.

Lemma validate_dkim_authentic_witness :
  validate_dkim toy_hash toy_write toy_read toy_pem toy_verify ex_dns ex_signed_mail = Ok 1.
Proof.
  rewrite (validate_dkim_authentic toy_hash toy_write toy_read toy_pem toy_verify ex_dns ex_signed_mail
    ex_headers ex_parsed ex_fields' 1 ex_signature _ _ _ _ _ _ _ (lit "Hi") _
    ltac:(intros x; exists (b64 x); split; [reflexivity | apply b64_nonul])
    ltac:(intros t m Hm; unfold toy_read, zlen; cbn [snd]; rewrite length_take; lia)
    ex_authenticated (str_at_pad _ _) ltac:(by_compute)).
  vm_compute. reflexivity.
Defined.

(** A text without its terminator has no length. *)
Lemma cstring_unterminated s : nonul s → cstring (bs s ++ malloc 1) = Err Uninit.
Proof.
  induction s as [|c s IH]; intros Hc; [done|]. apply nonul_cons in Hc as [Hc Hs].
  change (cstring (bs (c :: s) ++ malloc 1)) with
    (if decide (c = NUL) then Ok [] else t ← cstring (bs s ++ malloc 1); Ok (c :: t)).
  by rewrite decide_False, IH.
Qed.

(** C37: unzipping.  For an archive that starts with a deflated entry, [unzip]
    returns NULL when zlib cannot start, and otherwise what zlib inflates from
    the two bytes it makes up and the entry's data, wherever name and extra field end - but in a buffer whose last byte
    is never written, so that [parse_xml], which takes the length of the
    buffer as a string, reads an indeterminate byte.  An archive of less than
    thirty bytes is read past its end. *)
Theorem unzip_unterminated inflate get_content xml_read sb v t4 u name extra data rest junk small out :
  zlen v = 4 → zlen t4 = 8 → zlen name < 65536 → zlen extra < 65536 →
  zlen data + 2 <= INT_MAX → 0 < u <= INT_MAX → zlen small < 30 →
  (inflate (x78 :: x9c :: data) u = None →
     unzip inflate (bs (zip_entry v t4 u name extra data rest) ++ junk) = Ok None) ∧
  (inflate (x78 :: x9c :: data) u = Some out → nonul out →
   ∃ x, unzip inflate (bs (zip_entry v t4 u name extra data rest) ++ junk) = Ok (Some x) ∧
     bread x 0 (zlen x - 1) = Ok (bs out) ∧
     parse_xml get_content xml_read x sb = Err Uninit) ∧
  unzip inflate small = Err OutOfBounds.
Proof.
  intros Hv Ht Hn He Hd Hu Hs.
  pose proof (unzip_ok inflate v t4 u name extra data rest junk Hv Ht Hn He Hd Hu) as E. split_and!.
  { intros Hno. by rewrite Hno in E. }
  { intros Hout Hnul. rewrite Hout in E. eexists. split; [exact E|].
    split; [apply bread_bs; rewrite zlen_app, zlen_bs; change (zlen (malloc 1)) with 1; lia|].
    unfold parse_xml. by rewrite cstring_unterminated. }
  assert (bread small 0 30 = Err OutOfBounds) as Eb by (unfold bread; by rewrite decide_False by lia).
  unfold unzip, memcpy. by rewrite Eb.
Qed.

Definition toy_inflate (stream : list byte) (u : Z) : option (list byte) :=
  Some (take (Z.to_nat u) (drop 2 stream)).

Lemma unzip_unterminated_witness :
  (∃ x, unzip toy_inflate (bs (zip_entry (replicate 4 x01) (replicate 8 x01) 3 (lit "a.xml") [] (lit "<a>bc") [])) = Ok (Some x) ∧
    bread x 0 (zlen x - 1) = Ok (bs (lit "<a>")) ∧
    parse_xml ex_content (λ _, None) x string_buffer_init = Err Uninit) ∧
  unzip toy_inflate (bs (lit "PK")) = Err OutOfBounds.
Proof.
  destruct (unzip_unterminated toy_inflate ex_content (λ _, None) string_buffer_init (replicate 4 x01)
    (replicate 8 x01) 3 (lit "a.xml") [] (lit "<a>bc") [] [] (bs (lit "PK")) (lit "<a>")
    eq_refl eq_refl ltac:(by_compute) ltac:(by_compute) ltac:(by_compute) ltac:(by_compute) ltac:(by_compute))
    as (_ & H & Hs). split; [|exact Hs].
  destruct (H eq_refl ltac:(by_compute)) as (x & Hx & Hrest). rewrite app_nil_r in Hx.
  exists x. split; [exact Hx | exact Hrest].
Defined.

(** C33: what reaches the web service.  Whatever messages are taken from the
    queue, in any number: a report is posted only after some message passed
    validation, and at most one report is posted in the life of the process,
    since [post_data] frees the handle that every further post uses. *)
Theorem service_posts_once {key : Type} SHA256 bio_write bio_read pem (RSA_verify : _ → _ → _ → key → Z) res_query
    inflate get_content xml_read ms sv :
  handle_all SHA256 bio_write bio_read pem RSA_verify res_query inflate get_content xml_read ms
    (Service (PTo tt) []) = Ok sv →
  (length (sv_posts sv) <= 1)%nat ∧
  (sv_posts sv ≠ [] → sv_curl sv = PFreed ∧
    ∃ m code, m ∈ ms ∧ validate_dkim SHA256 bio_write bio_read pem RSA_verify res_query m = Ok code ∧ code ≠ 0).
Proof.
  intros H. apply handle_all_inv in H as (Hinv & l & Hl & Hval); [|done]. cbn [sv_posts app] in Hl. subst l.
  unfold service_inv in Hinv. destruct (sv_curl sv) as [| | |u]; try done.
  - split; [lia|]. intros Hne. split; [done | by apply Hval].
  - rewrite Hinv. split; [simpl; lia | done].
Qed.

Definition ex_signature2 : list byte :=
  lit "v=1; a=rsa-sha256; c=relaxed/relaxed; s=sel; d=x.se; h=from:subject; bh=QUFB; b=fro".
Definition ex_report_mail : mail :=
  ex_message [(lit "Subject", lit "Hi"); (sig_name, ex_signature2); (lit "From", lit "a@b");
    (lit "Content-Transfer-Encoding", lit "base64")] (replicate 60 x41).
Definition ex_zip : list byte := zip_entry (replicate 4 x01) (replicate 8 x01) 3 (lit "a") [] (lit "xyz") [].
Definition ex_read (t : list byte) (m : Z) : Z * list byte :=
  if decide (m < 60) then toy_read t m else (zlen ex_zip, ex_zip).
Definition ex_inflate (stream : list byte) (u : Z) : option (list byte) :=
  option_map (λ t, t ++ [NUL]) (toy_inflate stream 2).
Definition ex_service : service :=
  match handle_all toy_hash toy_write ex_read toy_pem toy_verify ex_dns ex_inflate ex_content (λ _, Some [])
    [ex_report_mail] (Service (PTo tt) []) with
  | Ok sv => sv | Err _ => Service PNull [] end.

Lemma service_posts_once_witness :
  sv_posts ex_service = [q1 ++ lit "records" ++ quote :: lit ": []"] ∧
  (length (sv_posts ex_service) <= 1)%nat ∧
  (sv_posts ex_service ≠ [] → sv_curl ex_service = PFreed).
Proof.
  split; [vm_compute; reflexivity|].
  destruct (service_posts_once toy_hash toy_write ex_read toy_pem toy_verify ex_dns ex_inflate ex_content
    (λ _, Some []) [ex_report_mail] ex_service) as [H1 H2].
  { vm_compute. reflexivity. }
  split; [exact H1|]. intros Hne. destruct (H2 Hne) as [H3 _]. exact H3.
Defined.
