(* ===== verification/HandlerEnds.v ===== *)
(** HandlerEnds: the mail handler ends on every message: whatever a mail holds,
    and whatever OpenSSL, the resolver, zlib and libxml2 answer, none of the
    loops of [src/firm-dkim-extended], [src/src/base64.c] and
    [src/src/mailhandler] runs for ever. *)
From S2P Require Import Prelude Base Config Layout Ends Queue Canon Base64 Dkim StringBuffer Json Mailhandler.

Lemma ends_mapM {A B} (f : A → res B) l : (∀ x, ends (f x) anything) → ends (mapM f l) anything.
Proof.
  intros Hf. induction l as [|x l IH]; [done|].
  eapply ends_bind; [apply Hf|]. intros y _. by eapply ends_bind; [apply IH|].
Qed.
#[export] Hint Resolve ends_mapM : ends.

(** ** Strings *)

(** A NUL bounds the string before it. *)
Lemma cstring_before b s i : cstring b = Ok s → b !! i = Some (Some NUL) → (length s <= i)%nat.
Proof.
  revert s i. induction b as [|[c|] b IH]; intros s i; [done| |done].
  unfold cstring; fold cstring. case_decide as Hc; [intros [= <-]; simpl; lia|].
  intros (s' & Hs & [= <-])%bind_Ok_inv Hi. destruct i as [|i]; [by injection Hi|].
  specialize (IH s' i Hs Hi). simpl. lia.
Qed.

(** A loop without an invariant. *)
Lemma ends_counting {S} (step : S → res (ctl S)) (m : S → nat) fuel s :
  (∀ s, ends (step s) (λ c, match c with Next s' => (m s' < m s)%nat | Break _ => True end)) →
  (m s < fuel)%nat → ends (cloop step fuel s) anything.
Proof.
  intros Hstep. apply (ends_cloop _ anything); [|done]. intros s1 _.
  eapply ends_mono; [apply Hstep|]. by intros [s2|s2].
Qed.

(** The loop of the goal counts with [m]. *)
Ltac counting m := apply (ends_counting _ m); [intros ?s | cbn [fst snd ip_e bc_i]; lia].

Lemma rtrim_step_ends p s : ends (rtrim_step p s) (λ c,
  match c with Next s' => (Z.to_nat s'.2 < Z.to_nat s.2)%nat | Break _ => True end).
Proof.
  destruct s as [b len]. unfold rtrim_step.
  eapply ends_bind; [apply ends_bload|]. intros c0 _. case_decide as H0; [|done].
  eapply ends_bind; [apply ends_bload|]. intros c Hlen. destruct (p c); [|done].
  unfold bstore. case_decide as Hin; [|done]. rewrite bind_Ok. unfold strlen.
  destruct (cstring _) as [t|f] eqn:E;
    [|pose proof (ends_cstring (<[Z.to_nat (len - 1):=Some NUL]> b)) as Hf; by rewrite E in Hf].
  rewrite bind_Ok. eapply ends_Ok. cbn beta iota in *.
  apply (cstring_before _ _ (Z.to_nat (len - 1))) in E; [cbn [snd]; unfold zlen; lia|].
  apply list_lookup_insert_eq. unfold zlen in Hin. lia.
Qed.

Lemma rtrim_ends p b : ends (rtrim_with p b) anything.
Proof.
  unfold rtrim_with. eapply ends_bind; [apply ends_strlen|]. intros len _.
  eapply ends_bind; [|by intros s _; apply ends_Ok].
  counting (λ s : buf * Z, Z.to_nat s.2). apply rtrim_step_ends.
Qed.

Lemma rtrim_ends' b : ends (rtrim b) anything.
Proof. apply rtrim_ends. Qed.
Lemma rtrim_lines_ends b : ends (rtrim_lines b) anything.
Proof. apply rtrim_ends. Qed.
#[export] Hint Resolve rtrim_ends' rtrim_lines_ends : ends.

Lemma ltrim_step_ends b s :
  strlen (drop (Z.to_nat s.1) b) = Ok s.2 → 0 <= s.1 →
  ends (ltrim_step b s) (λ c, match c with
    | Next s' => (strlen (drop (Z.to_nat s'.1) b) = Ok s'.2 ∧ 0 <= s'.1) ∧ (Z.to_nat s'.2 < Z.to_nat s.2)%nat
    | Break _ => True end).
Proof.
  destruct s as [start len]. cbn [fst snd]. intros Hs H0. unfold ltrim_step.
  destruct (bload b start) as [c|f] eqn:Ec; [|pose proof (ends_bload b start) as Hf; by rewrite Ec in Hf].
  rewrite bind_Ok. case_decide as Hc; [|done]. destruct (is_wsp c); [|done].
  unfold ptr_add. case_decide as Hin; [|done]. rewrite bind_Ok.
  assert (drop (Z.to_nat start) b = Some c :: drop (Z.to_nat (start + 1)) b) as Hd.
  { unfold bload in Ec. rewrite decide_True in Ec by done.
    destruct (b !! Z.to_nat start) as [[c'|]|] eqn:E; [|done..]. injection Ec as ->.
    replace (Z.to_nat (start + 1)) with (S (Z.to_nat start)) by lia. by apply drop_S. }
  rewrite Hd in Hs. unfold strlen in Hs. unfold cstring in Hs; fold cstring in Hs.
  rewrite decide_False in Hs by tauto. unfold strlen.
  destruct (cstring (drop (Z.to_nat (start + 1)) b)) as [t|f] eqn:E; [|done].
  rewrite !bind_Ok in *. injection Hs as <-. eapply ends_Ok. cbn beta iota. cbn [fst snd].
  rewrite E, bind_Ok, zlen_cons. pose proof (zlen_nonneg t). split; [split; [done|lia]|lia].
Qed.

Lemma ltrim_ends b : ends (ltrim b) anything.
Proof.
  unfold ltrim. destruct (strlen b) as [len|f] eqn:E; [|pose proof (ends_strlen b) as Hf; by rewrite E in Hf].
  rewrite bind_Ok. eapply ends_bind; [|by intros s _; ends_auto].
  apply (ends_cloop _ (λ s, strlen (drop (Z.to_nat s.1) b) = Ok s.2 ∧ 0 <= s.1) (λ s, Z.to_nat s.2) anything).
  - intros s [H1 H2]. eapply ends_mono; [by apply ltrim_step_ends|]. by intros [s'|s'].
  - cbn [fst snd]. by rewrite drop_0.
  - cbn [snd]. lia.
Qed.
#[export] Hint Resolve ltrim_ends : ends.

(** Loops that run an index up to a length. *)
Lemma reduce_wsp_ends b : ends (reduce_wsp b) anything.
Proof.
  unfold reduce_wsp. eapply ends_bind; [apply ends_strlen|]. intros len _.
  eapply ends_bind; [|by intros s _; ends_auto].
  counting (λ s, Z.to_nat (len - ip_e s)). unfold reduce_step. ends_auto; cbn [ip_e]; lia.
Qed.

Lemma unfold_lines_ends b : ends (unfold_lines b) anything.
Proof.
  unfold unfold_lines. eapply ends_bind; [apply ends_strlen|]. intros len _.
  eapply ends_bind; [|by intros s _; ends_auto].
  counting (λ s, Z.to_nat (len - ip_e s)). unfold unfold_step. ends_auto; cbn [ip_e]; lia.
Qed.

Lemma str_to_lower_ends b : ends (str_to_lower b) anything.
Proof.
  unfold str_to_lower. eapply ends_bind; [apply ends_strlen|]. intros len _.
  eapply ends_bind; [|by intros s _; ends_auto].
  counting (λ s : buf * Z, Z.to_nat (len - s.2)). unfold lower_step. ends_auto; cbn [snd]; lia.
Qed.

Lemma lower_in_place_ends b : ends (lower_in_place b) anything.
Proof.
  unfold lower_in_place. eapply ends_bind; [apply ends_strlen|]. intros len _.
  eapply ends_bind; [|by intros s _; ends_auto].
  counting (λ s : buf * Z, Z.to_nat (len - s.2)). unfold lower_step_in. ends_auto; cbn [snd]; lia.
Qed.

Lemma copy_string_ends b : ends (copy_string b) anything.
Proof. unfold copy_string. by ends_auto. Qed.
#[export] Hint Resolve reduce_wsp_ends unfold_lines_ends str_to_lower_ends lower_in_place_ends
  copy_string_ends : ends.

Lemma relaxed_header_canon_ends hs : ends (relaxed_header_canon hs) anything.
Proof.
  unfold relaxed_header_canon. repeat (eapply ends_bind; [apply ends_mapM; intros h; by ends_auto|intros ? _]).
  apply ends_mapM. intros h. by ends_auto.
Qed.

Lemma relaxed_body_canon_line_ends l : ends (relaxed_body_canon_line l) anything.
Proof. unfold relaxed_body_canon_line. by ends_auto. Qed.
#[export] Hint Resolve relaxed_header_canon_ends relaxed_body_canon_line_ends : ends.

Lemma add_line_ends body offset n nb nlen : ends (add_line body offset n nb nlen) anything.
Proof. unfold add_line. by ends_auto. Qed.
#[export] Hint Resolve add_line_ends : ends.

Lemma relaxed_body_canon_ends body : ends (relaxed_body_canon body) anything.
Proof.
  unfold relaxed_body_canon. eapply ends_bind; [apply ends_strlen|]. intros len _.
  apply (ends_bind _ _ anything); [|intros s _; by ends_auto].
  counting (λ s, Z.to_nat (len - bc_i s)). unfold body_step. ends_auto; cbn [bc_i]; repeat case_match; lia.
Qed.
#[export] Hint Resolve relaxed_body_canon_ends : ends.

(** ** Base64 *)

Lemma skip_ends src i : ends (cloop (skip_step src) (S (length src)) i) (λ i', i <= i').
Proof.
  destruct (decide (0 <= i)) as [Hi|Hi].
  - apply (ends_cloop _ (λ j, i <= j) (λ j, Z.to_nat (zlen src - j))); [|lia|unfold zlen; lia].
    intros j Hj. unfold skip_step. ends_auto. case_decide; lia.
  - apply (ends_cloop _ (λ j, j = i) (λ _, 0%nat)); [|done|lia].
    intros j ->. unfold skip_step, bload. by rewrite decide_False.
Qed.
#[export] Hint Resolve skip_ends : ends.

Lemma base64_decode_ends dest src n : ends (base64_decode dest src n) anything.
Proof.
  unfold base64_decode. eapply ends_bind; [apply ends_bload|]. intros c _. case_decide; [done|].
  apply (ends_bind _ _ anything); [|intros s _; by ends_auto].
  apply (ends_cloop _ (λ s, 0 <= de_src s) (λ s, Z.to_nat (zlen src - de_src s)) anything);
    [|done | cbn [de_src]; unfold zlen; lia].
  intros s Hs. unfold decode_step. ends_auto; try done. case_decide; [done|]. cbn [de_src]. lia.
Qed.

Lemma base64_wrap_ends str len : ends (base64_wrap str len) anything.
Proof.
  unfold base64_wrap. eapply ends_bind; [|by intros s _; ends_auto].
  counting (λ s : buf * Z * Z * Z, Z.to_nat (len - s.1.2)). unfold base64_wrap_step.
  ends_auto; cbn [fst snd]; lia.
Qed.
#[export] Hint Resolve base64_wrap_ends : ends.

Section openssl.
Context (bio_write : list byte → list byte) (bio_read : list byte → Z → Z * list byte).

Lemma base64_encode_ends input : ends (base64_encode bio_write input) anything.
Proof.
  unfold base64_encode. do 3 (eapply ends_bind; [eauto with ends nocore|intros ? ?]).
  eapply ends_bind; [|by intros s _; ends_auto].
  counting (λ s : buf * Z * Z, Z.to_nat (a1 - s.1.2)). unfold strip_step. ends_auto; cbn [fst snd]; lia.
Qed.

Lemma base64_decode_bio_ends input n : ends (base64_decode_bio bio_read input n) anything.
Proof. unfold base64_decode_bio. by ends_auto. Qed.
End openssl.
#[export] Hint Resolve base64_encode_ends base64_decode_bio_ends : ends.

(** ** The tag lists *)

Section tags.
Context {T S : Type} (get : T → S → buf) (set : T → buf → S → S) (names : list (list byte * T)) (max : Z).

Lemma find_tag_ends b : Forall (λ kt, kt.1 ≠ []) names →
  ends (find_tag names b) (λ r, match r with Some (_, n) => 0 < n | None => True end).
Proof.
  intros Hn. induction Hn as [|[k t] l Hk _ IH]; [done|]. cbn [find_tag]. ends_auto.
  - destruct k; [done|]. rewrite zlen_cons. pose proof (zlen_nonneg k). lia.
  - done.
Qed.

Lemma param_store_ends t i c s : ends (param_store get set t i c s) anything.
Proof. unfold param_store. by ends_auto. Qed.
#[local] Hint Resolve param_store_ends : ends.

Lemma tag_step_ends txt len s : Forall (λ kt, kt.1 ≠ []) names →
  ends (tag_step get set names max txt len s) (λ c,
    match c with Next s' => (Z.to_nat (len - tg_i s') < Z.to_nat (len - tg_i s))%nat | Break _ => True end).
Proof.
  intros Hn. unfold tag_step. case_decide as Hi; [|done]. destruct (tg_in_val s).
  - ends_auto; cbn [tg_i]; lia.
  - eapply ends_bind; [apply ends_ptr_add|]. intros p _.
    eapply ends_bind; [by apply find_tag_ends|]. intros [[t n]|] Hf; cbn in Hf |- *; lia.
Qed.

Lemma parse_tags_ends st txt : Forall (λ kt, kt.1 ≠ []) names → ends (parse_tags get set names max st txt) anything.
Proof.
  intros Hn. unfold parse_tags. eapply ends_bind; [apply ends_strlen|]. intros len _.
  apply (ends_bind _ _ anything); [|intros s _; by ends_auto].
  apply (ends_counting _ (λ s, Z.to_nat (len - tg_i s))); [|cbn [tg_i]; lia].
  intros s. by apply tag_step_ends.
Qed.
End tags.

Lemma dkim_parse_header_ends sig : ends (dkim_parse_header sig) anything.
Proof. apply parse_tags_ends. by repeat constructor. Qed.
Lemma dkim_parse_dns_ends txt : ends (dkim_parse_dns txt) anything.
Proof. apply parse_tags_ends. by repeat constructor. Qed.
#[export] Hint Resolve dkim_parse_header_ends dkim_parse_dns_ends : ends.

(** ** The validation of a signature *)

Lemma dkim_index_ends hs i : ends (dkim_index hs i) anything.
Proof. revert i. induction hs as [|h hs IH]; intros i; cbn [dkim_index]; [done|]. by ends_auto. Qed.
#[export] Hint Resolve dkim_index_ends : ends.

Lemma dkim_get_header_ends hs : ends (dkim_get_header hs) anything.
Proof. unfold dkim_get_header. by ends_auto. Qed.

Lemma inc_add_ends h s : ends (inc_add h s) anything.
Proof. unfold inc_add. by ends_auto. Qed.
#[export] Hint Resolve dkim_get_header_ends inc_add_ends : ends.

Lemma include_all_ends hs header n s : ends (include_all hs header n s) anything.
Proof. revert s. induction hs as [|h hs IH]; intros s; cbn [include_all]; [done|]. by ends_auto. Qed.
#[export] Hint Resolve include_all_ends : ends.

Lemma included_headers_ends hs h : ends (included_headers hs h) anything.
Proof.
  unfold included_headers. eapply ends_bind; [apply ends_strlen|]. intros len _.
  eapply ends_bind; [|by intros s _; ends_auto].
  counting (λ s : Z * Z * included, Z.to_nat (len - s.1.1)). unfold include_step.
  ends_auto; cbn [fst snd]; lia.
Qed.

Lemma dkim_check_compability_ends dh : ends (dkim_check_compability dh) anything.
Proof. unfold dkim_check_compability. by ends_auto. Qed.

Lemma header_line_ends last h s : ends (header_line last h s) anything.
Proof. unfold header_line. by ends_auto. Qed.
#[export] Hint Resolve included_headers_ends dkim_check_compability_ends header_line_ends : ends.

Lemma header_lines_ends hs s : ends (header_lines hs s) anything.
Proof. revert s. induction hs as [|h hs IH]; intros s; cbn [header_lines]; [done|]. by ends_auto. Qed.
#[export] Hint Resolve header_lines_ends : ends.

Lemma signed_text_ends dh inc : ends (signed_text dh inc) anything.
Proof.
  unfold signed_text. eapply ends_bind; [apply relaxed_header_canon_ends|]. intros hs _.
  eapply ends_bind; [apply header_lines_ends|]. intros [str n] _.
  eapply ends_bind; [apply ends_strlen|]. intros len Hlen. cbn beta iota.
  eapply ends_bind; [|].
  - cbn in Hlen. apply (ends_counting _ (λ s : buf * Z * Z, Z.to_nat s.2)); [|cbn [snd]; lia].
    intros s. unfold cut_step. ends_auto; cbn [snd]; try done; lia.
  - intros [[str' n'] i] _. eapply ends_bind; [apply ends_bread|]. intros t _.
    apply ends_mapM. by intros [c|].
Qed.
#[export] Hint Resolve signed_text_ends : ends.

Section openssl_validate.
Context {key : Type} (SHA256 : list byte → list byte)
  (bio_write : list byte → list byte) (bio_read : list byte → Z → Z * list byte)
  (rsa_read_public_pem : list byte → option key)
  (RSA_verify : list byte → buf → Z → key → Z)
  (res_query : list byte → option (Z * Z * list byte)).

Lemma dkim_validate_body_hash_ends dh body :
  ends (dkim_validate_body_hash SHA256 bio_write dh body) anything.
Proof. unfold dkim_validate_body_hash. by ends_auto. Qed.

Lemma verify_signature_ends dh text pk :
  ends (verify_signature SHA256 bio_read rsa_read_public_pem RSA_verify dh text pk) anything.
Proof. unfold verify_signature. by ends_auto. Qed.
#[local] Hint Resolve dkim_validate_body_hash_ends verify_signature_ends : ends.

Lemma dkim_validate_ends hs body dh pk :
  ends (dkim_validate SHA256 bio_write bio_read rsa_read_public_pem RSA_verify hs body dh pk) anything.
Proof. unfold dkim_validate. by ends_auto. Qed.
#[local] Hint Resolve dkim_validate_ends : ends.

Lemma dns_gettxt_ends name : ends (dns_gettxt res_query name) anything.
Proof.
  unfold dns_gettxt. eapply ends_bind; [apply ends_cstring|]. intros q _.
  destruct (res_query q) as [[[cls typ] rdata]|]; [|done]. case_decide; [|done].
  eapply ends_bind; [|by intros s _; ends_auto].
  apply (ends_counting _ (λ s : buf * Z * Z, Z.to_nat (zlen rdata - s.2))); [|cbn [snd]; unfold zlen; lia].
  intros s. unfold gettxt_step. ends_auto; cbn [snd]; lia.
Qed.
#[local] Hint Resolve dns_gettxt_ends : ends.

Lemma convert_headers_ends n hs : ends (convert_headers n hs) anything.
Proof. revert hs. induction n as [|n IH]; intros hs; cbn [convert_headers]; [done|]. by ends_auto. Qed.

Lemma sprintf_new_ends n text : ends (sprintf_new n text) anything.
Proof. unfold sprintf_new. by ends_auto. Qed.
#[local] Hint Resolve convert_headers_ends sprintf_new_ends : ends.

Lemma validate_dkim_ends message :
  ends (validate_dkim SHA256 bio_write bio_read rsa_read_public_pem RSA_verify res_query message) anything.
Proof. unfold validate_dkim. by ends_auto. Qed.
End openssl_validate.
#[export] Hint Resolve validate_dkim_ends : ends.

(** ** The content *)

Lemma find_encoding_ends n hs : ends (find_encoding n hs) anything.
Proof. revert hs. induction n as [|n IH]; intros hs; cbn [find_encoding]; [done|]. by ends_auto. Qed.
#[export] Hint Resolve find_encoding_ends : ends.

Lemma decode_content_ends bio_read message : ends (decode_content bio_read message) anything.
Proof. unfold decode_content. by ends_auto. Qed.

Lemma le_field_ends zip i n : ends (le_field zip i n) anything.
Proof. unfold le_field. by ends_auto. Qed.
Lemma field_is_ends zip i k : ends (field_is zip i k) anything.
Proof. unfold field_is. by ends_auto. Qed.
Lemma vla_ends n : ends (vla n) anything.
Proof. unfold vla. by ends_auto. Qed.
#[export] Hint Resolve decode_content_ends le_field_ends field_is_ends vla_ends : ends.

Lemma unzip_ends inflate zipdata : ends (unzip inflate zipdata) anything.
Proof. unfold unzip. by ends_auto. Qed.
#[export] Hint Resolve unzip_ends : ends.

(** ** The conversion *)

Lemma string_buffer_append_ends sb v : ends (string_buffer_append sb v) anything.
Proof. unfold string_buffer_append, string_buffer_grow. by ends_auto. Qed.
Lemma put_ends sb s : ends (put sb s) anything.
Proof. apply string_buffer_append_ends. Qed.
#[export] Hint Resolve string_buffer_append_ends put_ends : ends.

Lemma json_escape_ends str : ends (json_escape str) anything.
Proof.
  unfold json_escape. eapply ends_bind; [apply ends_strlen|]. intros len _.
  eapply ends_bind; [apply ends_i32|]. intros n _.
  eapply ends_bind; [|by intros s _; ends_auto].
  counting (λ s : buf * Z * Z, Z.to_nat (len - s.1.2)). unfold escape_step.
  ends_auto; cbn [fst snd]; lia.
Qed.
#[export] Hint Resolve json_escape_ends : ends.

Section json.
Context (get_content : xnode → list byte) (xml_read : list byte → option (list xnode)).

Lemma json_loop_ends f first l sb :
  Forall (λ n, ∀ sb, ends (f n sb) anything) l → ends (json_loop f first l sb) anything.
Proof.
  intros Hl. revert first sb. induction Hl as [|n l Hn _ IH]; intros first sb; cbn [json_loop]; [done|].
  destruct n; [|apply IH..]. apply (ends_bind _ _ anything); [destruct first; by ends_auto|].
  intros sb1 _. eapply ends_bind; [apply Hn|]. intros sb2 _. apply IH.
Qed.

Lemma json_node_ends n sb : ends (json_node get_content n sb) anything.
Proof.
  revert sb. induction n as [name children IH|s|] using xnode_rect'; intros sb; [|done..].
  cbn [json_node]. pose proof json_loop_ends. destruct children as [|c [|c' l]]; by ends_auto.
Qed.

Lemma to_json_ends name nodes sb : ends (to_json get_content name nodes sb) anything.
Proof.
  unfold to_json. assert (Forall (λ n, ∀ sb, ends (json_node get_content n sb) anything) nodes).
  { apply Forall_forall. intros n _. apply json_node_ends. }
  pose proof json_loop_ends. by ends_auto.
Qed.
#[local] Hint Resolve to_json_ends : ends.

Lemma records_loop_ends first l sb : ends (records_loop get_content first l sb) anything.
Proof. revert first sb. induction l as [|n l IH]; intros first sb; cbn [records_loop]; [done|]. by ends_auto. Qed.
#[local] Hint Resolve records_loop_ends : ends.

Lemma records_to_json_ends nodes sb : ends (records_to_json get_content nodes sb) anything.
Proof. unfold records_to_json. by ends_auto. Qed.

Lemma sections_loop_ends l sb : ends (sections_loop get_content l sb) anything.
Proof. revert sb. induction l as [|n l IH]; intros sb; cbn [sections_loop]; [done|]. by ends_auto. Qed.
#[local] Hint Resolve records_to_json_ends sections_loop_ends : ends.

Lemma parse_xml_ends document sb : ends (parse_xml get_content xml_read document sb) anything.
Proof. unfold parse_xml. by ends_auto. Qed.
End json.
#[export] Hint Resolve parse_xml_ends : ends.

Lemma post_data_ends data sv : ends (post_data data sv) anything.
Proof. unfold post_data. by ends_auto. Qed.
#[export] Hint Resolve post_data_ends : ends.

(** ** One message *)

(** C11: The handler ends on every message: whatever the bytes of a mail in the
    queue, and whatever OpenSSL, the resolver, zlib and libxml2 answer,
    [handle_message] returns or stops with a fault of the program, and no loop
    of the validation, the decoding, the unzipping or the conversion to JSON
    runs for ever. *)
Theorem handle_message_ends {key : Type} (SHA256 : list byte → list byte)
    (bio_write : list byte → list byte) (bio_read : list byte → Z → Z * list byte)
    (rsa_read_public_pem : list byte → option key) (RSA_verify : list byte → buf → Z → key → Z)
    (res_query : list byte → option (Z * Z * list byte)) (inflate : list byte → Z → option (list byte))
    (get_content : xnode → list byte) (xml_read : list byte → option (list xnode))
    (message : mail) (sv : service) :
  handle_message SHA256 bio_write bio_read rsa_read_public_pem RSA_verify res_query inflate
    get_content xml_read message sv ≠ Err OutOfFuel.
Proof.
  apply (ends_fuel _ anything). unfold handle_message. by ends_auto.
Qed.
