(* ===== verification/System.v ===== *)
(** System: a worker and its mail handler together: what clients send to the
    worker over SMTP is what the mail handler handles. *)
From stdpp Require Import gmap.
From S2P Require Import Prelude Base Config Response Layout Socket Queue QueueSys QueueFs Request RequestData Connection Worker Server.
From S2P Require Import Canon Base64 Dkim StringBuffer Json Mailhandler.

#[local] Open Scope Z_scope.

Section system.
Context {key : Type} (SHA256 : list byte → list byte)
  (bio_write : list byte → list byte) (bio_read : list byte → Z → Z * list byte)
  (rsa_read_public_pem : list byte → option key)
  (RSA_verify : list byte → buf → Z → key → Z)
  (res_query : list byte → option (Z * Z * list byte))
  (inflate : list byte → Z → option (list byte))
  (get_content : xnode → list byte) (xml_read : list byte → option (list xnode)).

Abbreviation handler_loop := (main_loop SHA256 bio_write bio_read rsa_read_public_pem RSA_verify res_query
  inflate get_content xml_read).
Abbreviation handle_mails := (handle_all SHA256 bio_write bio_read rsa_read_public_pem RSA_verify res_query
  inflate get_content xml_read).

(** A service whose curl handle is fresh. *)
Definition fresh_service : service := Service (PTo tt) [].

(** A mail handler opens the queue in the file that its argument names, when
    there is one of the size on its command line. *)
Lemma handler_opens_queue o handle semid n q w a0 path file junk url :
  os_ok o handle semid → cstring path = Ok file → Queue.holds n q (at_path file w) →
  0 < n → slot_offset n <= INT_MAX → slot_offset n <= round_page (os_page o) (n * sizeof_mail) →
  ∃ r s1, main_init o true [a0; path; cstr (decimal n) ++ junk; url] w =
      Ok (Some (PTo r, file, fresh_service), with_path file s1 w) ∧
    covers r n ∧ Queue.holds n q s1.
Proof.
  intros Ho Hpath (Hq & Hs & Hwf) Hn Hmax Hround. set (s := at_path file w) in *.
  destruct (queue_at_size _ _ _ Hq) as (b & Hf & Hb & Hint & _).
  pose proof (pq_init_existing o handle semid Ho n b s Hf Hb Hn Hmax) as Hi.
  set (r := PqRef handle (round_page (os_page o) (n * sizeof_mail)) (Some semid)) in *.
  set (s1 := semaphore_init (set_fds (handle :: sys_fds s) s)) in *.
  assert (Queue.holds n q s1) as Hh by (split_and!; [by eapply queue_at_file; [|exact Hq] | done | done]).
  exists r, s1. split; [|by split; [exact Hround|]]. unfold main_init, pq_init_path.
  set (count := cstr (decimal n) ++ junk).
  rewrite (aload_lookup _ 1 path), bind_Ok, (aload_lookup _ 2 count), bind_Ok by done. unfold count.
  rewrite atoi_decimal, bind_Ok by (unfold INT_MIN; lia).
  rewrite (aload_lookup _ 3 url), bind_Ok, Hpath, bind_Ok by done. fold s. by rewrite Hi.
Qed.

(** Its loop then handles the mails in it. *)
Lemma handler_serves_queue o handle semid n q w a0 path file junk url :
  os_ok o handle semid → cstring path = Ok file → Queue.holds n q (at_path file w) →
  0 < n → slot_offset n <= INT_MAX → slot_offset n <= round_page (os_page o) (n * sizeof_mail) →
  ∃ r s1 s2, main_init o true [a0; path; cstr (decimal n) ++ junk; url] w =
      Ok (Some (PTo r, file, fresh_service), with_path file s1 w) ∧
    handler_loop o (PTo r) (length q) (s1, fresh_service) =
      (sv ← handle_mails q fresh_service; Ok (s2, sv)) ∧
    Queue.holds n [] s2.
Proof.
  intros Ho Hpath Hh Hn Hmax Hround.
  destruct (handler_opens_queue o handle semid n q w a0 path file junk url Ho Hpath Hh Hn Hmax Hround)
    as (r & s1 & Hi & Hcov & Hh1).
  rewrite <-(app_nil_r q) in Hh1.
  destruct (main_loop_handles SHA256 bio_write bio_read rsa_read_public_pem RSA_verify res_query inflate
    get_content xml_read o r n q [] s1 fresh_service Hcov Hh1) as (s2 & Hh2 & E).
  by exists r, s1, s2.
Qed.

(** C6: What clients send is what the mail handler handles.  A worker whose
    queue is new serves its clients as the specification says, which puts each
    message that a session completes into a queue of [queue-size] messages, or
    drops it, answered 250 all the same, when that queue is full.  The path in
    the arguments with which [worker_init] starts the mail handler names the
    file of the worker's queue: started after these events the handler opens
    that file, and its loop handles exactly the messages that the specification
    left in the queue, each with its sender's fields and body, once and in
    order, until the queue is empty; it stops earlier only where handling one
    of them faults.  No other file is changed by any of it. *)
Theorem mail_reaches_handler o handle semid o' handle' semid' cfg num w p srv epoll_create epfd batches log
    replies d :
  os_ok o handle semid → os_ok o' handle' semid' → sys_file (at_path (queue_path p num) w) = NoFile →
  queue_file cfg = cstr p → nonul p → 0 <= num < 10 ^ 8 →
  0 < queue_size cfg → slot_offset (queue_size cfg) <= INT_MAX →
  slot_offset (queue_size cfg) <= round_page (os_page o') (queue_size cfg * sizeof_mail) →
  configured srv cfg → 0 <= max_clients cfg * 2 <= INT_MAX → epoll_create (max_clients cfg) = Some epfd →
  Forall (λ b, zlen (default [] b) * 12 <= max_clients cfg * 8) batches →
  serves cfg (queue_size cfg) (turns batches) (∅, []) replies d →
  ∃ wk w1 eh conns e argv ms queue file w2 s3,
    worker_init o true cfg num w = Ok (Some wk, w1) ∧
    worker_server o (wk_msg_queue wk) srv cfg epoll_create batches (Env (at_path (wk_file wk) w1) log) =
      Ok (Some (eh, (conns, e))) ∧
    Forall2 (λ m x, mail_is m x.1 x.2) ms d.2 ∧
    handler_argv cfg num = Ok argv ∧
    main_init o' true argv (with_path (wk_file wk) (env_sys e) w1) = Ok (Some (queue, file, fresh_service), w2) ∧
    file = wk_file wk ∧
    handler_loop o' queue (length ms) (at_path file w2, fresh_service) =
      (sv ← handle_mails ms fresh_service; Ok (s3, sv)) ∧
    Queue.holds (queue_size cfg) [] s3 ∧
    ∀ q, q ≠ wk_file wk → w_files (with_path file s3 w2) !! q = w_files w !! q.
Proof.
  intros Ho Ho' Hf Hp Hnp Hnum Hn Hmax Hround Hcfg Hcl Hep Hfit Hs. pose proof sizeof_mail_pos.
  destruct (worker_init_ok o handle semid cfg num w p Ho Hf Hp Hnp Hnum)
    as (r & s1 & path & junk & Hinit & Hcov & Hh & Hargv & Hpath);
    [lia | unfold slot_offset, sizeof_pq_ref_shared in Hmax; lia |].
  set (file := queue_path p num) in *.
  destruct (worker_server_serves o r (queue_size cfg) srv cfg epoll_create epfd batches (Env s1 log) replies d
    Hcfg Hcov Hh Hcl Hep Hfit Hs) as (eh & [conns e] & ls & Hw & (_ & _ & ms & Hms & Hall) & _).
  cbn [snd] in Hms. rewrite <-(at_with_path file (env_sys e) (with_path file s1 w)) in Hms.
  destruct (handler_serves_queue o' handle' semid' (queue_size cfg) ms (with_path file (env_sys e) (with_path file s1 w))
    (cstr (lit "/usr/local/bin/dmarc-mailhandler")) path file junk (web_service_url cfg) Ho' Hpath Hms Hn Hmax Hround)
    as (r' & s2 & s3 & Hmi & Hloop & Hh3).
  do 11 eexists. split_and!; [exact Hinit | | exact Hall | exact Hargv | exact Hmi | done | | exact Hh3 |].
  - cbn [wk_msg_queue wk_file]. rewrite at_with_path. exact Hw.
  - rewrite at_with_path. exact Hloop.
  - cbn [wk_file]. intros q Hq. by rewrite !with_path_twice, with_path_other.
Qed.

(** ** The two processes at once *)

(** The mail handler's process, from its start. *)
Inductive handler_state :=
  | Starting
  | Running (queue : ptr pq_ref) (file : list byte) (sv : service)
  | Exited.

(** The worker's connections and its log, the files, the mail handler. *)
Record system := System {
  sy_conns : list connection;
  sy_world : world;
  sy_log : list action;
  sy_handler : handler_state;
}.

(** What happens next: an event of the worker's loop as a whole, or the whole
    start of the mail handler, or one whole iteration of its loop.  For the
    events and the iterations this is justified by [QueueSys]: both processes
    touch the queue only in sections under its semaphore, which take effect at
    one instant each ([queue_linearizable]), and everything else they do is
    their own.  It is not for the start, whose [semaphore_init] does not wait
    for the semaphore: a start inside a section of the worker is not one of
    these steps, and can lose a message ([semaphore_init_loses_message]). *)
Inductive happening := Event (t : turn) | Iterate.

Section schedule.
Context (o o' : os) (wk : worker) (srv : server) (argv : list buf).

Definition handler_step (s : world * handler_state) : res (world * handler_state) :=
  match s.2 with
  | Starting =>
      r ← main_init o' true argv s.1;
      Ok (r.2, match r.1 with Some (q, file, sv) => Running q file sv | None => Exited end)
  | Running q file sv =>
      r ← main_step SHA256 bio_write bio_read rsa_read_public_pem RSA_verify res_query inflate
            get_content xml_read o' q (at_path file s.1, sv);
      Ok (with_path file r.1 s.1, Running q file r.2)
  | Exited => Ok s
  end.

Definition system_step (h : happening) (s : system) : res system :=
  match h with
  | Event t =>
      r ← worker_event o (wk_msg_queue wk) srv t (sy_conns s, Env (at_path (wk_file wk) (sy_world s)) (sy_log s));
      Ok (System r.1 (with_path (wk_file wk) (env_sys r.2) (sy_world s)) (env_log r.2) (sy_handler s))
  | Iterate =>
      r ← handler_step (sy_world s, sy_handler s);
      Ok (System (sy_conns s) r.1 (sy_log s) r.2)
  end.

Fixpoint system_run (hs : list happening) (s : system) : res system :=
  match hs with
  | [] => Ok s
  | h :: hs' => s' ← system_step h s; system_run hs' s'
  end.
End schedule.

(** The specification: the sessions are served and put the messages that they
    complete into a queue of at most [n], which drops them when it is full; the
    mail handler takes the oldest once it runs.  The replies and the messages
    taken are listed in their order. *)
Inductive flows (cfg : config) (n : Z) : bool → list happening → desk → list (Z * list byte) →
    list (list field * list byte) → desk → Prop :=
  | flows_nil run d : flows cfg n run [] d [] [] d
  | flows_event run t hs i d d1 d2 reply replies taken :
      brings cfg t i → serve (data_buffer_size cfg) n (events_get_fd t.1) i d reply d1 →
      flows cfg n run hs d1 replies taken d2 →
      flows cfg n run (Event t :: hs) d ((events_get_fd t.1, reply) :: replies) taken d2
  | flows_start hs d d2 replies taken :
      flows cfg n true hs d replies taken d2 → flows cfg n false (Iterate :: hs) d replies taken d2
  | flows_take hs ss x q d2 replies taken :
      flows cfg n true hs (ss, q) replies taken d2 →
      flows cfg n true (Iterate :: hs) (ss, x :: q) replies (x :: taken) d2
  | flows_wait hs ss d2 replies taken :
      flows cfg n true hs (ss, []) replies taken d2 →
      flows cfg n true (Iterate :: hs) (ss, []) replies taken d2.

(** The mail handler with the queue it opened in [file], if it did yet. *)
Definition handler_at (file : list byte) (hq : option pq_ref) (sv : service) : handler_state :=
  match hq with Some q => Running (PTo q) file sv | None => Starting end.

Section concurrent.
Context (o o' : os) (handle : Z) (semid : Z) (r : pq_ref) (wk : worker) (srv : server) (cfg : config)
  (a0 path junk url : buf).
Abbreviation n := (queue_size cfg).
Abbreviation file := (wk_file wk).
Abbreviation run := (system_run o o' wk srv [a0; path; cstr (decimal n) ++ junk; url]).
Hypothesis (Ho' : os_ok o' handle semid) (Hn : 0 < n) (Hmax : slot_offset n <= INT_MAX)
  (Hround : slot_offset n <= round_page (os_page o') (n * sizeof_mail))
  (Hcfg : configured srv cfg) (Hcov : covers r n) (Hwk : wk_msg_queue wk = PTo r) (Hpath : cstring path = Ok file).

(** What the worker sees of a file system and a log. *)
Definition seen (w : world) (log : list action) : env := Env (at_path file w) log.

(** What a run does, from any point of it. *)
Definition flowed (hs : list happening) (conns : list connection) (w : world) (log : list action)
    (hq : option pq_ref) (sv : service)
    (replies : list (Z * list byte)) (taken : list (list field * list byte)) (d : desk) : Prop :=
  ∃ ms conns' w' log' hq' ls, Forall2 (λ m x, mail_is m x.1 x.2) ms taken ∧
    run hs (System conns w log (handler_at file hq sv)) =
      (sv' ← handle_mails ms sv; Ok (System conns' w' log' (handler_at file hq' sv'))) ∧
    worker_rel cfg n (conns', seen w' log') d ∧ log' = log ++ concat ls ∧ replied ls replies ∧
    ∀ q, q ≠ file → w_files w' !! q = w_files w !! q.

Lemma worker_rel_queue conns w log s d q :
  worker_rel cfg n (conns, seen w log) d → queue_is n q (Env s log) →
  worker_rel cfg n (conns, seen (with_path file s w) log) (d.1, q).
Proof. intros (H1 & H2 & _) Hq. split; [done|]. split; [done|]. unfold seen. by rewrite at_with_path. Qed.

(** One step of each kind, then the rest of the run. *)
Lemma flowed_event t hs conns w log hq sv conns1 e1 l reply replies taken d :
  worker_event o (PTo r) srv t (conns, seen w log) = Ok (conns1, e1) → env_log e1 = log ++ l → sent l = reply →
  flowed hs conns1 (with_path file (env_sys e1) w) (env_log e1) hq sv replies taken d →
  flowed (Event t :: hs) conns w log hq sv ((events_get_fd t.1, reply) :: replies) taken d.
Proof.
  intros E Hlog Hsent (ms & conns' & w' & log' & hq' & ls & Hms & Er & Hrel' & Hlog' & Hr & Hothers).
  exists ms, conns', w', log', hq', (l :: ls). split; [done|].
  split_and!; [| done | by rewrite Hlog', Hlog, <-app_assoc | by constructor |].
  - cbn [system_run system_step sy_conns sy_world sy_log sy_handler]. rewrite Hwk. unfold seen in E.
    by rewrite E, !bind_Ok.
  - intros q Hq. by rewrite Hothers, with_path_other.
Qed.

Lemma flowed_idle hs conns w log hq sv s1 hq1 replies taken d :
  handler_step o' [a0; path; cstr (decimal n) ++ junk; url] (w, handler_at file hq sv) =
    Ok (with_path file s1 w, handler_at file hq1 sv) →
  flowed hs conns (with_path file s1 w) log hq1 sv replies taken d →
  flowed (Iterate :: hs) conns w log hq sv replies taken d.
Proof.
  intros E (ms & conns' & w' & log' & hq' & ls & Hms & Er & Hrel & Hlog & Hr & Hothers).
  exists ms, conns', w', log', hq', ls. split; [done|]. split_and!; [| done.. |].
  - cbn [system_run system_step sy_conns sy_world sy_log sy_handler]. by rewrite E, !bind_Ok.
  - intros q Hq. by rewrite Hothers, with_path_other.
Qed.

Lemma flowed_take hs conns w log q sv m x ms0 replies taken d :
  covers q n → Queue.holds n (m :: ms0) (at_path file w) → mail_is m x.1 x.2 →
  (∀ s1 sv1, Queue.holds n ms0 s1 → flowed hs conns (with_path file s1 w) log (Some q) sv1 replies taken d) →
  flowed (Iterate :: hs) conns w log (Some q) sv replies (x :: taken) d.
Proof.
  intros Hc Hh Hm Hnext.
  destruct (main_step_dequeues SHA256 bio_write bio_read rsa_read_public_pem RSA_verify res_query inflate
    get_content xml_read o' q n m ms0 (at_path file w) sv Hc Hh) as (s1 & Hh1 & E).
  set (sv1 := match handle_message SHA256 bio_write bio_read rsa_read_public_pem RSA_verify res_query inflate
    get_content xml_read m sv with Ok sv1 => sv1 | Err _ => sv end).
  destruct (Hnext s1 sv1 Hh1) as (ms & conns' & w' & log' & hq' & ls & Hms & Er & Hrel & Hlog & Hr & Hothers).
  exists (m :: ms), conns', w', log', hq', ls. split; [by constructor|]. split_and!; [| done.. |].
  - cbn [system_run system_step sy_conns sy_world sy_log sy_handler handler_step handler_at fst snd handle_all].
    rewrite E. unfold sv1 in Er. destruct (handle_message _ _ _ _ _ _ _ _ _ _ _); [|done]. by rewrite !bind_Ok.
  - intros p Hp. by rewrite Hothers, with_path_other.
Qed.

Lemma system_flows started hs d replies taken d' :
  flows cfg n started hs d replies taken d' →
  ∀ conns w log hq sv, worker_rel cfg n (conns, seen w log) d →
    (if started then ∃ q, hq = Some q ∧ covers q n else hq = None ∧ sv = fresh_service) →
    flowed hs conns w log hq sv replies taken d'.
Proof.
  induction 1 as [run d|run t hs i d d1 d2 reply replies taken Hb Hs _ IH|hs d d2 replies taken _ IH
    |hs ss x q d2 replies taken _ IH|hs ss d2 replies taken _ IH]; intros conns w log hq sv Hrel Hst;
    pose proof Hrel as (_ & _ & ms0 & Hh & Hms0); cbn [snd env_sys seen] in Hh, Hms0.
  - exists [], conns, w, log, hq, []. split_and!; [constructor | done | done | by rewrite app_nil_r | constructor | done].
  - destruct (worker_event_serves o r n srv cfg Hcfg Hcov t i (conns, seen w log) d reply d1 Hb Hrel Hs)
      as ([conns1 e1] & l & E & Hrel1 & Hlog & Hsent & _).
    apply (flowed_event _ _ _ _ _ _ _ _ _ _ _ _ _ _ E Hlog Hsent), IH; [|done].
    unfold seen. rewrite at_with_path. by destruct e1.
  - destruct Hst as [-> ->].
    destruct (handler_opens_queue o' handle semid n ms0 w a0 path file junk url Ho' Hpath Hh Hn Hmax Hround)
      as (q & s1 & Hi & Hc & Hh1).
    apply (flowed_idle _ _ _ _ _ _ s1 (Some q)).
    { cbn [handler_step handler_at fst snd]. by rewrite Hi. }
    apply IH; [|by exists q]. rewrite (surjective_pairing d). apply (worker_rel_queue _ _ _ _ _ _ Hrel). by exists ms0.
  - destruct Hst as (qr & -> & Hc). apply Forall2_cons_inv_r in Hms0 as (m & ms1 & Hm & Hms1 & ->).
    apply (flowed_take _ _ _ _ _ _ m x ms1); [done.. |]. intros s1 sv1 Hh1.
    apply IH; [|by exists qr]. apply (worker_rel_queue _ _ _ _ _ _ Hrel). by exists ms1.
  - destruct Hst as (qr & -> & Hc). apply Forall2_nil_inv_r in Hms0 as ->.
    destruct (main_step_waits SHA256 bio_write bio_read rsa_read_public_pem RSA_verify res_query inflate
      get_content xml_read o' qr n (at_path file w) sv Hc Hh) as (s1 & Hh1 & E).
    apply (flowed_idle _ _ _ _ _ _ s1 (Some qr)).
    { cbn [handler_step handler_at fst snd]. by rewrite E. }
    apply IH; [|by exists qr]. apply (worker_rel_queue _ _ _ _ _ _ Hrel). by exists [].
Qed.
End concurrent.

End system.

(** ** Witness: the clients of [ex_batches] and their handler *)

Lemma mail_reaches_handler_witness :
  ∃ wk w1 eh conns e argv m queue w2 s3,
    worker_init ex_os true ex_small 0 ex_world = Ok (Some wk, w1) ∧
    worker_server ex_os (wk_msg_queue wk) ex_small_server ex_small (λ _, Some 9) ex_batches
      (Env (at_path (wk_file wk) w1) []) = Ok (Some (eh, (conns, e))) ∧
    mail_is m Connection.ex_fields (lit "report") ∧ handler_argv ex_small 0 = Ok argv ∧
    main_init ex_os true argv (with_path (wk_file wk) (env_sys e) w1) =
      Ok (Some (queue, wk_file wk, fresh_service), w2) ∧
    main_loop toy_hash toy_write toy_read toy_pem toy_verify ex_dns ex_inflate ex_content (λ _, Some [])
      ex_os queue 1 (at_path (wk_file wk) w2, fresh_service) =
      (sv ← handle_message toy_hash toy_write toy_read toy_pem toy_verify ex_dns ex_inflate ex_content (λ _, Some [])
         m fresh_service; Ok (s3, sv)) ∧
    Queue.holds 2 [] s3.
Proof.
  destruct (mail_reaches_handler toy_hash toy_write toy_read toy_pem toy_verify ex_dns ex_inflate ex_content
    (λ _, Some []) ex_os 3 7 ex_os 3 7 ex_small 0 ex_world (lit "/tmp/rest-queue") ex_small_server
    (λ _, Some 9) 9 ex_batches [] _ ex_desk ex_os_ok ex_os_ok eq_refl eq_refl ltac:(by_compute) ltac:(by_compute)
    ltac:(by_compute) ltac:(by_compute) ltac:(by_compute) ltac:(by split_and!) ltac:(by_compute) eq_refl
    ltac:(by_compute) ex_serves)
    as (wk & w1 & eh & conns & e & argv & ms & queue & file & w2 & s3 & H1 & H2 & H3 & H4 & H5 & -> & H6 & H7 & _).
  apply Forall2_cons_inv_r in H3 as (m & ms' & Hm & H3 & ->). apply Forall2_nil_inv_r in H3 as ->.
  exists wk, w1, eh, conns, e, argv, m, queue, w2, s3.
  split_and!; [exact H1 | exact H2 | exact Hm | exact H4 | exact H5 | | exact H7].
  cbn [length] in H6. rewrite H6. cbn [handle_all]. by destruct (handle_message _ _ _ _ _ _ _ _ _ _ _).
Defined.

(** ** Witness: the handler starts first and takes the message before the second
    client is gone *)

Lemma serves_flows cfg n run ts d r1 d1 hs r2 taken d2 :
  serves cfg n ts d r1 d1 → flows cfg n run hs d1 r2 taken d2 →
  flows cfg n run ((Event <$> ts) ++ hs) d (r1 ++ r2) taken d2.
Proof. induction 1; [done|]. intros. cbn [fmap list_fmap app]. econstructor; eauto. Qed.

Definition ex_before : list turn := [
  ex_turn 5 (lit "EHLO a" ++ crlf); ex_turn 6 (lit "EHLO b" ++ crlf);
  ex_turn 6 (lit "MAIL FROM:<b@b>" ++ crlf); ex_turn 5 ex_upload].
Definition ex_schedule : list happening :=
  Iterate :: (Event <$> ex_before) ++ [Iterate; Event (ex_bye 6); Iterate].
Definition ex_replies : list (Z * list byte) := [
  (5, re_ehlo); (6, re_ehlo); (6, re_ok);
  (5, re_ehlo ++ re_ok ++ re_ok ++ re_data ++ re_queued); (6, [])].

Lemma ex_flows :
  flows ex_small 2 false ex_schedule (∅, []) ex_replies [(Connection.ex_fields, lit "report")] (∅, []).
Proof.
  pose proof ex_serves as H. change (turns ex_batches) with (ex_before ++ [ex_bye 6]) in H.
  apply serves_app in H as (d1 & r1 & r2 & Hr & H1 & H2). fold ex_replies in Hr.
  inversion H2 as [|? ? i ? da ? reply rs Hb Hs Hn]; subst. inversion Hn; subst.
  assert (i = Hangup) as -> by (destruct Hb as (_ & _ & Hc & _); by destruct i).
  inversion Hs as [| | | |ss q Hss Hreply Hd]; subst. rename select (delete 6 ss = ∅) into Hdel.
  rewrite Hr, Hdel. apply flows_start, (serves_flows _ _ _ _ _ _ _ _ _ _ _ H1), flows_take.
  eapply flows_event; [exact Hb | by apply serve_hangup |]. change (events_get_fd _) with 6. rewrite Hdel.
  apply flows_wait, flows_nil.
Qed.

