(* ===== verification/Cache.v ===== *)
(** Cache: the lookup cache of [src/src/cache.c], a trie over the bytes of an
    identifier read from its last byte to its first; that it is a finite map
    of identifiers. *)
From stdpp Require Import gmap fin_sets.
From S2P Require Import Prelude.

#[local] Open Scope Z_scope.

(** ** Structs *)

(** [cnode]: the array of children owns its nodes; a [void *] value is [None]
    when it is NULL. *)
Inductive cnode (V : Type) :=
  | Cnode (value : option V) (used : Z) (nodes : list (option (cnode V))).
Arguments Cnode {_} _ _ _.

Definition cn_value {V} (n : cnode V) : option V := let '(Cnode v _ _) := n in v.
Definition cn_used {V} (n : cnode V) : Z := let '(Cnode _ u _) := n in u.
Definition cn_nodes {V} (n : cnode V) : list (option (cnode V)) := let '(Cnode _ _ l) := n in l.

Record cache (V : Type) := Cache {
  ca_nodes : list (option (cnode V));
  ca_size : Z;
  ca_used : Z;
  ca_max : Z;
}.
Arguments Cache {_} _ _ _ _.
Arguments ca_nodes {_} _.
Arguments ca_size {_} _.
Arguments ca_used {_} _.
Arguments ca_max {_} _.

(** ** Operations *)

(** [(unsigned int) id[i] < 256 ? id[i] : 255], of a signed [char]. *)
Definition asc (c : byte) : Z :=
  if decide (sval c mod 4294967296 < 256) then sval c else 255.

Definition cache_init_node {V} (size : nat) : cnode V := Cnode None 0 (replicate size None).
Definition cache_create_node {V} : cnode V := cache_init_node 256.
Definition cache_init {V} : cache V := Cache (replicate 256 None) 256 0 256.

(** [if (x == NULL) x = cache_create_node ()] *)
Definition child_or_new {V} (o : option (cnode V)) : cnode V :=
  match o with Some n => n | None => cache_create_node end.

(** The descent of [cache_add] from a node, with [i] bytes of the identifier
    left, and the store at its end: the node it started from and the one it
    ended at. *)
Fixpoint add_down {V} (id : buf) (i : nat) (value : option V) (node : cnode V) : res (cnode V * cnode V) :=
  match i with
  | O => let node' := Cnode value (cn_used node) (cn_nodes node) in Ok (node', node')
  | S i' =>
      c ← bload id (Z.of_nat i');
      child ← aload (cn_nodes node) (asc c);
      r ← add_down id i' value (child_or_new child);
      l ← astore (cn_nodes node) (asc c) (Some r.1);
      Ok (Cnode (cn_value node) (match child with Some _ => cn_used node | None => 0 end) l, r.2)
  end.

(** The node of the entry, and the cache with it. *)
Definition cache_add {V} (c : cache V) (id : buf) (value : option V) : res (cnode V * cache V) :=
  n ← strlen id;
  let len := to_int n in
  ch ← bload id (len - 1);
  child ← aload (ca_nodes c) (asc ch);
  let node := child_or_new child in
  r ← add_down id (Z.to_nat (len - 1)) value (Cnode (cn_value node) 0 (cn_nodes node));
  l ← astore (ca_nodes c) (asc ch) (Some r.1);
  Ok (r.2, Cache l (ca_size c) (ca_used c) (ca_max c)).

(** The descent of [cache_get] and [cache_get_node], without a test. *)
Fixpoint down {V} (id : buf) (i : nat) (node : option (cnode V)) : res (option (cnode V)) :=
  match i with
  | O => Ok node
  | S i' =>
      match node with
      | None => Err NullDeref
      | Some n => c ← bload id (Z.of_nat i'); x ← aload (cn_nodes n) (asc c); down id i' x
      end
  end.

Definition cache_get_node {V} (c : cache V) (id : buf) (len : Z) : res (option (cnode V)) :=
  ch ← bload id (len - 1);
  x ← aload (ca_nodes c) (asc ch);
  down id (Z.to_nat (len - 1)) x.

Definition cache_get {V} (c : cache V) (id : buf) (len : Z) : res (option V) :=
  x ← cache_get_node c id len;
  match x with Some n => Ok (cn_value n) | None => Err NullDeref end.

(** The descent of [cache_get_exists] and [cache_exists], which stops at NULL. *)
Fixpoint down_safe {V} (id : buf) (i : nat) (node : option (cnode V)) : res (option (cnode V)) :=
  match node with
  | None => Ok None
  | Some n =>
      match i with
      | O => Ok node
      | S i' => c ← bload id (Z.of_nat i'); x ← aload (cn_nodes n) (asc c); down_safe id i' x
      end
  end.

Definition cache_get_exists {V} (c : cache V) (id : buf) (len : Z) : res (option V) :=
  ch ← bload id (len - 1);
  x ← aload (ca_nodes c) (asc ch);
  n ← down_safe id (Z.to_nat (len - 1)) x;
  Ok (match n with Some n => cn_value n | None => None end).

(** 0 when the entry exists, 1 when it does not. *)
Definition cache_exists {V} (c : cache V) (id : buf) (len : Z) : res Z :=
  ch ← bload id (len - 1);
  x ← aload (ca_nodes c) (asc ch);
  n ← down_safe id (Z.to_nat (len - 1)) x;
  Ok (match n with Some _ => 0 | None => 1 end).

(** The values that [cache_free_nodes] and [cache_free] free, in order. *)
Fixpoint cache_free_nodes {V} (n : cnode V) : list V :=
  match n with
  | Cnode value _ nodes =>
      concat ((λ o, match o with Some m => cache_free_nodes m | None => [] end) <$> nodes) ++
      option_list value
  end.

Definition cache_free {V} (c : cache V) : list V :=
  concat ((λ o, match o with Some m => cache_free_nodes m | None => [] end) <$> ca_nodes c).

(** ** The specification: a finite map *)

(** What the cache tells identifiers apart by. *)
Definition key_of (s : list byte) : list Z := asc <$> s.

Inductive cop (V : Type) :=
  | CAdd (s : list byte) (v : option V)
  | CGet (s : list byte)
  | CFetch (s : list byte)
  | CExists (s : list byte).
Arguments CAdd {_} _ _.
Arguments CGet {_} _.
Arguments CFetch {_} _.
Arguments CExists {_} _.

Inductive cout (V : Type) :=
  | CValue (v : option V)
  | CFlag (z : Z).
Arguments CValue {_} _.
Arguments CFlag {_} _.

Definition cop_id {V} (op : cop V) : list byte :=
  match op with CAdd s _ | CGet s | CFetch s | CExists s => s end.
Definition id_ok (s : list byte) : Prop := nonul s ∧ s ≠ [] ∧ zlen s <= INT_MAX.
Definition cop_ok {V} (op : cop V) : Prop := id_ok (cop_id op).
#[global] Instance id_ok_dec s : Decision (id_ok s).
Proof. unfold id_ok. apply _. Defined.

(** The operations on strings with their lengths: [cache_add],
    [cache_get_exists], [cache_get] and [cache_exists]. *)
Definition cache_step {V} (op : cop V) (c : cache V) : res (cout V * cache V) :=
  match op with
  | CAdd s v => r ← cache_add c (cstr s) v; Ok (CValue (cn_value r.1), r.2)
  | CGet s => v ← cache_get_exists c (cstr s) (zlen s); Ok (CValue v, c)
  | CFetch s => v ← cache_get c (cstr s) (zlen s); Ok (CValue v, c)
  | CExists s => z ← cache_exists c (cstr s) (zlen s); Ok (CFlag z, c)
  end.

Fixpoint cache_run {V} (ops : list (cop V)) (c : cache V) : res (list (cout V)) :=
  match ops with
  | [] => Ok []
  | op :: ops' => r ← cache_step op c; l ← cache_run ops' r.2; Ok (r.1 :: l)
  end.

Section spec.
Context {V : Type}.
Implicit Types (m : gmap (list Z) (option V)) (k : list Z).

(** Some key of the map ends with [k]: there is a node for [k]. *)
Definition covered_key m k : Prop := set_Exists (λ k', k `suffix_of` k') (dom m).
#[global] Instance covered_key_dec m k : Decision (covered_key m k).
Proof. unfold covered_key. apply _. Defined.

Definition map_step (op : cop V) m : res (cout V * gmap (list Z) (option V)) :=
  match op with
  | CAdd s v => Ok (CValue v, <[key_of s := v]> m)
  | CGet s => Ok (CValue (mjoin (m !! key_of s)), m)
  | CFetch s =>
      if decide (covered_key m (key_of s)) then Ok (CValue (mjoin (m !! key_of s)), m)
      else Err NullDeref
  | CExists s => Ok (CFlag (if decide (covered_key m (key_of s)) then 0 else 1), m)
  end.

Fixpoint map_run (ops : list (cop V)) m : res (list (cout V)) :=
  match ops with
  | [] => Ok []
  | op :: ops' => r ← map_step op m; l ← map_run ops' r.2; Ok (r.1 :: l)
  end.
End spec.

(** ** The nodes along a path *)

Definition path (s : list byte) : list Z := reverse (key_of s).

Fixpoint walk {V} (n : cnode V) (p : list Z) : option (cnode V) :=
  match p with
  | [] => Some n
  | a :: p' => match cn_nodes n !! Z.to_nat a with Some (Some m) => walk m p' | _ => None end
  end.

(** Every array of the trie has 256 elements. *)
Definition trie_wf {V} (n : cnode V) : Prop :=
  ∀ p n', walk n p = Some n' → length (cn_nodes n') = 256%nat.

(** [n] with [v] at the end of [p]. *)
Fixpoint put_at {V} (v : option V) (p : list Z) (n : cnode V) : cnode V :=
  match p with
  | [] => Cnode v (cn_used n) (cn_nodes n)
  | a :: p' =>
      let child : option (cnode V) := mjoin (cn_nodes n !! Z.to_nat a) in
      Cnode (cn_value n) (match child with Some _ => cn_used n | None => 0 end)
        (<[Z.to_nat a := Some (put_at v p' (child_or_new child))]> (cn_nodes n))
  end.

Definition in_range (p : list Z) : Prop := Forall (λ a, 0 <= a < 256) p.

(** The value at a path. *)
Definition value_at {V} (n : cnode V) (p : list Z) : option V := walk n p ≫= cn_value.

Section trie.
Context {V : Type}.
Implicit Types (n : cnode V) (p q : list Z) (v : option V).

Lemma asc_range c : 0 <= asc c < 256.
Proof.
  unfold asc, sval. pose proof (bval_range c). repeat case_decide; try lia.
  exfalso. rewrite <-(Z.mod_add _ 1), Z.mod_small in H0 by lia. lia.
Qed.

Lemma path_range s : in_range (path s).
Proof. unfold path, in_range. apply Forall_reverse, Forall_fmap, Forall_true. intros c. apply asc_range. Qed.

Lemma child_or_new_some n : child_or_new (Some n) = n.
Proof. done. Qed.

Lemma trie_wf_child n a m : trie_wf n → cn_nodes n !! Z.to_nat a = Some (Some m) → trie_wf m.
Proof. intros Hn Ha p n' Hw. apply (Hn (a :: p)). simpl. by rewrite Ha. Qed.

(** A new node has no children. *)
Lemma walk_new a q : walk (cache_create_node : cnode V) (a :: q) = None.
Proof.
  cbn [walk]. destruct (cn_nodes _ !! Z.to_nat a) as [[m|]|] eqn:E; [|done|done].
  by apply lookup_replicate in E as [? _].
Qed.

Lemma trie_wf_new : trie_wf (cache_create_node : cnode V).
Proof.
  intros [|a p] n' Hw; [by injection Hw as <- | by rewrite walk_new in Hw].
Qed.

Lemma trie_wf_child_or_new n a :
  trie_wf n → trie_wf (child_or_new (mjoin (cn_nodes n !! Z.to_nat a))).
Proof.
  intros Hn. destruct (cn_nodes n !! Z.to_nat a) as [[m|]|] eqn:E; simpl.
  - by eapply trie_wf_child.
  - apply trie_wf_new.
  - apply trie_wf_new.
Qed.

Lemma trie_lookup n a : trie_wf n → 0 <= a < 256 → ∃ o, cn_nodes n !! Z.to_nat a = Some o.
Proof. intros Hn Ha. apply lookup_lt_is_Some. rewrite (Hn [] n eq_refl). lia. Qed.

Lemma trie_store n a o : trie_wf n → 0 <= a < 256 →
  astore (cn_nodes n) a o = Ok (<[Z.to_nat a := o]> (cn_nodes n)).
Proof. intros Hn Ha. unfold astore. rewrite decide_True; [done|]. unfold zlen. rewrite (Hn [] n eq_refl). lia. Qed.

(** One step of a walk through [put_at]. *)
Lemma walk_put_cons v p n a b q :
  trie_wf n → 0 <= a < 256 → 0 <= b < 256 →
  walk (put_at v (a :: p) n) (b :: q) =
    if decide (a = b) then walk (put_at v p (child_or_new (mjoin (cn_nodes n !! Z.to_nat a)))) q
    else walk n (b :: q).
Proof.
  intros Hn Ha Hb. cbn [put_at walk cn_nodes]. destruct (decide (a = b)) as [<-|Hne].
  - rewrite list_lookup_insert_eq; [done|]. rewrite (Hn [] n eq_refl). lia.
  - rewrite list_lookup_insert_ne by lia. done.
Qed.

Lemma trie_wf_put v p n : trie_wf n → in_range p → trie_wf (put_at v p n).
Proof.
  intros Hn Hp. revert n Hn. induction Hp as [|a p Ha _ IH]; intros n Hn q n' Hw.
  - destruct q as [|b q]; [injection Hw as <-; apply (Hn [] n eq_refl)|]. by apply (Hn (b :: q)).
  - destruct q as [|b q].
    { injection Hw as <-. cbn [cn_nodes]. rewrite length_insert. by apply (Hn [] n). }
    cbn [put_at walk cn_nodes] in Hw.
    destruct (decide (Z.to_nat a = Z.to_nat b)) as [Heq|Hne].
    + rewrite <-Heq, list_lookup_insert_eq in Hw by (rewrite (Hn [] n eq_refl); lia).
      eapply IH, Hw. by apply trie_wf_child_or_new.
    + rewrite list_lookup_insert_ne in Hw by done. by apply (Hn (b :: q)).
Qed.

Lemma value_at_new p : value_at (cache_create_node : cnode V) p = None.
Proof.
  destruct p as [|a p]; [done|]. unfold value_at. by rewrite walk_new.
Qed.

Lemma walk_child_or_new n a q :
  q ≠ [] → walk (child_or_new (mjoin (cn_nodes n !! Z.to_nat a))) q = walk n (a :: q).
Proof.
  intros Hq. cbn [walk]. destruct q as [|b q]; [done|].
  destruct (cn_nodes n !! Z.to_nat a) as [[m|]|]; [done| |]; apply walk_new.
Qed.

Lemma value_at_child_or_new n a q :
  value_at (child_or_new (mjoin (cn_nodes n !! Z.to_nat a))) q = value_at n (a :: q).
Proof.
  destruct q as [|b q]; unfold value_at; [|by rewrite walk_child_or_new].
  cbn [walk]. by destruct (cn_nodes n !! Z.to_nat a) as [[m|]|].
Qed.

Lemma value_at_put v p n q :
  trie_wf n → in_range p → in_range q →
  value_at (put_at v p n) q = if decide (q = p) then v else value_at n q.
Proof.
  intros Hn Hp. revert n q Hn. induction Hp as [|a p Ha Hp IH]; intros n q Hn Hq.
  - destruct q as [|b q]; [by rewrite decide_True | by rewrite decide_False].
  - destruct Hq as [|b q Hb Hq]; [by rewrite decide_False|].
    unfold value_at. rewrite walk_put_cons by done. destruct (decide (a = b)) as [<-|Hne].
    + fold (value_at (put_at v p (child_or_new (mjoin (cn_nodes n !! Z.to_nat a)))) q).
      rewrite IH by (done || by apply trie_wf_child_or_new). rewrite value_at_child_or_new.
      destruct (decide (q = p)) as [->|]; [by rewrite decide_True | by rewrite decide_False by congruence].
    + by rewrite decide_False by congruence.
Qed.

Lemma walk_put_some v p n q :
  trie_wf n → in_range p → in_range q →
  is_Some (walk (put_at v p n) q) ↔ is_Some (walk n q) ∨ q `prefix_of` p.
Proof.
  intros Hn Hp. revert n q Hn. induction Hp as [|a p Ha Hp IH]; intros n q Hn Hq.
  - destruct q as [|b q]; [split; [by left | by eexists]|]. split; [by left|].
    intros [?|H]; [done|]. by apply prefix_nil_not in H.
  - destruct Hq as [|b q Hb Hq]; [split; [by left; eexists | by eexists]|].
    rewrite walk_put_cons by done. destruct (decide (a = b)) as [<-|Hne].
    + rewrite IH by (done || by apply trie_wf_child_or_new).
      destruct q as [|c q]; [split; intros _; [right|left; by eexists]|].
      { exists p. done. }
      rewrite walk_child_or_new by done. split; (intros [?|[k Hk]]; [by left | right; exists k]).
      * by rewrite Hk.
      * by injection Hk.
    + split; [by left|]. intros [?|[k Hk]]; [done | by injection Hk as ->].
Qed.
End trie.

(** ** The loops along the path *)

Section loops.
Context {V : Type}.
Implicit Types (n : cnode V) (o : option (cnode V)) (v : option V).

Definition trie_wf_opt o : Prop := match o with Some n => trie_wf n | None => True end.

Lemma bload_cstr s i c : s !! i = Some c → bload (cstr s) (Z.of_nat i) = Ok c.
Proof. intros H. apply bload_bs; [lia | by rewrite Nat2Z.id]. Qed.

Lemma path_snoc s c : path (s ++ [c]) = asc c :: path s.
Proof. unfold path, key_of. by rewrite fmap_app, reverse_app. Qed.

Lemma path_take s i c : s !! i = Some c → path (take (S i) s) = asc c :: path (take i s).
Proof. intros H. by rewrite (take_S_r _ _ _ H), path_snoc. Qed.

(** A load of a child in a well-formed trie. *)
Lemma child_load n c :
  trie_wf n → ∃ o, aload (cn_nodes n) (asc c) = Ok o ∧ trie_wf_opt o ∧
    (∀ q, walk n (asc c :: q) = o ≫= λ m, walk m q) ∧ mjoin (cn_nodes n !! Z.to_nat (asc c)) = o.
Proof.
  intros Hn. pose proof (asc_range c) as Hc. destruct (trie_lookup n (asc c) Hn Hc) as [o Ho].
  exists o. split_and!.
  - apply aload_lookup; [lia | done].
  - destruct o as [m|]; [by eapply trie_wf_child | done].
  - intros q. cbn [walk]. rewrite Ho. by destruct o.
  - by rewrite Ho.
Qed.

Lemma down_safe_walk s i o :
  (i ≤ length s)%nat → trie_wf_opt o →
  down_safe (cstr s) i o = Ok (o ≫= λ n, walk n (path (take i s))).
Proof.
  revert o. induction i as [|i IH]; intros o Hi Ho; (destruct o as [n|]; [|done]); [done|].
  destruct (lookup_lt_is_Some_2 s i ltac:(lia)) as [c Hc]. cbn [down_safe].
  destruct (child_load n c Ho) as (o' & Hl & Ho' & Hw & _).
  rewrite (bload_cstr s i c Hc), bind_Ok, Hl, bind_Ok, IH by (done || lia).
  rewrite (path_take s i c Hc). cbn [mbind option_bind]. by rewrite Hw.
Qed.

Lemma down_walk s i o :
  (i ≤ length s)%nat → trie_wf_opt o →
  (x ← down (cstr s) i o; match x with Some n => Ok (cn_value n) | None => Err NullDeref end) =
    match o ≫= λ n, walk n (path (take i s)) with
    | Some n => Ok (cn_value n) | None => Err NullDeref end.
Proof.
  revert o. induction i as [|i IH]; intros o Hi Ho; [by destruct o|].
  destruct o as [n|]; [|done].
  destruct (lookup_lt_is_Some_2 s i ltac:(lia)) as [c Hc]. cbn [down].
  destruct (child_load n c Ho) as (o' & Hl & Ho' & Hw & _).
  rewrite (bload_cstr s i c Hc), bind_Ok, Hl, bind_Ok, IH by (done || lia).
  rewrite (path_take s i c Hc). cbn [mbind option_bind]. by rewrite Hw.
Qed.

Lemma add_down_put s i v n :
  (i ≤ length s)%nat → trie_wf n →
  ∃ e, add_down (cstr s) i v n = Ok (put_at v (path (take i s)) n, e) ∧ cn_value e = v.
Proof.
  revert n. induction i as [|i IH]; intros n Hi Hn; [by eexists|].
  destruct (lookup_lt_is_Some_2 s i ltac:(lia)) as [c Hc]. cbn [add_down].
  destruct (child_load n c Hn) as (o & Hl & Ho & _ & Ho').
  rewrite (bload_cstr s i c Hc), bind_Ok, Hl, bind_Ok.
  destruct (IH (child_or_new o)) as (e & -> & He); [lia | by destruct o; [|apply trie_wf_new] |].
  rewrite bind_Ok. cbn [fst snd]. rewrite trie_store, bind_Ok by (done || apply asc_range).
  rewrite (path_take s i c Hc). cbn [put_at]. rewrite Ho'. by exists e.
Qed.
End loops.

(** ** The cache and the map *)

Section rep.
Context {V : Type}.
Implicit Types (c : cache V) (m : gmap (list Z) (option V)) (v : option V).

Definition root c : cnode V := Cnode None 0 (ca_nodes c).

Definition cache_rep c m : Prop :=
  trie_wf (root c) ∧
  ∀ q, in_range q → q ≠ [] →
    value_at (root c) q = mjoin (m !! reverse q) ∧
    (is_Some (walk (root c) q) ↔ covered_key m (reverse q)).

Lemma cache_init_rep : cache_rep cache_init ∅.
Proof.
  unfold cache_rep. change (root cache_init) with (cache_create_node : cnode V).
  split; [apply trie_wf_new|]. intros q Hq Hne. split; [by rewrite value_at_new, lookup_empty|].
  destruct q as [|a q]; [done|]. rewrite walk_new. split; [by intros []|]. intros (k & Hk & _). by rewrite dom_empty_L in Hk.
Qed.

Lemma covered_key_insert m k v q :
  covered_key (<[k := v]> m) q ↔ covered_key m q ∨ q `suffix_of` k.
Proof.
  unfold covered_key, set_Exists. rewrite dom_insert_L. split.
  - intros (k' & [->%elem_of_singleton|Hk]%elem_of_union & H); [by right | left; by exists k'].
  - intros [(k' & Hk & H)|H]; [exists k' | exists k]; (split; [|done]); apply elem_of_union;
      [by right | left; by apply elem_of_singleton].
Qed.

(** Forgetting [used] changes no walk. *)
Lemma value_at_used (n : cnode V) u q : value_at (Cnode (cn_value n) u (cn_nodes n)) q = value_at n q.
Proof. by destruct q, n. Qed.
Lemma walk_used (n : cnode V) u q :
  is_Some (walk (Cnode (cn_value n) u (cn_nodes n)) q) ↔ is_Some (walk n q).
Proof. destruct q; [|by destruct n]. by split; eexists. Qed.
Lemma trie_wf_used (n : cnode V) u : trie_wf n → trie_wf (Cnode (cn_value n) u (cn_nodes n)).
Proof.
  intros Hn [|a q] n' Hw; [injection Hw as <-; apply (Hn [] n eq_refl) | by apply (Hn (a :: q))].
Qed.

(** A string by its last byte. *)
Lemma string_snoc (s : list byte) : s ≠ [] → ∃ s' ch, s = s' ++ [ch].
Proof. intros H. destruct (exists_last H) as (s' & ch & ->). by exists s', ch. Qed.

Lemma first_load c s' ch :
  trie_wf (root c) →
  bload (cstr (s' ++ [ch])) (zlen (s' ++ [ch]) - 1) = Ok ch ∧
  Z.to_nat (zlen (s' ++ [ch]) - 1) = length s' ∧
  ∃ o, aload (ca_nodes c) (asc ch) = Ok o ∧ trie_wf_opt o ∧
    (∀ q, walk (root c) (asc ch :: q) = o ≫= λ n, walk n q) ∧
    mjoin (ca_nodes c !! Z.to_nat (asc ch)) = o.
Proof.
  intros Hc. assert (zlen (s' ++ [ch]) - 1 = Z.of_nat (length s')) as -> by zlia.
  split; [apply bload_cstr, list_lookup_middle; done|]. split; [lia | apply (child_load (root c) ch Hc)].
Qed.

(** The node that [cache_add] descends from, and the cache with another one. *)
Definition start_node c (ch : byte) : cnode V :=
  let n := child_or_new (mjoin (cn_nodes (root c) !! Z.to_nat (asc ch))) in
  Cnode (cn_value n) 0 (cn_nodes n).
Definition set_child c (ch : byte) (n : cnode V) : cache V :=
  Cache (<[Z.to_nat (asc ch) := Some n]> (ca_nodes c)) (ca_size c) (ca_used c) (ca_max c).

Lemma start_node_wf c ch : trie_wf (root c) → trie_wf (start_node c ch).
Proof. intros Hc. by apply trie_wf_used, trie_wf_child_or_new. Qed.

Lemma cache_add_eq c s ch v :
  trie_wf (root c) → id_ok (s ++ [ch]) →
  ∃ e, cache_add c (cstr (s ++ [ch])) v = Ok (e, set_child c ch (put_at v (path s) (start_node c ch))) ∧
    cn_value e = v.
Proof.
  intros Hwf (Hs & _ & Hmax). destruct (first_load c s ch Hwf) as (Hch & Hlen & o & Hl & Ho & _ & Hjoin).
  pose proof (start_node_wf c ch Hwf) as Hn0. pose proof (asc_range ch) as Hr.
  unfold cache_add. rewrite strlen_cstr, bind_Ok by done.
  rewrite to_int_small by (unfold INT_MIN, INT_MAX in *; zlia). rewrite Hch, bind_Ok, Hl, bind_Ok, Hlen by done.
  unfold start_node in *. cbn [root cn_nodes] in *. rewrite Hjoin in *.
  destruct (add_down_put (s ++ [ch]) (length s) v _ ltac:(rewrite length_app; lia) Hn0) as (e & -> & He).
  exists e. split; [|done]. rewrite bind_Ok, take_app_length. cbn [fst snd].
  unfold astore. rewrite decide_True, bind_Ok; [done|].
  unfold zlen. rewrite (Hwf [] _ eq_refl : length (ca_nodes c) = _). lia.
Qed.

Lemma walk_set_child c ch n b q :
  trie_wf (root c) → 0 <= b →
  walk (root (set_child c ch n)) (b :: q) =
    if decide (b = asc ch) then walk n q else walk (root c) (b :: q).
Proof.
  intros Hwf Hb. pose proof (asc_range ch) as Hr. cbn [walk root cn_nodes ca_nodes set_child].
  destruct (decide (b = asc ch)) as [->|Hne].
  - rewrite list_lookup_insert_eq; [done|]. rewrite (Hwf [] _ eq_refl : length (ca_nodes c) = _). lia.
  - by rewrite list_lookup_insert_ne by lia.
Qed.

Lemma set_child_wf c ch n : trie_wf (root c) → trie_wf n → trie_wf (root (set_child c ch n)).
Proof.
  intros Hwf Hn [|b q] n' Hw.
  - injection Hw as <-. cbn. rewrite length_insert. apply (Hwf [] _ eq_refl).
  - cbn [walk root cn_nodes ca_nodes set_child] in Hw.
    destruct (decide (Z.to_nat b = Z.to_nat (asc ch))) as [E|Hne].
    + rewrite E, list_lookup_insert_eq in Hw; [by apply (Hn q)|]. pose proof (asc_range ch).
      rewrite (Hwf [] _ eq_refl : length (ca_nodes c) = _). lia.
    + rewrite list_lookup_insert_ne in Hw by done. by apply (Hwf (b :: q)).
Qed.

(** Paths and keys. *)
Lemma reverse_key s ch b q :
  reverse (b :: q) = key_of (s ++ [ch]) ↔ b = asc ch ∧ q = path s.
Proof.
  rewrite <-(reverse_involutive (key_of _)). fold (path (s ++ [ch])). rewrite path_snoc.
  split; [by intros [= -> ->]%(inj reverse) | by intros [-> ->]].
Qed.

Lemma suffix_key s ch b q :
  reverse (b :: q) `suffix_of` key_of (s ++ [ch]) ↔ b = asc ch ∧ q `prefix_of` path s.
Proof.
  rewrite <-(reverse_involutive (key_of _)). fold (path (s ++ [ch])).
  rewrite <-prefix_suffix_reverse, path_snoc.
  split; [intros [k [= -> ->]]; split; [done | by exists k] | intros [-> [k ->]]; by exists k].
Qed.

Lemma cache_add_rep c m s v :
  cache_rep c m → id_ok s →
  ∃ e c', cache_add c (cstr s) v = Ok (e, c') ∧ cn_value e = v ∧ cache_rep c' (<[key_of s := v]> m).
Proof.
  intros [Hwf Hrep] Hs. destruct (string_snoc s (proj1 (proj2 Hs))) as (s' & ch & ->).
  destruct (cache_add_eq c s' ch v Hwf Hs) as (e & E & He). do 2 eexists. split; [exact E|]. split; [done|]. clear E He.
  pose proof (start_node_wf c ch Hwf) as Hn0. pose proof (path_range s') as Hps.
  split; [by apply set_child_wf; [|apply trie_wf_put]|].
  intros q Hq Hne. destruct Hq as [|b q Hb Hq]; [done|].
  destruct (Hrep (b :: q)) as [Hval Hex]; [by constructor | done|].
  rewrite covered_key_insert, suffix_key. unfold value_at at 1. rewrite walk_set_child by (done || lia).
  destruct (decide (b = asc ch)) as [->|Hneq].
  - fold (value_at (put_at v (path s') (start_node c ch)) q). rewrite value_at_put, walk_put_some by done.
    unfold start_node. rewrite value_at_used, walk_used, value_at_child_or_new, Hval. split.
    + destruct (decide (q = path s')) as [->|Hqne].
      * rewrite (proj2 (reverse_key s' ch (asc ch) (path s'))) by done. by rewrite lookup_insert_eq.
      * rewrite lookup_insert_ne; [done|]. intros E. symmetry in E. by apply reverse_key in E as [_ ?].
    + destruct q as [|d q]; [split; intros _; [right; split; [done | apply prefix_nil] | left; by eexists]|].
      rewrite walk_child_or_new, Hex by done. tauto.
  - fold (value_at (root c) (b :: q)). rewrite Hval, Hex. split; [|tauto].
    rewrite lookup_insert_ne; [done|]. intros E. symmetry in E. by apply reverse_key in E as [-> _].
Qed.

(** The lookups. *)
Lemma path_ne s : s ≠ [] → path s ≠ [].
Proof. intros (s' & ch & ->)%string_snoc. by rewrite path_snoc. Qed.

Lemma key_path s : reverse (path s) = key_of s.
Proof. apply reverse_involutive. Qed.

Lemma down_safe_rep c m s :
  cache_rep c m → s ≠ [] →
  ∃ ch o, bload (cstr s) (zlen s - 1) = Ok ch ∧ aload (ca_nodes c) (asc ch) = Ok o ∧
    trie_wf_opt o ∧ (Z.to_nat (zlen s - 1) ≤ length s)%nat ∧
    o ≫= (λ n, walk n (path (take (Z.to_nat (zlen s - 1)) s))) = walk (root c) (path s).
Proof.
  intros [Hwf _] (s' & ch & ->)%string_snoc.
  destruct (first_load c s' ch Hwf) as (Hch & Hlen & o & Hl & Ho & Hw & _).
  exists ch, o. rewrite Hlen, length_app, take_app_length, path_snoc. split_and!; done || lia || (symmetry; apply Hw).
Qed.

Lemma rep_path c m s :
  cache_rep c m → s ≠ [] →
  walk (root c) (path s) ≫= cn_value = mjoin (m !! key_of s) ∧
  (is_Some (walk (root c) (path s)) ↔ covered_key m (key_of s)).
Proof.
  intros [_ Hrep] Hs. destruct (Hrep (path s) (path_range s) (path_ne s Hs)) as [Hv Hx].
  rewrite key_path in Hv, Hx. by split.
Qed.

Lemma cache_step_map op c m :
  cache_rep c m → cop_ok op →
  match map_step op m with
  | Ok (out, m') => ∃ c', cache_step op c = Ok (out, c') ∧ cache_rep c' m'
  | Err f => cache_step op c = Err f
  end.
Proof.
  intros Hrep Hop. destruct op as [s v|s|s|s]; cbn [map_step cache_step].
  { destruct (cache_add_rep c m s v Hrep Hop) as (e & c' & -> & He & Hrep'). exists c'.
    rewrite bind_Ok. cbn [fst snd]. by rewrite He. }
  all: destruct Hop as (_ & Hne & _); cbn [cop_id] in Hne;
    destruct (down_safe_rep c m s Hrep Hne) as (ch & o & Hb & Hl & Ho & Hle & Hw);
    destruct (rep_path c m s Hrep Hne) as [Hv Hx].
  - exists c. split; [|done]. unfold cache_get_exists.
    rewrite Hb, bind_Ok, Hl, bind_Ok, down_safe_walk, Hw, !bind_Ok by done. by rewrite <-Hv.
  - unfold cache_get, cache_get_node. rewrite Hb, bind_Ok, Hl, bind_Ok, down_walk, Hw by done.
    destruct (walk (root c) (path s)) as [n|] eqn:E.
    + rewrite decide_True by (by apply Hx; eexists). exists c. split; [|done].
      rewrite bind_Ok. by rewrite <-Hv.
    + rewrite decide_False; [done|]. intros [? ?]%Hx. done.
  - exists c. split; [|done]. unfold cache_exists.
    rewrite Hb, bind_Ok, Hl, bind_Ok, down_safe_walk, Hw, !bind_Ok by done.
    destruct (walk (root c) (path s)) as [n|] eqn:E.
    + by rewrite decide_True by (by apply Hx; eexists).
    + rewrite decide_False; [done|]. intros [? ?]%Hx. done.
Qed.

Lemma cache_run_map ops c m :
  cache_rep c m → Forall cop_ok ops → cache_run ops c = map_run ops m.
Proof.
  intros Hrep Hops. revert c m Hrep. induction Hops as [|op ops Hop _ IH]; intros c m Hrep; [done|].
  cbn [cache_run map_run]. pose proof (cache_step_map op c m Hrep Hop) as H.
  destruct (map_step op m) as [[out m']|f]; [|by rewrite H].
  destruct H as (c' & -> & Hrep'). rewrite !bind_Ok. cbn [fst snd]. by rewrite (IH c' m').
Qed.

Lemma key_of_ascii s t :
  Forall (λ d, bval d < 128) s → Forall (λ d, bval d < 128) t → key_of s = key_of t → s = t.
Proof.
  intros Hs. revert t. induction Hs as [|d s Hd _ IH]; intros [|e t] Ht; try done.
  intros [= E Est]. apply Forall_cons in Ht as [He Ht]. f_equal; [|by apply IH].
  assert (∀ x, bval x < 128 → asc x = bval x) as Hasc.
  { intros x Hx. pose proof (bval_range x). unfold asc, sval.
    rewrite (decide_True (P := bval x < 128)) by done. by rewrite Z.mod_small, decide_True by lia. }
  rewrite !Hasc in E by done. by apply bval_inj.
Qed.
End rep.

(** C28: The cache is a finite map.  Any sequence of [cache_add],
    [cache_get_exists], [cache_get] and [cache_exists] on identifiers that are
    not empty gives, on a fresh cache, the results of the same operations on a
    finite map: a lookup returns the last value added for the identifier and
    NULL for others; [cache_add] returns the node of the entry; an identifier exists when it is the end of an added one;
    [cache_get] faults exactly on those that do not exist.  Identifiers are
    told apart by their bytes below 128. *)
Theorem cache_refines_map {V} (ops : list (cop V)) :
  Forall cop_ok ops →
  cache_run ops cache_init = map_run ops ∅ ∧
  ∀ s t, Forall (λ c, bval c < 128) s → Forall (λ c, bval c < 128) t → key_of s = key_of t → s = t.
Proof.
  intros Hops. split; [by apply (cache_run_map ops _ _ cache_init_rep) | apply key_of_ascii].
Qed.

Definition ex_cops : list (cop Z) := [
  CAdd (lit "amail.io") (Some 1); CAdd (lit "gmail.io") (Some 2);
  CGet (lit "amail.io"); CFetch (lit "gmail.io"); CGet (lit "mail.io"); CExists (lit "mail.io");
  CExists (lit "amail"); CAdd (lit "gmail.io") (Some 3); CGet (lit "gmail.io")].

Lemma cache_refines_map_witness :
  Forall cop_ok ex_cops ∧
  map_run ex_cops ∅ = Ok [CValue (Some 1); CValue (Some 2); CValue (Some 1); CValue (Some 2); CValue None;
    CFlag 0; CFlag 1; CValue (Some 3); CValue (Some 3)] ∧
  cache_run (ex_cops ++ [CFetch (lit "amail")]) cache_init = Err NullDeref.
Proof.
  assert (Forall cop_ok ex_cops) as H by (unfold cop_ok; by_compute). split; [exact H|].
  rewrite <-(proj1 (cache_refines_map ex_cops H)). split; vm_compute; reflexivity.
Defined.
